(* ===== verification/_CoqProject ===== *)
-Q . S2P
Prelude.v
Vendor.v
Runtime.v
Dto.v
OffsetTracker.v
PyText.v
MetadataEncoder.v
WorkQueueTopology.v
PoisonMessage.v
ExecutionEngine.v
WorkManager.v
WorkManagerInv.v
WorkManagerOps.v
WorkManagerSchedule.v
WorkManagerSteps.v
WorkManagerSystem.v
WorkManagerDiagnostics.v
WorkManagerTrackers.v
WorkManagerLoad.v
Adaptive.v
MetricsDto.v
Prometheus.v
MetricsExporter.v
MetricsScrape.v
KafkaOptions.v
BrokerOptions.v
EngineFactory.v
Dlq.v
CommitPlanner.v
Broker.v
BrokerInv.v
BrokerCompletion.v
BrokerCommit.v
CommitCoordinator.v
CommitCoordinatorInv.v
CoordinatorMetrics.v
BrokerDispatch.v
BrokerRebalance.v
BrokerSafety.v
BrokerHandover.v
BrokerSystem.v
BrokerLoad.v
BrokerLoop.v
BrokerLoopLoad.v
BrokerTurn.v
BrokerShutdown.v
BrokerMetrics.v
BrokerDiagnostics.v
ConsumerFacade.v
ConsumerPublish.v
BrokerLifecycle.v
RebalanceBridge.v
AsyncEngine.v
ProcessBatching.v
ProcessCompletionBuffer.v
ProcessTransport.v
ProcessTransportInv.v
ProcessRegistry.v
ProcessWorker.v
ProcessEngine.v
ProcessEngineInv.v
ProcessEngineSystem.v
ProcessWait.v
ProcessDiagnostics.v
ProcessShutdown.v
ProcessCodec.v
BrokerCoordinator.v
CoordinatorDrain.v
