(* ===== verification/Prelude.v ===== *)
(** * Pyrallel Consumer: a verification library

    Pyrallel Consumer processes the messages of a Kafka consumer in parallel, keeps per-key or
    per-partition order, and commits to Kafka only what is done.  This library models its
    control plane and the parts of its execution plane that are logic rather than operating
    system, and proves what makes them correct.  Paths below are relative to
    [src/pyrallel_consumer/].

    ** The program and its parts

    The broker ([control_plane/broker_poller.py] and its [broker_*_support.py] helpers) consumes
    batches, groups them by key and hands them to the work manager ([work_manager.py]), which
    queues them ([work_queue_topology.py]) and schedules them onto an execution engine
    ([execution_plane/base.py]; asyncio tasks in [async_engine.py], worker processes in
    [process_engine.py]).  Completions come back through the work manager to the broker, which
    publishes terminal failures to a dead-letter topic ([broker_dlq_publisher.py]), marks
    offsets complete in per-partition trackers ([offset_tracker.py]) and commits the contiguous
    prefix, with the sparse rest as metadata ([metadata_encoder.py]), either directly or through
    a background coordinator ([commit_coordinator.py]).  Rebalances hand partitions over between
    assignments.  Trackers are shared objects: the broker and the work manager hold references to
    the same ones.  The facade ([consumer.py]) owns one broker and its engine, starts and stops
    them, and publishes their snapshots to a Prometheus exporter ([metrics_exporter.py]) which
    all the consumers of a process share.

    ** Files

    - [Prelude]: scopes, record update, insertion-ordered dictionaries ([odict], Python's [dict]),
      runs of a step relation ([steps]), shared tactics, hints and lemmas.
    - [Vendor], [Runtime]: third-party containers ([SortedSet], [LRUCache]) as type classes with
      their documented laws and a list instance; clocks, identifiers and set order as inputs.
    - [Dto]: the enumerations and data classes of [dto.py].
    - [OffsetTracker]: [offset_tracker.py].  [PyText] and [MetadataEncoder]: Python text and
      [metadata_encoder.py].  [CommitPlanner]: [BrokerCommitPlanner] and the assignment
      hydration of [broker_rebalance_support.py].
    - [WorkQueueTopology], [PoisonMessage], [ExecutionEngine]: [work_queue_topology.py],
      [poison_message.py], and the engine contract of [base.py] as the classes
      [ExecutionEngine] and [ExecutionEngineLaws].
    - [WorkManager] has the definitions of [work_manager.py]; [WorkManagerInv], [WorkManagerOps],
      [WorkManagerSchedule] and [WorkManagerSteps] prove its invariant operation by operation;
      [WorkManagerSystem] has its step relation and properties, [WorkManagerDiagnostics] its
      counters, [WorkManagerTrackers] how its tracker table follows the broker's, and
      [WorkManagerLoad] what each operation does to its load (what is queued or in flight).  All of
      it is proved against the engine contract.
    - [Adaptive]: the two adaptive controllers and the pause/resume decision.  [Dlq]: the raw
      message cache and the dead-letter publication.  [KafkaOptions] and [BrokerOptions]: the
      settings of [config.py] as librdkafka receives them and as [broker_poller_config.py]
      resolves them.  [EngineFactory]: the choice of the engine ([engine_factory.py]).
    - Metrics: [MetricsDto] has the metric and snapshot classes of [dto.py], [Prometheus] the
      client library as a type class with a table instance, [MetricsExporter] the exporter of
      [metrics_exporter.py], [MetricsScrape] what a scrape of it shows.  [CoordinatorMetrics]
      connects the coordinator to it ([commit_coordinator_metrics.py]).
    - [Broker] has the broker's state and handlers; [BrokerInv], [BrokerCompletion],
      [BrokerCommit], [BrokerDispatch] and [BrokerRebalance] prove what they do.
      [BrokerSafety] and [BrokerHandover] carry one invariant, that no offset counts as done
      before it was processed, through every handler, and [BrokerSystem] closes the circle over
      Kafka's offset store.  [RebalanceBridge] is the two-thread protocol that carries a Kafka
      callback to the event loop.
    - [BrokerLoop] has the consumer loop and the completion monitor as two tasks cut at their
      awaits, over the handlers and the limits of [Adaptive]; [BrokerLoad] and [BrokerLoopLoad]
      bound the load through every step of them, and [BrokerTurn] has whole turns as functions and
      a run computed with them.  [BrokerShutdown] has the drain of a graceful stop,
      [BrokerLifecycle] [start], [stop], [wait_closed] and the end of the consumer task.
    - [BrokerMetrics] and [BrokerDiagnostics]: the metrics, the runtime snapshot and the pipeline
      diagnostics that [broker_runtime_support.py] reads off a broker.
    - [CommitCoordinator], [CommitCoordinatorInv]: the background committer and its invariant;
      [BrokerCoordinator]: the broker's callbacks for it; [CoordinatorDrain]: its shutdown and the
      direct commits that the broker falls back to.
    - [ConsumerFacade] has [start] and [stop] of [consumer.py] and the table of shared exporters;
      [ConsumerPublish] the publication of a broker's snapshots.
    - [AsyncEngine]: [async_engine.py], with the proof that it keeps the engine contract.
    - The process engine: [ProcessBatching] and [ProcessCompletionBuffer] are its two buffers,
      [ProcessCodec] is its wire format ([process_codec.py]), [ProcessTransport] the identities of
      work and the worker pipes ([process_transport.py], [process_transport_worker_pipes.py]),
      [ProcessRegistry] the in-flight registry ([process_registry_support.py]), [ProcessWorker]
      what a worker process does with a message ([process_worker_runtime.py]) and
      [ProcessEngine] the parent ([process_engine.py], [process_worker_supervisor.py]) with its
      worker processes as a step relation.  [ProcessTransportInv] and [ProcessEngineInv] have the
      invariants, [ProcessEngineSystem] a run with a dying worker, [ProcessWait] the wait for a
      completion with its threads, [ProcessDiagnostics] the runtime metrics, [ProcessShutdown] the
      shutdown of the parent ([process_shutdown_support.py]).

    A state is a record with one field per attribute of the Python class, a method is a function
    on it with the same name (leading underscores dropped), an early return is a branch, an
    exception is a value of an option or sum, and values that come from outside (clock readings,
    replies of Kafka, the user's worker function, the order in which tasks end) are arguments.

    ** What the theorems show

    - At-least-once delivery, end to end: [BrokerSystem.kafka_never_ahead], for the broker that
      commits directly, over every run of consumed batches, scheduling, completions, commits with
      the other tasks in their middle, and rebalances.  A commit may reach Kafka at any later
      time, twice, out of order or never, whatever Kafka answered; other clients may move a
      partition's offset; a rebalance callback brings positions and no metadata of its own.
    - The tasks of the broker: [BrokerLoopLoad.load_stays_bounded], backpressure keeps the load
      within the limit plus one batch in every interleaving, provided no assignment finds the
      broker paused or overloaded (the ghost flag [po_strayed]; [assignment_escapes_pause] is what
      happens then); [BrokerLoop.loops_refine_system], the two tasks take no step that the system
      of [BrokerSystem] does not have, so its theorems hold of them.
    - Start and stop: [BrokerLifecycle.stop_returned_means_stopped] and [stop_ends], for every
      order of failures, time-outs and calls.
    - Drains: [BrokerShutdown.shutdown_drained] and [shutdown_drain_ends], what a graceful stop
      leaves behind when it says that it drained, and that it ends by its time-out;
      [CoordinatorDrain.shutdown_covers_candidates] for the coordinator's part of it;
      [ProcessShutdown.process_shutdown_accounts] the same for the process engine, whatever its
      workers do meanwhile.
    - Commit safety: [OffsetTracker.committed_offsets_were_completed] for one tracker in every
      run, [BrokerCommit.commit_cycle_safe] for what the broker sends to Kafka,
      [BrokerCoordinator.coordinator_commit_safe] for what the coordinator sends and settles,
      [BrokerCompletion.no_completion_lost] for how completions become settled offsets.
    - Order and accounting: [WorkManagerSystem.ordering_is_exclusive],
      [work_manager_accounting] and [schedule_dispatches_in_order], over every reachable state of
      the manager; [WorkQueueTopology.topology_refines_fifo_queues], the refinement of one FIFO
      list per key; [BrokerDispatch.dispatch_appends_in_order], from a consumed batch to the
      queues.
    - Rebalance: [BrokerRebalance.revoke_hands_over], and [RebalanceBridge.bridge_answer_truthful]
      for every interleaving of the two threads.
    - Commit coordinator: [CommitCoordinatorInv.coordinator_invariant] and
      [cancel_fences_leases], for every interleaving of the worker with the other methods.
    - Data: the exactness of the tracker's gap list, the round trip of the
      metadata, the round trips of the process engine's messages
      ([ProcessCodec.worker_pipe_roundtrip], [completion_roundtrip]).
    - Engines: [AsyncEngine.async_exactly_once];
      [ProcessEngineInv.process_no_work_lost] and [process_recovery_bounded], over every
      interleaving of the parent with worker processes that die anywhere;
      [ProcessWait.waiting_is_sound], that a wait which nobody cancels loses nothing and says what
      the next poll finds; [ProcessWorker.worker_message_accounts],
      [ProcessBatching.batching_preserves_work],
      [ProcessCompletionBuffer.completion_buffer_sound].
    - Limits and options: the adjustments of the adaptive controllers;
      [BrokerOptions.resolved_options_typed] and [KafkaOptions.rdkafka_options_agree].
    - Facade and metrics: [ConsumerFacade.exporters_shared_soundly], over every interleaving of
      the consumers of a process, and [start_all_or_nothing];
      [ConsumerPublish.published_snapshot_truthful], that a scrape after a publication shows the
      broker's own numbers; [MetricsExporter.poll_counters_delta_safe], that counters follow the
      totals they are fed through restarts; and, outside the list of properties,
      [MetricsScrape.exporter_series_bounded] and [CoordinatorMetrics.coordinator_metrics_exported],
      that the coordinator's counters reach the exporter unchanged.
    - Termination: scheduling ends from every reachable state, whatever the engine answers.

    Lemmas and theorems outside this list record behaviour a user may not expect; each says so
    in its comment ([force_fail_of_queued_item_leaks], [queue_limit_of_one_flaps],
    [no_retries_never_publishes], [flush_timeout_counts_as_published],
    [epoch_does_not_fence_reassignment], [retry_drops_newer_candidate],
    [settled_memory_survives_reassignment], [zero_retries_reports_success],
    [torn_queues_lose_work], [assignment_escapes_pause], [timeout_in_cleanup_hangs_stop],
    [failed_cleanup_never_closes], [wait_closed_before_cleanup],
    [shutdown_blocks_on_skipped_tail], [lost_batch_counts_as_drained],
    [shared_counter_overcounts], [cancelled_wait_loses_completion],
    [aborted_batch_missing_from_stats]).

    ** Bounds and fuel

    - The scheduling loop and the polling loop run on fuel computed from the state (the waiting
      items and runnable keys); [schedule_dispatches_in_order] and [poll_terminates] prove that it
      is never used up.  The scan for the first gap has one step of fuel per fetched but
      uncommitted offset ([gap_head_loop_spec]), decimal printing one per bit
      ([dec_digits_spec]).  Every other loop is structural.
    - Python integers are unbounded and so are the model's.  Floats that carry times are
      rationals; the one float computation whose rounding matters, [int(n * 0.7)], is done in
      binary64 ([Adaptive.seven_tenths]).  A gauge holds a rational and a poll-driven counter an
      integer.
    - A handler that does not leave the event loop runs to its end.  Where the code leaves it,
      the model has the interleaving: other tasks during a Kafka commit ([BrokerCommit]), the
      coordinator's worker cut at its awaits, the two threads of the bridge, the tasks of the
      async engine, the worker processes of the process engine, the sections between the awaits
      of several facades.  The work manager's awaits on the
      engine are treated as calls.
    - A worker process puts its events one by one and may die between any two puts; what it has
      not put by then is lost.  That its two queues lose a common suffix is an assumption
      ([torn_queues_lose_work] shows what happens without it).  A parent's requeue may wait for a
      queue slot; the payloads in hand are part of the state and the wait is a later step.  The
      text that the code appends to an error from the exception it caught is left out.

    ** Not modelled

    Logging and resource sampling (output only); reading settings from the environment and
    creating clients (the values they yield are parameters); the constructors of the facade and of
    the engines; the settings that snapshots copy without looking at them; the operation guard,
    whose locked sections are the steps of the models; the operating-system side of pipes,
    processes and signals, and worker recycling; the release tooling under [scripts/].  That the
    process engine keeps [ExecutionEngineLaws], whose operations are pure, is not stated: its
    operations are steps that worker processes interleave with, and [ProcessEngineInv] has their
    contract over runs. *)

From Stdlib Require Export QArith Lqa.
From stdpp Require Export base list gmap sets strings sorting.
From stdpp Require Export numbers list_numbers.

#[export] Set Default Goal Selector "!".
#[export] Set Warnings "-clear-no-such-hyp,-level-tolerance".

(** ** Scopes and small notations *)

Declare Scope py_scope.
Delimit Scope py_scope with py.

(** [a <q b], [a <=q b]: the float comparisons of the code on rational time stamps. *)
Definition Qltb (a b : Q) : bool := negb (Qle_bool b a).

Notation "a '<q' b" := (Qltb a b) (at level 70) : py_scope.
Notation "a '<=q' b" := (Qle_bool a b) (at level 70) : py_scope.

Open Scope py_scope.
Open Scope Z_scope.

(** [float(ms) / 1000.0] *)
Definition ms_to_seconds (ms : Z) : Q := (inject_Z ms / inject_Z 1000)%Q.

(** Python's [max(0.0, x)] *)
Definition Qmax0 (x : Q) : Q := if (0 <=q x) then x else 0%Q.

(** ** Record update

    [r <| f := v |>] is the record [r] with its field [f] replaced.  A record
    opts in with a [Settable] instance, its eta expansion. *)

Class Settable (R : Type) := eta_expand : R → R.

Class Setter {R T : Type} (proj : R → T) := set_field : (T → T) → R → R.
Arguments set_field {R T} proj {_} _ _.

Ltac derive_setter R proj :=
  let e := eval unfold eta_expand in (@eta_expand R _) in
  let e := (match e with
            | ?inst => let b := eval red in inst in b
            | ?inst => inst end) in
  lazymatch e with
  | context [proj] => idtac
  | _ => fail 1 "no field" proj "in" R
  end;
  match eval pattern proj in e with
  | ?ctx _ =>
      let s := eval cbv beta in (fun f : (_ → _) => ctx (fun r : R => f (proj r))) in
      exact s
  end.

#[export] Hint Extern 0 (@Setter ?R _ ?proj) => derive_setter R proj : typeclass_instances.

Notation "r <| f := v |>" := (set_field f (fun _ => v) r)
  (at level 1, left associativity, f at level 9, v at level 200,
   format "r  <| f  :=  v |>") : py_scope.
Notation "r <| f ::= g |>" := (set_field f g r)
  (at level 1, left associativity, f at level 9, g at level 200,
   format "r  <| f  ::=  g |>") : py_scope.

(** ** Insertion-ordered dictionaries

    Python's [dict] and [collections.OrderedDict]: iteration follows insertion
    order, assigning to a present key keeps its position. *)

Abbreviation odict K V := (list (K * V)) (only parsing).

Section odict_ops.
Context {K V : Type} `{EqDecision K}.
Implicit Types (d : odict K V) (k : K) (v : V).

(** [d.get(k)] *)
Fixpoint od_get k d : option V :=
  match d with
  | [] => None
  | (k', v) :: d' => if decide (k = k') then Some v else od_get k d'
  end.

(** [k in d] *)
Definition od_has k d : bool :=
  match od_get k d with Some _ => true | None => false end.

(** [d[k] = v] *)
Fixpoint od_set k v d : odict K V :=
  match d with
  | [] => [(k, v)]
  | (k', v') :: d' =>
      if decide (k = k') then (k', v) :: d' else (k', v') :: od_set k v d'
  end.

(** [d.pop(k, None)], the remaining dictionary *)
Definition od_pop k d : odict K V := filter (λ p, p.1 ≠ k) d.

(** [{k: v for k, v in d.items() if P(k)}] *)
Definition od_filter (P : K → Prop) `{∀ k, Decision (P k)} d : odict K V :=
  filter (λ p, P p.1) d.

(** [list(d)], [list(d.values())] *)
Definition od_keys d : list K := d.*1.
Definition od_values d : list V := d.*2.

(** [d.update(e)] *)
Definition od_update d (e : odict K V) : odict K V :=
  fold_left (λ acc p, od_set p.1 p.2 acc) e d.
End odict_ops.

(** [sum(f(v) for v in d.values())] *)
Definition od_sum {K V} (f : V → Z) (d : odict K V) : Z :=
  fold_right (λ p acc, f p.2 + acc) 0 d.

(** [{k: f(v) for k, v in d.items()}] *)
Definition od_map {K V W} (f : V → W) (d : odict K V) : odict K W :=
  (λ p, (p.1, f p.2)) <$> d.

(** ** Python integers and lists *)

(** [range(lo, hi)] *)
Definition py_range (lo hi : Z) : list Z := seqZ lo (hi - lo).

(** [list(islice(l, n))] and [l[:n]] for a non-negative [n] *)
Definition py_take {A} (n : Z) (l : list A) : list A := take (Z.to_nat n) l.
Definition py_drop {A} (n : Z) (l : list A) : list A := drop (Z.to_nat n) l.

(** [len(l)] *)
Definition zlen {A} (l : list A) : Z := Z.of_nat (length l).

(** [x is None or y < x], the running minimum of the code *)
Definition min_step (acc : option Z) (y : Z) : option Z :=
  match acc with
  | None => Some y
  | Some x => if y <? x then Some y else Some x
  end.

(** ** Runs of a labelled step relation *)

Inductive steps {S E} (R : S → E → S → Prop) : S → list E → S → Prop :=
  | steps_nil s : steps R s [] s
  | steps_cons s e s' es s'' : R s e s' → steps R s' es s'' → steps R s (e :: es) s''.

(** ** Automation *)

Create HintDb py discriminated.
Create Rewrite HintDb py.

(** Destruct every [bool] comparison and [decide] of the goal, keeping the arithmetic facts. *)
Ltac case_bool :=
  match goal with
  | |- context [if ?a <? ?b then _ else _] => destruct (Z.ltb_spec a b)
  | |- context [if ?a <=? ?b then _ else _] => destruct (Z.leb_spec a b)
  | |- context [if ?a =? ?b then _ else _] => destruct (Z.eqb_spec a b)
  | |- context [if decide ?P then _ else _] => destruct (decide P)
  | H : context [if ?a <? ?b then _ else _] |- _ => destruct (Z.ltb_spec a b)
  | H : context [if ?a <=? ?b then _ else _] |- _ => destruct (Z.leb_spec a b)
  | H : context [if ?a =? ?b then _ else _] |- _ => destruct (Z.eqb_spec a b)
  | H : context [if decide ?P then _ else _] |- _ => destruct (decide P)
  end.

Ltac case_bools := repeat (case_bool; simplify_eq/=).

(** Case analysis on the scrutinee of the outermost [match] of the goal, with its equation. *)
Ltac case_goal :=
  match goal with
  | |- context [match ?x with _ => _ end] => destruct x eqn:?
  end.

(** ** Lemmas on ordered dictionaries *)

Section odict_lemmas.
Context {K V : Type} `{EqDecision K}.
Implicit Types (d : odict K V) (k : K) (v : V).

Lemma od_get_set d k k' v :
  od_get k' (od_set k v d) = if decide (k = k') then Some v else od_get k' d.
Proof.
  induction d as [|[k1 v1] d IH]; simpl; [by repeat case_decide; simplify_eq|].
  repeat (case_decide; simplify_eq/=); congruence.
Qed.

Lemma od_get_set_eq d k v : od_get k (od_set k v d) = Some v.
Proof. rewrite od_get_set. by case_decide. Qed.

Lemma od_get_set_ne d k k' v : k ≠ k' → od_get k' (od_set k v d) = od_get k' d.
Proof. intros ?. rewrite od_get_set. by case_decide. Qed.

Lemma od_get_pop d k k' :
  od_get k' (od_pop k d) = if decide (k = k') then None else od_get k' d.
Proof.
  unfold od_pop. induction d as [|[k1 v1] d IH]; [by case_decide|].
  rewrite filter_cons; simpl.
  repeat (case_decide; simplify_eq/=); congruence.
Qed.

Lemma od_get_pop_eq d k : od_get k (od_pop k d) = None.
Proof. rewrite od_get_pop. by case_decide. Qed.

Lemma od_get_pop_ne d k k' : k ≠ k' → od_get k' (od_pop k d) = od_get k' d.
Proof. intros ?. rewrite od_get_pop. by case_decide. Qed.

Lemma od_get_filter (P : K → Prop) `{∀ k, Decision (P k)} d k :
  od_get k (od_filter P d) = if decide (P k) then od_get k d else None.
Proof.
  unfold od_filter. induction d as [|[k1 v1] d IH]; [by case_decide|].
  rewrite filter_cons; simpl.
  repeat (case_decide; simplify_eq/=); congruence.
Qed.

Lemma od_keys_filter (P : K → Prop) `{∀ k, Decision (P k)} d :
  od_keys (od_filter P d) = filter P (od_keys d).
Proof.
  unfold od_keys, od_filter. induction d as [|[k1 v1] d IH]; [done|].
  rewrite filter_cons, fmap_cons, filter_cons; simpl. rewrite <-IH.
  by repeat case_decide.
Qed.

Lemma od_has_spec d k : od_has k d = true ↔ is_Some (od_get k d).
Proof. unfold od_has. destruct (od_get k d); naive_solver. Qed.

Lemma od_get_elem d k v : od_get k d = Some v → (k, v) ∈ d.
Proof.
  induction d as [|[k1 v1] d IH]; simpl; [done|].
  case_decide; intros; simplify_eq; set_solver.
Qed.

Lemma elem_of_od_keys d k : k ∈ od_keys d ↔ is_Some (od_get k d).
Proof.
  unfold od_keys. split.
  - induction d as [|[k1 v1] d IH]; simpl; [set_solver|].
    intros [->|?]%elem_of_cons; case_decide; simplify_eq; eauto.
  - intros [v ?%od_get_elem]. apply list_elem_of_fmap. by exists (k, v).
Qed.

Lemma od_get_None d k : od_get k d = None ↔ k ∉ od_keys d.
Proof. rewrite elem_of_od_keys, <-eq_None_not_Some. done. Qed.

Lemma od_elem_get d k v : NoDup (od_keys d) → (k, v) ∈ d → od_get k d = Some v.
Proof.
  unfold od_keys. induction d as [|[k1 v1] d IH]; simpl; [set_solver|].
  rewrite NoDup_cons. intros [Hk Hd] [?|?]%elem_of_cons; simplify_eq.
  - by case_decide.
  - case_decide; subst; [|by apply IH].
    destruct Hk. apply list_elem_of_fmap. by exists (k1, v).
Qed.

Lemma od_keys_set d k v :
  od_keys (od_set k v d) = if od_has k d then od_keys d else od_keys d ++ [k].
Proof.
  unfold od_keys, od_has. induction d as [|[k1 v1] d IH]; simpl; [done|].
  case_decide; subst; [done|]. rewrite fmap_cons, IH; simpl. by destruct (od_get k d).
Qed.

Lemma od_keys_pop d k : od_keys (od_pop k d) = filter (λ k', k' ≠ k) (od_keys d).
Proof.
  unfold od_keys, od_pop. induction d as [|[k1 v1] d IH]; [done|].
  rewrite filter_cons, fmap_cons, filter_cons; simpl. rewrite <-IH.
  by repeat case_decide.
Qed.

Lemma od_set_fresh d k v : od_get k d = None → od_set k v d = d ++ [(k, v)].
Proof.
  induction d as [|[k' v'] d IH]; simpl; [done|]. case_decide; [done|]. intros. by rewrite IH.
Qed.

Lemma od_has_set d k k' v : od_has k' (od_set k v d) = bool_decide (k = k') || od_has k' d.
Proof. unfold od_has. rewrite od_get_set. case_decide; by case_bool_decide. Qed.

Lemma od_has_pop d k k' : od_has k' (od_pop k d) = negb (bool_decide (k = k')) && od_has k' d.
Proof. unfold od_has. rewrite od_get_pop. case_decide; by case_bool_decide. Qed.

Lemma NoDup_od_set d k v : NoDup (od_keys d) → NoDup (od_keys (od_set k v d)).
Proof.
  intros Hd. rewrite od_keys_set. destruct (od_has k d) eqn:E; [done|].
  apply NoDup_app. split; [done|]. split; [|apply NoDup_singleton].
  intros x Hx ->%list_elem_of_singleton. apply elem_of_od_keys, od_has_spec in Hx.
  congruence.
Qed.

Lemma NoDup_od_pop d k : NoDup (od_keys d) → NoDup (od_keys (od_pop k d)).
Proof. intros. rewrite od_keys_pop. by apply NoDup_filter. Qed.

Lemma od_pop_absent d k : od_get k d = None → od_pop k d = d.
Proof.
  unfold od_pop. induction d as [|[k1 v1] d IH]; [done|].
  rewrite filter_cons; simpl.
  repeat (case_decide; simplify_eq/=); intros; simplify_eq. by rewrite IH.
Qed.

Lemma elem_of_od_pop d k p : p ∈ od_pop k d ↔ p.1 ≠ k ∧ p ∈ d.
Proof. unfold od_pop. by rewrite list_elem_of_filter. Qed.

Lemma od_sum_pop (f : V → Z) d k :
  NoDup (od_keys d) →
  od_sum f (od_pop k d) = od_sum f d - default 0 (f <$> od_get k d).
Proof.
  unfold od_keys. induction d as [|[k1 v1] d IH]; [done|].
  rewrite fmap_cons, NoDup_cons. intros [Hk Hd]. unfold od_pop in *.
  rewrite filter_cons; simpl. case_decide; simpl; case_decide; simplify_eq/=.
  - rewrite IH by done. lia.
  - change (filter _ d) with (od_pop k1 d). rewrite od_pop_absent; [lia|].
    by apply od_get_None.
Qed.

Lemma od_sum_set (f : V → Z) d k v :
  od_sum f (od_set k v d) = od_sum f d - default 0 (f <$> od_get k d) + f v.
Proof.
  induction d as [|[k1 v1] d IH]; simpl; [lia|].
  case_decide; simplify_eq/=; lia.
Qed.

Lemma od_get_update d (e : odict K V) k :
  NoDup (od_keys e) →
  od_get k (od_update d e) = match od_get k e with Some v => Some v | None => od_get k d end.
Proof.
  unfold od_update, od_keys. revert d. induction e as [|[k1 v1] e IH]; intros d; [done|].
  rewrite fmap_cons, NoDup_cons. intros [Hk He]. cbn [fold_left fst snd].
  rewrite IH, od_get_set by done. simpl.
  destruct (decide (k = k1)) as [->|]; simpl.
  - apply od_get_None in Hk. simpl in Hk. rewrite Hk. by case_decide.
  - destruct (od_get k e); [done|]. case_decide; congruence.
Qed.
End odict_lemmas.

#[export] Hint Rewrite @od_get_set_eq @od_get_pop_eq : py.
#[export] Hint Rewrite @od_get_set_ne @od_get_pop_ne using done : py.
#[export] Hint Resolve NoDup_od_set NoDup_od_pop : py.

(** ** Lemmas on integers, lists and clocks *)

Lemma elem_of_py_range x lo hi : x ∈ py_range lo hi ↔ lo ≤ x < hi.
Proof. unfold py_range. rewrite elem_of_seqZ. lia. Qed.

Lemma zlen_app {A} (l k : list A) : zlen (l ++ k) = zlen l + zlen k.
Proof. unfold zlen. rewrite length_app. lia. Qed.

Lemma zlen_cons {A} (x : A) l : zlen (x :: l) = 1 + zlen l.
Proof. unfold zlen. simpl. lia. Qed.

Lemma zlen_nil_0 {A} : zlen (@nil A) = 0.
Proof. done. Qed.

Lemma zlen_nonneg {A} (l : list A) : 0 ≤ zlen l.
Proof. unfold zlen. lia. Qed.

Lemma zlen_nil_iff {A} (l : list A) : zlen l = 0 ↔ l = [].
Proof. unfold zlen. destruct l; simpl; split; intros; try done; lia. Qed.

#[export] Hint Resolve zlen_nonneg : py.

Lemma Qltb_lt a b : (a <q b) = true ↔ (a < b)%Q.
Proof.
  unfold Qltb. rewrite negb_true_iff. split.
  - intros H. apply Qnot_le_lt. intros H'%Qle_bool_iff. congruence.
  - intros H. apply not_true_iff_false. rewrite Qle_bool_iff. lra.
Qed.

Lemma Qltb_ge a b : (a <q b) = false ↔ (b <= a)%Q.
Proof. unfold Qltb. rewrite negb_false_iff. apply Qle_bool_iff. Qed.

Lemma Qmax0_nonneg x : (0 <= Qmax0 x)%Q.
Proof. unfold Qmax0. destruct (0 <=q x) eqn:H; [by apply Qle_bool_iff|apply Qle_refl]. Qed.

(** A property that every iteration preserves holds after the loop. *)
Lemma fold_left_inv {A S} (P : S → Prop) (f : S → A → S) l s :
  (∀ s x, P s → P (f s x)) → P s → P (fold_left f l s).
Proof. intros Hf. revert s. induction l; cbn; eauto. Qed.

Lemma steps_app {S E} (R : S → E → S → Prop) s1 s2 s3 l1 l2 :
  steps R s1 l1 s2 → steps R s2 l2 s3 → steps R s1 (l1 ++ l2) s3.
Proof. induction 1; [done|]. intros H3. econstructor; eauto. Qed.

(** A property that every step preserves holds at the end of every run. *)
Lemma steps_invariant {S E} (R : S → E → S → Prop) (P : S → Prop) s es s' :
  (∀ s e s', P s → R s e s' → P s') → P s → steps R s es s' → P s'.
Proof. intros HP Hs. induction 1; eauto. Qed.

(** Two strictly increasing lists with the same elements are equal. *)
Lemma sorted_lt_ext (l k : list Z) :
  StronglySorted Z.lt l → StronglySorted Z.lt k → (∀ x, x ∈ l ↔ x ∈ k) → l = k.
Proof.
  intros Hl. revert k. induction Hl as [|x l Hl IH Hx]; intros k Hk Heq.
  - destruct k as [|y k]; [done|]. specialize (Heq y). set_solver.
  - destruct Hk as [|y k Hk Hy]; [specialize (Heq x); set_solver|].
    rewrite Forall_forall in Hx, Hy.
    assert (x = y) as ->.
    { assert (x ∈ y :: k) as [|Hxk]%elem_of_cons by (apply Heq, elem_of_cons; auto); [done|].
      assert (y ∈ x :: l) as [|Hyl]%elem_of_cons by (apply Heq, elem_of_cons; auto); [done|].
      specialize (Hx _ Hyl); specialize (Hy _ Hxk). lia. }
    f_equal. apply IH; [done|]. intros z. specialize (Heq z).
    rewrite !elem_of_cons in Heq.
    split; intros Hz.
    + specialize (Hx _ Hz). destruct (proj1 Heq); [auto|lia|done].
    + specialize (Hy _ Hz). destruct (proj2 Heq); [auto|lia|done].
Qed.

(** Filtering keeps a strictly increasing list strictly increasing. *)
Lemma sorted_lt_filter (P : Z → Prop) `{∀ x, Decision (P x)} (l : list Z) :
  StronglySorted Z.lt l → StronglySorted Z.lt (filter P l).
Proof.
  induction 1 as [|x l Hl IH Hx]; [constructor|].
  rewrite filter_cons. case_decide; [|done]. constructor; [done|].
  rewrite Forall_forall in *. intros y [_ Hy]%list_elem_of_filter. auto.
Qed.

Lemma sorted_lt_NoDup (l : list Z) : StronglySorted Z.lt l → NoDup l.
Proof.
  induction 1 as [|x l Hl IH Hx]; [constructor|].
  apply NoDup_cons. split; [|done]. intros Hin. rewrite Forall_forall in Hx.
  specialize (Hx _ Hin). lia.
Qed.

(** A filter that every element passes *)
Lemma list_filter_all {A} (P : A → Prop) `{∀ x, Decision (P x)} (l : list A) :
  (∀ x, x ∈ l → P x) → filter P l = l.
Proof.
  induction l as [|x l IH]; intros Hl; [done|]. rewrite filter_cons_True by (apply Hl; left).
  f_equal. apply IH. intros y Hy. apply Hl. by right.
Qed.
