(* ===== verification/Vendor.v ===== *)
(** * Third-party containers used by the control plane

    [pyrallel_consumer] keeps completed offsets in a [sortedcontainers.SortedSet]
    and caches gap lists in a [cachetools.LRUCache].  Neither package is part of
    the repository, so both enter the development as type classes: a carrier, the
    operations the code calls, and the documented behaviour of each.  Every
    definition and theorem about trackers is stated for an arbitrary instance;
    [vendor_lists] at the end is a concrete one. *)

From S2P Require Import Prelude.

(** ** [sortedcontainers.SortedSet] of integers *)

(** [lo <= x <= hi] with absent bounds open, the range test of [irange] *)
Definition in_irange (lo hi : option Z) (x : Z) : Prop :=
  match lo with Some l => l ≤ x | None => True end ∧
  match hi with Some h => x ≤ h | None => True end.

#[export] Instance in_irange_dec lo hi x : Decision (in_irange lo hi x).
Proof. unfold in_irange. destruct lo, hi; apply _. Defined.

Class SortedSetLib := {
  sorted_set : Type;
  (** [SortedSet(iterable)] *)
  ss_of_set : gset Z → sorted_set;
  (** [for x in s] *)
  ss_list : sorted_set → list Z;
  (** [x in s] *)
  ss_contains : Z → sorted_set → bool;
  (** [s.add(x)]; [s.remove(x)], left open when [x] is not a member *)
  ss_add : Z → sorted_set → sorted_set;
  ss_remove : Z → sorted_set → sorted_set;
  (** [s.irange(minimum, maximum)] *)
  ss_irange : option Z → option Z → sorted_set → list Z;
  (** [s.symmetric_difference(other)] *)
  ss_symmetric_difference : sorted_set → gset Z → sorted_set;

  ss_list_sorted s : StronglySorted Z.lt (ss_list s);
  ss_of_set_spec X x : x ∈ ss_list (ss_of_set X) ↔ x ∈ X;
  ss_contains_spec x s : ss_contains x s = true ↔ x ∈ ss_list s;
  ss_add_spec x y s : y ∈ ss_list (ss_add x s) ↔ y = x ∨ y ∈ ss_list s;
  ss_remove_spec x y s :
    x ∈ ss_list s → y ∈ ss_list (ss_remove x s) ↔ y ≠ x ∧ y ∈ ss_list s;
  ss_irange_spec lo hi s : ss_irange lo hi s = filter (in_irange lo hi) (ss_list s);
  ss_symmetric_difference_spec s X x :
    x ∈ ss_list (ss_symmetric_difference s X) ↔
      (x ∈ ss_list s ∧ x ∉ X) ∨ (x ∉ ss_list s ∧ x ∈ X);
}.

(** ** [cachetools.LRUCache] *)

Class LruCacheLib (K V : Type) := {
  lru_cache : Type;
  (** [LRUCache(maxsize=n)], [c.maxsize] *)
  lru_new : Z → lru_cache;
  lru_maxsize : lru_cache → Z;
  (** [c.clear()], [c.get(k)], [c[k] = v] *)
  lru_clear : lru_cache → lru_cache;
  lru_get : K → lru_cache → option V;
  lru_put : K → V → lru_cache → lru_cache;

  lru_maxsize_new n : lru_maxsize (lru_new n) = n;
  lru_maxsize_clear c : lru_maxsize (lru_clear c) = lru_maxsize c;
  lru_maxsize_put k v c : lru_maxsize (lru_put k v c) = lru_maxsize c;
  lru_get_new k n : lru_get k (lru_new n) = None;
  lru_get_clear k c : lru_get k (lru_clear c) = None;
  lru_get_put_eq k v c : 1 ≤ lru_maxsize c → lru_get k (lru_put k v c) = Some v;
  lru_get_put_ne k k' v c :
    k ≠ k' → lru_get k' (lru_put k v (lru_clear c)) = None;
}.

(** ** Derived facts *)

Section sorted_set_facts.
Context `{SL : SortedSetLib}.
Implicit Types s : sorted_set.

(** The finite set a sorted set represents. *)
Definition ss_set s : gset Z := list_to_set (ss_list s).

Lemma elem_of_ss_set x s : x ∈ ss_set s ↔ x ∈ ss_list s.
Proof. unfold ss_set. set_solver. Qed.

Lemma ss_set_of_set X : ss_set (ss_of_set X) = X.
Proof. apply set_eq. intros x. by rewrite elem_of_ss_set, ss_of_set_spec. Qed.

Lemma ss_set_add x s : ss_set (ss_add x s) = {[x]} ∪ ss_set s.
Proof.
  apply set_eq. intros y.
  rewrite elem_of_union, elem_of_singleton, !elem_of_ss_set. apply ss_add_spec.
Qed.

Lemma ss_list_NoDup s : NoDup (ss_list s).
Proof. apply sorted_lt_NoDup, ss_list_sorted. Qed.

Lemma ss_add_present x s : x ∈ ss_list s → ss_list (ss_add x s) = ss_list s.
Proof.
  intros Hx. apply sorted_lt_ext; [apply ss_list_sorted..|].
  intros y. rewrite ss_add_spec. naive_solver.
Qed.

Lemma ss_add_length x s :
  length (ss_list (ss_add x s)) =
    if decide (x ∈ ss_list s) then length (ss_list s) else S (length (ss_list s)).
Proof.
  case_decide as Hx; [by rewrite ss_add_present|].
  change (S (length (ss_list s))) with (length (x :: ss_list s)).
  apply Permutation_length, NoDup_Permutation.
  - apply ss_list_NoDup.
  - apply NoDup_cons. split; [done|apply ss_list_NoDup].
  - intros y. rewrite ss_add_spec, elem_of_cons. done.
Qed.

(** Removing, one by one, elements that are present leaves the others. *)
Lemma ss_remove_all xs s y :
  NoDup xs → (∀ x, x ∈ xs → x ∈ ss_list s) →
  y ∈ ss_list (fold_left (λ acc x, ss_remove x acc) xs s) ↔ y ∉ xs ∧ y ∈ ss_list s.
Proof.
  revert s. induction xs as [|x xs IH]; intros s Hnd Hin; cbn [fold_left]; [set_solver|].
  apply NoDup_cons in Hnd as [Hx Hnd].
  assert (x ∈ ss_list s) by (apply Hin; set_solver).
  rewrite IH; [rewrite ss_remove_spec by done; set_solver|done|].
  intros z Hz. apply ss_remove_spec; [done|]. set_solver.
Qed.
End sorted_set_facts.

(** ** A concrete instance: increasing lists and a one-slot cache *)

Section list_instance.
(** Strictly increasing insertion *)
Fixpoint insert_sorted (x : Z) (l : list Z) : list Z :=
  match l with
  | [] => [x]
  | y :: l' =>
      if x <? y then x :: y :: l' else if x =? y then y :: l' else y :: insert_sorted x l'
  end.

Definition sort_list (l : list Z) : list Z := fold_right insert_sorted [] l.

Lemma elem_of_insert_sorted x y l : y ∈ insert_sorted x l ↔ y = x ∨ y ∈ l.
Proof. induction l; simpl; case_bools; set_solver. Qed.

Lemma insert_sorted_sorted x l : StronglySorted Z.lt l → StronglySorted Z.lt (insert_sorted x l).
Proof.
  induction 1 as [|y l Hl IH Hy]; simpl; [repeat constructor|].
  case_bools.
  - constructor; [by constructor|]. constructor; [done|].
    eapply Forall_impl; [done|]. intros z; simpl; lia.
  - by constructor.
  - constructor; [done|]. apply Forall_forall. rewrite Forall_forall in Hy.
    intros z [->|Hz]%elem_of_insert_sorted; [lia|auto].
Qed.

Lemma elem_of_sort_list x l : x ∈ sort_list l ↔ x ∈ l.
Proof.
  unfold sort_list. induction l; simpl; [done|].
  rewrite elem_of_insert_sorted, elem_of_cons. naive_solver.
Qed.

Lemma sort_list_sorted l : StronglySorted Z.lt (sort_list l).
Proof. unfold sort_list. induction l; simpl; [constructor|by apply insert_sorted_sorted]. Qed.

(** The carrier: lists with a proof of order. *)
Definition sorted_list := { l : list Z | StronglySorted Z.lt l }.
Definition to_sorted (l : list Z) : sorted_list := sort_list l ↾ sort_list_sorted l.
End list_instance.

Definition list_sorted_set_lib : SortedSetLib.
Proof.
  refine {| sorted_set := sorted_list;
            ss_of_set X := to_sorted (elements X);
            ss_list := proj1_sig;
            ss_contains x s := bool_decide (x ∈ `s);
            ss_add x s := to_sorted (x :: `s);
            ss_remove x s := to_sorted (filter (λ y, y ≠ x) (`s));
            ss_irange lo hi s := filter (in_irange lo hi) (`s);
            ss_symmetric_difference s X :=
              to_sorted (filter (λ y, y ∉ X) (`s) ++ filter (λ y, y ∉ `s) (elements X)) |}.
  all: intros; cbn [proj1_sig to_sorted];
    rewrite ?bool_decide_eq_true, ?elem_of_sort_list, ?elem_of_app, ?elem_of_cons,
      ?list_elem_of_filter, ?elem_of_elements; try done; try tauto.
  by apply (proj2_sig s).
Defined.

Definition slot_lru_lib (K V : Type) `{EqDecision K} : LruCacheLib K V.
Proof.
  refine {| lru_cache := Z * option (K * V);
            lru_new n := (n, None);
            lru_maxsize := fst;
            lru_clear c := (c.1, None);
            lru_get k c := match c.2 with
                           | Some (k', v) => if decide (k = k') then Some v else None
                           | None => None end;
            lru_put k v c := (c.1, Some (k, v)) |}.
  all: intros; simpl; repeat case_decide; try done; congruence.
Defined.
