(* ===== verification/Runtime.v ===== *)
(** * What the program takes from its runtime

    Clock readings, random identifiers and the iteration order of sets are inputs of
    the models: the [n]-th reading of a clock or of [uuid.uuid4] is the value of an
    arbitrary function at [n], and a set may be iterated in any order. *)

From stdpp Require Import pretty.
From S2P Require Import Prelude.

Class Runtime := {
  perf_counter : nat → Q;            (* time.perf_counter() *)
  monotonic : nat → Q;               (* time.monotonic() *)
  wall_clock : nat → Q;              (* time.time() *)
  uuid4 : nat → string;              (* str(uuid.uuid4()) *)
  uuid4_inj : Inj (=) (=) uuid4;     (* identifiers do not repeat *)
  set_order {A} : list A → list A;   (* iteration over a set of these elements *)
  set_order_perm {A} (l : list A) : set_order l ≡ₚ l;
}.
#[export] Existing Instance uuid4_inj.

(** A concrete runtime: one second passes per reading, identifiers are numbered. *)
#[export] Instance demo_runtime : Runtime.
Proof.
  refine {| perf_counter n := inject_Z (Z.of_nat n); monotonic n := inject_Z (Z.of_nat n);
            wall_clock n := inject_Z (Z.of_nat n); uuid4 n := pretty (N.of_nat n);
            set_order A l := l; set_order_perm A l := reflexivity l |}.
Defined.

(** [collections.deque(maxlen=n).append(x)] *)
Definition deque_append {A} (maxlen : nat) (x : A) (l : list A) : list A :=
  drop (length (l ++ [x]) - maxlen) (l ++ [x]).

Lemma deque_append_length {A} maxlen (x : A) l :
  (length (deque_append maxlen x l) ≤ maxlen)%nat.
Proof. unfold deque_append. rewrite length_drop. lia. Qed.
