(* ===== verification/Dto.v ===== *)
(** * Data transfer objects ([pyrallel_consumer/dto.py])

    The enumerations and frozen data classes that the control plane and the
    execution plane exchange, with the decidable equality that the Python classes
    get from [@dataclass(frozen=True)]. *)

From S2P Require Import Prelude.

(** ** Enumerations *)

Inductive CompletionStatus := SUCCESS | FAILURE.

Inductive OrderingMode := KEY_HASH | PARTITION | UNORDERED.

#[export] Instance CompletionStatus_eq_dec : EqDecision CompletionStatus.
Proof. solve_decision. Defined.
#[export] Instance OrderingMode_eq_dec : EqDecision OrderingMode.
Proof. solve_decision. Defined.

(** ** Dynamically typed values

    Record keys and payloads are [Any] in the source.  These are the shapes the
    code distinguishes: [None], byte strings, text (a list of code points),
    memory views (of which only the length is read) and integers (the partition
    number, used as the queue key in partition ordering). *)

Inductive PyValue :=
  | PyNone
  | PyBytes (bytes : list Z)
  | PyStr (code_points : list Z)
  | PyMemoryview (len : Z)
  | PyInt (n : Z).

#[export] Instance PyValue_eq_dec : EqDecision PyValue.
Proof. solve_decision. Defined.

Definition PyValue_encode (v : PyValue) : (unit + list Z) + (list Z + (Z + Z)) :=
  match v with
  | PyNone => inl (inl ())
  | PyBytes b => inl (inr b)
  | PyStr s => inr (inl s)
  | PyMemoryview n => inr (inr (inl n))
  | PyInt n => inr (inr (inr n))
  end.

Definition PyValue_decode (c : (unit + list Z) + (list Z + (Z + Z))) : PyValue :=
  match c with
  | inl (inl ()) => PyNone
  | inl (inr b) => PyBytes b
  | inr (inl s) => PyStr s
  | inr (inr (inl n)) => PyMemoryview n
  | inr (inr (inr n)) => PyInt n
  end.

#[export] Instance PyValue_countable : Countable PyValue.
Proof. apply (inj_countable' PyValue_encode PyValue_decode). by intros []. Defined.

(** ** Partitions, offsets, work items and completions *)

Record TopicPartition := mkTp { topic : string; partition : Z }.

#[export] Instance TopicPartition_eq_dec : EqDecision TopicPartition.
Proof. solve_decision. Defined.
#[export] Instance TopicPartition_countable : Countable TopicPartition.
Proof.
  apply (inj_countable' (λ tp, (topic tp, partition tp)) (λ p, mkTp p.1 p.2)). by intros [].
Defined.

Record OffsetRange := mkRange { range_start : Z; range_end : Z }.

#[export] Instance OffsetRange_eq_dec : EqDecision OffsetRange.
Proof. solve_decision. Defined.

(** [WORK_ITEM_POISON_KEY_UNSET] is the [None] of [wi_poison_key]. *)
Record WorkItem := mkWorkItem {
  wi_id : string;
  wi_tp : TopicPartition;
  wi_offset : Z;
  wi_epoch : Z;
  wi_key : PyValue;
  wi_payload : PyValue;
  wi_requeue_attempts : Z;
  wi_poison_key : option PyValue;
}.

#[export] Instance WorkItem_eq_dec : EqDecision WorkItem.
Proof. solve_decision. Defined.

Record CompletionEvent := mkCompletion {
  ce_id : string;
  ce_tp : TopicPartition;
  ce_offset : Z;
  ce_epoch : Z;
  ce_status : CompletionStatus;
  ce_error : option string;
  ce_attempt : Z;
}.

#[export] Instance CompletionEvent_eq_dec : EqDecision CompletionEvent.
Proof. solve_decision. Defined.

(** [QueueKey = tuple[TopicPartition, Any]], also the [CircuitKey] of the poison guard *)
Abbreviation QueueKey := (TopicPartition * PyValue)%type.
