(* ===== verification/OffsetTracker.v ===== *)
(** * Per-partition offset tracking ([control_plane/offset_tracker.py])

    [OffsetTracker] records what was fetched, completed and committed on one
    partition.  The state is a record with one field per attribute of the Python
    class, every method is a function on it.  The second half proves the
    invariant of the class, what each query returns, and that the committed
    offset never passes an offset that was not completed. *)

From S2P Require Import Prelude Vendor Dto.

(** The cache key: committed offset, fetched offset, state version. *)
Abbreviation GapKey := (Z * Z * Z)%type.

(** The libraries a tracker needs. *)
Class TrackerLibs := {
  tl_sorted_set :: SortedSetLib;
  tl_lru :: LruCacheLib GapKey (list OffsetRange);
}.

(** A concrete choice, used to evaluate the model. *)
Definition vendor_lists : TrackerLibs :=
  {| tl_sorted_set := list_sorted_set_lib; tl_lru := slot_lru_lib GapKey (list OffsetRange) |}.

Section offset_tracker.
Context `{TL : TrackerLibs}.

Record OffsetTracker := mkTracker {
  ot_topic_partition : TopicPartition;
  last_committed_offset : Z;
  completed_offsets : sorted_set;
  last_fetched_offset : Z;
  ot_max_revoke_grace_ms : Z;
  epoch : Z;
  blocking_offset_timestamps : odict Z Q;
  state_version : Z;
  gaps_cache : lru_cache;
  gaps_cache_key : option GapKey;
  last_gap_key : option GapKey;
  repeat_gap_count : Z;
  first_gap_head : option Z;
}.

#[export] Instance OffsetTracker_settable : Settable OffsetTracker :=
  λ t, mkTracker (ot_topic_partition t) (last_committed_offset t) (completed_offsets t)
         (last_fetched_offset t) (ot_max_revoke_grace_ms t) (epoch t)
         (blocking_offset_timestamps t) (state_version t) (gaps_cache t)
         (gaps_cache_key t) (last_gap_key t) (repeat_gap_count t) (first_gap_head t).

(** ** Operations *)

(** The [while] loop of [_calculate_first_gap_head]; [last_fetched - last_committed]
    iterations are enough, since each one advances [current] by one. *)
Fixpoint gap_head_loop (fetched : Z) (s : sorted_set) (fuel : nat) (current : Z) : Z :=
  match fuel with
  | O => current
  | S fuel' =>
      if (current <=? fetched) && ss_contains current s
      then gap_head_loop fetched s fuel' (current + 1)
      else current
  end.

Definition calculate_first_gap_head (t : OffsetTracker) : option Z :=
  let current :=
    gap_head_loop (last_fetched_offset t) (completed_offsets t)
      (Z.to_nat (last_fetched_offset t - last_committed_offset t))
      (last_committed_offset t + 1) in
  if last_fetched_offset t <? current then None else Some current.

Definition bump_version (t : OffsetTracker) : OffsetTracker :=
  let t1 := t <| state_version := state_version t + 1 |>
              <| gaps_cache := lru_clear (gaps_cache t) |>
              <| gaps_cache_key := None |> in
  t1 <| first_gap_head := calculate_first_gap_head t1 |>.

(** [OffsetTracker.__init__] *)
Definition new_tracker (tp : TopicPartition) (starting_offset max_revoke_grace_ms : Z)
    (initial_completed_offsets : option (gset Z)) : OffsetTracker :=
  let t := {| ot_topic_partition := tp;
              last_committed_offset := starting_offset - 1;
              completed_offsets := ss_of_set (default ∅ initial_completed_offsets);
              last_fetched_offset := starting_offset - 1;
              ot_max_revoke_grace_ms := max_revoke_grace_ms;
              epoch := 0;
              blocking_offset_timestamps := [];
              state_version := 0;
              gaps_cache := lru_new 1;
              gaps_cache_key := None;
              last_gap_key := None;
              repeat_gap_count := 0;
              first_gap_head := None |} in
  t <| first_gap_head := calculate_first_gap_head t |>.

Definition in_flight_offsets (t : OffsetTracker) : sorted_set :=
  ss_symmetric_difference (completed_offsets t)
    (list_to_set (py_range (last_committed_offset t + 1) (last_fetched_offset t + 1))).

Definition increment_epoch (t : OffsetTracker) : OffsetTracker :=
  t <| epoch := epoch t + 1 |>.

Definition get_current_epoch (t : OffsetTracker) : Z := epoch t.

Definition get_first_gap_head (t : OffsetTracker) : option Z := first_gap_head t.

(** [rehydrate_assignment_state]; [None] is the [ValueError]. *)
Definition rehydrate_assignment_state (committed fetched : Z) (t : OffsetTracker)
    : option OffsetTracker :=
  if fetched <? committed then None
  else Some (bump_version (t <| last_committed_offset := committed |>
                             <| last_fetched_offset := fetched |>)).

Definition mark_complete (offset : Z) (t : OffsetTracker) : OffsetTracker :=
  if last_committed_offset t <? offset then
    let before_size := zlen (ss_list (completed_offsets t)) in
    let t1 := t <| completed_offsets := ss_add offset (completed_offsets t) |> in
    if zlen (ss_list (completed_offsets t1)) =? before_size then t1 else bump_version t1
  else t.

Definition is_completed_uncommitted (offset : Z) (t : OffsetTracker) : bool :=
  (last_committed_offset t <? offset) && (offset <=? last_fetched_offset t)
    && ss_contains offset (completed_offsets t).

(** The [for] loop of [get_committable_high_water_mark] *)
Fixpoint contiguous_from (hwm : Z) (offsets : list Z) : Z :=
  match offsets with
  | [] => hwm
  | offset :: rest => if offset =? hwm + 1 then contiguous_from offset rest else hwm
  end.

Definition get_committable_high_water_mark (min_inflight : option Z) (t : OffsetTracker) : Z :=
  let hwm := contiguous_from (last_committed_offset t) (ss_list (completed_offsets t)) in
  match min_inflight with
  | Some m => if m <=? hwm then m - 1 else hwm
  | None => hwm
  end.

Definition commit_through (committed : Z) (t : OffsetTracker) : OffsetTracker :=
  if committed <=? last_committed_offset t then t
  else
    let offsets_to_remove :=
      ss_irange (Some (last_committed_offset t + 1)) (Some committed) (completed_offsets t) in
    let s := fold_left (λ acc o, ss_remove o acc) offsets_to_remove (completed_offsets t) in
    bump_version (t <| completed_offsets := s |> <| last_committed_offset := committed |>).

Definition advance_high_water_mark (t : OffsetTracker) : OffsetTracker :=
  commit_through (get_committable_high_water_mark None t) t.

(** The scan of [get_gaps]: the gaps before each completed offset and the next
    offset to look at. *)
Fixpoint gap_scan (current : Z) (completed : list Z) : list OffsetRange * Z :=
  match completed with
  | [] => ([], current)
  | c :: rest =>
      let '(gaps, next) := gap_scan (c + 1) rest in
      (if current <? c then mkRange current (c - 1) :: gaps else gaps, next)
  end.

(** The gap list computed by [get_gaps] when the cache has no entry *)
Definition scan_gaps (t : OffsetTracker) : list OffsetRange :=
  match first_gap_head t with
  | None => []
  | Some start =>
      if last_fetched_offset t <? start then []
      else
        let '(gaps, current) :=
          gap_scan start
            (ss_irange (Some start) (Some (last_fetched_offset t)) (completed_offsets t)) in
        if current <=? last_fetched_offset t
        then gaps ++ [mkRange current (last_fetched_offset t)] else gaps
  end.

(** Stamp the gap heads that are not yet tracked; [now o] is what [time.time()]
    returns when [o] is stamped. *)
Definition stamp_heads (now : Z → Q) (heads : list Z) (ts : odict Z Q) : odict Z Q :=
  fold_left (λ acc o, if od_has o acc then acc else od_set o (now o) acc) heads ts.

(** ... and drop the stamps of offsets that are no longer gap heads. *)
Definition refresh_stamps (now : Z → Q) (heads : list Z) (ts : odict Z Q) : odict Z Q :=
  od_filter (λ o, o ∈ heads) (stamp_heads now heads ts).

Definition get_gaps (now : Z → Q) (t : OffsetTracker) : list OffsetRange * OffsetTracker :=
  let cache_key := (last_committed_offset t, last_fetched_offset t, state_version t) in
  match lru_get cache_key (gaps_cache t) with
  | Some cached => (cached, t)
  | None =>
      let gaps := scan_gaps t in
      if decide (gaps = []) then ([], t <| blocking_offset_timestamps := [] |>)
      else
        let t1 :=
          if decide (last_gap_key t = Some cache_key)
          then t <| repeat_gap_count := repeat_gap_count t + 1 |>
          else t <| last_gap_key := Some cache_key |> <| repeat_gap_count := 0 |> in
        let heads := range_start <$> gaps in
        (gaps, t1 <| blocking_offset_timestamps :=
                       refresh_stamps now heads (blocking_offset_timestamps t1) |>
                  <| gaps_cache := lru_put cache_key gaps (lru_clear (gaps_cache t1)) |>)
  end.

Definition update_last_fetched_offset (offset : Z) (t : OffsetTracker) : OffsetTracker :=
  if last_fetched_offset t <? offset
  then bump_version (t <| last_fetched_offset := offset |>) else t.

Definition get_blocking_offset_durations (current_time : Q) (t : OffsetTracker) : odict Z Q :=
  od_map (λ start_time, (current_time - start_time)%Q) (blocking_offset_timestamps t).

(** ** Specification vocabulary *)

(** An offset is settled when it is committed or completed. *)
Definition settled (t : OffsetTracker) (o : Z) : Prop :=
  o ≤ last_committed_offset t ∨ o ∈ ss_list (completed_offsets t).

(** An offset is missing when it was fetched and is not settled. *)
Definition missing (t : OffsetTracker) (o : Z) : Prop :=
  last_committed_offset t < o ≤ last_fetched_offset t ∧ o ∉ ss_list (completed_offsets t).

Definition gap_key (t : OffsetTracker) : GapKey :=
  (last_committed_offset t, last_fetched_offset t, state_version t).

(** The class invariant: completed offsets lie between the committed and the
    fetched one, the cached first gap head is the computed one, and the gap cache
    only holds the current gap list, whose heads are then the stamped offsets. *)
Record tracker_inv (t : OffsetTracker) : Prop := {
  inv_le : last_committed_offset t ≤ last_fetched_offset t;
  inv_completed o :
    o ∈ ss_list (completed_offsets t) → last_committed_offset t < o ≤ last_fetched_offset t;
  inv_head : first_gap_head t = calculate_first_gap_head t;
  inv_maxsize : lru_maxsize (gaps_cache t) = 1;
  inv_cache k g :
    lru_get k (gaps_cache t) = Some g →
    k = gap_key t ∧ g = scan_gaps t ∧ g ≠ [] ∧
    ∀ o, is_Some (od_get o (blocking_offset_timestamps t)) ↔ o ∈ range_start <$> g;
}.

(** Gap lists are increasing, separated ranges inside [lo..hi]. *)
Fixpoint gaps_wf (lo hi : Z) (gaps : list OffsetRange) : Prop :=
  match gaps with
  | [] => True
  | g :: rest =>
      lo ≤ range_start g ≤ range_end g ∧ range_end g ≤ hi ∧ gaps_wf (range_end g + 2) hi rest
  end.

Definition in_gap (o : Z) (g : OffsetRange) : Prop := range_start g ≤ o ≤ range_end g.

(** The operations other components perform on a tracker.  An offset is completed
    only after it was fetched, and a commit never exceeds the committable mark. *)
Inductive TrackerOp :=
  | OpFetch (o : Z) | OpComplete (o : Z) | OpCommit (c : Z) | OpAdvance | OpEpoch
  | OpGaps (now : Z → Q).

Inductive tracker_step (t : OffsetTracker) : TrackerOp → OffsetTracker → Prop :=
  | step_fetch o : tracker_step t (OpFetch o) (update_last_fetched_offset o t)
  | step_complete o :
      o ≤ last_fetched_offset t → tracker_step t (OpComplete o) (mark_complete o t)
  | step_commit c :
      c ≤ get_committable_high_water_mark None t →
      tracker_step t (OpCommit c) (commit_through c t)
  | step_advance : tracker_step t OpAdvance (advance_high_water_mark t)
  | step_epoch : tracker_step t OpEpoch (increment_epoch t)
  | step_gaps now : tracker_step t (OpGaps now) (get_gaps now t).2.

Inductive tracker_run (t : OffsetTracker) : list TrackerOp → OffsetTracker → Prop :=
  | run_nil : tracker_run t [] t
  | run_snoc ops t1 op t2 :
      tracker_run t ops t1 → tracker_step t1 op t2 → tracker_run t (ops ++ [op]) t2.

(** ** The first gap head *)

Lemma gap_head_loop_spec fetched s fuel current :
  fetched - current < Z.of_nat fuel →
  let c := gap_head_loop fetched s fuel current in
  current ≤ c ≤ Z.max current (fetched + 1) ∧
  (∀ o, current ≤ o < c → o ∈ ss_list s) ∧ (c ≤ fetched → c ∉ ss_list s).
Proof.
  revert current. induction fuel as [|fuel IH]; intros current Hf; cbn [gap_head_loop].
  { repeat split; intros; lia. }
  destruct (Z.leb_spec current fetched); simpl; [|repeat split; intros; lia].
  destruct (ss_contains current s) eqn:E.
  - apply ss_contains_spec in E. destruct (IH (current + 1)) as (Hb & Hin & Hout); [lia|].
    repeat split; [lia..| |done]. intros o Ho.
    destruct (decide (o = current)) as [->|]; [done|]. apply Hin. lia.
  - repeat split; [lia..|intros; lia|]. intros _ Hin%ss_contains_spec. congruence.
Qed.

(** [_calculate_first_gap_head] is the least missing offset. *)
Lemma first_gap_head_spec t :
  match calculate_first_gap_head t with
  | Some h => missing t h ∧ ∀ o, last_committed_offset t < o < h → settled t o
  | None => ∀ o, ¬ missing t o
  end.
Proof.
  unfold calculate_first_gap_head, missing, settled.
  destruct (gap_head_loop_spec (last_fetched_offset t) (completed_offsets t)
    (Z.to_nat (last_fetched_offset t - last_committed_offset t))
    (last_committed_offset t + 1)) as (Hb & Hin & Hout); [lia|].
  case_bool.
  - intros o [Ho Hno]. apply Hno, Hin. lia.
  - split; [split; [lia|by apply Hout]|]. intros o Ho. right. apply Hin. lia.
Qed.

(** ** The committable mark *)

Lemma contiguous_from_spec hwm l :
  StronglySorted Z.lt l → (∀ o, o ∈ l → hwm < o) →
  let r := contiguous_from hwm l in
  hwm ≤ r ∧ (∀ o, hwm < o ≤ r → o ∈ l) ∧ r + 1 ∉ l.
Proof.
  intros Hs. revert hwm. induction Hs as [|x l Hl IH Hx]; intros hwm Hlt; simpl.
  { repeat split; [lia|intros; lia|apply not_elem_of_nil]. }
  rewrite Forall_forall in Hx. destruct (Z.eqb_spec x (hwm + 1)) as [->|Hne].
  - destruct (IH (hwm + 1)) as (H1 & H2 & H3); [auto|].
    repeat split; [lia| |].
    + intros o Ho. destruct (decide (o = hwm + 1)) as [->|]; [left|right; apply H2; lia].
    + rewrite not_elem_of_cons. split; [lia|done].
  - repeat split; [lia|intros; lia|]. rewrite not_elem_of_cons.
    assert (hwm < x) by (apply Hlt; left). split; [lia|]. intros Hin. specialize (Hx _ Hin). lia.
Qed.

Lemma committable_spec t :
  tracker_inv t →
  let r := get_committable_high_water_mark None t in
  last_committed_offset t ≤ r ≤ last_fetched_offset t ∧
  (∀ o, o ≤ r → settled t o) ∧ ¬ settled t (r + 1).
Proof.
  intros Hinv r. destruct (contiguous_from_spec (last_committed_offset t)
    (ss_list (completed_offsets t))) as (H1 & H2 & H3).
  { apply ss_list_sorted. }
  { intros o Ho. apply (inv_completed _ Hinv) in Ho. lia. }
  fold (get_committable_high_water_mark None t) in H1, H2, H3. fold r in H1, H2, H3.
  assert (r ≤ last_fetched_offset t).
  { destruct (decide (last_committed_offset t < r)) as [Hr|].
    - assert (r ∈ ss_list (completed_offsets t)) as Hin by (apply H2; lia).
      apply (inv_completed _ Hinv) in Hin. lia.
    - pose proof (inv_le _ Hinv). lia. }
  unfold settled. repeat split; [lia..| |].
  - intros o Ho. destruct (decide (o ≤ last_committed_offset t)); [auto|]. right. apply H2. lia.
  - intros [?|?]; [lia|done].
Qed.

(** ** The gap list *)

Lemma gaps_wf_snoc lo h a b gaps :
  gaps_wf lo h gaps → lo ≤ a ≤ b → h + 2 ≤ a → gaps_wf lo b (gaps ++ [mkRange a b]).
Proof.
  revert lo. induction gaps as [|g gaps IH]; intros lo Hg Ha Hh; simpl in *; [lia|].
  destruct Hg as (H1 & H2 & H3). split; [lia|]. split; [lia|]. apply IH; [done|lia|lia].
Qed.

Lemma gaps_wf_mono lo lo' hi hi' gaps :
  lo' ≤ lo → hi ≤ hi' → gaps_wf lo hi gaps → gaps_wf lo' hi' gaps.
Proof.
  revert lo lo'. induction gaps as [|g gaps IH]; intros lo lo' Hlo Hhi; simpl; [done|].
  intros (? & ? & ?). split; [lia|]. split; [lia|]. by eapply IH.
Qed.

(** The scan covers exactly the offsets below [next] that are not completed. *)
Lemma gap_scan_spec cur l :
  StronglySorted Z.lt l → (∀ o, o ∈ l → cur ≤ o) →
  let '(gaps, next) := gap_scan cur l in
  cur ≤ next ∧ (next = cur ∨ next - 1 ∈ l) ∧ (∀ o, o ∈ l → o < next) ∧
  gaps_wf cur (next - 2) gaps ∧
  ∀ o, (∃ g, g ∈ gaps ∧ in_gap o g) ↔ cur ≤ o < next ∧ o ∉ l.
Proof.
  intros Hs. revert cur. induction Hs as [|c l Hl IH Hc]; intros cur Hcur; simpl.
  { split; [lia|]. split; [by left|]. split; [set_solver|]. split; [done|].
    intros o. split; [set_solver|lia]. }
  rewrite Forall_forall in Hc. assert (cur ≤ c) by (apply Hcur; left).
  specialize (IH (c + 1)). destruct (gap_scan (c + 1) l) as [gaps next].
  destruct IH as (H1 & H0 & H2 & H3 & H4). { intros o Ho. specialize (Hc _ Ho). lia. }
  split; [lia|]. split.
  { right. destruct H0 as [->|]; [|by right]. rewrite Z.add_simpl_r. left. }
  split; [intros o [->|Ho]%elem_of_cons; [lia|auto]|].
  assert (∀ o, (∃ g, g ∈ gaps ∧ in_gap o g) ↔ c < o < next ∧ o ∉ l) as H4'.
  { intros o. rewrite H4. split; intros [? ?]; (split; [lia|done]). }
  case_bool.
  - split.
    { simpl. split; [lia|]. split; [lia|]. eapply gaps_wf_mono; [..|done]; lia. }
    intros o. rewrite not_elem_of_cons. split.
    + intros (g & [->|Hg]%elem_of_cons & Ho).
      * unfold in_gap in Ho; simpl in Ho. split; [lia|]. split; [lia|].
        intros Hin. specialize (Hc _ Hin). lia.
      * destruct (proj1 (H4' o)) as [? ?]; [eauto|]. split; [lia|]. split; [lia|done].
    + intros (Ho & Hne & Hnin). destruct (decide (o < c)).
      * exists (mkRange cur (c - 1)). split; [left|]. unfold in_gap; simpl. lia.
      * destruct (proj2 (H4' o)) as (g & Hg & Hog); [split; [lia|done]|].
        exists g. split; [by right|done].
  - assert (c = cur) as -> by lia. split; [eapply gaps_wf_mono; [..|done]; lia|].
    intros o. rewrite H4', not_elem_of_cons. split.
    + intros [? ?]. split; [lia|]. split; [lia|done].
    + intros (? & ? & ?). split; [lia|done].
Qed.

Lemma gap_scan_head cur l :
  (∀ o, o ∈ l → cur < o) → l ≠ [] → range_start <$> head (gap_scan cur l).1 = Some cur.
Proof.
  destruct l as [|c l]; [done|]. intros Hcur _. simpl.
  assert (cur < c) by (apply Hcur; left). destruct (gap_scan (c + 1) l). by case_bool; [|lia].
Qed.

(** The gap list is well formed, covers exactly the missing offsets and starts at
    the first gap head. *)
Lemma scan_gaps_spec t :
  tracker_inv t →
  gaps_wf (last_committed_offset t + 1) (last_fetched_offset t) (scan_gaps t) ∧
  (∀ o, (∃ g, g ∈ scan_gaps t ∧ in_gap o g) ↔ missing t o) ∧
  range_start <$> head (scan_gaps t) = first_gap_head t.
Proof.
  intros Hinv. pose proof (first_gap_head_spec t) as Hh. unfold scan_gaps.
  rewrite (inv_head _ Hinv). destruct (calculate_first_gap_head t) as [h|] eqn:Eh.
  2: { split; [done|]. split; [|done]. intros o. split; [set_solver|]. by intros ?%Hh. }
  destruct Hh as [[Hhb Hhn] Hsettled]. case_bool; [lia|]. rewrite ss_irange_spec.
  set (l := filter _ _).
  assert (∀ o, o ∈ l ↔ h ≤ o ≤ last_fetched_offset t ∧ o ∈ ss_list (completed_offsets t)) as Hl.
  { intros o. unfold l. rewrite list_elem_of_filter. unfold in_irange. tauto. }
  pose proof (gap_scan_spec h l) as Hscan. pose proof (gap_scan_head h l) as Hhead.
  destruct (gap_scan h l) as [gaps next] eqn:Eg.
  destruct Hscan as (H1 & H0 & H2 & H3 & H4).
  { apply sorted_lt_filter, ss_list_sorted. }
  { intros o Ho%Hl. lia. }
  assert (∀ o, missing t o ↔ h ≤ o ≤ last_fetched_offset t ∧ o ∉ l) as Hmiss.
  { intros o. unfold missing. rewrite Hl. split; intros [Ho Hn]; [|split; [lia|tauto]].
    split; [|tauto]. destruct (decide (o < h)) as [Hlt|]; [|lia].
    destruct (Hsettled o) as [?|?]; [lia|lia|tauto]. }
  assert (next ≤ last_fetched_offset t + 1).
  { destruct H0 as [->|Hin%Hl]; lia. }
  assert (range_start <$> head gaps = Some h ∨ gaps = [] ∧ next = h) as Hhead'.
  { destruct (decide (l = [])) as [Hnil|]; [right|left].
    - rewrite Hnil in Eg. by simplify_eq/=.
    - apply Hhead; [|done]. intros o Ho%Hl. destruct (decide (o = h)); [|lia]. naive_solver. }
  case_bool.
  - split; [|split].
    + apply gaps_wf_snoc with (h := next - 2); [|lia|lia]. eapply gaps_wf_mono; [..|done]; lia.
    + intros o. rewrite Hmiss. split.
      * intros (g & [Hg|Hg%list_elem_of_singleton]%elem_of_app & Hig).
        -- destruct (proj1 (H4 o)) as [? ?]; [eauto|]. split; [lia|done].
        -- subst g. unfold in_gap in Hig; simpl in Hig. split; [lia|].
           intros Hin%H2. lia.
      * intros [Ho Hn]. destruct (decide (o < next)).
        -- destruct (proj2 (H4 o)) as (g & ? & ?); [split; [lia|done]|]. exists g. set_solver.
        -- exists (mkRange next (last_fetched_offset t)). unfold in_gap; simpl.
           split; [set_solver|lia].
    + destruct gaps; simpl in *; destruct Hhead' as [|[? ->]]; done.
  - split; [eapply gaps_wf_mono; [..|done]; lia|]. split.
    + intros o. rewrite Hmiss, H4. split; intros [? ?]; (split; [lia|done]).
    + destruct Hhead' as [|[-> ->]]; [done|lia].
Qed.

(** ** Preservation of the invariant *)

(** [_bump_version] re-establishes the derived fields. *)
Lemma bump_version_inv t :
  last_committed_offset t ≤ last_fetched_offset t →
  (∀ o, o ∈ ss_list (completed_offsets t) →
     last_committed_offset t < o ≤ last_fetched_offset t) →
  lru_maxsize (gaps_cache t) = 1 →
  tracker_inv (bump_version t).
Proof.
  intros Hle Hc Hm. split; simpl; [done..| |].
  - by rewrite lru_maxsize_clear.
  - intros k g. by rewrite lru_get_clear.
Qed.

Lemma new_tracker_inv tp start grace : tracker_inv (new_tracker tp start grace None).
Proof.
  split; simpl; [lia| |done|apply lru_maxsize_new|].
  - intros o Ho%ss_of_set_spec. set_solver.
  - intros k g. by rewrite lru_get_new.
Qed.

Lemma mark_complete_cases o t :
  mark_complete o t =
    if last_committed_offset t <? o then
      if decide (o ∈ ss_list (completed_offsets t))
      then t <| completed_offsets := ss_add o (completed_offsets t) |>
      else bump_version (t <| completed_offsets := ss_add o (completed_offsets t) |>)
    else t.
Proof.
  unfold mark_complete. case_bool; [|done]. simpl. unfold zlen. rewrite ss_add_length.
  case_decide; case_bool; [done|lia|lia|done].
Qed.

(** Marking an offset that is already there changes no observable of the tracker. *)
Lemma mark_complete_list o t :
  last_committed_offset t < o →
  ∀ x, x ∈ ss_list (completed_offsets (mark_complete o t)) ↔
       x = o ∨ x ∈ ss_list (completed_offsets t).
Proof.
  intros Ho x. rewrite mark_complete_cases. case_bool; [|lia].
  case_decide; simpl; apply ss_add_spec.
Qed.

Lemma mark_complete_offsets o t :
  last_committed_offset (mark_complete o t) = last_committed_offset t ∧
  last_fetched_offset (mark_complete o t) = last_fetched_offset t ∧
  epoch (mark_complete o t) = epoch t.
Proof. rewrite mark_complete_cases. repeat case_bool; done. Qed.

Lemma mark_complete_inv o t :
  o ≤ last_fetched_offset t → tracker_inv t → tracker_inv (mark_complete o t).
Proof.
  intros Ho Hinv. rewrite mark_complete_cases. case_bool; [|done]. case_decide as Hin.
  - assert (ss_list (ss_add o (completed_offsets t)) = ss_list (completed_offsets t)) as E
      by by apply ss_add_present.
    assert (∀ s, ss_list s = ss_list (completed_offsets t) →
      calculate_first_gap_head (t <| completed_offsets := s |>) = calculate_first_gap_head t) as Ecalc.
    { intros s Hs. unfold calculate_first_gap_head; simpl.
      enough (∀ f c, gap_head_loop (last_fetched_offset t) s f c =
                gap_head_loop (last_fetched_offset t) (completed_offsets t) f c) as -> by done.
      intros f. induction f as [|f IH]; intros c; simpl; [done|].
      assert (ss_contains c s = ss_contains c (completed_offsets t)) as ->.
      { apply eq_bool_prop_intro. rewrite !Is_true_true, !ss_contains_spec. by rewrite Hs. }
      by rewrite IH. }
    destruct Hinv as [H1 H2 H3 H4 H5]. split; simpl; [done| |by rewrite Ecalc|done|].
    + intros x. rewrite E. auto.
    + intros k g Hk. destruct (H5 _ _ Hk) as (-> & -> & Hne & Hts). split; [done|]. split; [|done].
      unfold scan_gaps; simpl. destruct (first_gap_head t); [|done]. by rewrite !ss_irange_spec, E.
  - apply bump_version_inv; simpl; [by apply inv_le| |by apply inv_maxsize].
    intros x [->|Hx]%ss_add_spec; [lia|]. by apply inv_completed in Hx.
Qed.

(** What [commit_through] leaves of a tracker. *)
Lemma commit_through_spec c t :
  tracker_inv t → last_committed_offset t < c →
  last_committed_offset (commit_through c t) = c ∧
  last_fetched_offset (commit_through c t) = last_fetched_offset t ∧
  epoch (commit_through c t) = epoch t ∧
  ∀ x, x ∈ ss_list (completed_offsets (commit_through c t)) ↔
       c < x ∧ x ∈ ss_list (completed_offsets t).
Proof.
  intros Hinv Hc. unfold commit_through. case_bool; [lia|]. simpl.
  split; [done|]. split; [done|]. split; [done|]. intros x.
  rewrite ss_irange_spec, ss_remove_all.
  - rewrite list_elem_of_filter. unfold in_irange. split.
    + intros [Hn Hx]. split; [|done]. apply (inv_completed _ Hinv) in Hx as ?.
      destruct (decide (c < x)); [done|]. destruct Hn. split; [lia|done].
    + intros [? ?]. split; [|done]. intros [? ?]. lia.
  - apply NoDup_filter, ss_list_NoDup.
  - by intros y [_ ?]%list_elem_of_filter.
Qed.

Lemma commit_through_le c t : c ≤ last_committed_offset t → commit_through c t = t.
Proof. intros. unfold commit_through. case_bool; [done|lia]. Qed.

Lemma commit_through_inv c t :
  c ≤ last_fetched_offset t → tracker_inv t → tracker_inv (commit_through c t).
Proof.
  intros Hc Hinv. destruct (decide (c ≤ last_committed_offset t)).
  { by rewrite commit_through_le. }
  destruct (commit_through_spec c t) as (H1 & H2 & _ & H3); [done|lia|].
  unfold commit_through in *. case_bool; [lia|]. apply bump_version_inv; simpl in *.
  - lia.
  - intros o [? Ho]%H3. apply (inv_completed _ Hinv) in Ho. lia.
  - by apply inv_maxsize.
Qed.

Lemma update_last_fetched_inv o t :
  tracker_inv t → tracker_inv (update_last_fetched_offset o t).
Proof.
  intros Hinv. unfold update_last_fetched_offset. case_bool; [|done].
  pose proof (inv_le _ Hinv). apply bump_version_inv; simpl; [lia| |by apply inv_maxsize].
  intros x Hx%(inv_completed _ Hinv). lia.
Qed.

Lemma get_gaps_value now t :
  tracker_inv t → (get_gaps now t).1 = scan_gaps t.
Proof.
  intros Hinv. unfold get_gaps. destruct (lru_get _ _) as [g|] eqn:E.
  - apply (inv_cache _ Hinv) in E as (_ & -> & _ & _). done.
  - by case_decide.
Qed.

Lemma get_gaps_frame now t :
  let t' := (get_gaps now t).2 in
  last_committed_offset t' = last_committed_offset t ∧
  last_fetched_offset t' = last_fetched_offset t ∧
  completed_offsets t' = completed_offsets t ∧ epoch t' = epoch t ∧
  first_gap_head t' = first_gap_head t.
Proof.
  unfold get_gaps. destruct (lru_get _ _); [done|]. case_decide; [done|]. simpl.
  by case_decide.
Qed.

Lemma stamp_heads_get now heads ts o :
  od_get o (stamp_heads now heads ts) =
    match od_get o ts with
    | Some q => Some q
    | None => if decide (o ∈ heads) then Some (now o) else None
    end.
Proof.
  unfold stamp_heads. revert ts. induction heads as [|h heads IH]; intros ts; cbn [fold_left].
  { destruct (od_get o ts); [done|]. case_decide; [set_solver|done]. }
  rewrite IH. unfold od_has. destruct (od_get h ts) eqn:Eh.
  - destruct (od_get o ts) eqn:Eo; [done|]. assert (o ≠ h) by congruence.
    repeat case_decide; set_solver.
  - rewrite od_get_set. destruct (decide (h = o)) as [->|].
    + rewrite Eh, decide_True by set_solver. done.
    + destruct (od_get o ts); [done|]. repeat case_decide; set_solver.
Qed.

(** The stamps that [get_gaps] keeps: one per gap head, the old one if there was one. *)
Lemma get_gaps_stamps now t o :
  tracker_inv t →
  is_Some (od_get o (blocking_offset_timestamps (get_gaps now t).2)) ↔
    o ∈ range_start <$> scan_gaps t.
Proof.
  intros Hinv. unfold get_gaps. destruct (lru_get _ _) as [g|] eqn:E.
  { apply (inv_cache _ Hinv) in E as (_ & <- & _ & ->). done. }
  case_decide as Hnil.
  { rewrite Hnil. split; [by intros []|set_solver]. }
  assert (∀ ts, is_Some (od_get o (refresh_stamps now (range_start <$> scan_gaps t) ts)) ↔
    o ∈ range_start <$> scan_gaps t) as Hr; [|by case_decide; apply Hr].
  intros ts. unfold refresh_stamps.
  rewrite od_get_filter, stamp_heads_get.
  case_decide; [|by split; [intros []|]]. case_goal; naive_solver.
Qed.

Lemma get_gaps_inv now t : tracker_inv t → tracker_inv (get_gaps now t).2.
Proof.
  intros Hinv. pose proof Hinv as [H1 H2 H3 H4 H5]. unfold get_gaps.
  destruct (lru_get _ _) eqn:E; [done|]. case_decide as Hnil.
  { split; [done..|]. intros k g (-> & -> & Hne & _)%H5. done. }
  simpl.
  set (t1 := if decide _ then _ else _).
  assert (gap_key t1 = gap_key t ∧ scan_gaps t1 = scan_gaps t ∧ gaps_cache t1 = gaps_cache t ∧
    calculate_first_gap_head t1 = calculate_first_gap_head t ∧ first_gap_head t1 = first_gap_head t ∧
    last_committed_offset t1 = last_committed_offset t ∧
    last_fetched_offset t1 = last_fetched_offset t ∧ completed_offsets t1 = completed_offsets t)
    as (K1 & K2 & K3 & K4 & K5 & K6 & K7 & K8) by (unfold t1; by case_decide).
  split; simpl; rewrite ?K3.
  - lia.
  - by rewrite K6, K7, K8.
  - by rewrite K5, H3.
  - by rewrite lru_maxsize_put, lru_maxsize_clear.
  - intros k g Hk. destruct (decide (k = gap_key t)) as [->|].
    2: { rewrite lru_get_put_ne in Hk; done. }
    rewrite lru_get_put_eq in Hk by (rewrite lru_maxsize_clear; lia). injection Hk as <-.
    split; [exact (eq_sym K1)|]. split; [exact (eq_sym K2)|]. split; [done|]. intros o.
    rewrite <-(get_gaps_stamps now t o) by done. unfold get_gaps. rewrite E.
    case_decide; [done|]. done.
Qed.

Lemma tracker_step_inv t op t' : tracker_inv t → tracker_step t op t' → tracker_inv t'.
Proof.
  intros Hinv Hs. pose proof (committable_spec _ Hinv) as ([_ ?] & _ & _).
  destruct Hs as [o|o Ho|c Hc| | |now].
  - by apply update_last_fetched_inv.
  - by apply mark_complete_inv.
  - apply commit_through_inv; [lia|done].
  - apply commit_through_inv; [lia|done].
  - destruct Hinv as [H1 H2 H3 H4 H5]. by split.
  - by apply get_gaps_inv.
Qed.

Lemma tracker_run_inv t ops t' : tracker_inv t → tracker_run t ops t' → tracker_inv t'.
Proof. intros Hinv. induction 1; [done|]. eauto using tracker_step_inv. Qed.

(** Committing up to the committable mark settles nothing new. *)
Lemma commit_through_settled c t :
  tracker_inv t → c ≤ get_committable_high_water_mark None t →
  ∀ o, settled (commit_through c t) o ↔ settled t o.
Proof.
  intros Hinv Hc o. destruct (committable_spec _ Hinv) as (_ & Hset & _).
  destruct (decide (c ≤ last_committed_offset t)); [by rewrite commit_through_le|].
  destruct (commit_through_spec c t) as (H1 & _ & _ & H3); [done|lia|].
  unfold settled in *. rewrite H1, H3. split.
  - intros [?|[? ?]]; [apply Hset; lia|by right].
  - intros [?|?]; [left; lia|]. destruct (decide (c < o)); [by right|left; lia].
Qed.

Lemma tracker_step_settled t op t' o :
  tracker_inv t → tracker_step t op t' → settled t' o → settled t o ∨ op = OpComplete o.
Proof.
  intros Hinv Hs. destruct Hs as [x|x Hx|c Hc| | |now].
  - unfold update_last_fetched_offset. case_bool; by left.
  - unfold settled. destruct (mark_complete_offsets x t) as (-> & _ & _).
    destruct (decide (last_committed_offset t < x)).
    + rewrite mark_complete_list by done. naive_solver.
    + unfold mark_complete. case_bool; [lia|]. by left.
  - rewrite commit_through_settled by done. by left.
  - unfold advance_high_water_mark. rewrite commit_through_settled by done. by left.
  - by left.
  - unfold settled. destruct (get_gaps_frame now t) as (-> & _ & -> & _). by left.
Qed.

Lemma tracker_run_settled t ops t' o :
  tracker_inv t → tracker_run t ops t' → settled t' o → settled t o ∨ OpComplete o ∈ ops.
Proof.
  intros Hinv Hrun. induction Hrun as [|ops t1 op t2 Hrun IH Hstep]; [by left|].
  intros Ho. assert (tracker_inv t1) by eauto using tracker_run_inv.
  destruct (tracker_step_settled t1 op t2 o) as [?| ->]; [done..| |set_solver].
  destruct IH; [done|by left|set_solver].
Qed.

(** Restoring an assignment from a commit and its metadata gives a sound tracker. *)
Lemma rehydrate_inv tp start grace X committed fetched t :
  (∀ o, o ∈ X → committed < o ≤ fetched) →
  rehydrate_assignment_state committed fetched (new_tracker tp start grace (Some X)) = Some t →
  tracker_inv t.
Proof.
  intros HX. unfold rehydrate_assignment_state. case_bool; [done|]. intros [= <-].
  apply bump_version_inv; simpl; [lia| |apply lru_maxsize_new].
  intros o Ho%ss_of_set_spec. auto.
Qed.

(** ** Properties *)

(** C8. Commit safety: in every run of the tracker's operations, each offset the
    committed mark moved over was completed, either at the start of the run or by
    a completion in it. *)
Theorem committed_offsets_were_completed t ops t' o :
  tracker_inv t → tracker_run t ops t' →
  last_committed_offset t < o ≤ last_committed_offset t' →
  o ∈ ss_list (completed_offsets t) ∨ OpComplete o ∈ ops.
Proof.
  intros Hinv Hrun Ho.
  destruct (tracker_run_settled t ops t' o) as [[?|?]|?]; [done..| |lia|by left|by right].
  left. lia.
Qed.

(** The class invariant holds in every state reachable from a new tracker or
    from one rehydrated with completed offsets between its committed and fetched
    marks. *)
Theorem tracker_invariant_reachable tp start grace X committed fetched t0 ops t :
  (t0 = new_tracker tp start grace None ∨
   rehydrate_assignment_state committed fetched (new_tracker tp start grace (Some X)) = Some t0) →
  (∀ o, o ∈ X → committed < o ≤ fetched) →
  tracker_run t0 ops t → tracker_inv t.
Proof.
  intros H0 HX Hrun. eapply tracker_run_inv; [|done].
  destruct H0 as [->|H0]; [apply new_tracker_inv|by eapply rehydrate_inv].
Qed.

(** [advance_high_water_mark] moves the committed offset exactly to the end of
    the contiguous completed prefix: everything up to it is settled, the next
    offset is not, no offset becomes or ceases to be settled, and the next offset
    is the new gap head whenever something fetched remains. *)
Theorem advance_high_water_mark_exact t :
  tracker_inv t →
  let t' := advance_high_water_mark t in
  let c := last_committed_offset t' in
  last_committed_offset t ≤ c ≤ last_fetched_offset t ∧
  (∀ o, o ≤ c → settled t o) ∧ ¬ settled t (c + 1) ∧
  (∀ o, settled t' o ↔ settled t o) ∧
  get_first_gap_head t' = if c <? last_fetched_offset t then Some (c + 1) else None.
Proof.
  intros Hinv t' c. destruct (committable_spec _ Hinv) as (Hb & Hset & Hnot).
  assert (c = get_committable_high_water_mark None t) as Hc.
  { unfold c, t', advance_high_water_mark.
    destruct (decide (last_committed_offset t < get_committable_high_water_mark None t)).
    - by apply commit_through_spec.
    - rewrite commit_through_le; lia. }
  assert (∀ o, settled t' o ↔ settled t o) as Heq
    by (intros o; by apply commit_through_settled).
  assert (tracker_inv t') as Hinv' by (apply commit_through_inv; [lia|done]).
  assert (last_fetched_offset t' = last_fetched_offset t) as Hf.
  { unfold t', advance_high_water_mark, commit_through. by case_bool. }
  rewrite Hc in *. do 4 (split; [done|]).
  unfold get_first_gap_head. rewrite (inv_head _ Hinv').
  pose proof (first_gap_head_spec t') as Hh. fold c in Hh. unfold missing, settled in Hh, Hnot, Heq.
  fold c in Hh, Heq. rewrite Hf, Hc in Hh. rewrite <-Heq, Hc in Hnot.
  destruct (calculate_first_gap_head t') as [h|]; case_bool.
  - destruct Hh as [[? ?] Hlt]. f_equal. destruct (decide (h = get_committable_high_water_mark None t + 1)); [done|].
    destruct Hnot. apply Hlt. lia.
  - lia.
  - destruct (Hh (get_committable_high_water_mark None t + 1)). split; [lia|tauto].
  - done.
Qed.

(** The committable mark clamped by the lowest in-flight offset stays below
    that offset, and whenever it exceeds the committed offset every offset up to
    it is completed. *)
Theorem committable_mark_safe t min_inflight :
  tracker_inv t →
  let r := get_committable_high_water_mark min_inflight t in
  (∀ m, min_inflight = Some m → r < m) ∧
  r ≤ get_committable_high_water_mark None t ≤ last_fetched_offset t ∧
  (last_committed_offset t < r →
     ∀ o, last_committed_offset t < o ≤ r → o ∈ ss_list (completed_offsets t)).
Proof.
  intros Hinv r. destruct (committable_spec _ Hinv) as (Hb & Hset & _).
  set (u := get_committable_high_water_mark None t) in *.
  assert (r ≤ u ∧ ∀ m, min_inflight = Some m → r < m) as [Hle Hm].
  { unfold r. destruct min_inflight as [m|]; [|by split; [unfold u|intros]].
    change (get_committable_high_water_mark (Some m) t) with (if m <=? u then m - 1 else u).
    case_bool; (split; [lia|intros m' [= <-]; lia]). }
  split; [done|]. split; [lia|]. intros _ o Ho.
  destruct (Hset o) as [?|?]; [lia|lia|done].
Qed.

(** C22. [get_gaps], whether it answers from its cache or scans, returns increasing
    separated ranges that cover exactly the fetched offsets that are neither
    committed nor completed, starting at the first gap head; afterwards the
    stamped blocking offsets are exactly the heads of these ranges. *)
Theorem get_gaps_exact t now :
  tracker_inv t →
  let gaps := (get_gaps now t).1 in
  let t' := (get_gaps now t).2 in
  gaps_wf (last_committed_offset t + 1) (last_fetched_offset t) gaps ∧
  (∀ o, (∃ g, g ∈ gaps ∧ in_gap o g) ↔ missing t o) ∧
  (∀ o, missing t o ↔ o ∈ ss_list (in_flight_offsets t)) ∧
  range_start <$> head gaps = get_first_gap_head t ∧
  (∀ o, is_Some (od_get o (blocking_offset_timestamps t')) ↔ o ∈ range_start <$> gaps).
Proof.
  intros Hinv gaps t'. unfold gaps. rewrite get_gaps_value by done.
  destruct (scan_gaps_spec _ Hinv) as (H1 & H2 & H3).
  split; [done|]. split; [done|]. split; [|split; [done|intros; by apply get_gaps_stamps]].
  intros o. unfold in_flight_offsets, missing.
  rewrite ss_symmetric_difference_spec, elem_of_list_to_set, elem_of_py_range.
  split; [intros [? ?]; right; split; [done|lia]|].
  intros [[Ho Hn]|[? ?]]; [|split; [lia|done]].
  apply (inv_completed _ Hinv) in Ho. lia.
Qed.

End offset_tracker.

(** ** Witnesses *)

Section witnesses.
#[local] Existing Instance vendor_lists.

Definition tp_demo : TopicPartition := mkTp "orders" 0.

(** A partition assigned at offset 5, fetched up to 9, with 5 and 7 completed. *)
Definition tracker_demo : OffsetTracker :=
  mark_complete 7 (mark_complete 5 (update_last_fetched_offset 9 (new_tracker tp_demo 5 500 None))).

Lemma tracker_demo_run :
  tracker_run (new_tracker tp_demo 5 500 None) [OpFetch 9; OpComplete 5; OpComplete 7] tracker_demo.
Proof.
  eapply (run_snoc _ [OpFetch 9; OpComplete 5]).
  - eapply (run_snoc _ [OpFetch 9]).
    + eapply (run_snoc _ []); constructor.
    + constructor. vm_compute. discriminate.
  - constructor. vm_compute. discriminate.
Qed.

Lemma tracker_demo_inv : tracker_inv tracker_demo.
Proof. eapply tracker_run_inv; [apply new_tracker_inv|apply tracker_demo_run]. Qed.

Lemma committed_offsets_were_completed_witness :
  5 ∈ ss_list (completed_offsets (new_tracker tp_demo 5 500 None)) ∨
  OpComplete 5 ∈ [OpFetch 9; OpComplete 5; OpComplete 7; OpAdvance].
Proof.
  apply (committed_offsets_were_completed (new_tracker tp_demo 5 500 None)
    [OpFetch 9; OpComplete 5; OpComplete 7; OpAdvance] (advance_high_water_mark tracker_demo) 5).
  - apply new_tracker_inv.
  - apply (run_snoc _ [OpFetch 9; OpComplete 5; OpComplete 7] tracker_demo OpAdvance).
    + apply tracker_demo_run.
    + constructor.
  - vm_compute. split; [reflexivity|discriminate].
Defined.

Lemma tracker_invariant_reachable_witness :
  tracker_inv (advance_high_water_mark
    (default (new_tracker tp_demo 0 0 None)
       (rehydrate_assignment_state 4 9 (new_tracker tp_demo 5 500 (Some {[5; 7]}))))).
Proof.
  apply (tracker_invariant_reachable tp_demo 5 500 {[5; 7]} 4 9
    (default (new_tracker tp_demo 0 0 None)
       (rehydrate_assignment_state 4 9 (new_tracker tp_demo 5 500 (Some {[5; 7]})))) [OpAdvance]).
  - right. reflexivity.
  - intros o Ho. assert (o = 5 ∨ o = 7) by set_solver. lia.
  - eapply (run_snoc _ []); constructor.
Defined.

Lemma advance_high_water_mark_exact_witness :
  last_committed_offset (advance_high_water_mark tracker_demo) = 5 ∧ ¬ settled tracker_demo (5 + 1).
Proof.
  split; [reflexivity|].
  exact (proj1 (proj2 (proj2 (advance_high_water_mark_exact tracker_demo tracker_demo_inv)))).
Defined.

Lemma committable_mark_safe_witness :
  get_committable_high_water_mark (Some 5) tracker_demo < 5.
Proof.
  exact (proj1 (committable_mark_safe tracker_demo (Some 5) tracker_demo_inv) 5 eq_refl).
Defined.

Lemma get_gaps_exact_witness :
  (get_gaps (λ _, 0%Q) tracker_demo).1 = [mkRange 6 6; mkRange 8 9] ∧
  gaps_wf 5 9 (get_gaps (λ _, 0%Q) tracker_demo).1.
Proof.
  split; [reflexivity|].
  exact (proj1 (get_gaps_exact tracker_demo (λ _, 0%Q) tracker_demo_inv)).
Defined.
End witnesses.
