(* ===== verification/PyText.v ===== *)
(** * Python text: decimal integers, splitting, hexadecimal

    What the sources use of [str], [int], [bytes.hex] and [bytes.fromhex].  A
    string is the list of its code points; digits are those of ASCII (of what [int()] accepts),
    white space is Unicode's. *)

From S2P Require Import Prelude.

Abbreviation pystr := (list Z).

Definition ch_comma : Z := 44.
Definition ch_minus : Z := 45.
Definition ch_plus : Z := 43.
Definition ch_colon : Z := 58.
Definition ch_underscore : Z := 95.

(** ** Definitions *)

(** Decimal digits, most significant first; [Z.log2 n + 1] steps suffice. *)
Fixpoint dec_digits (fuel : nat) (n : Z) : list Z :=
  match fuel with
  | O => []
  | S fuel' => if n <? 10 then [n] else dec_digits fuel' (n / 10) ++ [n mod 10]
  end.

Definition nat_str (n : Z) : pystr := (λ d, 48 + d) <$> dec_digits (S (Z.to_nat (Z.log2 n))) n.

(** [str(n)] *)
Definition py_str (n : Z) : pystr :=
  if n <? 0 then ch_minus :: nat_str (- n) else nat_str n.

(** [str.isspace()] of one character *)
Definition is_space (c : Z) : bool :=
  (c =? 32) || ((9 <=? c) && (c <=? 13)) || ((28 <=? c) && (c <=? 31))
  || (c =? 133) || (c =? 160) || (c =? 5760) || ((8192 <=? c) && (c <=? 8202))
  || (c =? 8232) || (c =? 8233) || (c =? 8239) || (c =? 8287) || (c =? 12288).

Fixpoint lstrip (s : pystr) : pystr :=
  match s with
  | c :: s' => if is_space c then lstrip s' else s
  | [] => []
  end.

Definition strip (s : pystr) : pystr := reverse (lstrip (reverse (lstrip s))).

Definition is_digit (c : Z) : bool := (48 <=? c) && (c <=? 57).

(** Digits with single underscores between them. *)
Fixpoint parse_digits (after_digit : bool) (acc : Z) (s : pystr) : option Z :=
  match s with
  | [] => if after_digit then Some acc else None
  | c :: s' =>
      if is_digit c then parse_digits true (acc * 10 + (c - 48)) s'
      else if (c =? ch_underscore) && after_digit then parse_digits false acc s'
      else None
  end.

(** [int(s)]; [None] is the [ValueError]. *)
Definition py_int (s : pystr) : option Z :=
  match strip s with
  | c :: s' =>
      if c =? ch_minus then Z.opp <$> parse_digits false 0 s'
      else if c =? ch_plus then parse_digits false 0 s'
      else parse_digits false 0 (c :: s')
  | [] => None
  end.

(** [s.split(sep)] for a one-character separator: the pieces, never empty *)
Fixpoint split_aux (sep : Z) (cur : pystr) (s : pystr) : list pystr :=
  match s with
  | [] => [reverse cur]
  | c :: s' => if c =? sep then reverse cur :: split_aux sep [] s' else split_aux sep (c :: cur) s'
  end.

Definition py_split (sep : Z) (s : pystr) : list pystr := split_aux sep [] s.

(** [s.split(sep, 1)] when [sep] occurs in [s] *)
Fixpoint split_once (sep : Z) (s : pystr) : option (pystr * pystr) :=
  match s with
  | [] => None
  | c :: s' =>
      if c =? sep then Some ([], s')
      else match split_once sep s' with
           | Some (a, b) => Some (c :: a, b)
           | None => None
           end
  end.

(** [sep.join(parts)] *)
Fixpoint py_join (sep : Z) (parts : list pystr) : pystr :=
  match parts with
  | [] => []
  | [p] => p
  | p :: rest => p ++ sep :: py_join sep rest
  end.

(** [bytes.hex()] *)
Definition hex_digit (d : Z) : Z := if d <? 10 then 48 + d else 87 + d.
Definition byte_hex (b : Z) : pystr := [hex_digit (b / 16); hex_digit (b mod 16)].
Definition bytes_hex (bs : list Z) : pystr := concat (byte_hex <$> bs).

Definition hex_value (c : Z) : option Z :=
  if (48 <=? c) && (c <=? 57) then Some (c - 48)
  else if (97 <=? c) && (c <=? 102) then Some (c - 87)
  else if (65 <=? c) && (c <=? 70) then Some (c - 55)
  else None.

(** [bytes.fromhex(s)]; white space is skipped before each pair, [None] is the [ValueError]. *)
Fixpoint bytes_fromhex (s : pystr) : option (list Z) :=
  match s with
  | [] => Some []
  | c :: s' =>
      if (c =? 32) || ((9 <=? c) && (c <=? 13)) then bytes_fromhex s'
      else match s' with
           | [] => None
           | d :: s'' =>
               match hex_value c, hex_value d, bytes_fromhex s'' with
               | Some x, Some y, Some bs => Some (x * 16 + y :: bs)
               | _, _, _ => None
               end
           end
  end.

(** ** Decimal round trip *)

(** The number a digit list denotes *)
Definition dec_value (ds : list Z) : Z := fold_left (λ a d, a * 10 + d) ds 0.

Lemma dec_value_snoc ds d : dec_value (ds ++ [d]) = dec_value ds * 10 + d.
Proof. unfold dec_value. by rewrite fold_left_app. Qed.

Lemma dec_digits_spec fuel n :
  0 ≤ n < 2 ^ Z.of_nat fuel →
  (0 < fuel)%nat →
  dec_value (dec_digits fuel n) = n ∧ dec_digits fuel n ≠ [] ∧
  Forall (λ d, 0 ≤ d < 10) (dec_digits fuel n).
Proof.
  revert n. induction fuel as [|fuel IH]; intros n Hn Hf; [lia|]. cbn [dec_digits].
  case_bool; [split; [unfold dec_value; simpl; lia|]; split; [done|]; constructor; [lia|constructor]|].
  assert (0 ≤ n / 10 < 2 ^ Z.of_nat fuel).
  { rewrite Nat2Z.inj_succ, Z.pow_succ_r in Hn by lia.
    split; [apply Z.div_pos; lia|]. apply Z.div_lt_upper_bound; lia. }
  assert (0 < fuel)%nat.
  { destruct fuel; [|lia]. change (2 ^ Z.of_nat 0) with 1 in *. 
    assert (1 ≤ n / 10) by (apply Z.div_le_lower_bound; lia). lia. }
  destruct (IH (n / 10)) as (Hv & Hne & Hall); [done..|].
  split; [|split].
  - rewrite dec_value_snoc, Hv. pose proof (Z.div_mod n 10). lia.
  - by intros []%app_eq_nil.
  - apply Forall_app. split; [done|]. constructor; [|done]. apply Z.mod_pos_bound. lia.
Qed.

Lemma nat_str_spec n :
  0 ≤ n → ∃ ds, nat_str n = (λ d, 48 + d) <$> ds ∧ dec_value ds = n ∧ ds ≠ [] ∧
    Forall (λ d, 0 ≤ d < 10) ds.
Proof.
  intros Hn. exists (dec_digits (S (Z.to_nat (Z.log2 n))) n). split; [done|].
  apply dec_digits_spec; [|lia]. split; [done|].
  rewrite Nat2Z.inj_succ, Z2Nat.id by apply Z.log2_nonneg.
  destruct (decide (n = 0)) as [->|]; [done|]. apply Z.log2_spec. lia.
Qed.

Lemma nat_str_digits n : 0 ≤ n → Forall (λ c, is_digit c = true) (nat_str n) ∧ nat_str n ≠ [].
Proof.
  intros (ds & -> & _ & Hne & Hds)%nat_str_spec. split.
  - apply Forall_fmap. eapply Forall_impl; [done|]. cbv beta. intros d Hd. unfold compose, is_digit. lia.
  - by destruct ds.
Qed.

Lemma parse_digits_value b acc ds :
  Forall (λ d, 0 ≤ d < 10) ds → b = true ∨ ds ≠ [] →
  parse_digits b acc ((λ d, 48 + d) <$> ds) = Some (fold_left (λ a d, a * 10 + d) ds acc).
Proof.
  intros Hds. revert b acc. induction Hds as [|d ds Hd Hds IH]; intros b acc Hb.
  { destruct Hb as [->|]; done. }
  rewrite fmap_cons. cbn [parse_digits]. unfold is_digit. 
  destruct (Z.leb_spec 48 (48 + d)), (Z.leb_spec (48 + d) 57); simpl; try lia.
  rewrite IH by by left. do 2 f_equal. lia.
Qed.

Lemma strip_digits s : Forall (λ c, is_digit c = true) s → strip s = s.
Proof.
  assert (∀ c, is_digit c = true → is_space c = false) as Hds.
  { intros c. unfold is_digit, is_space. lia. }
  assert (∀ l, Forall (λ c, is_digit c = true) l → lstrip l = l) as Hl.
  { intros l [|c l' Hc _]; [done|]. simpl. by rewrite Hds. }
  intros Hs. unfold strip. rewrite (Hl s) by done. rewrite Hl by by apply Forall_reverse.
  apply reverse_involutive.
Qed.

Lemma py_int_nat_str n : 0 ≤ n → py_int (nat_str n) = Some n.
Proof.
  intros Hn. destruct (nat_str_digits n Hn) as [Hd Hne].
  destruct (nat_str_spec n Hn) as (ds & E & Hv & Hne' & Hds). unfold py_int.
  rewrite strip_digits by done. destruct (nat_str n) as [|c s] eqn:En; [done|].
  apply Forall_cons in Hd as [Hc _]. unfold is_digit, ch_minus, ch_plus in *.
  case_bool; [lia|]. case_bool; [lia|].
  rewrite E, parse_digits_value by auto. by rewrite <-Hv at 1.
Qed.

Lemma lstrip_nonspace c s : is_space c = false → lstrip (c :: s) = c :: s.
Proof. simpl. by intros ->. Qed.

(** [int(str(n)) = n] *)
Lemma py_int_str n : py_int (py_str n) = Some n.
Proof.
  unfold py_str. case_bool; [|apply py_int_nat_str; lia].
  destruct (nat_str_spec (- n)) as (ds & E & Hv & Hne & Hds); [lia|].
  destruct (nat_str_digits (- n)) as [Hd _]; [lia|].
  unfold py_int. assert (strip (ch_minus :: nat_str (- n)) = ch_minus :: nat_str (- n)) as ->.
  { unfold strip. rewrite lstrip_nonspace by done. rewrite reverse_cons.
    assert (lstrip (reverse (nat_str (- n)) ++ [ch_minus]) = reverse (nat_str (- n)) ++ [ch_minus]) as ->.
    { apply Forall_reverse in Hd. destruct Hd as [|c l Hc _]; [done|]. simpl.
      assert (is_space c = false) as -> by (revert Hc; unfold is_digit, is_space; lia). done. }
    rewrite reverse_app, reverse_involutive. done. }
  rewrite Z.eqb_refl, E, parse_digits_value by auto. simpl. f_equal. unfold dec_value in Hv. lia.
Qed.

(** ** Splitting and joining *)

Lemma split_aux_nosep sep cur p rest :
  sep ∉ p → split_aux sep cur (p ++ sep :: rest) = (reverse cur ++ p) :: py_split sep rest.
Proof.
  revert cur. induction p as [|c p IH]; intros cur Hp; simpl.
  { rewrite Z.eqb_refl, app_nil_r. done. }
  apply not_elem_of_cons in Hp as [? ?]. case_bool; [congruence|].
  rewrite IH by done. by rewrite reverse_cons, <-app_assoc.
Qed.

Lemma split_aux_end sep cur p : sep ∉ p → split_aux sep cur p = [reverse cur ++ p].
Proof.
  revert cur. induction p as [|c p IH]; intros cur Hp; simpl; [by rewrite app_nil_r|].
  apply not_elem_of_cons in Hp as [? ?]. case_bool; [congruence|].
  rewrite IH by done. by rewrite reverse_cons, <-app_assoc.
Qed.

(** [sep.join(parts).split(sep) == parts] when no part contains [sep] *)
Lemma py_split_join sep parts :
  parts ≠ [] → Forall (λ p, sep ∉ p) parts → py_split sep (py_join sep parts) = parts.
Proof.
  intros Hne Hp. induction Hp as [|p [|q parts] Hp Hps IH]; [done| |].
  - simpl. unfold py_split. by rewrite split_aux_end.
  - change (py_join sep (p :: q :: parts)) with (p ++ sep :: py_join sep (q :: parts)).
    unfold py_split. rewrite split_aux_nosep by done. simpl. f_equal. by apply IH.
Qed.

Lemma split_once_app sep p rest : sep ∉ p → split_once sep (p ++ sep :: rest) = Some (p, rest).
Proof.
  induction p as [|c p IH]; intros Hp; simpl; [by rewrite Z.eqb_refl|].
  apply not_elem_of_cons in Hp as [? ?]. case_bool; [congruence|]. by rewrite IH.
Qed.

Lemma nat_str_nosep sep n : 0 ≤ n → is_digit sep = false → sep ∉ nat_str n.
Proof.
  intros Hn Hs Hin. destruct (nat_str_digits n Hn) as [Hd _].
  rewrite Forall_forall in Hd. apply Hd in Hin. congruence.
Qed.

Lemma py_str_nosep sep n : is_digit sep = false → sep ≠ ch_minus → sep ∉ py_str n.
Proof.
  intros Hs Hm. unfold py_str. case_bool.
  - apply not_elem_of_cons. split; [done|]. apply nat_str_nosep; [lia|done].
  - apply nat_str_nosep; [lia|done].
Qed.

(** ** Hexadecimal round trip *)

Lemma hex_value_digit d : 0 ≤ d < 16 → hex_value (hex_digit d) = Some d.
Proof.
  intros Hd. unfold hex_digit, hex_value. case_bool.
  - assert ((48 <=? 48 + d) && (48 + d <=? 57) = true) as -> by lia. f_equal. lia.
  - assert ((48 <=? 87 + d) && (87 + d <=? 57) = false) as -> by lia.
    assert ((97 <=? 87 + d) && (87 + d <=? 102) = true) as -> by lia. f_equal. lia.
Qed.

(** [bytes.fromhex(b.hex()) == b] *)
Lemma bytes_fromhex_hex bs :
  Forall (λ b, 0 ≤ b < 256) bs → bytes_fromhex (bytes_hex bs) = Some bs.
Proof.
  induction 1 as [|b bs Hb Hbs IH]; [done|].
  unfold bytes_hex in *. rewrite fmap_cons. cbn [concat byte_hex app bytes_fromhex].
  pose proof (Z.div_mod b 16). pose proof (Z.mod_pos_bound b 16).
  assert (0 ≤ b / 16 < 16) by (split; [apply Z.div_pos; lia|apply Z.div_lt_upper_bound; lia]).
  assert ((hex_digit (b / 16) =? 32) || ((9 <=? hex_digit (b / 16)) && (hex_digit (b / 16) <=? 13)) = false) as ->.
  { unfold hex_digit. case_bool; lia. }
  rewrite !hex_value_digit, IH by lia. do 2 f_equal. lia.
Qed.
