(* ===== verification/MetadataEncoder.v ===== *)
(** * Commit metadata ([control_plane/metadata_encoder.py])

    Sparse completed offsets travel with a Kafka commit as a short text: run
    lengths ("R1-3,5") or a bit set relative to a base ("B1:17"), whichever is
    shorter, or "O" when neither fits.  The theorem that matters is the round
    trip: what is decoded on the next assignment is what was encoded. *)

From S2P Require Import Prelude PyText.

(** ** Encoding *)

(** [sorted(list(offsets))] *)
Definition sorted_offsets (offsets : gset Z) : list Z := merge_sort Z.le (elements offsets).

(** One run of [_rle_encode_offsets] *)
Definition run_str (run_start run_end : Z) : pystr :=
  if run_start =? run_end then py_str run_start
  else py_str run_start ++ ch_minus :: py_str run_end.

(** The [for] loop over the rest of the sorted offsets, the last run appended after it *)
Fixpoint rle_loop (run_start run_end : Z) (rest : list Z) : list pystr :=
  match rest with
  | [] => [run_str run_start run_end]
  | x :: rest' =>
      if x =? run_end + 1 then rle_loop run_start x rest'
      else run_str run_start run_end :: rle_loop x x rest'
  end.

Definition rle_encode_offsets (offsets : gset Z) : pystr :=
  match sorted_offsets offsets with
  | [] => []
  | x :: rest => py_join ch_comma (rle_loop x x rest)
  end.

(** [bit_bytes[rel // 8] |= 1 << (rel % 8)] *)
Definition set_bit (bit_bytes : list Z) (rel : Z) : list Z :=
  alter (λ b, Z.lor b (Z.shiftl 1 (rel mod 8))) (Z.to_nat (rel / 8)) bit_bytes.

(** [sorted([offset - base_offset for offset in offsets if offset >= base_offset])] *)
Definition relative_offsets (offsets : gset Z) (base_offset : Z) : list Z :=
  merge_sort Z.le ((λ o, o - base_offset) <$> filter (λ o, base_offset ≤ o) (elements offsets)).

(** [_bitset_encode_offsets]; the empty string means that the bit set is too long. *)
Definition bitset_encode_offsets (max_metadata_size : Z) (offsets : gset Z) (base_offset : Z) : pystr :=
  let prefix := py_str base_offset ++ [ch_colon] in
  let rels := relative_offsets offsets base_offset in
  match last rels with
  | None => prefix
  | Some max_relative_offset =>
      let byte_length := (max_relative_offset + 1 + 7) / 8 in
      if max_metadata_size <? byte_length then []
      else prefix ++
           bytes_hex (fold_left set_bit rels (replicate (Z.to_nat byte_length) 0))
  end.

Definition ch_R : Z := 82.
Definition ch_B : Z := 66.
Definition ch_O : Z := 79.

Definition encode_metadata (max_metadata_size : Z) (offsets : gset Z) (base_offset : Z) : pystr :=
  let rle_payload := ch_R :: rle_encode_offsets offsets in
  let bitset_encoded := bitset_encode_offsets max_metadata_size offsets base_offset in
  let bitset_payload := if decide (bitset_encoded = []) then None else Some (ch_B :: bitset_encoded) in
  let too_long s := max_metadata_size <? zlen s in
  if too_long rle_payload &&
     match bitset_payload with None => true | Some b => too_long b end
  then [ch_O]
  else if too_long rle_payload then default [ch_O] bitset_payload
  else match bitset_payload with
       | None => rle_payload
       | Some b =>
           if too_long b then rle_payload
           else if zlen rle_payload <=? zlen b then rle_payload else b
       end.

(** ** Decoding *)

(** One comma-separated part; [None] is a [ValueError] of [int] or of the unpacking. *)
Definition decode_part (part : pystr) : option (list Z) :=
  if decide (ch_minus ∈ part) then
    match py_split ch_minus part with
    | [a; b] =>
        match py_int a, py_int b with
        | Some first, Some last => Some (py_range first (last + 1))
        | _, _ => None
        end
    | _ => None
    end
  else (λ n, [n]) <$> py_int part.

Definition rle_decode_offsets (encoded_str : pystr) : option (gset Z) :=
  if decide (encoded_str = []) then Some ∅
  else (λ l, list_to_set (concat l)) <$> mapM decode_part (py_split ch_comma encoded_str).

(** The offsets of one byte: [byte & (1 << bit_index)] for [bit_index in range(8)] *)
Definition byte_offsets (base_offset byte_index byte : Z) : list Z :=
  if byte =? 0 then []
  else (λ bit_index, base_offset + byte_index * 8 + bit_index) <$>
         filter (λ bit_index, Z.land byte (Z.shiftl 1 bit_index) ≠ 0) (py_range 0 8).

Fixpoint bytes_offsets (base_offset byte_index : Z) (bit_bytes : list Z) : list Z :=
  match bit_bytes with
  | [] => []
  | byte :: rest => byte_offsets base_offset byte_index byte
                      ++ bytes_offsets base_offset (byte_index + 1) rest
  end.

Definition bitset_decode_offsets (encoded_str : pystr) : gset Z :=
  match split_once ch_colon encoded_str with
  | None => ∅
  | Some (base_offset_str, bit_hex) =>
      match py_int base_offset_str, bytes_fromhex bit_hex with
      | Some base_offset, Some bit_bytes => list_to_set (bytes_offsets base_offset 0 bit_bytes)
      | _, _ => ∅
      end
  end.

Definition decode_metadata (metadata : pystr) : gset Z :=
  match metadata with
  | [] => ∅
  | encoding_type :: encoded_payload =>
      if encoding_type =? ch_R then default ∅ (rle_decode_offsets encoded_payload)
      else if encoding_type =? ch_B then bitset_decode_offsets encoded_payload
      else ∅
  end.

(** ** Sorted offsets *)

Lemma merge_sort_strict (l : list Z) : NoDup l → StronglySorted Z.lt (merge_sort Z.le l).
Proof.
  intros Hnd. rewrite <-(merge_sort_Permutation Z.le l) in Hnd.
  pose proof (StronglySorted_merge_sort Z.le l) as Hs. revert Hnd Hs.
  generalize (merge_sort Z.le l). clear l. intros l Hnd Hs.
  induction Hs as [|x l Hl IH Hx]; [constructor|].
  apply NoDup_cons in Hnd as [Hnin Hnd]. constructor; [auto|].
  rewrite Forall_forall in *. intros y Hy. specialize (Hx _ Hy).
  destruct (decide (x = y)) as [->|]; [done|lia].
Qed.

Lemma elem_of_merge_sort x (l : list Z) : x ∈ merge_sort Z.le l ↔ x ∈ l.
Proof. by rewrite merge_sort_Permutation. Qed.

(** ** Run lengths *)

Lemma run_str_no_comma a b : 0 ≤ a → 0 ≤ b → ch_comma ∉ run_str a b.
Proof.
  intros. unfold run_str. assert (∀ n, ch_comma ∉ py_str n) as Hn by by intros; apply py_str_nosep.
  case_bool; [done|]. rewrite elem_of_app, elem_of_cons. intros [?|[?|?]]; [by eapply Hn|done|by eapply Hn].
Qed.

Lemma py_str_nonneg n : 0 ≤ n → py_str n = nat_str n.
Proof. intros. unfold py_str. case_bool; [lia|done]. Qed.

Lemma decode_run a b : 0 ≤ a ≤ b → decode_part (run_str a b) = Some (py_range a (b + 1)).
Proof.
  intros Hab. assert (∀ n, 0 ≤ n → ch_minus ∉ nat_str n) as Hm by by intros; apply nat_str_nosep.
  unfold run_str, decode_part. rewrite !py_str_nonneg by lia.
  destruct (Z.eqb_spec a b) as [->|].
  - case_decide as Hin; [by apply Hm in Hin; [|lia]|].
    rewrite py_int_nat_str by lia. simpl. f_equal. unfold py_range.
    by replace (b + 1 - b) with 1 by lia.
  - case_decide as Hin; [|destruct Hin; rewrite elem_of_app, elem_of_cons; auto].
    unfold py_split. rewrite split_aux_nosep by (apply Hm; lia). unfold py_split.
    rewrite split_aux_end by (apply Hm; lia). simpl. rewrite !py_int_nat_str by lia. done.
Qed.

Lemma rle_loop_no_comma a b l :
  0 ≤ a → 0 ≤ b → Forall (λ x, 0 ≤ x) l → Forall (λ p, ch_comma ∉ p) (rle_loop a b l).
Proof.
  intros Ha Hb Hl. revert a b Ha Hb. induction Hl as [|x l Hx Hl IH]; intros a b Ha Hb; simpl.
  - constructor; [by apply run_str_no_comma|constructor].
  - case_bool; [auto|]. constructor; [by apply run_str_no_comma|auto].
Qed.

Lemma rle_loop_nonempty a b l : rle_loop a b l ≠ [].
Proof. revert a b. induction l as [|x l IH]; intros a b; simpl; [done|]. by case_bool. Qed.

(** The runs of a strictly increasing list decode to its elements. *)
Lemma rle_loop_decode a b l :
  0 ≤ a ≤ b → StronglySorted Z.lt l → (∀ x, x ∈ l → b < x) →
  ∃ xss, mapM decode_part (rle_loop a b l) = Some xss ∧
    ∀ x, x ∈ concat xss ↔ a ≤ x ≤ b ∨ x ∈ l.
Proof.
  intros Hab Hs. revert a b Hab. induction Hs as [|y l Hl IH Hy]; intros a b Hab Hb; simpl.
  - rewrite decode_run by done. simpl. eexists; split; [done|]. intros x. simpl.
    rewrite app_nil_r, elem_of_py_range, elem_of_nil. lia.
  - rewrite Forall_forall in Hy. assert (b < y) by (apply Hb; left).
    destruct (Z.eqb_spec y (b + 1)) as [->|].
    + destruct (IH a (b + 1)) as (xss & Hx & Hin); [lia|auto|]. exists xss. split; [done|].
      intros x. rewrite Hin, elem_of_cons.
      assert (a ≤ x ≤ b + 1 ↔ a ≤ x ≤ b ∨ x = b + 1) by lia. tauto.
    + destruct (IH y y) as (xss & Hx & Hin); [lia|auto|].
      simpl. rewrite decode_run, Hx by done. simpl. eexists; split; [done|].
      intros x. simpl. rewrite elem_of_app, Hin, elem_of_py_range, elem_of_cons.
      assert (y ≤ x ≤ y ↔ x = y) by lia. assert (a ≤ x < b + 1 ↔ a ≤ x ≤ b) by lia. tauto.
Qed.

Lemma rle_roundtrip X :
  (∀ o, o ∈ X → 0 ≤ o) → rle_decode_offsets (rle_encode_offsets X) = Some X.
Proof.
  intros HX. unfold rle_encode_offsets, rle_decode_offsets.
  assert (∀ o, o ∈ sorted_offsets X ↔ o ∈ X) as Hin.
  { intros o. unfold sorted_offsets. by rewrite elem_of_merge_sort, elem_of_elements. }
  assert (StronglySorted Z.lt (sorted_offsets X)) as Hs
    by (apply merge_sort_strict, NoDup_elements).
  destruct Hs as [|x l Hl Hx].
  { case_decide; [|done]. f_equal. symmetry. apply elem_of_equiv_empty_L.
    intros o Ho%Hin. set_solver. }
  rewrite Forall_forall in Hx. assert (0 ≤ x) by (apply HX, Hin; left).
  assert (Forall (λ p, ch_comma ∉ p) (rle_loop x x l)) as Hnc.
  { apply rle_loop_no_comma; [done..|]. apply Forall_forall. intros y Hy. apply HX, Hin. by right. }
  case_decide as Hempty.
  { exfalso. pose proof (py_split_join ch_comma _ (rle_loop_nonempty x x l) Hnc) as E.
    rewrite Hempty in E. destruct (rle_loop_decode x x l) as (xss & E' & _); [lia|done..|].
    rewrite <-E in E'. done. }
  rewrite py_split_join by (done || apply rle_loop_nonempty).
  destruct (rle_loop_decode x x l) as (xss & -> & Hxs); [lia|done..|].
  simpl. f_equal. apply set_eq. intros o. rewrite elem_of_list_to_set, Hxs, <-Hin, elem_of_cons.
  assert (x ≤ o ≤ x ↔ o = x) by lia. tauto.
Qed.

(** ** Bit sets *)

(** Bit [r] of a byte list, least significant bit of the first byte first *)
Definition bit_at (bs : list Z) (r : Z) : Prop :=
  ∃ b, bs !! Z.to_nat (r / 8) = Some b ∧ Z.testbit b (r mod 8) = true.

Lemma land_shiftl_testbit b k : 0 ≤ k → Z.land b (Z.shiftl 1 k) ≠ 0 ↔ Z.testbit b k = true.
Proof.
  intros Hk. rewrite Z.shiftl_1_l. split.
  - intros Hne. destruct (Z.testbit b k) eqn:E; [done|]. destruct Hne.
    apply Z.bits_inj'. intros n Hn. rewrite Z.land_spec, Z.pow2_bits_eqb, Z.bits_0 by done.
    destruct (Z.eqb_spec k n) as [->|]; [by rewrite E|apply andb_false_r].
  - intros E H0. apply (f_equal (λ x, Z.testbit x k)) in H0. simpl in H0.
    rewrite Z.land_spec, E, Z.pow2_bits_true, Z.bits_0 in H0 by done. done.
Qed.

Lemma div8_mod8 r q k : 0 ≤ k < 8 → r = q * 8 + k → r / 8 = q ∧ r mod 8 = k.
Proof. intros Hk ->. split; [symmetry; apply (Z.div_unique _ _ _ k)|symmetry; apply (Z.mod_unique _ _ q)]; lia. Qed.

Lemma set_bit_spec bs rel r :
  0 ≤ rel → 0 ≤ r → (Z.to_nat (rel / 8) < length bs)%nat →
  bit_at (set_bit bs rel) r ↔ r = rel ∨ bit_at bs r.
Proof.
  intros Hrel Hr Hlen. unfold bit_at, set_bit.
  pose proof (Z.div_mod r 8). pose proof (Z.div_mod rel 8).
  pose proof (Z.mod_pos_bound r 8). pose proof (Z.mod_pos_bound rel 8).
  pose proof (Z.div_pos r 8). pose proof (Z.div_pos rel 8).
  destruct (decide (r / 8 = rel / 8)) as [Hq|Hq].
  - rewrite Hq, list_lookup_alter_eq.
    destruct (lookup_lt_is_Some_2 bs (Z.to_nat (rel / 8))) as [b Hb]; [done|]. rewrite Hb. simpl.
    assert (Z.testbit (Z.lor b (Z.shiftl 1 (rel mod 8))) (r mod 8) =
      Z.testbit b (r mod 8) || (rel mod 8 =? r mod 8)) as E.
    { rewrite Z.lor_spec, Z.shiftl_1_l, Z.pow2_bits_eqb by lia. done. }
    split.
    + intros (? & [= <-] & Ht). rewrite E in Ht. apply orb_true_iff in Ht as [?|?%Z.eqb_eq]; [by right; eauto|left; lia].
    + intros [->|(b' & [= <-] & Ht)]; (eexists; split; [done|]); rewrite E; apply orb_true_iff.
      * right. apply Z.eqb_refl.
      * by left.
  - rewrite list_lookup_alter_ne by lia. split; [by right|]. intros [->|]; [done|done].
Qed.

Lemma set_bits_spec rels bs r :
  0 ≤ r → Forall (λ x, 0 ≤ x ∧ (Z.to_nat (x / 8) < length bs)%nat) rels →
  bit_at (fold_left set_bit rels bs) r ↔ r ∈ rels ∨ bit_at bs r.
Proof.
  intros Hr. revert bs. induction rels as [|x rels IH]; intros bs Hall; cbn [fold_left].
  { split; [by right|]. intros [?%elem_of_nil|?]; done. }
  apply Forall_cons in Hall as [[Hx Hl] Hall]. rewrite IH.
  - rewrite set_bit_spec, elem_of_cons by done. tauto.
  - unfold set_bit. by rewrite length_alter.
Qed.

Lemma set_bits_bytes rels bs :
  Forall (λ b, 0 ≤ b < 256) bs → Forall (λ x, 0 ≤ x) rels →
  Forall (λ b, 0 ≤ b < 256) (fold_left set_bit rels bs).
Proof.
  intros Hbs Hrels. revert bs Hbs. induction Hrels as [|x rels Hx Hrels IH]; intros bs Hbs; [done|].
  cbn [fold_left]. apply IH. unfold set_bit. apply Forall_alter; [done|]. cbv beta. intros b _ Hb.
  pose proof (Z.mod_pos_bound x 8). rewrite Z.shiftl_1_l.
  assert (0 ≤ Z.lor b (2 ^ (x mod 8))) by (apply Z.lor_nonneg; split; [lia|apply Z.pow_nonneg; lia]).
  split; [done|]. change 256 with (2 ^ 8). apply (Z.bounded_iff_bits_nonneg 8); [lia..|].
  intros l Hl. rewrite Z.lor_spec, Z.pow2_bits_eqb by lia.
  rewrite (proj1 (Z.bounded_iff_bits_nonneg 8 b ltac:(lia) ltac:(lia)) ltac:(lia) l) by lia.
  simpl. lia.
Qed.

Lemma elem_of_byte_offsets base i b x :
  x ∈ byte_offsets base i b ↔ ∃ k, 0 ≤ k < 8 ∧ Z.testbit b k = true ∧ x = base + i * 8 + k.
Proof.
  unfold byte_offsets. destruct (Z.eqb_spec b 0) as [->|].
  { split; [by intros ?%elem_of_nil|]. intros (k & _ & Hk & _). by rewrite Z.bits_0 in Hk. }
  rewrite list_elem_of_fmap. split.
  - intros (k & -> & [Hk Hr%elem_of_py_range]%list_elem_of_filter). exists k.
    rewrite <-land_shiftl_testbit by lia. done.
  - intros (k & Hr & Hk & ->). exists k. split; [done|]. apply list_elem_of_filter.
    rewrite land_shiftl_testbit, elem_of_py_range by lia. done.
Qed.

Lemma elem_of_bytes_offsets base i bs x :
  x ∈ bytes_offsets base i bs ↔ base + i * 8 ≤ x ∧ bit_at bs (x - base - i * 8).
Proof.
  revert i. induction bs as [|b bs IH]; intros i; simpl.
  { split; [by intros ?%elem_of_nil|]. by intros [_ (b & ? & _)]. }
  rewrite elem_of_app, elem_of_byte_offsets, IH. unfold bit_at. split.
  - intros [(k & Hk & Ht & ->)|[Hx (c & Hc & Ht)]].
    + split; [lia|]. destruct (div8_mod8 (base + i * 8 + k - base - i * 8) 0 k) as [-> ->]; [lia..|].
      exists b. done.
    + split; [lia|]. pose proof (Z.div_mod (x - base - (i + 1) * 8) 8).
      pose proof (Z.mod_pos_bound (x - base - (i + 1) * 8) 8).
      pose proof (Z.div_pos (x - base - (i + 1) * 8) 8).
      destruct (div8_mod8 (x - base - i * 8) ((x - base - (i + 1) * 8) / 8 + 1)
        ((x - base - (i + 1) * 8) mod 8)) as [-> ->]; [lia..|].
      exists c. split; [|done]. by rewrite Z2Nat.inj_add, Nat.add_1_r by lia.
  - intros [Hx (c & Hc & Ht)]. set (r := x - base - i * 8) in *.
    pose proof (Z.div_mod r 8). pose proof (Z.mod_pos_bound r 8). pose proof (Z.div_pos r 8).
    destruct (decide (r / 8 = 0)) as [E|E].
    + left. rewrite E in Hc. simplify_eq/=. exists (r mod 8). split; [lia|]. split; [done|lia].
    + right. split; [lia|].
      destruct (div8_mod8 (x - base - (i + 1) * 8) (r / 8 - 1) (r mod 8)) as [-> ->]; [lia..|].
      exists c. split; [|done]. rewrite <-Hc.
      by replace (Z.to_nat (r / 8)) with (S (Z.to_nat (r / 8 - 1))) by lia.
Qed.

Lemma elem_of_relative_offsets X base r :
  r ∈ relative_offsets X base ↔ 0 ≤ r ∧ base + r ∈ X.
Proof.
  unfold relative_offsets. rewrite elem_of_merge_sort, list_elem_of_fmap. split.
  - intros (o & -> & [? ?%elem_of_elements]%list_elem_of_filter).
    split; [lia|]. by replace (base + (o - base)) with o by lia.
  - intros [Hr Hx]. exists (base + r). split; [lia|]. apply list_elem_of_filter.
    rewrite elem_of_elements. split; [lia|done].
Qed.

Lemma relative_offsets_last X base m :
  last (relative_offsets X base) = Some m →
  0 ≤ m ∧ ∀ r, r ∈ relative_offsets X base → r ≤ m.
Proof.
  intros Hlast. assert (m ∈ relative_offsets X base) as Hm.
  { apply last_Some in Hlast as [l ->]. set_solver. }
  split; [apply elem_of_relative_offsets in Hm; tauto|]. intros r Hr.
  pose proof (StronglySorted_merge_sort Z.le ((λ o, o - base) <$> filter (λ o, base ≤ o) (elements X))) as Hs.
  fold (relative_offsets X base) in Hs. apply last_Some in Hlast as [l Hl]. rewrite Hl in *.
  apply elem_of_app in Hr as [Hr|Hr%list_elem_of_singleton]; [|lia].
  eapply (StronglySorted_app_1_elem_of Z.le l [m]); [done..|]. by apply list_elem_of_singleton.
Qed.

(** The byte array built from the relative offsets has exactly their bits set. *)
Lemma bitset_bytes_spec X base m r :
  last (relative_offsets X base) = Some m → 0 ≤ r →
  bit_at (fold_left set_bit (relative_offsets X base)
            (replicate (Z.to_nat ((m + 1 + 7) / 8)) 0)) r ↔ base + r ∈ X.
Proof.
  intros [Hm Hle]%relative_offsets_last Hr. rewrite set_bits_spec; [|done|].
  - rewrite elem_of_relative_offsets. split; [|by left].
    intros [[_ ?]|(b & Hb & Ht)]; [done|]. apply lookup_replicate in Hb as [-> _].
    by rewrite Z.bits_0 in Ht.
  - apply Forall_forall. intros x Hx. rewrite length_replicate. pose proof (Hle _ Hx).
    apply elem_of_relative_offsets in Hx as [Hx _]. split; [done|].
    assert (m / 8 < (m + 1 + 7) / 8).
    { replace (m + 1 + 7) with (m + 1 * 8) by lia. rewrite Z.div_add by lia. lia. }
    assert (x / 8 ≤ m / 8) by (apply Z.div_le_mono; lia).
    assert (0 ≤ x / 8) by (apply Z.div_pos; lia). lia.
Qed.

Lemma bitset_roundtrip max X base :
  bitset_encode_offsets max X base ≠ [] →
  bitset_decode_offsets (bitset_encode_offsets max X base) = filter (λ o, base ≤ o) X.
Proof.
  unfold bitset_encode_offsets, bitset_decode_offsets.
  assert (∀ l, split_once ch_colon ((py_str base ++ [ch_colon]) ++ l) = Some (py_str base, l)) as Hsplit.
  { intros l. rewrite <-app_assoc. simpl. apply split_once_app. by apply py_str_nosep. }
  destruct (last (relative_offsets X base)) as [m|] eqn:Hlast.
  - case_bool; [done|]. intros _. rewrite Hsplit, py_int_str, bytes_fromhex_hex.
    2: { apply set_bits_bytes; [apply Forall_replicate; lia|]. apply Forall_forall.
         intros x [? _]%elem_of_relative_offsets. done. }
    apply set_eq. intros o. rewrite elem_of_list_to_set, elem_of_bytes_offsets, elem_of_filter.
    replace (o - base - 0 * 8) with (o - base) by lia.
    pose proof (bitset_bytes_spec X base m (o - base) Hlast) as Hb.
    replace (base + (o - base)) with o in Hb by lia.
    split; intros [? ?]; (split; [lia|apply Hb; [lia|done]]).
  - apply last_None in Hlast. intros _. rewrite <-(app_nil_r (_ ++ _)), Hsplit, py_int_str.
    simpl. symmetry. apply elem_of_equiv_empty_L. intros o [Ho Hx]%elem_of_filter.
    assert (o - base ∈ relative_offsets X base) as Hin; [|rewrite Hlast in Hin; set_solver].
    apply elem_of_relative_offsets. split; [lia|]. by replace (base + (o - base)) with o by lia.
Qed.

(** The encoder returns one of the two payloads or the overflow marker. *)
Lemma encode_metadata_cases max X base :
  let e := encode_metadata max X base in
  let b := bitset_encode_offsets max X base in
  e = [ch_O] ∨ e = ch_R :: rle_encode_offsets X ∨ (e = ch_B :: b ∧ b ≠ []).
Proof.
  unfold encode_metadata. case_decide; simpl; repeat case_goal; simplify_eq/=; auto.
Qed.

Lemma decode_encode_subset max X base :
  (∀ o, o ∈ X → 0 ≤ o) →
  let e := encode_metadata max X base in
  e = [ch_O] ∧ decode_metadata e = ∅ ∨ decode_metadata e = X ∨
  decode_metadata e = filter (λ o, base ≤ o) X.
Proof.
  intros HX e. destruct (encode_metadata_cases max X base) as [He|[He|[He Hb]]]; fold e in He; rewrite He.
  - left. done.
  - right; left. change (decode_metadata _) with (default ∅ (rle_decode_offsets (rle_encode_offsets X))).
    by rewrite rle_roundtrip.
  - right; right. change (decode_metadata _) with (bitset_decode_offsets (bitset_encode_offsets max X base)).
    by apply bitset_roundtrip.
Qed.

(** Offsets at or above the base survive the round trip, or the encoder overflowed. *)
Lemma metadata_decode_exact max X base :
  (∀ o, o ∈ X → 0 ≤ o ∧ base ≤ o) →
  decode_metadata (encode_metadata max X base) =
    if decide (encode_metadata max X base = [ch_O]) then ∅ else X.
Proof.
  intros HX. assert (filter (λ o, base ≤ o) X = X) as Hf.
  { apply set_eq. intros o. rewrite elem_of_filter. naive_solver. }
  case_decide as He; [by rewrite He|].
  destruct (decode_encode_subset max X base) as [[? _]|[->| ->]]; [|done..].
  intros o Ho. by apply HX.
Qed.

(** ** Properties *)

(** C23. Round trip: decoding the metadata of a set of offsets at or above the base
    gives back exactly that set, unless the encoder gave up with the overflow
    marker, which decodes to the empty set. *)
Theorem metadata_roundtrip max X base :
  (∀ o, o ∈ X → 0 ≤ o ∧ base ≤ o) →
  decode_metadata (encode_metadata max X base) =
    if decide (encode_metadata max X base = [ch_O]) then ∅ else X.
Proof. apply metadata_decode_exact. Qed.

(** Decoded metadata never claims an offset that was not encoded, whatever the
    base: a restart can lose completions but cannot invent one. *)
Theorem metadata_never_overclaims max X base :
  (∀ o, o ∈ X → 0 ≤ o) → decode_metadata (encode_metadata max X base) ⊆ X.
Proof.
  intros HX. destruct (decode_encode_subset max X base HX) as [[_ ->]|[->| ->]]; set_solver.
Qed.

(** The encoded text fits the size limit, is no longer than either encoding
    that fits, and the overflow marker is only used when neither fits. *)
Theorem metadata_size_bound max X base :
  1 ≤ max →
  let e := encode_metadata max X base in
  let rle := ch_R :: rle_encode_offsets X in
  let bits := ch_B :: bitset_encode_offsets max X base in
  zlen e ≤ max ∧
  (zlen rle ≤ max → zlen e ≤ zlen rle) ∧
  (bitset_encode_offsets max X base ≠ [] → zlen bits ≤ max → zlen e ≤ zlen bits) ∧
  (e = [ch_O] → max < zlen rle ∧ (bitset_encode_offsets max X base = [] ∨ max < zlen bits)).
Proof.
  intros Hmax e rle bits. unfold e, encode_metadata. fold rle.
  assert (zlen [ch_O] = 1) by done. assert (rle ≠ [ch_O] ∧ bits ≠ [ch_O]) as [] by done.
  case_decide as Hb; [rewrite Hb|fold bits]; simpl; repeat case_bool; simpl;
    repeat case_bool; simpl; (split; [lia|]); (split; [lia|]);
    (split; [intros; congruence || lia|]); intros; try done; split; auto; lia.
Qed.

(** ** Witnesses *)

Lemma metadata_roundtrip_witness :
  decode_metadata (encode_metadata 4000 {[11; 12; 13; 15]} 10) = {[11; 12; 13; 15]}.
Proof.
  rewrite (metadata_roundtrip 4000 {[11; 12; 13; 15]} 10).
  - rewrite decide_False; [reflexivity|]. vm_compute. discriminate.
  - intros o Ho. assert (o = 11 ∨ o = 12 ∨ o = 13 ∨ o = 15) by set_solver. lia.
Defined.

Lemma metadata_never_overclaims_witness :
  decode_metadata (encode_metadata 4 {[3; 20]} 10) ⊆ {[3; 20]}.
Proof.
  apply (metadata_never_overclaims 4 {[3; 20]} 10).
  intros o Ho. assert (o = 3 ∨ o = 20) by set_solver. lia.
Defined.

Lemma metadata_size_bound_witness : zlen (encode_metadata 4000 {[11; 12; 13; 15]} 10) ≤ 4000.
Proof. apply (metadata_size_bound 4000 {[11; 12; 13; 15]} 10). lia. Defined.
