(* ===== verification/WorkQueueTopology.v ===== *)
(** * Virtual queues and runnable keys ([control_plane/work_queue_topology.py])

    One FIFO queue per (partition, key), the ordered set of keys that may be
    scheduled, and an index from head offsets to keys.  The invariant says that
    the bookkeeping structures agree and that no queue with work in it is ever
    forgotten; it is stated relative to the set of keys an operation has taken
    out of the bookkeeping and still has to put back. *)

From S2P Require Import Prelude Dto.

(** ** [asyncio.Queue] (unbounded)

    [q_has_internals] stands for the attribute tests of [enqueue_work_items]: the
    private deque, event and waiter list are there and the queue is not shut down. *)
Record Queue := mkQueue {
  q_items : list WorkItem;
  q_unfinished_tasks : Z;
  q_has_internals : bool;
}.

Definition new_queue : Queue := mkQueue [] 0 true.

Definition q_empty (q : Queue) : bool := match q_items q with [] => true | _ => false end.
Definition q_size (q : Queue) : Z := zlen (q_items q).

Definition put_nowait (q : Queue) (w : WorkItem) : Queue :=
  mkQueue (q_items q ++ [w]) (q_unfinished_tasks q + 1) (q_has_internals q).

(** [get_nowait]: [None] is [QueueEmpty]. *)
Definition get_nowait (q : Queue) : option (WorkItem * Queue) :=
  match q_items q with
  | [] => None
  | w :: rest => Some (w, mkQueue rest (q_unfinished_tasks q) (q_has_internals q))
  end.

(** ** [RunnableQueueKeys] *)

Abbreviation RunnableQueueKeys := (odict QueueKey unit).

Definition rq_append (k : QueueKey) (r : RunnableQueueKeys) : RunnableQueueKeys := od_set k () r.
Definition rq_discard (k : QueueKey) (r : RunnableQueueKeys) : RunnableQueueKeys := od_pop k r.

(** [popleft]: [None] is the [KeyError] of [popitem] on an empty dictionary. *)
Definition rq_popleft (r : RunnableQueueKeys) : option (QueueKey * RunnableQueueKeys) :=
  match r with
  | [] => None
  | (k, _) :: r' => Some (k, r')
  end.

Definition rq_clear (r : RunnableQueueKeys) : RunnableQueueKeys := [].
Definition rq_extend (ks : list QueueKey) (r : RunnableQueueKeys) : RunnableQueueKeys :=
  fold_left (λ acc k, od_set k () acc) ks r.
Definition rq_contains (k : QueueKey) (r : RunnableQueueKeys) : bool := od_has k r.
Definition rq_count (k : QueueKey) (r : RunnableQueueKeys) : Z := if od_has k r then 1 else 0.
Definition rq_len (r : RunnableQueueKeys) : Z := zlen r.
Definition rq_iter (r : RunnableQueueKeys) : list QueueKey := od_keys r.

(** ** [WorkQueueTopology] *)

Record Topology := mkTopology {
  virtual_partition_queues : odict TopicPartition (odict PyValue Queue);
  runnable_queue_keys : RunnableQueueKeys;
  active_runnable_queue_keys : gset QueueKey;
  head_offsets : gmap QueueKey Z;
  head_queue_keys_by_offset : gmap (TopicPartition * Z) QueueKey;
}.

#[export] Instance Topology_settable : Settable Topology :=
  λ t, mkTopology (virtual_partition_queues t) (runnable_queue_keys t)
         (active_runnable_queue_keys t) (head_offsets t) (head_queue_keys_by_offset t).

Definition new_topology : Topology := mkTopology [] [] ∅ ∅ ∅.

(** [peek_queue]: [None] is the [IndexError] on an empty deque. *)
Definition peek_queue (q : Queue) : option WorkItem := head (q_items q).

Definition peek_queue_batch (q : Queue) (limit : Z) : list WorkItem :=
  if limit <=? 0 then [] else py_take limit (q_items q).

Definition enqueue_work_items (q : Queue) (work_items : list WorkItem) : Queue :=
  match work_items with
  | [] => q
  | [w] => put_nowait q w
  | _ =>
      if q_has_internals q
      then mkQueue (q_items q ++ work_items) (q_unfinished_tasks q + zlen work_items) true
      else fold_left put_nowait work_items q
  end.

Definition assign (tp : TopicPartition) (t : Topology) : Topology :=
  t <| virtual_partition_queues ::= od_set tp [] |>.

Definition deactivate_queue_key (k : QueueKey) (t : Topology) : Topology :=
  let t1 := t <| active_runnable_queue_keys ::= λ s, s ∖ {[k]} |> in
  let t2 := t1 <| head_offsets ::= delete k |> in
  let t3 :=
    match head_offsets t !! k with
    | Some head_offset => t2 <| head_queue_keys_by_offset ::= delete (k.1, head_offset) |>
    | None => t2
    end in
  t3 <| runnable_queue_keys ::= rq_discard k |>.

Definition activate_queue_key (k : QueueKey) (t : Topology) : Topology :=
  if decide (k ∈ active_runnable_queue_keys t) then t
  else t <| runnable_queue_keys ::= rq_append k |>
         <| active_runnable_queue_keys ::= λ s, {[k]} ∪ s |>.

(** [self.virtual_partition_queues.get(tp, {})] *)
Definition partition_queues (tp : TopicPartition) (t : Topology) : odict PyValue Queue :=
  default [] (od_get tp (virtual_partition_queues t)).

Definition get_queue (tp : TopicPartition) (key : PyValue) (t : Topology) : option Queue :=
  od_get key (partition_queues tp t).

(** The queue objects are shared and mutated in place: [set_queue] is the state in
    which the queue of [(tp, key)] has become [q]. *)
Definition set_queue (tp : TopicPartition) (key : PyValue) (q : Queue) (t : Topology) : Topology :=
  t <| virtual_partition_queues ::= od_set tp (od_set key q (partition_queues tp t)) |>.

Definition revoke (tp : TopicPartition) (t : Topology) : Z * Topology :=
  let removed_count := od_sum q_size (partition_queues tp t) in
  let t1 := fold_left (λ acc key, deactivate_queue_key (tp, key) acc)
              (od_keys (partition_queues tp t)) t in
  (removed_count, t1 <| virtual_partition_queues ::= od_pop tp |>).

(** [ensure_queue]: [None] is the [KeyError] of a partition that is not assigned. *)
Definition ensure_queue (tp : TopicPartition) (key : PyValue) (t : Topology) : option (Queue * Topology) :=
  match get_queue tp key t with
  | Some q => Some (q, t)
  | None =>
      if od_has tp (virtual_partition_queues t)
      then Some (new_queue, set_queue tp key new_queue t) else None
  end.

Definition cleanup_empty_queue (tp : TopicPartition) (key : PyValue) (t : Topology) : Topology :=
  match od_get tp (virtual_partition_queues t) with
  | None | Some [] => t
  | Some queues =>
      match od_get key queues with
      | Some q =>
          if q_empty q
          then (deactivate_queue_key (tp, key) t)
                 <| virtual_partition_queues ::= od_set tp (od_pop key queues) |>
          else t
      | None => t
      end
  end.

Definition refresh_queue_head (tp : TopicPartition) (key : PyValue) (q : Queue) (t : Topology) : Topology :=
  let t1 := deactivate_queue_key (tp, key) t in
  match peek_queue q with
  | None => t1
  | Some w =>
      let t2 := t1 <| head_offsets ::= <[(tp, key) := wi_offset w]> |>
                   <| head_queue_keys_by_offset ::= <[(tp, wi_offset w) := (tp, key)]> |> in
      activate_queue_key (tp, key) t2
  end.

Definition enqueue_batch (tp : TopicPartition) (key : PyValue) (work_items : list WorkItem)
    (t : Topology) : option Topology :=
  match ensure_queue tp key t with
  | None => None
  | Some (q, t1) =>
      let was_empty := q_empty q in
      let q' := enqueue_work_items q work_items in
      let t2 := set_queue tp key q' t1 in
      Some (if was_empty && negb (q_empty q') then refresh_queue_head tp key q' t2 else t2)
  end.

(** One iteration of the loop of [pick_blocking_queue_key] *)
Definition blocking_step (t : Topology) (is_queue_eligible : QueueKey → bool)
    (best : option (QueueKey * Z)) (entry : TopicPartition * option OffsetRange)
    : option (QueueKey * Z) :=
  match entry.2 with
  | None => best
  | Some gap =>
      match head_queue_keys_by_offset t !! (entry.1, range_start gap) with
      | None => best
      | Some k =>
          if negb (bool_decide (k ∈ active_runnable_queue_keys t)) then best
          else if negb (is_queue_eligible k) then best
          else match best with
               | None => Some (k, range_start gap)
               | Some (_, best_offset) =>
                   if range_start gap <? best_offset then Some (k, range_start gap) else best
               end
      end
  end.

Definition pick_blocking_queue_key (blocking_offsets : odict TopicPartition (option OffsetRange))
    (is_queue_eligible : QueueKey → bool) (t : Topology) : option QueueKey * Topology :=
  match fold_left (blocking_step t is_queue_eligible) blocking_offsets None with
  | None => (None, t)
  | Some (k, _) =>
      (Some k, t <| active_runnable_queue_keys ::= λ s, s ∖ {[k]} |>
                 <| runnable_queue_keys ::= rq_discard k |>)
  end.

(** The loop of [pick_next_runnable_queue_key] over [attempts] keys *)
Fixpoint pick_next_loop (is_queue_eligible : QueueKey → bool) (attempts : nat) (t : Topology)
    : option QueueKey * Topology :=
  match attempts with
  | O => (None, t)
  | S attempts' =>
      match rq_popleft (runnable_queue_keys t) with
      | None => (None, t)
      | Some (k, rest) =>
          let t1 := t <| runnable_queue_keys := rest |> in
          if negb (bool_decide (k ∈ active_runnable_queue_keys t1))
          then pick_next_loop is_queue_eligible attempts' t1
          else if match get_queue k.1 k.2 t1 with None => true | Some q => q_empty q end
          then pick_next_loop is_queue_eligible attempts' (deactivate_queue_key k t1)
          else if negb (is_queue_eligible k)
          then pick_next_loop is_queue_eligible attempts'
                 (t1 <| runnable_queue_keys ::= rq_append k |>)
          else (Some k, t1 <| active_runnable_queue_keys ::= λ s, s ∖ {[k]} |>)
      end
  end.

Definition pick_next_runnable_queue_key (is_queue_eligible : QueueKey → bool) (t : Topology)
    : option QueueKey * Topology :=
  pick_next_loop is_queue_eligible (length (runnable_queue_keys t)) t.

Definition pop_next_queue_key (blocking_offsets : odict TopicPartition (option OffsetRange))
    (is_queue_eligible : QueueKey → bool) (t : Topology) : option QueueKey * Topology :=
  match pick_blocking_queue_key blocking_offsets is_queue_eligible t with
  | (Some k, t1) => (Some k, t1)
  | (None, t1) => pick_next_runnable_queue_key is_queue_eligible t1
  end.

(** The common tail of both dequeue operations *)
Definition after_dequeue (tp : TopicPartition) (key : PyValue) (q : Queue) (t : Topology) : Topology :=
  let t1 := set_queue tp key q t in
  if q_empty q then cleanup_empty_queue tp key t1 else refresh_queue_head tp key q t1.

Definition dequeue_submitted_item (tp : TopicPartition) (key : PyValue) (t : Topology)
    : option WorkItem * Topology :=
  match get_queue tp key t with
  | None => (None, deactivate_queue_key (tp, key) t)
  | Some q =>
      match get_nowait q with
      | None => (None, deactivate_queue_key (tp, key) t)
      | Some (w, q') => (Some w, after_dequeue tp key q' t)
      end
  end.

(** The [for _ in range(count)] loop of [dequeue_submitted_items] *)
Fixpoint get_many (count : nat) (q : Queue) : list WorkItem * Queue :=
  match count with
  | O => ([], q)
  | S count' =>
      match get_nowait q with
      | None => ([], q)
      | Some (w, q') => let '(ws, q'') := get_many count' q' in (w :: ws, q'')
      end
  end.

Definition dequeue_submitted_items (tp : TopicPartition) (key : PyValue) (count : Z) (t : Topology)
    : list WorkItem * Topology :=
  if count <=? 0 then ([], t)
  else
    match get_queue tp key t with
    | None => ([], deactivate_queue_key (tp, key) t)
    | Some q =>
        if q_empty q then ([], deactivate_queue_key (tp, key) t)
        else let '(ws, q') := get_many (Z.to_nat count) q in (ws, after_dequeue tp key q' t)
    end.

Definition get_virtual_queue_sizes (t : Topology) : odict TopicPartition (odict PyValue Z) :=
  od_map (od_map q_size) (virtual_partition_queues t).

(** ** Specification vocabulary *)

(** The work items waiting under a key *)
Definition queue_of (t : Topology) (k : QueueKey) : list WorkItem :=
  match get_queue k.1 k.2 t with Some q => q_items q | None => [] end.

(** All items waiting in a partition dictionary *)
Definition dict_items (d : odict PyValue Queue) : Z := od_sum q_size d.

Definition total_items (t : Topology) : Z := od_sum dict_items (virtual_partition_queues t).

(** The bookkeeping invariant.  Keys in [loose] have been taken out by an operation
    in progress: their head entry may be stale and their queue may be inactive. *)
Record topo_inv (loose : gset QueueKey) (t : Topology) : Prop := {
  ti_active k : k ∈ active_runnable_queue_keys t ↔ k ∈ rq_iter (runnable_queue_keys t);
  ti_runnable_nodup : NoDup (rq_iter (runnable_queue_keys t));
  ti_active_head k : k ∈ active_runnable_queue_keys t → is_Some (head_offsets t !! k);
  ti_head k o :
    k ∉ loose → head_offsets t !! k = Some o → wi_offset <$> head (queue_of t k) = Some o;
  ti_index tp o k :
    head_queue_keys_by_offset t !! (tp, o) = Some k → k.1 = tp ∧ head_offsets t !! k = Some o;
  ti_live k : k ∉ loose → queue_of t k ≠ [] → k ∈ active_runnable_queue_keys t;
}.

(** The dictionaries have no duplicate keys. *)
Record dicts_nodup (t : Topology) : Prop := {
  dn_outer : NoDup (od_keys (virtual_partition_queues t));
  dn_inner tp d : od_get tp (virtual_partition_queues t) = Some d → NoDup (od_keys d);
}.

(** ** Queues *)

Lemma q_empty_spec q : q_empty q = true ↔ q_items q = [].
Proof. unfold q_empty. destruct (q_items q); naive_solver. Qed.

Lemma put_all_items q ws :
  fold_left put_nowait ws q =
    mkQueue (q_items q ++ ws) (q_unfinished_tasks q + zlen ws) (q_has_internals q).
Proof.
  revert q. induction ws as [|w ws IH]; intros [its n b]; cbn [fold_left].
  { simpl. unfold zlen. simpl. f_equal; [by rewrite app_nil_r|lia]. }
  rewrite IH. simpl. rewrite <-app_assoc, zlen_cons. f_equal. lia.
Qed.

(** The fast path of [enqueue_work_items] is the same as putting the items one by one. *)
Lemma enqueue_work_items_put q ws : enqueue_work_items q ws = fold_left put_nowait ws q.
Proof.
  destruct ws as [|w [|w' ws]]; [done..|]. unfold enqueue_work_items.
  destruct (q_has_internals q) eqn:E; [|done]. rewrite put_all_items. by rewrite E.
Qed.

Lemma enqueue_items q ws : q_items (enqueue_work_items q ws) = q_items q ++ ws.
Proof. by rewrite enqueue_work_items_put, put_all_items. Qed.

Lemma get_many_spec n q :
  (get_many n q).1 = take n (q_items q) ∧ q_items (get_many n q).2 = drop n (q_items q).
Proof.
  revert q. induction n as [|n IH]; intros [its m b]; simpl; [done|].
  destruct its as [|w its]; simpl; [done|].
  specialize (IH (mkQueue its m b)). destruct (get_many n _). simpl in *. naive_solver.
Qed.

(** ** Reading queues after an update *)

Lemma partition_queues_set tp tp' key q t :
  partition_queues tp' (set_queue tp key q t) =
    if decide (tp = tp') then od_set key q (partition_queues tp t) else partition_queues tp' t.
Proof. unfold partition_queues, set_queue; simpl. rewrite od_get_set. by case_decide. Qed.

Lemma get_queue_set k k' q t :
  get_queue k'.1 k'.2 (set_queue k.1 k.2 q t) =
    if decide (k = k') then Some q else get_queue k'.1 k'.2 t.
Proof.
  unfold get_queue. rewrite partition_queues_set. destruct k as [tp key], k' as [tp' key']; simpl.
  destruct (decide (tp = tp')) as [->|].
  - rewrite od_get_set. repeat case_decide; congruence.
  - case_decide; congruence.
Qed.

Lemma queue_of_set k k' q t :
  queue_of (set_queue k.1 k.2 q t) k' = if decide (k = k') then q_items q else queue_of t k'.
Proof. unfold queue_of. rewrite get_queue_set. by case_decide. Qed.

(** Operations that leave the dictionaries alone leave every queue alone. *)
Lemma queue_of_frame t t' k :
  virtual_partition_queues t' = virtual_partition_queues t → queue_of t' k = queue_of t k.
Proof. intros E. unfold queue_of, get_queue, partition_queues. by rewrite E. Qed.

Lemma deactivate_queues k t :
  virtual_partition_queues (deactivate_queue_key k t) = virtual_partition_queues t.
Proof. unfold deactivate_queue_key. by case_goal. Qed.

Lemma activate_queues k t :
  virtual_partition_queues (activate_queue_key k t) = virtual_partition_queues t.
Proof. unfold activate_queue_key. by case_decide. Qed.

Lemma refresh_queues tp key q t :
  virtual_partition_queues (refresh_queue_head tp key q t) = virtual_partition_queues t.
Proof.
  unfold refresh_queue_head. destruct (peek_queue q); [|apply deactivate_queues].
  rewrite activate_queues. simpl. apply deactivate_queues.
Qed.

Lemma queues_update f t :
  virtual_partition_queues (t <| virtual_partition_queues ::= f |>) = f (virtual_partition_queues t).
Proof. done. Qed.

Lemma queue_of_cleanup tp key k t :
  queue_of (cleanup_empty_queue tp key t) k = queue_of t k.
Proof.
  unfold cleanup_empty_queue. destruct (od_get tp _) as [d|] eqn:Ed; [|done].
  destruct d as [|p d]; [done|]. generalize dependent (p :: d); intros d' Ed.
  destruct (od_get key d') as [q|] eqn:Eq; [|done].
  destruct (q_empty q) eqn:Eqe; [|done]. apply q_empty_spec in Eqe.
  unfold queue_of, get_queue, partition_queues. rewrite queues_update, deactivate_queues, od_get_set.
  destruct (decide (tp = k.1)) as [<-|]; [|done]. simpl. rewrite od_get_pop.
  case_decide as Hk; [|by rewrite Ed]. rewrite Ed. simpl. rewrite <-Hk, Eq. by rewrite Eqe.
Qed.

(** ** The invariant under the primitive operations *)

Lemma topo_inv_mono loose loose' t : loose ⊆ loose' → topo_inv loose t → topo_inv loose' t.
Proof.
  intros Hs [H1 H2 H3 H4 H5 H6]. split; [done..| |done|].
  - intros k o Hk. apply H4. set_solver.
  - intros k Hk. apply H6. set_solver.
Qed.

(** A key whose queue is empty and that has no entry left may leave [loose]. *)
Lemma topo_inv_drop loose k t :
  head_offsets t !! k = None → queue_of t k = [] →
  topo_inv ({[k]} ∪ loose) t → topo_inv loose t.
Proof.
  intros Hh Hq [H1 H2 H3 H4 H5 H6]. split; [done..| |done|].
  - intros k' o Hk' Ho. apply H4; [|done]. assert (k' ≠ k) by congruence. set_solver.
  - intros k' Hk' Hne. apply H6; [|done]. assert (k' ≠ k) by congruence. set_solver.
Qed.

(** The bookkeeping only depends on the queues through [queue_of]. *)
Lemma topo_inv_requeue loose t t' :
  runnable_queue_keys t' = runnable_queue_keys t →
  active_runnable_queue_keys t' = active_runnable_queue_keys t →
  head_offsets t' = head_offsets t →
  head_queue_keys_by_offset t' = head_queue_keys_by_offset t →
  (∀ k, k ∉ loose → queue_of t' k = queue_of t k) →
  topo_inv loose t → topo_inv loose t'.
Proof.
  intros E1 E2 E3 E4 Eq [H1 H2 H3 H4 H5 H6]. split; rewrite ?E1, ?E2, ?E3, ?E4; [done..| |done|].
  - intros k o Hk Ho. rewrite Eq by done. auto.
  - intros k Hk. rewrite Eq by done. auto.
Qed.

Lemma topo_inv_set_queue loose k q t :
  topo_inv loose t → topo_inv ({[k]} ∪ loose) (set_queue k.1 k.2 q t).
Proof.
  intros Hi. apply (topo_inv_requeue _ t); [done..| |eapply topo_inv_mono; [|done]; set_solver].
  intros k' Hk'. rewrite queue_of_set. case_decide; [set_solver|done].
Qed.

Lemma deactivate_fields k t :
  head_offsets (deactivate_queue_key k t) = delete k (head_offsets t) ∧
  active_runnable_queue_keys (deactivate_queue_key k t) = active_runnable_queue_keys t ∖ {[k]} ∧
  runnable_queue_keys (deactivate_queue_key k t) = rq_discard k (runnable_queue_keys t).
Proof. unfold deactivate_queue_key. by case_goal. Qed.

Lemma topo_inv_deactivate loose k t :
  topo_inv loose t → topo_inv ({[k]} ∪ loose) (deactivate_queue_key k t).
Proof.
  intros [H1 H2 H3 H4 H5 H6]. destruct (deactivate_fields k t) as (E1 & E2 & E3).
  pose proof (deactivate_queues k t) as E0.
  split; rewrite ?E1, ?E2, ?E3.
  - intros k'. unfold rq_iter, rq_discard. rewrite od_keys_pop, list_elem_of_filter.
    specialize (H1 k'). unfold rq_iter in H1. set_solver.
  - unfold rq_iter, rq_discard. by apply NoDup_od_pop.
  - intros k' [Hk' Hne]%elem_of_difference. rewrite lookup_delete_ne by set_solver. auto.
  - intros k' o Hk'. rewrite lookup_delete_ne by set_solver. intros Ho.
    rewrite (queue_of_frame t) by done. apply H4; [set_solver|done].
  - intros tp o k' Hi.
    assert (head_queue_keys_by_offset t !! (tp, o) = Some k' ∧
      (k' = k → head_offsets t !! k ≠ Some o)) as [Hi' Hne].
    { revert Hi. unfold deactivate_queue_key. destruct (head_offsets t !! k) as [h|] eqn:Eh; simpl.
      - rewrite lookup_delete. case_decide as Hc; [done|]. intros Hi. split; [done|]. intros -> [= ->].
        destruct Hc. apply H5 in Hi as [-> _]. done.
      - intros Hi. split; [done|]. by intros ->. }
    apply H5 in Hi' as [? Hh]. split; [done|]. rewrite lookup_delete_ne; [done|].
    intros <-. by apply Hne.
  - intros k' Hk'. rewrite (queue_of_frame t) by done. intros Hne.
    assert (k' ∈ active_runnable_queue_keys t) by (apply H6; [set_solver|done]). set_solver.
Qed.

(** Re-reading the head of a queue puts its key back into the bookkeeping. *)
Lemma topo_inv_refresh loose k q t :
  q_items q = queue_of t k →
  topo_inv ({[k]} ∪ loose) t → topo_inv loose (refresh_queue_head k.1 k.2 q t).
Proof.
  intros Hq Hi. apply (topo_inv_deactivate _ k) in Hi.
  replace ({[k]} ∪ ({[k]} ∪ loose)) with ({[k]} ∪ loose) in Hi by set_solver.
  destruct (deactivate_fields k t) as (E1 & E2 & E3). pose proof (deactivate_queues k t) as E0.
  assert ((k.1, k.2) = k) as Ek by by destruct k.
  unfold refresh_queue_head. rewrite Ek. set (t1 := deactivate_queue_key k t) in *.
  assert (queue_of t1 k = q_items q) as Hq1 by (rewrite (queue_of_frame t); done).
  clearbody t1. destruct (peek_queue q) as [w|] eqn:Ep; unfold peek_queue in Ep.
  2: { apply (topo_inv_drop _ k); [rewrite E1; apply lookup_delete_eq|
         by destruct (q_items q)|done]. }
  destruct Hi as [H1 H2 H3 H4 H5 H6]. unfold activate_queue_key. simpl. rewrite E2.
  assert (k ∉ rq_iter (runnable_queue_keys t1)) as Hnr by (rewrite <-H1, E2; set_solver).
  assert (∀ t' k', virtual_partition_queues t' = virtual_partition_queues t1 →
    queue_of t' k' = queue_of t1 k') as Hfr by by intros; apply queue_of_frame.
  case_decide as Hin; [set_solver|]. split; simpl.
  - intros k'. unfold rq_iter, rq_append. rewrite od_keys_set. case_goal.
    + apply od_has_spec, elem_of_od_keys in Heqb. done.
    + rewrite elem_of_app, list_elem_of_singleton. specialize (H1 k'). rewrite E2 in H1.
      unfold rq_iter in H1. rewrite elem_of_union, elem_of_singleton, E2, H1. tauto.
  - unfold rq_iter, rq_append. by apply NoDup_od_set.
  - rewrite E2. intros k' Hk'. destruct (decide (k' = k)) as [->|]; [by rewrite lookup_insert_eq|].
    rewrite lookup_insert_ne by done. apply H3. rewrite E2. set_solver.
  - intros k' o Hk' Ho. rewrite Hfr by done. destruct (decide (k' = k)) as [->|].
    + rewrite lookup_insert_eq in Ho. rewrite Hq1, Ep. by simplify_eq/=.
    + rewrite lookup_insert_ne in Ho by done. apply H4; [set_solver|done].
  - intros tp o k' Hk'. rewrite lookup_insert in Hk'. case_decide; simplify_eq.
    + split; [done|]. by rewrite lookup_insert_eq.
    + apply H5 in Hk' as [? Hh]. split; [done|]. rewrite lookup_insert_ne; [done|].
      intros <-. rewrite E1, lookup_delete_eq in Hh. done.
  - rewrite E2. intros k' Hk'. rewrite Hfr by done. intros Hne.
    destruct (decide (k' = k)) as [->|]; [set_solver|].
    apply elem_of_union_r. rewrite <-E2. apply H6; [set_solver|done].
Qed.

(** ** The invariant under the public operations *)

Lemma topo_inv_new : topo_inv ∅ new_topology.
Proof. split; simpl; try set_solver; [by constructor|..]; intros; by simplify_map_eq. Qed.

Lemma cleanup_empty_eq k q d t :
  od_get k.1 (virtual_partition_queues t) = Some d → od_get k.2 d = Some q → q_items q = [] →
  cleanup_empty_queue k.1 k.2 t =
    (deactivate_queue_key k t) <| virtual_partition_queues ::= od_set k.1 (od_pop k.2 d) |>.
Proof.
  intros Ed Eq Hq. unfold cleanup_empty_queue. rewrite Ed. destruct d as [|p d]; [done|].
  rewrite Eq, (proj2 (q_empty_spec q) Hq). by destruct k.
Qed.

Lemma get_queue_Some k q t :
  get_queue k.1 k.2 t = Some q →
  ∃ d, od_get k.1 (virtual_partition_queues t) = Some d ∧ od_get k.2 d = Some q.
Proof.
  unfold get_queue, partition_queues. destruct (od_get k.1 _) as [d|]; [|done]. eauto.
Qed.

(** Cleaning up an empty queue releases its key. *)
Lemma topo_inv_cleanup_empty loose k q t :
  get_queue k.1 k.2 t = Some q → q_items q = [] →
  topo_inv ({[k]} ∪ loose) t → topo_inv loose (cleanup_empty_queue k.1 k.2 t).
Proof.
  intros Hg Hq Hi. pose proof Hg as (d & Ed & Eq)%get_queue_Some.
  pose proof (cleanup_empty_eq k q d t Ed Eq Hq) as Ec.
  apply (topo_inv_drop _ k).
  - rewrite Ec. transitivity (head_offsets (deactivate_queue_key k t) !! k); [done|].
    destruct (deactivate_fields k t) as (-> & _). apply lookup_delete_eq.
  - rewrite queue_of_cleanup. unfold queue_of. by rewrite Hg.
  - apply (topo_inv_requeue _ (deactivate_queue_key k t)); [by rewrite Ec..| |].
    + intros k' _. rewrite queue_of_cleanup. symmetry. apply queue_of_frame, deactivate_queues.
    + apply (topo_inv_deactivate _ k) in Hi.
      by replace ({[k]} ∪ ({[k]} ∪ loose)) with ({[k]} ∪ loose) in Hi by set_solver.
Qed.

Lemma cleanup_noop k t :
  match get_queue k.1 k.2 t with Some q => q_items q ≠ [] | None => True end →
  cleanup_empty_queue k.1 k.2 t = t.
Proof.
  unfold get_queue, partition_queues, cleanup_empty_queue.
  destruct (od_get k.1 (virtual_partition_queues t)) as [[|p d]|]; [done| |done].
  generalize (p :: d). intros d'. simpl. destruct (od_get k.2 d') as [q|]; [|done].
  destruct (q_empty q) eqn:E; [|done]. by apply q_empty_spec in E.
Qed.

Lemma topo_inv_cleanup loose k t :
  topo_inv loose t → topo_inv loose (cleanup_empty_queue k.1 k.2 t).
Proof.
  intros Hi. destruct (get_queue k.1 k.2 t) as [q|] eqn:Eg.
  - destruct (decide (q_items q = [])).
    + eapply topo_inv_cleanup_empty; [done..|]. eapply topo_inv_mono; [|done]. set_solver.
    + rewrite cleanup_noop; [done|]. by rewrite Eg.
  - rewrite cleanup_noop; [done|]. by rewrite Eg.
Qed.

Lemma topo_inv_after_dequeue loose k q t :
  topo_inv ({[k]} ∪ loose) t → topo_inv loose (after_dequeue k.1 k.2 q t).
Proof.
  intros Hi%(topo_inv_set_queue _ k q).
  replace ({[k]} ∪ ({[k]} ∪ loose)) with ({[k]} ∪ loose) in Hi by set_solver.
  unfold after_dequeue. destruct (q_empty q) eqn:E.
  - apply q_empty_spec in E. eapply topo_inv_cleanup_empty; [|done|done].
    rewrite get_queue_set. by case_decide.
  - apply topo_inv_refresh; [|done]. rewrite queue_of_set. by case_decide.
Qed.

Lemma queue_of_after_dequeue k k' q t :
  queue_of (after_dequeue k.1 k.2 q t) k' = if decide (k = k') then q_items q else queue_of t k'.
Proof.
  unfold after_dequeue. rewrite <-queue_of_set. destruct (q_empty q).
  - apply queue_of_cleanup.
  - apply queue_of_frame, refresh_queues.
Qed.

(** Deactivating a key without work in it loses nothing. *)
Lemma topo_inv_deactivate_idle loose k t :
  queue_of t k = [] → topo_inv ({[k]} ∪ loose) t → topo_inv loose (deactivate_queue_key k t).
Proof.
  intros Hq Hi%(topo_inv_deactivate _ k).
  replace ({[k]} ∪ ({[k]} ∪ loose)) with ({[k]} ∪ loose) in Hi by set_solver.
  apply (topo_inv_drop _ k); [|by rewrite (queue_of_frame t) by apply deactivate_queues|done].
  destruct (deactivate_fields k t) as (-> & _). apply lookup_delete_eq.
Qed.

(** [dequeue_submitted_items] hands out the front of the queue, in order. *)
Lemma dequeue_items_spec loose k count t :
  0 < count → topo_inv ({[k]} ∪ loose) t →
  let '(ws, t') := dequeue_submitted_items k.1 k.2 count t in
  topo_inv loose t' ∧ ws = py_take count (queue_of t k) ∧
  ∀ k', queue_of t' k' = if decide (k = k') then py_drop count (queue_of t k) else queue_of t k'.
Proof.
  intros Hc Hi. unfold dequeue_submitted_items. case_bool; [lia|].
  replace (k.1, k.2) with k by by destruct k.
  assert (queue_of t k = [] → 
    topo_inv loose (deactivate_queue_key k t) ∧ [] = py_take count (queue_of t k) ∧
    ∀ k', queue_of (deactivate_queue_key k t) k' =
      if decide (k = k') then py_drop count (queue_of t k) else queue_of t k') as Hidle.
  { intros Hq. split; [by apply topo_inv_deactivate_idle|]. unfold py_take, py_drop.
    rewrite Hq, take_nil, drop_nil. split; [done|]. intros k'.
    rewrite (queue_of_frame t) by apply deactivate_queues. by case_decide; subst. }
  unfold queue_of at 1 in Hidle. destruct (get_queue k.1 k.2 t) as [q|] eqn:Eg; [|by apply Hidle].
  assert (queue_of t k = q_items q) as Hq by (unfold queue_of; by rewrite Eg).
  destruct (q_empty q) eqn:Ee; [apply Hidle; by apply q_empty_spec|].
  destruct (get_many_spec (Z.to_nat count) q) as [E1 E2].
  destruct (get_many (Z.to_nat count) q) as [ws q']. simpl in E1, E2.
  split; [by apply topo_inv_after_dequeue|]. unfold py_take, py_drop. rewrite Hq.
  split; [done|]. intros k'. rewrite queue_of_after_dequeue. by case_decide.
Qed.

Lemma dequeue_item_spec loose k t :
  topo_inv ({[k]} ∪ loose) t →
  let '(w, t') := dequeue_submitted_item k.1 k.2 t in
  topo_inv loose t' ∧ w = head (queue_of t k) ∧
  ∀ k', queue_of t' k' = if decide (k = k') then tail (queue_of t k) else queue_of t k'.
Proof.
  intros Hi. unfold dequeue_submitted_item. replace (k.1, k.2) with k by by destruct k.
  assert (queue_of t k = [] → 
    topo_inv loose (deactivate_queue_key k t) ∧ None = head (queue_of t k) ∧
    ∀ k', queue_of (deactivate_queue_key k t) k' =
      if decide (k = k') then tail (queue_of t k) else queue_of t k') as Hidle.
  { intros Hq. split; [by apply topo_inv_deactivate_idle|]. rewrite Hq. split; [done|]. intros k'.
    rewrite (queue_of_frame t) by apply deactivate_queues. by case_decide; subst. }
  unfold queue_of at 1 in Hidle. destruct (get_queue k.1 k.2 t) as [q|] eqn:Eg; [|by apply Hidle].
  assert (queue_of t k = q_items q) as Hq by (unfold queue_of; by rewrite Eg).
  unfold get_nowait. destruct (q_items q) as [|w ws] eqn:Ei; [by apply Hidle|].
  split; [by apply topo_inv_after_dequeue|]. rewrite Hq. split; [done|].
  intros k'. rewrite queue_of_after_dequeue. by case_decide.
Qed.

(** [enqueue_batch] appends to one queue and keeps the bookkeeping in order. *)
Lemma enqueue_batch_spec loose k ws t t' :
  k ∉ loose → topo_inv loose t → enqueue_batch k.1 k.2 ws t = Some t' →
  topo_inv loose t' ∧
  ∀ k', queue_of t' k' = if decide (k = k') then queue_of t k ++ ws else queue_of t k'.
Proof.
  intros Hk Hi. unfold enqueue_batch, ensure_queue.
  set (q := default new_queue (get_queue k.1 k.2 t)).
  assert (q_items q = queue_of t k) as Hq.
  { unfold queue_of, q. by destruct (get_queue k.1 k.2 t). }
  assert (∀ t1, topo_inv loose t1 → queue_of t1 k = queue_of t k →
    (∀ k', k ≠ k' → queue_of t1 k' = queue_of t k') →
    let t2 := set_queue k.1 k.2 (enqueue_work_items q ws) t1 in
    let t3 := if q_empty q && negb (q_empty (enqueue_work_items q ws))
              then refresh_queue_head k.1 k.2 (enqueue_work_items q ws) t2 else t2 in
    topo_inv loose t3 ∧
    ∀ k', queue_of t3 k' = if decide (k = k') then queue_of t k ++ ws else queue_of t k') as Hmain.
  { intros t1 Hi1 Hk1 Hk1' t2 t3.
    assert (∀ k', queue_of t2 k' = if decide (k = k') then queue_of t k ++ ws else queue_of t k') as Hq2.
    { intros k'. unfold t2. rewrite queue_of_set, enqueue_items, Hq. case_decide; auto. }
    assert (topo_inv ({[k]} ∪ loose) t2) as Hi2 by by apply topo_inv_set_queue.
    unfold t3. destruct (q_empty q) eqn:Ee; simpl.
    - apply q_empty_spec in Ee. destruct (q_empty (enqueue_work_items q ws)) eqn:Ee'; simpl.
      + split; [|done]. apply (topo_inv_requeue _ t1); [done..| |done]. intros k' _.
        apply q_empty_spec in Ee'. rewrite enqueue_items, Ee in Ee'. simpl in Ee'. subst ws.
        rewrite Hq2, app_nil_r. case_decide; subst; [congruence|by rewrite Hk1'].
      + split; [|intros k'; by rewrite (queue_of_frame t2) by apply refresh_queues].
        apply topo_inv_refresh; [|done]. rewrite Hq2, enqueue_items, Hq. by case_decide.
    - split; [|done]. assert (q_items q ≠ []) as Hne by by intros ?%q_empty_spec; congruence.
      destruct Hi1 as [H1 H2 H3 H4 H5 H6]. split; simpl; [done..| |done|].
      + intros k' o Hl Ho. specialize (H4 k' o Hl Ho). rewrite Hq2. case_decide; [subst k'|by rewrite <-Hk1'].
        rewrite Hk1, <-Hq in H4. rewrite <-Hq. by destruct (q_items q).
      + intros k' Hl Hne'. rewrite Hq2 in Hne'. apply H6; [done|]. case_decide; [subst k'; congruence|].
        by rewrite Hk1'. }
  unfold q in Hmain. destruct (get_queue k.1 k.2 t) as [q0|] eqn:Eg; simpl in Hmain.
  - intros [= <-]. by apply Hmain.
  - destruct (od_has k.1 (virtual_partition_queues t)); [|done]. intros [= <-].
    assert (queue_of t k = []) as Hqk by (unfold queue_of; by rewrite Eg).
    apply Hmain.
    + apply (topo_inv_requeue _ t); [done..| |done]. intros k' _. rewrite queue_of_set.
      case_decide; [by subst|done].
    + rewrite queue_of_set. by case_decide.
    + intros k' Hk'. rewrite queue_of_set. by case_decide.
Qed.

(** ** Selecting a key *)

(** [k] is a runnable, eligible key whose head offset [o] blocks its partition. *)
Definition blocking_candidate (t : Topology) (elig : QueueKey → bool)
    (bo : odict TopicPartition (option OffsetRange)) (k : QueueKey) (o : Z) : Prop :=
  ∃ tp gap, (tp, Some gap) ∈ bo ∧ range_start gap = o ∧
    head_queue_keys_by_offset t !! (tp, o) = Some k ∧
    k ∈ active_runnable_queue_keys t ∧ elig k = true.

Lemma blocking_step_cases t elig best entry :
  (blocking_step t elig best entry = best ∧
   ∀ k o, blocking_candidate t elig [entry] k o → ∃ kb ob, best = Some (kb, ob) ∧ ob ≤ o) ∨
  (∃ k o, blocking_step t elig best entry = Some (k, o) ∧ blocking_candidate t elig [entry] k o ∧
     (∀ k' o', blocking_candidate t elig [entry] k' o' → o ≤ o') ∧
     ∀ kb ob, best = Some (kb, ob) → o < ob).
Proof.
  destruct entry as [tp [gap|]]; unfold blocking_step, blocking_candidate; simpl.
  2: { left. split; [done|]. intros k o (tp' & gap & ?%list_elem_of_singleton & _). done. }
  assert (∀ k o, (∃ tp0 gap0, (tp0, Some gap0) ∈ [(tp, Some gap)] ∧ range_start gap0 = o ∧
    head_queue_keys_by_offset t !! (tp0, o) = Some k ∧ k ∈ active_runnable_queue_keys t ∧ elig k = true) →
    o = range_start gap ∧ head_queue_keys_by_offset t !! (tp, range_start gap) = Some k ∧
    k ∈ active_runnable_queue_keys t ∧ elig k = true) as Hc.
  { intros k o (tp' & gap' & E%list_elem_of_singleton & <- & H). by simplify_eq. }
  destruct (head_queue_keys_by_offset t !! (tp, range_start gap)) as [k|] eqn:Eh.
  2: { left. split; [done|]. intros k o (_ & ? & _)%Hc. done. }
  case_bool_decide as Ha; simpl; [|left; split; [done|]; intros k' o (_ & [= <-] & ? & _)%Hc; done].
  destruct (elig k) eqn:Ee; simpl.
  2: { left. split; [done|]. intros k' o (_ & [= <-] & _ & ?)%Hc. congruence. }
  assert (∃ tp0 gap0, (tp0, Some gap0) ∈ [(tp, Some gap)] ∧ range_start gap0 = range_start gap ∧
    head_queue_keys_by_offset t !! (tp0, range_start gap) = Some k ∧
    k ∈ active_runnable_queue_keys t ∧ elig k = true) as Hcand.
  { exists tp, gap. by rewrite list_elem_of_singleton. }
  destruct best as [[kb ob]|]; [case_bool|].
  - right. exists k, (range_start gap). split; [done|]. split; [done|].
    split; [by intros k' o' (-> & _)%Hc|]. intros kb' ob' [= <- <-]. lia.
  - left. split; [done|]. intros k' o (-> & _)%Hc. exists kb, ob. split; [done|lia].
  - right. exists k, (range_start gap). split; [done|]. split; [done|].
    split; [by intros k' o' (-> & _)%Hc|]. done.
Qed.

Lemma blocking_candidate_cons t elig e bo k o :
  blocking_candidate t elig (e :: bo) k o ↔
    blocking_candidate t elig [e] k o ∨ blocking_candidate t elig bo k o.
Proof.
  unfold blocking_candidate. setoid_rewrite elem_of_cons. split.
  - intros (tp & gap & [<-|?] & ?); [left|right]; exists tp, gap; set_solver.
  - intros [(tp & gap & [<-|?%elem_of_nil] & ?)|(tp & gap & ? & ?)]; [|done|]; exists tp, gap; auto.
Qed.

Lemma blocking_fold_spec t elig bo best :
  match fold_left (blocking_step t elig) bo best with
  | None => best = None ∧ ∀ k o, ¬ blocking_candidate t elig bo k o
  | Some (k, o) =>
      (best = Some (k, o) ∨ blocking_candidate t elig bo k o) ∧
      (∀ k' o', blocking_candidate t elig bo k' o' → o ≤ o') ∧
      ∀ kb ob, best = Some (kb, ob) → o ≤ ob
  end.
Proof.
  revert best. induction bo as [|e bo IH]; intros best; cbn [fold_left].
  { assert (∀ k o, ¬ blocking_candidate t elig [] k o) as Hno
      by (intros k o (? & ? & ?%elem_of_nil & _); done).
    destruct best as [[k o]|]; [|done]. split; [by left|].
    split; [intros ?? []%Hno|]. intros ?? [= <- <-]. lia. }
  specialize (IH (blocking_step t elig best e)).
  destruct (blocking_step_cases t elig best e) as [[Eb Hc]|(k & o & Eb & Hk & Hmin & Hlt)];
    rewrite Eb in IH |- *; destruct (fold_left _ _ _) as [[k' o']|];
    setoid_rewrite blocking_candidate_cons.
  - destruct IH as (H1 & H2 & H3). split; [tauto|]. split; [|done].
    intros k2 o2 [(kb & ob & Hb & ?)%Hc|?]; [|eauto]. apply H3 in Hb. lia.
  - destruct IH as [-> Hno]. split; [done|]. intros k o [(kb & ob & ? & _)%Hc|?%Hno]; done.
  - destruct IH as (H1 & H2 & H3). specialize (H3 k o eq_refl).
    split; [destruct H1 as [[= -> ->]|]; tauto|]. split.
    + intros k2 o2 [?%Hmin|?]; [lia|eauto].
    + intros kb ob ?%Hlt. lia.
  - by destruct IH.
Qed.

(** The first eligible key of a list, with what precedes and follows it *)
Fixpoint split_eligible (elig : QueueKey → bool) (l : RunnableQueueKeys)
    : option (RunnableQueueKeys * QueueKey * RunnableQueueKeys) :=
  match l with
  | [] => None
  | (k, u) :: l' =>
      if elig k then Some ([], k, l')
      else match split_eligible elig l' with
           | Some (pre, k', post) => Some ((k, u) :: pre, k', post)
           | None => None
           end
  end.

Lemma split_eligible_spec elig l :
  match split_eligible elig l with
  | Some (pre, k, post) =>
      l = pre ++ (k, ()) :: post ∧ elig k = true ∧ ∀ k', k' ∈ od_keys pre → elig k' = false
  | None => ∀ k, k ∈ od_keys l → elig k = false
  end.
Proof.
  induction l as [|[k []] l IH]; simpl; [set_solver|]. unfold od_keys in *.
  destruct (elig k) eqn:E; [set_solver|].
  destruct (split_eligible elig l) as [[[pre k'] post]|].
  - destruct IH as (-> & ? & Hpre). split; [done|]. split; [done|].
    intros k0 [->|?]%elem_of_cons; [done|auto].
  - intros k0 [->|?]%elem_of_cons; [done|auto].
Qed.

(** The rotation of [pick_next_runnable_queue_key]: the first eligible key is taken,
    the keys before it move to the end. *)
Lemma pick_next_loop_spec elig l skipped t :
  (∀ k, k ∈ od_keys l → k ∈ active_runnable_queue_keys t ∧ queue_of t k ≠ []) →
  NoDup (od_keys (l ++ skipped)) →
  pick_next_loop elig (length l) (t <| runnable_queue_keys := l ++ skipped |>) =
    match split_eligible elig l with
    | Some (pre, k, post) =>
        (Some k, t <| runnable_queue_keys := post ++ skipped ++ pre |>
                   <| active_runnable_queue_keys ::= λ s, s ∖ {[k]} |>)
    | None => (None, t <| runnable_queue_keys := skipped ++ l |>)
    end.
Proof.
  revert skipped. induction l as [|[k []] l IH]; intros skipped Hl Hnd.
  { simpl. by rewrite app_nil_r. }
  assert (k ∈ active_runnable_queue_keys t ∧ queue_of t k ≠ []) as [Ha Hq].
  { apply Hl. unfold od_keys. rewrite fmap_cons. left. }
  unfold od_keys in *. rewrite <-app_comm_cons, fmap_cons, NoDup_cons in Hnd.
  destruct Hnd as [Hk Hnd]. simpl in Hk. simpl.
  rewrite bool_decide_true by done. simpl.
  assert (match get_queue k.1 k.2 t with Some q => q_empty q | None => true end = false) as Hne.
  { unfold queue_of in Hq. destruct (get_queue k.1 k.2 t); [|done].
    apply not_true_iff_false. by rewrite q_empty_spec. }
  unfold get_queue, partition_queues in *. simpl. rewrite Hne.
  destruct (elig k); simpl; [by rewrite app_nil_r|].
  assert (t <| runnable_queue_keys := rq_append k (l ++ skipped) |> =
    t <| runnable_queue_keys := l ++ (skipped ++ [(k, ())]) |>) as E.
  { unfold rq_append. rewrite od_set_fresh by by apply od_get_None. by rewrite <-app_assoc. }
  transitivity (pick_next_loop elig (length l) (t <| runnable_queue_keys := l ++ (skipped ++ [(k, ())]) |>)).
  { rewrite <-E. done. }
  rewrite IH.
  - destruct (split_eligible elig l) as [[[pre k'] post]|]; simpl; by rewrite <-app_assoc.
  - intros k' Hk'. apply Hl. by right.
  - rewrite app_assoc, fmap_app. apply NoDup_app. split; [done|]. split; [|apply NoDup_singleton].
    intros x Hx ->%list_elem_of_singleton. done.
Qed.

(** Keys that have been taken out for good: their head entry is gone. *)
Definition parked (loose : gset QueueKey) (t : Topology) : Prop :=
  ∀ k, k ∈ loose → head_offsets t !! k = None.

Lemma parked_inactive loose t k :
  topo_inv loose t → parked loose t → k ∈ active_runnable_queue_keys t → k ∉ loose.
Proof. intros Hi Hp Ha Hl. destruct (ti_active_head _ _ Hi k Ha). specialize (Hp k Hl). congruence. Qed.

Lemma parked_empty t : parked ∅ t.
Proof. intros k. set_solver. Qed.

Lemma topo_active_queue loose t k :
  topo_inv loose t → parked loose t → k ∈ active_runnable_queue_keys t → queue_of t k ≠ [].
Proof.
  intros Hi Hp Ha. destruct (ti_active_head _ _ Hi k Ha) as [o Ho].
  apply (ti_head _ _ Hi) in Ho; [|by eapply parked_inactive]. by destruct (queue_of t k).
Qed.

Lemma runnable_update_id t : t <| runnable_queue_keys := runnable_queue_keys t |> = t.
Proof. by destruct t. Qed.

(** Taking a key out of the runnable structures loosens exactly that key. *)
Lemma topo_inv_take loose t k r :
  topo_inv loose t → NoDup (rq_iter r) →
  (∀ k', k' ∈ rq_iter r ↔ k' ≠ k ∧ k' ∈ rq_iter (runnable_queue_keys t)) →
  topo_inv ({[k]} ∪ loose) (t <| runnable_queue_keys := r |>
                    <| active_runnable_queue_keys ::= λ s, s ∖ {[k]} |>).
Proof.
  intros [H1 H2 H3 H4 H5 H6] Hnd Hr. split; simpl; try done.
  - intros k'. rewrite Hr, <-H1. set_solver.
  - intros k' ?. apply H3. set_solver.
  - intros k' o Hk' Ho. apply H4; [set_solver|done].
  - intros k' Hk' Hq. assert (k' ∈ active_runnable_queue_keys t) by (apply H6; [set_solver|done]).
    set_solver.
Qed.

Lemma pick_next_spec loose elig t :
  topo_inv loose t → parked loose t →
  let '(r, t') := pick_next_runnable_queue_key elig t in
  virtual_partition_queues t' = virtual_partition_queues t ∧
  match r with
  | Some k => topo_inv ({[k]} ∪ loose) t' ∧ queue_of t k ≠ [] ∧ elig k = true ∧
              active_runnable_queue_keys t' = active_runnable_queue_keys t ∖ {[k]} ∧
              k ∈ active_runnable_queue_keys t
  | None => t' = t ∧ ∀ k, k ∈ active_runnable_queue_keys t → elig k = false
  end.
Proof.
  intros Hi Hpk. unfold pick_next_runnable_queue_key.
  pose proof (pick_next_loop_spec elig (runnable_queue_keys t) [] t) as Hp.
  rewrite app_nil_r, runnable_update_id in Hp. rewrite Hp; clear Hp.
  2: { intros k Hk. apply (ti_active _ _ Hi) in Hk. split; [done|]. by eapply topo_active_queue. }
  2: { apply (ti_runnable_nodup _ _ Hi). }
  pose proof (split_eligible_spec elig (runnable_queue_keys t)) as Hs.
  destruct (split_eligible elig (runnable_queue_keys t)) as [[[pre k] post]|].
  - destruct Hs as (El & He & Hpre). split; [done|].
    assert (k ∈ active_runnable_queue_keys t) as Hk.
    { apply (ti_active _ _ Hi). unfold rq_iter, od_keys. rewrite El, fmap_app. set_solver. }
    pose proof (ti_runnable_nodup _ _ Hi) as Hnd. unfold rq_iter, od_keys in Hnd.
    rewrite El, fmap_app, fmap_cons, NoDup_app, NoDup_cons in Hnd. simpl in Hnd.
    destruct Hnd as (Hn1 & Hn2 & Hn3 & Hn4).
    split; [|split; [by eapply topo_active_queue|]; done]. apply topo_inv_take; [done|..];
      unfold rq_iter, od_keys; simpl.
    + rewrite fmap_app. apply NoDup_app. split; [done|]. split; [|done].
      intros x Hx Hx'. apply (Hn2 x Hx'). by right.
    + intros k'. rewrite El, !fmap_app, fmap_cons, !elem_of_app, elem_of_cons. simpl. split.
      * intros [?|?]; [split; [set_solver|auto]|]. split; [|auto].
        intros ->. apply (Hn2 k); [done|left].
      * intros (? & [?|[?|?]]); auto. done.
  - split; [done|]. simpl. rewrite runnable_update_id. split; [done|].
    intros k Hk. apply Hs. by apply (ti_active _ _ Hi) in Hk.
Qed.

Lemma pick_blocking_spec loose bo elig t :
  topo_inv loose t → parked loose t →
  let '(r, t') := pick_blocking_queue_key bo elig t in
  virtual_partition_queues t' = virtual_partition_queues t ∧
  match r with
  | Some k => topo_inv ({[k]} ∪ loose) t' ∧ queue_of t k ≠ [] ∧ elig k = true ∧
              active_runnable_queue_keys t' = active_runnable_queue_keys t ∖ {[k]} ∧
              k ∈ active_runnable_queue_keys t ∧
              ∃ o, blocking_candidate t elig bo k o ∧ wi_offset <$> head (queue_of t k) = Some o ∧
                ∀ k' o', blocking_candidate t elig bo k' o' → o ≤ o'
  | None => t' = t ∧ ∀ k o, ¬ blocking_candidate t elig bo k o
  end.
Proof.
  intros Hi Hpk. unfold pick_blocking_queue_key. pose proof (blocking_fold_spec t elig bo None) as Hf.
  destruct (fold_left _ _ _) as [[k o]|]; [|by destruct Hf].
  destruct Hf as ([?|Hc] & Hmin & _); [done|]. split; [done|].
  pose proof Hc as (tp & gap & _ & _ & Hx & Ha & He).
  split; [|split; [by eapply topo_active_queue|]; split; [done|]; split; [done|]; split; [done|];
    exists o; split; [done|]; split; [|done]].
  - apply (topo_inv_take loose t k (rq_discard k (runnable_queue_keys t)) Hi).
    + apply NoDup_od_pop, (ti_runnable_nodup _ _ Hi).
    + intros k'. unfold rq_iter, rq_discard. by rewrite od_keys_pop, list_elem_of_filter.
  - apply (ti_index _ _ Hi) in Hx as [_ Hh]. apply (ti_head _ _ Hi); [by eapply parked_inactive|done].
Qed.

(** ** Partition assignment *)

Lemma topo_inv_assign loose tp t :
  (∀ key, queue_of t (tp, key) = []) → topo_inv loose t → topo_inv loose (assign tp t).
Proof.
  intros Hno Hi. apply (topo_inv_requeue _ t); [done..| |done].
  intros [tp' key] _. destruct (decide (tp = tp')) as [<-|Hne].
  - rewrite Hno. unfold queue_of, get_queue, partition_queues, assign; simpl.
    by rewrite od_get_set_eq.
  - unfold queue_of, get_queue, partition_queues, assign; simpl. by rewrite od_get_set_ne.
Qed.

Lemma deactivate_all_spec loose tp keys t :
  topo_inv loose t →
  let t' := fold_left (λ acc key, deactivate_queue_key (tp, key) acc) keys t in
  topo_inv (list_to_set (pair tp <$> keys) ∪ loose) t' ∧
  virtual_partition_queues t' = virtual_partition_queues t ∧
  (∀ key, key ∈ keys → head_offsets t' !! (tp, key) = None) ∧
  (∀ k, head_offsets t !! k = None → head_offsets t' !! k = None).
Proof.
  revert loose t. induction keys as [|key keys IH]; intros loose t Hi; cbn [fold_left].
  { simpl. rewrite (left_id_L ∅ (∪)). split; [done|]. split; [done|]. split; [set_solver|done]. }
  destruct (IH ({[(tp, key)]} ∪ loose) (deactivate_queue_key (tp, key) t)) as (H1 & H2 & H3 & H4).
  { by apply topo_inv_deactivate. }
  destruct (deactivate_fields (tp, key) t) as (E1 & _).
  split; [|split; [by rewrite H2, deactivate_queues|split]].
  - eapply topo_inv_mono; [|exact H1]. rewrite fmap_cons, list_to_set_cons. set_solver.
  - intros k [->|?]%elem_of_cons; [|auto]. apply H4. rewrite E1. apply lookup_delete_eq.
  - intros k Hk. apply H4. rewrite E1, lookup_delete. by case_decide.
Qed.

(** Revoking a partition drops its queues and every trace of its keys. *)
Lemma revoke_spec loose tp t :
  topo_inv loose t →
  topo_inv loose (revoke tp t).2 ∧
  (∀ k, queue_of (revoke tp t).2 k = if decide (k.1 = tp) then [] else queue_of t k) ∧
  od_get tp (virtual_partition_queues (revoke tp t).2) = None.
Proof.
  intros Hi. unfold revoke; simpl.
  destruct (deactivate_all_spec loose tp (od_keys (partition_queues tp t)) t Hi) as (H1 & H2 & H3 & _).
  set (t1 := fold_left _ _ _) in *. clearbody t1.
  assert (∀ k, queue_of (t1 <| virtual_partition_queues ::= od_pop tp |>) k =
    if decide (k.1 = tp) then [] else queue_of t k) as Hq.
  { intros k. unfold queue_of, get_queue, partition_queues. rewrite queues_update, H2, od_get_pop.
    destruct (decide (tp = k.1)) as [->|]; [by rewrite decide_True|]. by rewrite decide_False. }
  split; [|split; [done|]; apply od_get_pop_eq].
  destruct H1 as [I1 I2 I3 I4 I5 I6]. split; simpl; [done..| |done|].
  - intros k o Hk Ho. rewrite Hq. case_decide as Htp.
    + destruct k as [tp' key]; simpl in Htp; subst tp'. exfalso.
      destruct (decide (key ∈ od_keys (partition_queues tp t))) as [Hin|Hin].
      * by rewrite H3 in Ho.
      * apply I4 in Ho; [|set_solver]. rewrite (queue_of_frame t) in Ho by done.
        unfold queue_of, get_queue in Ho. simpl in Ho.
        apply od_get_None in Hin. by rewrite Hin in Ho.
    + rewrite <-(queue_of_frame t t1) by done. apply I4; [set_solver|done].
  - intros k Hk. rewrite Hq. case_decide; [done|]. intros Hne.
    apply I6; [set_solver|]. by rewrite (queue_of_frame t).
Qed.

(** ** Counting the waiting items *)

Lemma total_items_frame t t' :
  virtual_partition_queues t' = virtual_partition_queues t → total_items t' = total_items t.
Proof. unfold total_items. by intros ->. Qed.

Lemma dicts_nodup_frame t t' :
  virtual_partition_queues t' = virtual_partition_queues t → dicts_nodup t → dicts_nodup t'.
Proof. intros E [H1 H2]. split; rewrite E; done. Qed.

Lemma dict_items_partition tp t :
  default 0 (dict_items <$> od_get tp (virtual_partition_queues t)) = dict_items (partition_queues tp t).
Proof. unfold partition_queues. by destruct (od_get tp _). Qed.

Lemma dicts_nodup_partition tp t : dicts_nodup t → NoDup (od_keys (partition_queues tp t)).
Proof.
  intros [_ H2]. unfold partition_queues. destruct (od_get tp _) eqn:E; simpl; [eauto|].
  constructor.
Qed.

(** Replacing one partition's dictionary *)
Lemma total_items_replace tp d t :
  total_items (t <| virtual_partition_queues ::= od_set tp d |>) =
    total_items t - dict_items (partition_queues tp t) + dict_items d.
Proof. unfold total_items. simpl. by rewrite od_sum_set, dict_items_partition. Qed.

Lemma dicts_nodup_replace tp d t :
  NoDup (od_keys d) → dicts_nodup t → dicts_nodup (t <| virtual_partition_queues ::= od_set tp d |>).
Proof.
  intros Hd [H1 H2]. split; simpl; [by apply NoDup_od_set|].
  intros tp' d'. rewrite od_get_set. case_decide; [by intros [= <-]|apply H2].
Qed.

Lemma total_items_set k q t :
  total_items (set_queue k.1 k.2 q t) = total_items t - zlen (queue_of t k) + q_size q.
Proof.
  unfold set_queue. rewrite total_items_replace. unfold dict_items at 2. rewrite od_sum_set.
  fold (dict_items (partition_queues k.1 t)). unfold queue_of, get_queue.
  destruct (od_get k.2 _); simpl; unfold q_size; [lia|]. change (zlen []) with 0. lia.
Qed.

Lemma dicts_nodup_set k q t : dicts_nodup t → dicts_nodup (set_queue k.1 k.2 q t).
Proof. intros Hd. apply dicts_nodup_replace; [|done]. by apply NoDup_od_set, dicts_nodup_partition. Qed.

Lemma cleanup_count tp key t :
  dicts_nodup t →
  dicts_nodup (cleanup_empty_queue tp key t) ∧ total_items (cleanup_empty_queue tp key t) = total_items t.
Proof.
  intros Hd. unfold cleanup_empty_queue. destruct (od_get tp _) as [d|] eqn:Ed; [|done].
  destruct d as [|p d]; [done|]. generalize dependent (p :: d); intros d' Ed.
  destruct (od_get key d') as [q|] eqn:Eq; [|done].
  destruct (q_empty q) eqn:Ee; [|done]. apply q_empty_spec in Ee.
  pose proof (deactivate_queues (tp, key) t) as Eqs. set (t1 := deactivate_queue_key _ t) in *.
  assert (dicts_nodup t1) as Hd1 by by eapply dicts_nodup_frame.
  assert (NoDup (od_keys d')) as Hnd by by eapply (dn_inner _ Hd).
  split; [apply dicts_nodup_replace; [by apply NoDup_od_pop|done]|].
  rewrite total_items_replace, (total_items_frame t t1) by done.
  unfold partition_queues. rewrite Eqs, Ed. simpl. unfold dict_items at 2.
  rewrite od_sum_pop, Eq by done. fold (dict_items d'). simpl. unfold q_size. rewrite Ee.
  change (zlen []) with 0. lia.
Qed.

Lemma after_dequeue_count k q t :
  dicts_nodup t →
  dicts_nodup (after_dequeue k.1 k.2 q t) ∧
  total_items (after_dequeue k.1 k.2 q t) = total_items t - zlen (queue_of t k) + q_size q.
Proof.
  intros Hd%(dicts_nodup_set k q). unfold after_dequeue. rewrite <-total_items_set.
  destruct (q_empty q); [by apply cleanup_count|].
  split; [eapply dicts_nodup_frame; [|done]|eapply total_items_frame]; apply refresh_queues.
Qed.

Lemma dequeue_items_count k count t :
  dicts_nodup t →
  let '(ws, t') := dequeue_submitted_items k.1 k.2 count t in
  dicts_nodup t' ∧ total_items t' = total_items t - zlen ws.
Proof.
  intros Hd. unfold dequeue_submitted_items. change (zlen []) with 0.
  assert (∀ k, dicts_nodup (deactivate_queue_key k t) ∧
    total_items (deactivate_queue_key k t) = total_items t - zlen (@nil WorkItem)) as Hidle.
  { intros k'. split; [eapply dicts_nodup_frame, Hd; apply deactivate_queues|].
    rewrite (total_items_frame t) by apply deactivate_queues. change (zlen []) with 0. lia. }
  case_bool; [split; [done|]; change (zlen []) with 0; lia|].
  destruct (get_queue k.1 k.2 t) as [q|] eqn:Eg; [|apply Hidle]. destruct (q_empty q); [apply Hidle|].
  destruct (get_many_spec (Z.to_nat count) q) as [E1 E2].
  destruct (get_many (Z.to_nat count) q) as [ws q']. simpl in E1, E2.
  destruct (after_dequeue_count k q' t Hd) as [H1 H2]. split; [done|]. rewrite H2.
  assert (queue_of t k = q_items q) as -> by (unfold queue_of; by rewrite Eg).
  unfold q_size. rewrite E2, E1. unfold zlen. rewrite length_take, length_drop. lia.
Qed.

Lemma dequeue_item_count k t :
  dicts_nodup t →
  let '(w, t') := dequeue_submitted_item k.1 k.2 t in
  dicts_nodup t' ∧ total_items t' = total_items t - match w with Some _ => 1 | None => 0 end.
Proof.
  intros Hd. unfold dequeue_submitted_item.
  assert (∀ k, dicts_nodup (deactivate_queue_key k t) ∧
    total_items (deactivate_queue_key k t) = total_items t - 0) as Hidle.
  { intros k'. split; [eapply dicts_nodup_frame, Hd; apply deactivate_queues|].
    rewrite (total_items_frame t) by apply deactivate_queues. lia. }
  destruct (get_queue k.1 k.2 t) as [q|] eqn:Eg; [|apply Hidle].
  unfold get_nowait. destruct (q_items q) as [|w ws] eqn:Ei; [apply Hidle|].
  edestruct (after_dequeue_count k) as [H1 H2]; [done|]. split; [done|]. rewrite H2.
  unfold queue_of. rewrite Eg, Ei. unfold q_size. simpl. rewrite zlen_cons. lia.
Qed.

Lemma enqueue_batch_count k ws t t' :
  dicts_nodup t → enqueue_batch k.1 k.2 ws t = Some t' →
  dicts_nodup t' ∧ total_items t' = total_items t + zlen ws.
Proof.
  intros Hd. unfold enqueue_batch, ensure_queue.
  assert (∀ t1 q, dicts_nodup t1 → total_items t1 = total_items t → queue_of t1 k = q_items q →
    let t2 := set_queue k.1 k.2 (enqueue_work_items q ws) t1 in
    let t3 := if q_empty q && negb (q_empty (enqueue_work_items q ws))
              then refresh_queue_head k.1 k.2 (enqueue_work_items q ws) t2 else t2 in
    dicts_nodup t3 ∧ total_items t3 = total_items t + zlen ws) as Hmain.
  { intros t1 q Hd1 Ht1 Hq1 t2 t3.
    assert (dicts_nodup t2 ∧ total_items t2 = total_items t + zlen ws) as [Hd2 Ht2].
    { split; [by apply dicts_nodup_set|]. unfold t2. rewrite total_items_set, Hq1, Ht1.
      unfold q_size. rewrite enqueue_items, zlen_app. lia. }
    unfold t3. destruct (_ && _); [|done]. rewrite (total_items_frame t2) by apply refresh_queues.
    split; [|done]. eapply dicts_nodup_frame, Hd2. apply refresh_queues. }
  destruct (get_queue k.1 k.2 t) as [q0|] eqn:Eg.
  - intros [= <-]. apply Hmain; [done..|]. unfold queue_of. by rewrite Eg.
  - destruct (od_has k.1 (virtual_partition_queues t)); [|done]. intros [= <-]. apply (Hmain _ new_queue).
    + by apply dicts_nodup_set.
    + rewrite total_items_set. unfold queue_of. rewrite Eg. unfold q_size. simpl. lia.
    + rewrite queue_of_set. by case_decide.
Qed.

Lemma revoke_count tp t :
  dicts_nodup t →
  dicts_nodup (revoke tp t).2 ∧ total_items (revoke tp t).2 = total_items t - (revoke tp t).1.
Proof.
  intros [H1 H2]. unfold revoke; simpl.
  assert (∀ keys t0, virtual_partition_queues
    (fold_left (λ acc key, deactivate_queue_key (tp, key) acc) keys t0) = virtual_partition_queues t0) as E.
  { intros keys. induction keys as [|key keys IH]; intros t0; cbn [fold_left]; [done|].
    by rewrite IH, deactivate_queues. }
  unfold total_items. split; [split|]; simpl; rewrite E.
  - by apply NoDup_od_pop.
  - intros tp' d. rewrite od_get_pop. case_decide; [done|apply H2].
  - rewrite od_sum_pop by done. by rewrite dict_items_partition.
Qed.

Lemma assign_count tp t :
  dicts_nodup t →
  dicts_nodup (assign tp t) ∧ total_items (assign tp t) = total_items t - dict_items (partition_queues tp t).
Proof.
  intros Hd. unfold assign. rewrite total_items_replace.
  split; [|unfold dict_items at 2; simpl; lia]. apply dicts_nodup_replace; [constructor|done].
Qed.

Lemma dicts_nodup_new : dicts_nodup new_topology.
Proof. split; simpl; [constructor|done]. Qed.

Lemma dict_items_nonneg d : 0 ≤ dict_items d.
Proof. unfold dict_items. induction d as [|[? q] d IH]; simpl; [lia|]. pose proof (zlen_nonneg (q_items q)). unfold q_size in *. lia. Qed.

Lemma total_items_nonneg t : 0 ≤ total_items t.
Proof.
  unfold total_items. induction (virtual_partition_queues t) as [|[? d] l IH]; simpl; [lia|].
  pose proof (dict_items_nonneg d). lia.
Qed.

(** ** What the dequeue operations leave alone *)

(** The partitions with a queue dictionary *)
Definition assigned (t : Topology) (tp : TopicPartition) : bool := od_has tp (virtual_partition_queues t).

Lemma assigned_frame t t' tp :
  virtual_partition_queues t' = virtual_partition_queues t → assigned t' tp = assigned t tp.
Proof. unfold assigned. by intros ->. Qed.

Lemma get_queue_assigned k q t : get_queue k.1 k.2 t = Some q → assigned t k.1 = true.
Proof. intros (d & Hd & _)%get_queue_Some. unfold assigned, od_has. by rewrite Hd. Qed.

Lemma queue_of_assigned k t : queue_of t k ≠ [] → assigned t k.1 = true.
Proof.
  unfold queue_of. destruct (get_queue k.1 k.2 t) eqn:E; [|done]. intros _. by eapply get_queue_assigned.
Qed.

Lemma assigned_set k q t tp :
  assigned t k.1 = true → assigned (set_queue k.1 k.2 q t) tp = assigned t tp.
Proof.
  unfold assigned. intros Hk. unfold set_queue; simpl. rewrite od_has_set.
  case_bool_decide; by subst.
Qed.

Lemma assigned_cleanup tp' key t tp : assigned (cleanup_empty_queue tp' key t) tp = assigned t tp.
Proof.
  unfold cleanup_empty_queue. destruct (od_get tp' _) as [[|p d]|] eqn:E; [done| |done].
  generalize dependent (p :: d); intros d' E. destruct (od_get key d') as [q|]; [|done].
  destruct (q_empty q); [|done]. unfold assigned. rewrite queues_update, deactivate_queues, od_has_set.
  case_bool_decide; [subst|done]. unfold od_has. by rewrite E.
Qed.

Lemma assigned_after_dequeue k q t tp :
  assigned t k.1 = true → assigned (after_dequeue k.1 k.2 q t) tp = assigned t tp.
Proof.
  intros Hk. unfold after_dequeue. rewrite <-(assigned_set k q t tp Hk). destruct (q_empty q).
  - apply assigned_cleanup.
  - apply assigned_frame, refresh_queues.
Qed.

Lemma deactivate_heads k k' t :
  head_offsets (deactivate_queue_key k t) !! k' = if decide (k = k') then None else head_offsets t !! k'.
Proof. destruct (deactivate_fields k t) as (-> & _). by rewrite lookup_delete. Qed.

Lemma refresh_heads k k' q t :
  k ≠ k' → head_offsets (refresh_queue_head k.1 k.2 q t) !! k' = head_offsets t !! k'.
Proof.
  intros Hne. unfold refresh_queue_head. replace (k.1, k.2) with k by by destruct k.
  pose proof (deactivate_heads k k' t) as Hd. rewrite decide_False in Hd by done.
  destruct (peek_queue q); [|done]. unfold activate_queue_key.
  case_decide; simpl; by rewrite lookup_insert_ne.
Qed.

Lemma cleanup_heads k k' t :
  k ≠ k' → head_offsets (cleanup_empty_queue k.1 k.2 t) !! k' = head_offsets t !! k'.
Proof.
  intros Hne. unfold cleanup_empty_queue. replace (k.1, k.2) with k by by destruct k.
  pose proof (deactivate_heads k k' t) as Hd. rewrite decide_False in Hd by done.
  destruct (od_get k.1 _) as [[|p d]|]; [done| |done]. destruct (od_get k.2 _) as [q|]; [|done].
  destruct (q_empty q); [exact Hd|done].
Qed.

Lemma after_dequeue_heads k k' q t :
  k ≠ k' → head_offsets (after_dequeue k.1 k.2 q t) !! k' = head_offsets t !! k'.
Proof.
  intros Hne. unfold after_dequeue. destruct (q_empty q); [by rewrite cleanup_heads|by rewrite refresh_heads].
Qed.

(** Dequeuing under [k] leaves the other heads and the set of partitions alone. *)
Lemma dequeue_items_frame k count t :
  (∀ k', k ≠ k' → head_offsets (dequeue_submitted_items k.1 k.2 count t).2 !! k' = head_offsets t !! k') ∧
  ∀ tp, assigned (dequeue_submitted_items k.1 k.2 count t).2 tp = assigned t tp.
Proof.
  unfold dequeue_submitted_items. replace (k.1, k.2) with k by by destruct k.
  assert ((∀ k', k ≠ k' → head_offsets (deactivate_queue_key k t) !! k' = head_offsets t !! k') ∧
    ∀ tp, assigned (deactivate_queue_key k t) tp = assigned t tp) as Hd.
  { split; [intros; by rewrite deactivate_heads, decide_False|].
    intros. apply assigned_frame, deactivate_queues. }
  case_bool; [done|]. destruct (get_queue k.1 k.2 t) as [q|] eqn:Eg; [|done].
  destruct (q_empty q); [done|]. destruct (get_many _ q) as [ws q']. simpl.
  split; intros; [by apply after_dequeue_heads|]. by apply assigned_after_dequeue, (get_queue_assigned _ q).
Qed.

Lemma dequeue_item_frame k t :
  (∀ k', k ≠ k' → head_offsets (dequeue_submitted_item k.1 k.2 t).2 !! k' = head_offsets t !! k') ∧
  ∀ tp, assigned (dequeue_submitted_item k.1 k.2 t).2 tp = assigned t tp.
Proof.
  unfold dequeue_submitted_item. replace (k.1, k.2) with k by by destruct k.
  assert ((∀ k', k ≠ k' → head_offsets (deactivate_queue_key k t) !! k' = head_offsets t !! k') ∧
    ∀ tp, assigned (deactivate_queue_key k t) tp = assigned t tp) as Hd.
  { split; [intros; by rewrite deactivate_heads, decide_False|].
    intros. apply assigned_frame, deactivate_queues. }
  destruct (get_queue k.1 k.2 t) as [q|] eqn:Eg; [|done].
  destruct (get_nowait q) as [[w q']|]; [|done]. simpl.
  split; intros; [by apply after_dequeue_heads|]. by apply assigned_after_dequeue, (get_queue_assigned _ q).
Qed.

Lemma enqueue_batch_assigned k ws t t' tp :
  enqueue_batch k.1 k.2 ws t = Some t' → assigned t k.1 = true ∧ assigned t' tp = assigned t tp.
Proof.
  unfold enqueue_batch, ensure_queue.
  assert (∀ q t1, assigned t1 k.1 = true → ∀ b q2,
    assigned (if b : bool then refresh_queue_head k.1 k.2 q2 (set_queue k.1 k.2 q t1)
              else set_queue k.1 k.2 q t1) tp = assigned t1 tp) as Hr.
  { intros q t1 H1 b q2. rewrite <-(assigned_set k q t1 tp H1). destruct b; [|done].
    apply assigned_frame, refresh_queues. }
  destruct (get_queue k.1 k.2 t) as [q|] eqn:Eg.
  - intros [= <-]. pose proof (get_queue_assigned _ _ _ Eg) as Ha. split; [done|]. by apply Hr.
  - destruct (od_has k.1 (virtual_partition_queues t)) eqn:Ea; [|done]. intros [= <-].
    split; [done|]. rewrite Hr by (by rewrite assigned_set). by apply assigned_set.
Qed.

Lemma parked_step loose t t' k :
  k ∉ loose → (∀ k', k ≠ k' → head_offsets t' !! k' = head_offsets t !! k') →
  parked loose t → parked loose t'.
Proof. intros Hk Hh Hp k' Hl. rewrite Hh by set_solver. by apply Hp. Qed.

(** ** Steps of the topology and their specification

    The steps are the calls of the work manager: assignment of a partition without
    queues, revocation, arrival of work, a scheduling attempt that dequeues [count]
    items of the selected key, one that has to put the key back because the
    submission failed, one that finds nothing, and the cleanup after a completion. *)

Inductive TopologyEvent :=
  | Assigned (tp : TopicPartition)
  | Revoked (tp : TopicPartition) (removed : Z)
  | Arrived (k : QueueKey) (work_items : list WorkItem)
  | Dispatched (k : QueueKey) (work_items : list WorkItem)
  | Nothing.

Inductive topology_step : Topology → TopologyEvent → Topology → Prop :=
  | step_assign tp t :
      (∀ key, get_queue tp key t = None) →
      topology_step t (Assigned tp) (assign tp t)
  | step_revoke tp t :
      topology_step t (Revoked tp (revoke tp t).1) (revoke tp t).2
  | step_enqueue k ws t t' :
      enqueue_batch k.1 k.2 ws t = Some t' →
      topology_step t (Arrived k ws) t'
  | step_dispatch bo elig count k t t1 ws t' :
      0 < count →
      pop_next_queue_key bo elig t = (Some k, t1) →
      dequeue_submitted_items k.1 k.2 count t1 = (ws, t') →
      topology_step t (Dispatched k ws) t'
  | step_submit_failed bo elig k q t t1 :
      pop_next_queue_key bo elig t = (Some k, t1) →
      get_queue k.1 k.2 t1 = Some q →
      topology_step t Nothing (refresh_queue_head k.1 k.2 q t1)
  | step_idle bo elig t t1 :
      pop_next_queue_key bo elig t = (None, t1) →
      topology_step t Nothing t1
  | step_cleanup k t :
      topology_step t Nothing (cleanup_empty_queue k.1 k.2 t).

(** The specification: one unbounded FIFO list per key, nothing else. *)
Inductive fifo_step : (QueueKey → list WorkItem) → TopologyEvent → (QueueKey → list WorkItem) → Prop :=
  | fifo_assign tp q q' :
      (∀ key, q (tp, key) = []) → (∀ k, q' k = q k) → fifo_step q (Assigned tp) q'
  | fifo_revoke tp n q q' :
      (∀ k, q' k = if decide (k.1 = tp) then [] else q k) → fifo_step q (Revoked tp n) q'
  | fifo_arrive k ws q q' :
      (∀ k', q' k' = if decide (k = k') then q k ++ ws else q k') → fifo_step q (Arrived k ws) q'
  | fifo_dispatch k ws q q' :
      ws ≠ [] → q k = ws ++ q' k → (∀ k', k ≠ k' → q' k' = q k') → fifo_step q (Dispatched k ws) q'
  | fifo_nothing q q' :
      (∀ k, q' k = q k) → fifo_step q Nothing q'.

(** The change of the number of waiting items that an event stands for *)
Definition event_flow (e : TopologyEvent) : Z :=
  match e with
  | Arrived _ ws => zlen ws
  | Dispatched _ ws => - zlen ws
  | Revoked _ n => - n
  | Assigned _ | Nothing => 0
  end.

(** The state the work manager relies on between its calls *)
Definition topology_ok (t : Topology) : Prop := topo_inv ∅ t ∧ dicts_nodup t.

(** Selecting a key leaves the head index alone. *)
Lemma pick_blocking_heads bo elig t :
  head_offsets (pick_blocking_queue_key bo elig t).2 = head_offsets t.
Proof. unfold pick_blocking_queue_key. by destruct (fold_left _ _ _) as [[]|]. Qed.

Lemma pick_next_exact loose elig t :
  topo_inv loose t → parked loose t →
  pick_next_runnable_queue_key elig t =
    match split_eligible elig (runnable_queue_keys t) with
    | Some (pre, k, post) =>
        (Some k, t <| runnable_queue_keys := post ++ pre |>
                   <| active_runnable_queue_keys ::= λ s, s ∖ {[k]} |>)
    | None => (None, t)
    end.
Proof.
  intros Hi Hpk. assert (∀ k, k ∈ od_keys (runnable_queue_keys t) →
    k ∈ active_runnable_queue_keys t ∧ queue_of t k ≠ []) as Hr.
  { intros k Hk. apply (ti_active _ _ Hi) in Hk. split; [done|]. by eapply topo_active_queue. }
  pose proof (pick_next_loop_spec elig (runnable_queue_keys t) [] t Hr) as Hp.
  rewrite app_nil_r, runnable_update_id in Hp. simpl in Hp.
  unfold pick_next_runnable_queue_key. rewrite Hp by apply (ti_runnable_nodup _ _ Hi).
  by destruct (split_eligible _ _) as [[[? ?] ?]|]; rewrite ?runnable_update_id.
Qed.

Lemma pick_next_heads loose elig t :
  topo_inv loose t → parked loose t →
  head_offsets (pick_next_runnable_queue_key elig t).2 = head_offsets t.
Proof.
  intros Hi Hp. rewrite (pick_next_exact loose) by done. by destruct (split_eligible _ _) as [[[? ?] ?]|].
Qed.

Lemma pop_next_spec loose bo elig t :
  topo_inv loose t → parked loose t →
  let '(r, t') := pop_next_queue_key bo elig t in
  virtual_partition_queues t' = virtual_partition_queues t ∧
  head_offsets t' = head_offsets t ∧
  match r with
  | Some k => topo_inv ({[k]} ∪ loose) t' ∧ queue_of t k ≠ [] ∧ elig k = true ∧ k ∉ loose
  | None => t' = t ∧ ∀ k, k ∉ loose → queue_of t k ≠ [] → elig k = false
  end.
Proof.
  intros Hi Hpk. unfold pop_next_queue_key. pose proof (pick_blocking_spec loose bo elig t Hi Hpk) as Hb.
  pose proof (pick_blocking_heads bo elig t) as Hh.
  destruct (pick_blocking_queue_key bo elig t) as [[k|] t1].
  - destruct Hb as (? & ? & ? & ? & ? & ? & _). split; [done|]. split; [done|].
    split; [done|]. split; [done|]. split; [done|]. by eapply parked_inactive.
  - destruct Hb as (_ & -> & _). pose proof (pick_next_spec loose elig t Hi Hpk) as Hp.
    pose proof (pick_next_heads loose elig t Hi Hpk) as Hh2.
    destruct (pick_next_runnable_queue_key elig t) as [[k|] t2].
    + destruct Hp as (? & ? & ? & ? & ? & ?). split; [done|]. split; [done|].
      split; [done|]. split; [done|]. split; [done|]. by eapply parked_inactive.
    + destruct Hp as (? & -> & Hp). split; [done|]. split; [done|]. split; [done|].
      intros k Hl Hk. by apply Hp, (ti_live _ _ Hi).
Qed.

Lemma topology_step_sound t e t' :
  topology_ok t → topology_step t e t' →
  topology_ok t' ∧ fifo_step (queue_of t) e (queue_of t') ∧
  total_items t' = total_items t + event_flow e.
Proof.
  intros [Hi Hd] Hs. destruct Hs as
    [tp t Hno|tp t|k ws t t' He|bo elig count k t t1 ws t' Hc Hp Hq|bo elig k q t t1 Hp Hq|bo elig t t1 Hp|k t];
    cbn [event_flow].
  - assert (∀ key, queue_of t (tp, key) = []) as Hno' by (intros; unfold queue_of; by rewrite Hno).
    destruct (assign_count tp t Hd) as [H1 H2].
    split; [split; [by apply topo_inv_assign|done]|].
    assert (partition_queues tp t = []) as Hpq.
    { destruct (partition_queues tp t) as [|[key q] d] eqn:E; [done|].
      specialize (Hno key). unfold get_queue in Hno. rewrite E in Hno. simpl in Hno. by case_decide. }
    rewrite H2, Hpq. split; [|unfold dict_items; simpl; lia].
    constructor; [done|]. intros [tp' key]. unfold queue_of, get_queue, partition_queues in *. simpl.
    rewrite od_get_set. case_decide; [subst|done]. by rewrite Hpq.
  - destruct (revoke_spec ∅ tp t Hi) as (H1 & H2 & _). destruct (revoke_count tp t Hd) as [H3 H4].
    split; [done|]. split; [by constructor|lia].
  - destruct (enqueue_batch_spec ∅ k ws t t') as [H1 H2]; [set_solver|done..|].
    destruct (enqueue_batch_count k ws t t' Hd He) as [H3 H4]. split; [done|]. split; [by constructor|lia].
  - pose proof (pop_next_spec ∅ bo elig t Hi (parked_empty t)) as Hps. rewrite Hp in Hps.
    destruct Hps as (E & _ & Hi1 & Hne & _).
    pose proof (dequeue_items_spec ∅ k count t1 Hc) as Hds. rewrite Hq in Hds.
    destruct (Hds Hi1) as (H1 & Hws & Hqs). rewrite (queue_of_frame t t1) in Hws by done.
    pose proof (dequeue_items_count k count t1 (dicts_nodup_frame _ _ E Hd)) as Hct. rewrite Hq in Hct.
    destruct Hct as [H2 H3]. rewrite (total_items_frame t t1) in H3 by done.
    split; [done|]. split; [|lia]. constructor.
    + rewrite Hws. unfold py_take. destruct (queue_of t k); [done|].
      by destruct (Z.to_nat count) eqn:Ec; [lia|].
    + rewrite Hqs, (queue_of_frame t t1), Hws by done. case_decide; [|done].
      unfold py_take, py_drop. by rewrite take_drop.
    + intros k' Hk'. rewrite Hqs. case_decide; [done|]. by apply queue_of_frame.
  - pose proof (pop_next_spec ∅ bo elig t Hi (parked_empty t)) as Hps. rewrite Hp in Hps.
    destruct Hps as (E & _ & Hi1 & Hne & _).
    split; [split; [apply topo_inv_refresh; [unfold queue_of; by rewrite Hq|]|]|].
    + done.
    + eapply dicts_nodup_frame, Hd. by rewrite refresh_queues.
    + split; [constructor; intros k'; apply queue_of_frame; by rewrite refresh_queues|].
      rewrite (total_items_frame t) by (by rewrite refresh_queues). lia.
  - pose proof (pop_next_spec ∅ bo elig t Hi (parked_empty t)) as Hps. rewrite Hp in Hps.
    destruct Hps as (E & _ & -> & _).
    split; [done|]. split; [by constructor|lia].
  - destruct (cleanup_count k.1 k.2 t Hd) as [H1 H2].
    split; [split; [by apply topo_inv_cleanup|done]|].
    split; [constructor; intros; apply queue_of_cleanup|lia].
Qed.

Lemma topology_ok_new : topology_ok new_topology.
Proof. split; [apply topo_inv_new|apply dicts_nodup_new]. Qed.

Lemma topology_run_sound t es t' :
  topology_ok t → steps topology_step t es t' →
  topology_ok t' ∧ (∃ q, steps fifo_step (queue_of t) es q ∧ ∀ k, q k = queue_of t' k) ∧
  total_items t' = total_items t + foldr (λ e acc, event_flow e + acc) 0 es.
Proof.
  intros Hok Hs. induction Hs as [t|t e t1 es t2 Hs1 Hs2 IH].
  - split; [done|]. split; [|simpl; lia]. exists (queue_of t). split; [constructor|done].
  - destruct (topology_step_sound t e t1 Hok Hs1) as (H1 & H2 & H3).
    destruct (IH H1) as (H4 & (q & Hq & Heq) & H6). split; [done|].
    split; [|simpl; lia]. exists q. split; [by econstructor|done].
Qed.

(** A topology with two keys of one partition: offsets 0 and 2 under one key, 1 under the other. *)
Definition topo_tp : TopicPartition := mkTp "orders" 0.
Definition topo_item (o : Z) (key : PyValue) : WorkItem :=
  mkWorkItem "w" topo_tp o 0 key PyNone 0 None.
Definition topo_key_a : PyValue := PyBytes [97].
Definition topo_key_b : PyValue := PyBytes [98].
Definition topo_demo_0 : Topology := assign topo_tp new_topology.
Definition topo_demo_1 : Topology :=
  default new_topology
    (enqueue_batch topo_tp topo_key_a [topo_item 0 topo_key_a; topo_item 2 topo_key_a] topo_demo_0).
Definition topo_demo : Topology :=
  default new_topology (enqueue_batch topo_tp topo_key_b [topo_item 1 topo_key_b] topo_demo_1).

Lemma topo_demo_run :
  steps topology_step new_topology
    [Assigned topo_tp;
     Arrived (topo_tp, topo_key_a) [topo_item 0 topo_key_a; topo_item 2 topo_key_a];
     Arrived (topo_tp, topo_key_b) [topo_item 1 topo_key_b]] topo_demo.
Proof.
  apply steps_cons with topo_demo_0; [by apply step_assign|].
  apply steps_cons with topo_demo_1; [apply step_enqueue; by vm_compute|].
  apply steps_cons with topo_demo; [apply step_enqueue; by vm_compute|]. apply steps_nil.
Qed.

Lemma topo_demo_ok : topology_ok topo_demo.
Proof. apply (topology_run_sound _ _ _ topology_ok_new topo_demo_run). Qed.

(** C14. In every run of the topology its bookkeeping is right (every key with waiting
    work is runnable exactly once, head offsets and the offset index name the real
    queue heads), the run is a run of the specification in which a key is one FIFO
    list, dispatched batches are non-empty queue prefixes, and the number of waiting
    items is what arrived minus what was dispatched or revoked. *)
Theorem topology_refines_fifo_queues es t :
  steps topology_step new_topology es t →
  topology_ok t ∧
  (∃ q, steps fifo_step (queue_of new_topology) es q ∧ ∀ k, q k = queue_of t k) ∧
  total_items t = foldr (λ e acc, event_flow e + acc) 0 es.
Proof.
  intros Hs. destruct (topology_run_sound _ _ _ topology_ok_new Hs) as (H1 & H2 & H3).
  split; [done|]. split; [done|]. rewrite H3. unfold total_items. simpl. lia.
Qed.

Lemma topology_refines_fifo_queues_witness : topology_ok topo_demo ∧ total_items topo_demo = 3.
Proof.
  destruct (topology_refines_fifo_queues _ _ topo_demo_run) as (H1 & _ & H3). split; [exact H1|exact H3].
Defined.

(** Lowest blocking offset first: [pick_blocking_queue_key] takes a runnable,
    eligible key whose queue head is the blocking offset of a partition, with the
    smallest such offset of all partitions, and takes nothing only if there is none. *)
Theorem pick_blocking_is_lowest bo elig t :
  topology_ok t →
  match (pick_blocking_queue_key bo elig t).1 with
  | Some k =>
      ∃ o, blocking_candidate t elig bo k o ∧ wi_offset <$> head (queue_of t k) = Some o ∧
        ∀ k' o', blocking_candidate t elig bo k' o' → o ≤ o'
  | None => ∀ k o, ¬ blocking_candidate t elig bo k o
  end.
Proof.
  intros [Hi _]. pose proof (pick_blocking_spec ∅ bo elig t Hi (parked_empty t)) as Hp.
  destruct (pick_blocking_queue_key bo elig t) as [[k|] t']; simpl.
  - apply Hp.
  - apply Hp.
Qed.

Lemma pick_blocking_is_lowest_witness :
  let bo := [(topo_tp, Some (mkRange 1 1))] in
  (pick_blocking_queue_key bo (λ _, true) topo_demo).1 = Some (topo_tp, topo_key_b) ∧
  ∃ o, wi_offset <$> head (queue_of topo_demo (topo_tp, topo_key_b)) = Some o ∧
    ∀ k' o', blocking_candidate topo_demo (λ _, true) bo k' o' → o ≤ o'.
Proof.
  split; [vm_compute; reflexivity|].
  pose proof (pick_blocking_is_lowest [(topo_tp, Some (mkRange 1 1))] (λ _, true) topo_demo topo_demo_ok) as H.
  assert ((pick_blocking_queue_key [(topo_tp, Some (mkRange 1 1))] (λ _, true) topo_demo).1
    = Some (topo_tp, topo_key_b)) as E by (vm_compute; reflexivity).
  rewrite E in H. destruct H as (o & _ & Ho & Hle). exists o. split; [exact Ho|exact Hle].
Defined.

(** Round-robin fallback: [pick_next_runnable_queue_key] returns the first eligible
    key of the runnable sequence and moves exactly the ineligible keys before it to the
    end; with no eligible key it changes nothing, so no key is starved or dropped. *)
Theorem pick_next_rotates elig t :
  topology_ok t →
  pick_next_runnable_queue_key elig t =
    match split_eligible elig (runnable_queue_keys t) with
    | Some (pre, k, post) =>
        (Some k, t <| runnable_queue_keys := post ++ pre |>
                   <| active_runnable_queue_keys ::= λ s, s ∖ {[k]} |>)
    | None => (None, t)
    end ∧
  (∀ k, queue_of t k ≠ [] → elig k = true → is_Some (pick_next_runnable_queue_key elig t).1).
Proof.
  intros [Hi _]. split; [by apply (pick_next_exact ∅), parked_empty|].
  intros k Hk He. pose proof (pick_next_spec ∅ elig t Hi (parked_empty t)) as Hp.
  destruct (pick_next_runnable_queue_key elig t) as [[k'|] t']; [by eexists|].
  destruct Hp as (_ & _ & Hp). rewrite Hp in He; [done|].
  apply (ti_live _ _ Hi); [set_solver|done].
Qed.

Lemma pick_next_rotates_witness :
  (pick_next_runnable_queue_key (λ k, bool_decide (k.2 = topo_key_b)) topo_demo).1
    = Some (topo_tp, topo_key_b) ∧
  rq_iter (runnable_queue_keys
    (pick_next_runnable_queue_key (λ k, bool_decide (k.2 = topo_key_b)) topo_demo).2)
    = [(topo_tp, topo_key_a)].
Proof.
  destruct (pick_next_rotates (λ k, bool_decide (k.2 = topo_key_b)) topo_demo topo_demo_ok) as [-> _].
  vm_compute. done.
Defined.
