(* ===== verification/PoisonMessage.v ===== *)
(** * The poison-message circuit breaker ([control_plane/poison_message.py])

    Per (partition, original key) failure counts and the time until which work of
    that key is failed without being executed.  The clock readings of the code are
    arguments [now]. *)

From stdpp Require Import pretty.
From S2P Require Import Prelude Dto.

(** [_CircuitState] *)
Record CircuitState := mkCircuitState {
  failure_count : Z;
  open_until : option Q;
}.

Record PoisonMessageCircuitBreaker := mkBreaker {
  pb_enabled : bool;
  pb_failure_threshold : Z;
  pb_cooldown_ms : Z;
  pb_forced_failure_attempt : Z;
  pb_states : odict QueueKey CircuitState;
}.

#[export] Instance Breaker_settable : Settable PoisonMessageCircuitBreaker :=
  λ b, mkBreaker (pb_enabled b) (pb_failure_threshold b) (pb_cooldown_ms b)
         (pb_forced_failure_attempt b) (pb_states b).

(** [None] is the [ValueError] of invalid configuration. *)
Definition new_breaker (enabled : bool) (failure_threshold cooldown_ms forced_failure_attempt : Z)
    : option PoisonMessageCircuitBreaker :=
  if failure_threshold <? 1 then None
  else if cooldown_ms <? 0 then None
  else Some (mkBreaker enabled failure_threshold cooldown_ms (Z.max 1 forced_failure_attempt) []).

(** [_cooldown_seconds] *)
Definition cooldown_seconds (b : PoisonMessageCircuitBreaker) : Q := ms_to_seconds (pb_cooldown_ms b).

Definition circuit_key (w : WorkItem) : QueueKey :=
  (wi_tp w, match wi_poison_key w with None => wi_key w | Some k => k end).

Definition record_completion (now : Q) (event : CompletionEvent) (w : WorkItem)
    (b : PoisonMessageCircuitBreaker) : PoisonMessageCircuitBreaker :=
  if negb (pb_enabled b) then b
  else
    let k := circuit_key w in
    match ce_status event with
    | SUCCESS => b <| pb_states ::= od_pop k |>
    | FAILURE =>
        if ce_attempt event <? pb_forced_failure_attempt b then b
        else
          let state := default (mkCircuitState 0 None) (od_get k (pb_states b)) in
          let count := failure_count state + 1 in
          let until := if pb_failure_threshold b <=? count
                       then Some (now + cooldown_seconds b)%Q else open_until state in
          b <| pb_states ::= od_set k (mkCircuitState count until) |>
    end.

(** [_should_force_fail] *)
Definition should_force_fail_gen (now : Q) (w : WorkItem) (prune_expired : bool)
    (b : PoisonMessageCircuitBreaker) : bool * PoisonMessageCircuitBreaker :=
  if negb (pb_enabled b) then (false, b)
  else
    match od_get (circuit_key w) (pb_states b) with
    | None => (false, b)
    | Some state =>
        match open_until state with
        | None => (false, b)
        | Some until =>
            if now <q until then (true, b)
            else if prune_expired then (false, b <| pb_states ::= od_pop (circuit_key w) |>)
            else (false, b)
        end
    end.

Definition should_force_fail (now : Q) (w : WorkItem) (b : PoisonMessageCircuitBreaker)
    : bool * PoisonMessageCircuitBreaker :=
  should_force_fail_gen now w true b.

Definition would_force_fail (now : Q) (w : WorkItem) (b : PoisonMessageCircuitBreaker) : bool :=
  (should_force_fail_gen now w false b).1.

(** [str(tp)]: the representation of the data class (topic names have no quotes) *)
Definition tp_repr (tp : TopicPartition) : string :=
  "TopicPartition(topic='" +:+ topic tp +:+ "', partition=" +:+ pretty (partition tp) +:+ ")".

Definition build_forced_failure_event (w : WorkItem) (b : PoisonMessageCircuitBreaker)
    : CompletionEvent :=
  let count := match od_get (circuit_key w) (pb_states b) with
               | Some state => failure_count state | None => 0 end in
  mkCompletion (wi_id w) (wi_tp w) (wi_offset w) (wi_epoch w) FAILURE
    (Some ("Poison message circuit open for " +:+ tp_repr (wi_tp w) +:+ "@" +:+ pretty (wi_offset w)
             +:+ " key after " +:+ pretty count +:+ " failure(s)"))
    (pb_forced_failure_attempt b).

Definition clear_partition (tp : TopicPartition) (b : PoisonMessageCircuitBreaker)
    : PoisonMessageCircuitBreaker :=
  b <| pb_states ::= od_filter (λ k, k.1 ≠ tp) |>.

Definition circuit_open (now : Q) (s : CircuitState) : bool :=
  match open_until s with Some until => now <q until | None => false end.

(** The loop body: a closed circuit is left alone, an expired one is removed. *)
Definition circuit_kept (now : Q) (s : CircuitState) : bool :=
  match open_until s with Some until => now <q until | None => true end.

Definition get_open_circuit_count (now : Q) (b : PoisonMessageCircuitBreaker)
    : Z * PoisonMessageCircuitBreaker :=
  if negb (pb_enabled b) then (0, b)
  else (zlen (filter (λ p, circuit_open now p.2 = true) (pb_states b)),
        b <| pb_states ::= filter (λ p, circuit_kept now p.2 = true) |>).

(** ** Histories of the breaker *)

Inductive BreakerOp :=
  | RecordCompletion (now : Q) (event : CompletionEvent) (w : WorkItem)
  | ShouldForceFail (now : Q) (w : WorkItem)
  | ClearPartition (tp : TopicPartition)
  | OpenCount (now : Q).

Definition breaker_step (b : PoisonMessageCircuitBreaker) (op : BreakerOp)
    : PoisonMessageCircuitBreaker :=
  match op with
  | RecordCompletion now e w => record_completion now e w b
  | ShouldForceFail now w => (should_force_fail now w b).2
  | ClearPartition tp => clear_partition tp b
  | OpenCount now => (get_open_circuit_count now b).2
  end.

Definition breaker_run (b : PoisonMessageCircuitBreaker) (ops : list BreakerOp)
    : PoisonMessageCircuitBreaker := fold_left breaker_step ops b.

(** The failures of circuit [k] that count, newest first, since its last success or
    the last revocation of its partition; [ops] is given newest first. *)
Fixpoint failure_times (min_attempt : Z) (k : QueueKey) (ops : list BreakerOp) : list Q :=
  match ops with
  | [] => []
  | op :: ops' =>
      match op with
      | RecordCompletion now e w =>
          if decide (circuit_key w = k) then
            match ce_status e with
            | SUCCESS => []
            | FAILURE =>
                if ce_attempt e <? min_attempt then failure_times min_attempt k ops'
                else now :: failure_times min_attempt k ops'
            end
          else failure_times min_attempt k ops'
      | ClearPartition tp => if decide (k.1 = tp) then [] else failure_times min_attempt k ops'
      | ShouldForceFail _ _ | OpenCount _ => failure_times min_attempt k ops'
      end
  end.

(** What a stored circuit state says about the history *)
Record circuit_justified (b : PoisonMessageCircuitBreaker) (times : list Q) (s : CircuitState) : Prop := {
  cj_count : 1 ≤ failure_count s ≤ zlen times;
  cj_open : open_until s =
    if pb_failure_threshold b <=? failure_count s
    then (λ t, (t + cooldown_seconds b)%Q) <$> head times else None;
}.

Definition breaker_justified (b : PoisonMessageCircuitBreaker) (rev_ops : list BreakerOp) : Prop :=
  NoDup (od_keys (pb_states b)) ∧
  ∀ k s, od_get k (pb_states b) = Some s →
    circuit_justified b (failure_times (pb_forced_failure_attempt b) k rev_ops) s.

(** The breaker's configuration never changes. *)
Definition same_config (b b' : PoisonMessageCircuitBreaker) : Prop :=
  pb_enabled b' = pb_enabled b ∧ pb_failure_threshold b' = pb_failure_threshold b ∧
  pb_cooldown_ms b' = pb_cooldown_ms b ∧ pb_forced_failure_attempt b' = pb_forced_failure_attempt b.

Lemma breaker_step_config b op : same_config b (breaker_step b op).
Proof.
  destruct op; simpl; unfold record_completion, should_force_fail, should_force_fail_gen,
    clear_partition, get_open_circuit_count, same_config;
    repeat match goal with |- context [match ?x with _ => _ end] => destruct x end; done.
Qed.

(** [filter] on states keeps exactly the states it keeps. *)
Lemma od_get_filter_value (P : QueueKey * CircuitState → Prop) `{∀ p, Decision (P p)} d k s :
  NoDup (od_keys d) → od_get k (filter P d) = Some s → od_get k d = Some s.
Proof.
  intros Hnd Hg%od_get_elem. apply list_elem_of_filter in Hg as [_ Hg]. by apply od_elem_get.
Qed.

Lemma NoDup_keys_filter (P : QueueKey * CircuitState → Prop) `{∀ p, Decision (P p)} d :
  NoDup (od_keys d) → NoDup (od_keys (filter P d)).
Proof.
  unfold od_keys. induction d as [|p d IH]; [done|]. rewrite fmap_cons, NoDup_cons, filter_cons.
  intros [Hp Hd]. case_decide; [|auto]. rewrite fmap_cons, NoDup_cons. split; [|auto].
  intros (q & Eq & [_ ?]%list_elem_of_filter)%list_elem_of_fmap. apply Hp, list_elem_of_fmap. eauto.
Qed.

Lemma circuit_justified_config b b' ts s :
  same_config b b' → circuit_justified b ts s → circuit_justified b' ts s.
Proof.
  intros (_ & E1 & E2 & _) [H1 H2]. split; [done|]. rewrite E1. unfold cooldown_seconds in *. by rewrite E2.
Qed.

Lemma record_completion_justified b ops now e w :
  pb_enabled b = true → breaker_justified b ops →
  breaker_justified (record_completion now e w b) (RecordCompletion now e w :: ops).
Proof.
  intros Hen [Hnd Hj]. unfold record_completion. rewrite Hen. simpl.
  destruct (ce_status e) eqn:Es.
  - split; [by apply NoDup_od_pop|]. intros k s. simpl. rewrite od_get_pop, Es.
    case_decide; [done|]. intros Hs%Hj. by apply (circuit_justified_config b).
  - case_bool.
    + split; [done|]. intros k s. simpl. rewrite Es. case_decide; [|apply Hj].
      case_bool; [apply Hj|lia].
    + split; [by apply NoDup_od_set|]. intros k s. simpl. rewrite od_get_set, Es.
      case_decide as Hk; [|intros Hs%Hj; by apply (circuit_justified_config b)].
      intros [= <-]. case_bool; [lia|].
      assert (0 ≤ failure_count (default (mkCircuitState 0 None) (od_get (circuit_key w) (pb_states b)))
        ≤ zlen (failure_times (pb_forced_failure_attempt b) k ops) ∧
        (failure_count (default (mkCircuitState 0 None) (od_get (circuit_key w) (pb_states b)))
          < pb_failure_threshold b →
         open_until (default (mkCircuitState 0 None) (od_get (circuit_key w) (pb_states b))) = None))
        as [Hc Ho].
      { rewrite Hk. destruct (od_get k (pb_states b)) as [s|] eqn:E; simpl.
        - destruct (Hj _ _ E) as [Hc Ho]. split; [lia|]. intros. rewrite Ho. by case_bool; [lia|].
        - split; [|done]. pose proof (zlen_nonneg (failure_times (pb_forced_failure_attempt b) k ops)). lia. }
      split; simpl; [rewrite zlen_cons; lia|].
      case_bool; [done|]. apply Ho. lia.
Qed.

Lemma breaker_step_justified b ops op :
  pb_enabled b = true → breaker_justified b ops → breaker_justified (breaker_step b op) (op :: ops).
Proof.
  intros Hen Hb. destruct op as [now e w|now w|tp|now]; simpl.
  - by apply record_completion_justified.
  - destruct Hb as [Hnd Hj]. unfold should_force_fail, should_force_fail_gen. rewrite Hen. simpl.
    destruct (od_get _ _) as [s|]; [|done]. destruct (open_until s); [|done]. case_goal; [done|].
    split; [by apply NoDup_od_pop|]. intros k s'. simpl. rewrite od_get_pop. case_decide; [done|].
    intros Hs%Hj. by apply (circuit_justified_config b).
  - destruct Hb as [Hnd Hj]. unfold clear_partition. split; simpl.
    + rewrite od_keys_filter. by apply NoDup_filter.
    + intros k s. rewrite od_get_filter. case_decide; [|done]. case_decide; [done|].
      intros Hs%Hj. by apply (circuit_justified_config b).
  - destruct Hb as [Hnd Hj]. unfold get_open_circuit_count. rewrite Hen. simpl. split; simpl.
    + by apply NoDup_keys_filter.
    + intros k s Hs%od_get_filter_value; [|done]. apply Hj in Hs.
      by apply (circuit_justified_config b).
Qed.

Lemma breaker_run_justified b ops done :
  pb_enabled b = true → breaker_justified b done →
  breaker_justified (breaker_run b ops) (rev ops ++ done) ∧ same_config b (breaker_run b ops).
Proof.
  revert b done. induction ops as [|op ops IH]; intros b past Hen Hb; [done|]. simpl.
  pose proof (breaker_step_config b op) as Hc.
  destruct (IH (breaker_step b op) (op :: past)) as [H1 H2].
  - by destruct Hc as [-> _].
  - by apply breaker_step_justified.
  - split; [by rewrite <-app_assoc|]. unfold same_config in *. naive_solver congruence.
Qed.

Lemma new_breaker_justified b : pb_states b = [] → breaker_justified b [].
Proof. intros E. split; rewrite E; [constructor|done]. Qed.

(** A history without expiry checks leaves every counted failure in the state. *)
Definition no_prune (op : BreakerOp) : Prop :=
  match op with RecordCompletion _ _ _ | ClearPartition _ => True | _ => False end.

Definition circuit_exact (b : PoisonMessageCircuitBreaker) (times : list Q) (s : option CircuitState) : Prop :=
  match times with
  | [] => s = None
  | t :: _ => ∃ u, s = Some (mkCircuitState (zlen times) u) ∧
      u = if pb_failure_threshold b <=? zlen times then Some (t + cooldown_seconds b)%Q else None
  end.

Lemma breaker_step_exact b ops op :
  pb_enabled b = true → no_prune op →
  (∀ k, circuit_exact b (failure_times (pb_forced_failure_attempt b) k ops) (od_get k (pb_states b))) →
  ∀ k, circuit_exact b (failure_times (pb_forced_failure_attempt b) k (op :: ops))
         (od_get k (pb_states (breaker_step b op))).
Proof.
  intros Hen Hop Hex k. specialize (Hex k). destruct op as [now e w| |tp|]; simpl; [|done| |done].
  - unfold record_completion. rewrite Hen. simpl. destruct (ce_status e).
    + simpl. rewrite od_get_pop. case_decide; [done|]. done.
    + case_bool; [by case_decide|]. simpl. rewrite od_get_set. case_decide as Hk; [|done]. rewrite Hk.
      destruct (failure_times _ k ops) as [|t ts]; simpl in Hex |- *.
      * rewrite Hex. simpl. eexists. split; [reflexivity|]. done.
      * destruct Hex as (u & -> & ->). simpl. eexists.
        rewrite (zlen_cons now), (Z.add_comm 1). split; [reflexivity|].
        repeat case_bool; try done; lia.
  - unfold clear_partition. simpl. rewrite od_get_filter. repeat case_decide; try done.
Qed.

Lemma breaker_run_exact b ops past :
  pb_enabled b = true → Forall no_prune ops →
  (∀ k, circuit_exact b (failure_times (pb_forced_failure_attempt b) k past) (od_get k (pb_states b))) →
  ∀ k, circuit_exact b (failure_times (pb_forced_failure_attempt b) k (rev ops ++ past))
         (od_get k (pb_states (breaker_run b ops))).
Proof.
  revert b past. induction ops as [|op ops IH]; intros b past Hen Hf Hex k; [by apply Hex|].
  apply Forall_cons in Hf as [H1 H2]. simpl. rewrite <-app_assoc. simpl.
  pose proof (breaker_step_config b op) as (E1 & E2 & E3 & E4).
  specialize (IH (breaker_step b op) (op :: past)). rewrite E1, E4 in IH.
  assert (∀ ts s, circuit_exact (breaker_step b op) ts s ↔ circuit_exact b ts s) as Hcfg.
  { intros ts s. unfold circuit_exact, cooldown_seconds. by rewrite E2, E3. }
  specialize (IH Hen H2). apply Hcfg, IH. intros k'. apply Hcfg. by apply breaker_step_exact.
Qed.

(** ** Claims *)

Definition poison_tp : TopicPartition := mkTp "orders" 3.
Definition poison_item : WorkItem := mkWorkItem "w1" poison_tp 7 0 (PyInt 3) PyNone 0 (Some (PyBytes [107])).
Definition poison_failure : CompletionEvent := mkCompletion "w1" poison_tp 7 0 FAILURE (Some "boom") 3.
Definition poison_breaker : PoisonMessageCircuitBreaker := mkBreaker true 2 1000 3 [].
Definition poison_ops : list BreakerOp :=
  [RecordCompletion 10 poison_failure poison_item; RecordCompletion 11 poison_failure poison_item].

(** The circuit breaker never force-fails work on its own initiative: whatever the
    history of completions, expiry checks and revocations, when it decides to fail an item,
    the item's circuit has had at least [failure_threshold] exhausted failures since its
    last success or revocation, the last of them less than the cooldown ago. *)
Theorem poison_force_fail_justified enabled threshold cooldown attempt b ops now w :
  new_breaker enabled threshold cooldown attempt = Some b →
  (should_force_fail now w (breaker_run b ops)).1 = true →
  let times := failure_times (Z.max 1 attempt) (circuit_key w) (rev ops) in
  enabled = true ∧ threshold ≤ zlen times ∧
  ∃ last, head times = Some last ∧ (now < last + ms_to_seconds cooldown)%Q.
Proof.
  unfold new_breaker. case_bool; [done|]. case_bool; [done|]. intros [= <-].
  set (b := mkBreaker enabled threshold cooldown (Z.max 1 attempt) []). intros Hf.
  assert (enabled = true) as Hen.
  { destruct enabled; [done|]. assert (∀ ops b0, pb_enabled b0 = false → pb_enabled (breaker_run b0 ops) = false) as Hd.
    { clear. induction ops as [|op ops IH]; [done|]. intros b0 Hb. simpl. apply IH.
      by destruct (breaker_step_config b0 op) as [-> _]. }
    unfold should_force_fail, should_force_fail_gen in Hf. by rewrite (Hd _ b) in Hf. }
  destruct (breaker_run_justified b ops [] Hen) as [[_ Hj] Hc]; [by apply new_breaker_justified|].
  rewrite app_nil_r in Hj. destruct Hc as (E1 & E2 & E3 & E4). split; [done|].
  unfold should_force_fail, should_force_fail_gen in Hf. rewrite E1 in Hf. simpl in Hf. rewrite Hen in Hf. simpl in Hf.
  destruct (od_get _ _) as [s|] eqn:Es; [|done]. destruct (Hj _ _ Es) as [Hcnt Ho].
  rewrite E4 in Hcnt, Ho. rewrite E2 in Ho. unfold cooldown_seconds in Ho. rewrite E3 in Ho. simpl in *.
  destruct (open_until s) as [u|]; [|done]. destruct (now <q u) eqn:Eu; [|done].
  case_bool; [|done]. split; [lia|]. destruct (failure_times _ _ _) as [|last ts]; [done|].
  simpl in Ho. simplify_eq. exists last. split; [done|]. by apply Qltb_lt.
Qed.

Lemma poison_force_fail_justified_witness :
  zlen (failure_times 3 (circuit_key poison_item) (rev poison_ops)) = 2 ∧
  ∃ last, head (failure_times 3 (circuit_key poison_item) (rev poison_ops)) = Some last ∧
    (inject_Z 11 < last + ms_to_seconds 1000)%Q.
Proof.
  destruct (poison_force_fail_justified true 2 1000 3 poison_breaker poison_ops (inject_Z 11) poison_item
    eq_refl ltac:(vm_compute; reflexivity)) as (_ & H2 & H3).
  split; [reflexivity|exact H3].
Defined.

(** The circuit opens exactly at the threshold: over a history of completions and
    revocations, an item would be force-failed if and only if the counted failures of its
    circuit since the last success or revocation reach the threshold and the newest of
    them is less than the cooldown old; the check itself changes nothing. *)
Theorem poison_opens_at_threshold threshold cooldown attempt b ops now w :
  new_breaker true threshold cooldown attempt = Some b →
  Forall no_prune ops →
  would_force_fail now w (breaker_run b ops) =
    match failure_times (Z.max 1 attempt) (circuit_key w) (rev ops) with
    | [] => false
    | (last :: _) as times => (threshold <=? zlen times) && (now <q (last + ms_to_seconds cooldown)%Q)
    end ∧
  (should_force_fail_gen now w false (breaker_run b ops)).2 = breaker_run b ops.
Proof.
  unfold new_breaker. case_bool; [done|]. case_bool; [done|]. intros [= <-] Hf.
  set (b := mkBreaker true threshold cooldown (Z.max 1 attempt) []).
  pose proof (breaker_run_exact b ops [] eq_refl Hf) as Hex. rewrite app_nil_r in Hex.
  specialize (Hex (λ _, eq_refl) (circuit_key w)). simpl in Hex.
  destruct (breaker_run_justified b ops [] eq_refl) as [_ (E1 & _)]; [by apply new_breaker_justified|].
  unfold would_force_fail, should_force_fail_gen. rewrite E1. simpl. unfold circuit_exact in Hex.
  destruct (failure_times _ _ _) as [|last ts]; [by rewrite Hex|].
  destruct Hex as (u & -> & ->). simpl.
  destruct (Z.leb_spec threshold (zlen (last :: ts))); simpl; [|done].
  unfold cooldown_seconds. simpl. by destruct (now <q _).
Qed.

Lemma poison_opens_at_threshold_witness :
  would_force_fail (inject_Z 11) poison_item (breaker_run poison_breaker poison_ops) = true ∧
  would_force_fail (inject_Z 12) poison_item (breaker_run poison_breaker poison_ops) = false.
Proof.
  split.
  - destruct (poison_opens_at_threshold 2 1000 3 poison_breaker poison_ops (inject_Z 11) poison_item
      eq_refl) as [-> _]; [repeat constructor|reflexivity].
  - destruct (poison_opens_at_threshold 2 1000 3 poison_breaker poison_ops (inject_Z 12) poison_item
      eq_refl) as [-> _]; [repeat constructor|reflexivity].
Defined.
