(* ===== verification/ExecutionEngine.v ===== *)
(** * The execution-engine contract ([execution_plane/base.py])

    What the control plane may assume of an engine, as a type class, and the default
    batch submission of [BaseExecutionEngine] with the proof that it keeps the
    contract whenever single submission does. *)

From S2P Require Import Prelude Dto.

(** ** Configuration and the user's worker function

    What both engines read of [ExecutionConfig], and how one call of the worker function ends. *)

Record ExecutionConfig := mkExecutionConfig {
  ec_max_in_flight : Z;
  ec_max_retries : Z;
  ec_retry_backoff_ms : Z;
  ec_exponential_backoff : bool;
  ec_max_retry_backoff_ms : Z;
  ec_retry_jitter_ms : Z;
}.

Inductive AttemptResult := Returns | TimesOut | Raises (message : string).

(** ** The contract *)

(** How a submission ends: normally, with [BatchSubmitError] carrying
    [accepted_count], or with any other exception. *)
Inductive SubmitOutcome :=
  | SubmitOk
  | BatchSubmitError (accepted_count : Z)
  | SubmitError.

(** The operations the work manager calls.  [engine_log] and [engine_ok] are not code: the
    sequence of items the engine has accepted and the states it can be in, by which the
    contract is stated. *)
Class ExecutionEngine (E : Type) := {
  engine_submit : WorkItem → E → SubmitOutcome * E;
  engine_submit_batch : list WorkItem → E → SubmitOutcome * E;
  engine_poll_completed_events : Z → E → list CompletionEvent * E;
  supports_ordered_route_batch : E → bool;
  engine_log : E → list WorkItem;
  engine_ok : E → Prop;
}.

(** The items an outcome says were accepted *)
Definition accepted_items (o : SubmitOutcome) (ws : list WorkItem) : list WorkItem :=
  match o with
  | SubmitOk => ws
  | BatchSubmitError n => py_take n ws
  | SubmitError => []
  end.

(** A [BatchSubmitError] reports a proper prefix. *)
Definition outcome_ok (o : SubmitOutcome) (ws : list WorkItem) : Prop :=
  match o with BatchSubmitError n => 0 ≤ n < zlen ws | _ => True end.

(** [event] reports the completion of [w]. *)
Definition completes (w : WorkItem) (event : CompletionEvent) : Prop :=
  ce_id event = wi_id w ∧ ce_tp event = wi_tp w ∧ ce_offset event = wi_offset w ∧ ce_epoch event = wi_epoch w.

(** The documented contract: a batch is accepted atomically, or a failure names the
    accepted prefix; only accepted work completes; the capability does not change. *)
Class ExecutionEngineLaws (E : Type) `{ExecutionEngine E} : Prop := {
  submit_accepts w e o e' :
    engine_ok e → engine_submit w e = (o, e') →
    engine_ok e' ∧ outcome_ok o [w] ∧ engine_log e' = engine_log e ++ accepted_items o [w] ∧
    supports_ordered_route_batch e' = supports_ordered_route_batch e;
  submit_batch_accepts ws e o e' :
    engine_ok e → engine_submit_batch ws e = (o, e') →
    engine_ok e' ∧ outcome_ok o ws ∧ engine_log e' = engine_log e ++ accepted_items o ws ∧
    supports_ordered_route_batch e' = supports_ordered_route_batch e;
  poll_completes n e es e' :
    engine_ok e → engine_poll_completed_events n e = (es, e') →
    engine_ok e' ∧ engine_log e' = engine_log e ∧
    supports_ordered_route_batch e' = supports_ordered_route_batch e ∧
    ∀ event, event ∈ es → ∃ w, w ∈ engine_log e ∧ completes w event;
}.

(** ** [BaseExecutionEngine.submit_batch] *)

Section default_batch.
Context {E : Type} (submit : WorkItem → E → SubmitOutcome * E).

(** The loop of the default [submit_batch]; every exception of [submit] is wrapped. *)
Fixpoint submit_batch_loop (accepted_count : Z) (work_items : list WorkItem) (e : E) : SubmitOutcome * E :=
  match work_items with
  | [] => (SubmitOk, e)
  | w :: rest =>
      match submit w e with
      | (SubmitOk, e') => submit_batch_loop (accepted_count + 1) rest e'
      | (_, e') => (BatchSubmitError accepted_count, e')
      end
  end.

Definition base_submit_batch (work_items : list WorkItem) (e : E) : SubmitOutcome * E :=
  submit_batch_loop 0 work_items e.

Context (log : E → list WorkItem) (capability : E → bool) (ok : E → Prop).
Context (submit_ok : ∀ w e o e', ok e → submit w e = (o, e') →
  ok e' ∧ outcome_ok o [w] ∧ log e' = log e ++ accepted_items o [w] ∧ capability e' = capability e).

Lemma submit_batch_loop_spec n ws e o e' :
  0 ≤ n → ok e → submit_batch_loop n ws e = (o, e') →
  ok e' ∧ capability e' = capability e ∧
  match o with
  | SubmitOk => log e' = log e ++ ws
  | BatchSubmitError m => n ≤ m < n + zlen ws ∧ log e' = log e ++ py_take (m - n) ws
  | SubmitError => False
  end.
Proof.
  revert n e. induction ws as [|w ws IH]; intros n e Hn Hok; simpl.
  { intros [= <- <-]. by rewrite app_nil_r. }
  rewrite zlen_cons. pose proof (zlen_nonneg ws).
  destruct (submit w e) as [o1 e1] eqn:Es. destruct (submit_ok _ _ _ _ Hok Es) as (H0 & H1 & H2 & H3).
  assert (o1 ≠ SubmitOk → log e1 = log e) as Hno.
  { intros Ho. rewrite H2. destruct o1 as [|m|]; simpl in *; [done| |by rewrite app_nil_r].
    change (zlen [w]) with 1 in H1. replace m with 0 by lia. by rewrite app_nil_r. }
  assert (o1 ≠ SubmitOk → (BatchSubmitError n, e1) = (o, e') → ok e' ∧ capability e' = capability e ∧
    match o with
    | SubmitOk => log e' = log e ++ w :: ws
    | BatchSubmitError m => n ≤ m < n + (1 + zlen ws) ∧ log e' = log e ++ py_take (m - n) (w :: ws)
    | SubmitError => False
    end) as Hfail.
  { intros Ho [= <- <-]. split; [done|]. split; [done|]. split; [lia|]. rewrite Hno, Z.sub_diag by done.
    unfold py_take. simpl. by rewrite app_nil_r. }
  destruct o1 as [|m|]; [|by apply Hfail|by apply Hfail].
  intros (H4 & H5 & H6)%IH; [|lia|done]. split; [done|]. split; [congruence|].
  destruct o as [|m|]; [|split; [lia|]|done].
  - rewrite H6, H2. simpl. by rewrite <-app_assoc.
  - destruct H6 as [Hm ->]. rewrite H2. simpl. rewrite <-app_assoc. f_equal. unfold py_take.
    by replace (Z.to_nat (m - n)) with (S (Z.to_nat (m - (n + 1)))) by lia.
Qed.

(** The default batch submission keeps the contract. *)
Lemma base_submit_batch_spec ws e o e' :
  ok e → base_submit_batch ws e = (o, e') →
  ok e' ∧ outcome_ok o ws ∧ log e' = log e ++ accepted_items o ws ∧ capability e' = capability e.
Proof.
  intros Hok (H0 & H1 & H2)%submit_batch_loop_spec; [|lia|done].
  destruct o as [|m|]; simpl; [done| |done]. destruct H2 as [H2 H3]. rewrite Z.sub_0_r in H3.
  split; [done|]. split; [lia|done].
Qed.
End default_batch.

(** ** A concrete engine

    An engine that accepts work while it holds fewer than [capacity] items and
    completes everything on the next poll, used to evaluate the models. *)
Record DemoEngine := mkDemoEngine {
  de_capacity : Z;
  de_held : list WorkItem;
  de_log : list WorkItem;
  de_ordered_batches : bool;
}.

Definition demo_submit (w : WorkItem) (e : DemoEngine) : SubmitOutcome * DemoEngine :=
  if zlen (de_held e) <? de_capacity e
  then (SubmitOk, mkDemoEngine (de_capacity e) (de_held e ++ [w]) (de_log e ++ [w]) (de_ordered_batches e))
  else (SubmitError, e).

Definition demo_complete (w : WorkItem) : CompletionEvent :=
  mkCompletion (wi_id w) (wi_tp w) (wi_offset w) (wi_epoch w) SUCCESS None 1.

Definition demo_poll (n : Z) (e : DemoEngine) : list CompletionEvent * DemoEngine :=
  (demo_complete <$> py_take n (de_held e),
   mkDemoEngine (de_capacity e) (py_drop n (de_held e)) (de_log e) (de_ordered_batches e)).

Definition demo_ok (e : DemoEngine) : Prop := ∀ w, w ∈ de_held e → w ∈ de_log e.

#[export] Instance demo_engine : ExecutionEngine DemoEngine := {|
  engine_submit := demo_submit;
  engine_submit_batch := base_submit_batch demo_submit;
  engine_poll_completed_events := demo_poll;
  supports_ordered_route_batch := de_ordered_batches;
  engine_log := de_log;
  engine_ok := demo_ok;
|}.

Lemma demo_submit_spec w e o e' :
  demo_ok e → demo_submit w e = (o, e') →
  demo_ok e' ∧ outcome_ok o [w] ∧ de_log e' = de_log e ++ accepted_items o [w] ∧
  de_ordered_batches e' = de_ordered_batches e.
Proof.
  unfold demo_submit, demo_ok. intros Hok. case_bool; intros [= <- <-]; simpl.
  - split; [|done]. intros w'. rewrite !elem_of_app. naive_solver.
  - by rewrite app_nil_r.
Qed.

#[export] Instance demo_engine_laws : ExecutionEngineLaws DemoEngine.
Proof.
  split; simpl.
  - apply demo_submit_spec.
  - apply (base_submit_batch_spec demo_submit de_log de_ordered_batches demo_ok demo_submit_spec).
  - intros n e es e' Hok [= <- <-]. split; [|split; [done|split; [done|]]].
    + intros w Hw. apply Hok. revert Hw. simpl. unfold py_drop. intros Hw.
      rewrite <-(take_drop (Z.to_nat n)). set_solver.
    + intros event (w & -> & Hw)%list_elem_of_fmap. exists w. split; [|done]. apply Hok.
      rewrite <-(take_drop (Z.to_nat n)). unfold py_take in Hw. set_solver.
Qed.
