(* ===== verification/WorkManager.v ===== *)
(** * The work manager ([control_plane/work_manager.py])

    Scheduling of queued work onto the execution engine, ordering locks, in-flight
    accounting and reconciliation of completions.  Offset trackers are shared with the
    broker: they live in a store and the manager's dictionary holds their locations.
    An [await] is not an interleaving point of the model: each method runs to its end
    before the next one starts. *)

From S2P Require Import Prelude Vendor Runtime Dto OffsetTracker PoisonMessage WorkQueueTopology ExecutionEngine.

Abbreviation loc := nat.

(** [int | OffsetTracker], the values of an assignment mapping *)
Inductive AssignedTracker :=
  | StartingOffset (offset : Z)
  | SharedTracker (l : loc).

(** [GroupedMessage]: the poison key is absent from the three-element tuples. *)
Record GroupedMessage := mkMessage {
  gm_offset : Z;
  gm_epoch : Z;
  gm_payload : PyValue;
  gm_poison_key : option PyValue;
}.

Section work_manager.
Context {E : Type} `{EE : ExecutionEngine E} `{TL : TrackerLibs} `{RT : Runtime}.

Record WorkManager := mkWM {
  execution_engine : E;
  tracker_store : gmap loc OffsetTracker;
  offset_trackers : odict TopicPartition loc;
  queue_topology : Topology;
  completion_queue : list CompletionEvent;
  in_flight_work_items : odict string WorkItem;
  work_item_ids_by_tp_offset : odict (TopicPartition * Z) string;
  dispatch_timestamps : odict string Q;
  total_queued_messages : Z;
  completion_latency_ema_seconds : option Q;
  completion_timestamps : list Q;
  max_in_flight_messages : Z;
  current_in_flight_count : Z;
  rebalancing : bool;
  metrics_exporter : option (list (CompletionEvent * WorkItem * Q));
  ordering_mode : OrderingMode;
  wm_max_revoke_grace_ms : Z;
  keys_in_flight : gset QueueKey;
  partitions_in_flight : gset TopicPartition;
  key_in_flight_counts : gmap QueueKey Z;
  partition_in_flight_counts : gmap TopicPartition Z;
  leased_queue_keys : gset QueueKey;
  blocking_cache : odict TopicPartition (option OffsetRange);
  blocking_cache_ttl : Z;
  blocking_cache_counter : Z;
  shared_offset_trackers : gset TopicPartition;
  poison_message_circuit : option PoisonMessageCircuitBreaker;
  route_batch_size : Z;
  wm_ticks : nat;   (* clock readings so far *)
  wm_uuids : nat;   (* identifiers drawn so far *)
}.

#[export] Instance WorkManager_settable : Settable WorkManager :=
  λ w, mkWM (execution_engine w) (tracker_store w) (offset_trackers w) (queue_topology w)
    (completion_queue w) (in_flight_work_items w) (work_item_ids_by_tp_offset w)
    (dispatch_timestamps w) (total_queued_messages w) (completion_latency_ema_seconds w)
    (completion_timestamps w) (max_in_flight_messages w) (current_in_flight_count w)
    (rebalancing w) (metrics_exporter w) (ordering_mode w) (wm_max_revoke_grace_ms w)
    (keys_in_flight w) (partitions_in_flight w) (key_in_flight_counts w)
    (partition_in_flight_counts w) (leased_queue_keys w) (blocking_cache w)
    (blocking_cache_ttl w) (blocking_cache_counter w) (shared_offset_trackers w)
    (poison_message_circuit w) (route_batch_size w) (wm_ticks w) (wm_uuids w).

(** [__init__]; [None] is the [ValueError] on the route batch size.  The store holds the
    trackers that exist when the manager is built. *)
Definition new_work_manager (engine : E) (max_in_flight : Z)
    (exporter : option (list (CompletionEvent * WorkItem * Q)))
    (mode : OrderingMode) (cache_ttl grace_ms : Z) (poison : option PoisonMessageCircuitBreaker)
    (batch_size : Z) (store : gmap loc OffsetTracker) : option WorkManager :=
  if batch_size <? 1 then None
  else Some (mkWM engine store [] new_topology [] [] [] [] 0 None [] max_in_flight 0 false exporter mode
               grace_ms ∅ ∅ ∅ ∅ ∅ [] cache_ttl 0 ∅ poison batch_size 0 0).

(** One reading of a clock *)
Definition tick (clock : nat → Q) (wm : WorkManager) : Q * WorkManager :=
  (clock (wm_ticks wm), wm <| wm_ticks ::= S |>).

Definition completion_rate_window_seconds : Q := 5.

(** ** Completion statistics *)

(** The [while] loop of [_prune_completion_timestamps] *)
Fixpoint prune_before (cutoff : Q) (ts : list Q) : list Q :=
  match ts with
  | [] => []
  | t :: rest => if t <q cutoff then prune_before cutoff rest else ts
  end.

Definition prune_completion_timestamps (now : Q) (wm : WorkManager) : WorkManager :=
  wm <| completion_timestamps ::= prune_before (now - completion_rate_window_seconds)%Q |>.

Definition record_completion_latency (duration_seconds now : Q) (wm : WorkManager) : WorkManager :=
  let ema := match completion_latency_ema_seconds wm with
             | None => duration_seconds
             | Some e => (e * (8 # 10) + duration_seconds * (2 # 10))%Q
             end in
  prune_completion_timestamps now
    (wm <| completion_latency_ema_seconds := Some ema |>
        <| completion_timestamps ::= deque_append 256 now |>).

Definition get_recent_completion_rate_per_second (now_monotonic : option Q) (wm : WorkManager)
    : Q * WorkManager :=
  let '(now, wm1) := match now_monotonic with
                     | None => tick perf_counter wm
                     | Some t => (t, wm)
                     end in
  let wm2 := prune_completion_timestamps now wm1 in
  ((inject_Z (zlen (completion_timestamps wm2)) / completion_rate_window_seconds)%Q, wm2).

(** ** Ordering locks and leases *)

Definition invalidate_blocking_cache (wm : WorkManager) : WorkManager :=
  wm <| blocking_cache_counter := 0 |>.

Definition record_ordering_lock (item : WorkItem) (wm : WorkManager) : WorkManager :=
  match ordering_mode wm with
  | KEY_HASH =>
      let key := (wi_tp item, wi_key item) in
      wm <| key_in_flight_counts ::= λ m, <[key := default 0 (m !! key) + 1]> m |>
         <| keys_in_flight ::= λ s, {[key]} ∪ s |>
  | PARTITION =>
      wm <| partition_in_flight_counts ::= λ m, <[wi_tp item := default 0 (m !! wi_tp item) + 1]> m |>
         <| partitions_in_flight ::= λ s, {[wi_tp item]} ∪ s |>
  | UNORDERED => wm
  end.

Definition release_ordering_lock (item : WorkItem) (wm : WorkManager) : WorkManager :=
  match ordering_mode wm with
  | KEY_HASH =>
      let key := (wi_tp item, wi_key item) in
      let remaining := default 1 (key_in_flight_counts wm !! key) - 1 in
      if 0 <? remaining then wm <| key_in_flight_counts ::= <[key := remaining]> |>
      else wm <| key_in_flight_counts ::= delete key |>
              <| keys_in_flight ::= λ s, s ∖ {[key]} |>
  | PARTITION =>
      let remaining := default 1 (partition_in_flight_counts wm !! wi_tp item) - 1 in
      if 0 <? remaining then wm <| partition_in_flight_counts ::= <[wi_tp item := remaining]> |>
      else wm <| partition_in_flight_counts ::= delete (wi_tp item) |>
              <| partitions_in_flight ::= λ s, s ∖ {[wi_tp item]} |>
  | UNORDERED => wm
  end.

Definition is_queue_eligible (wm : WorkManager) (k : QueueKey) : bool :=
  match ordering_mode wm with
  | KEY_HASH => negb (bool_decide (k ∈ keys_in_flight wm))
  | PARTITION => negb (bool_decide (k.1 ∈ partitions_in_flight wm))
  | UNORDERED => true
  end.

Definition resolve_route_batch_limit (wm : WorkManager) : Z :=
  let remaining_capacity := max_in_flight_messages wm - current_in_flight_count wm in
  if remaining_capacity <=? 0 then 0
  else match ordering_mode wm with
       | PARTITION => 1
       | KEY_HASH =>
           if supports_ordered_route_batch (execution_engine wm)
           then Z.min (route_batch_size wm) remaining_capacity else 1
       | UNORDERED => Z.min (route_batch_size wm) remaining_capacity
       end.

Definition resolve_logical_eligible_prefix_limit (wm : WorkManager) : Z :=
  match ordering_mode wm with
  | PARTITION => 1
  | KEY_HASH =>
      if supports_ordered_route_batch (execution_engine wm) then route_batch_size wm else 1
  | UNORDERED => route_batch_size wm
  end.

Definition select_same_queue_batch (q : Queue) (wm : WorkManager) : list WorkItem :=
  peek_queue_batch q (resolve_route_batch_limit wm).

(** [self._poison_message_circuit.should_force_fail(item)], with its clock reading *)
Definition check_force_fail (b : PoisonMessageCircuitBreaker) (item : WorkItem) (wm : WorkManager)
    : bool * WorkManager :=
  let '(now, wm1) := tick monotonic wm in
  let '(r, b') := should_force_fail now item b in
  (r, wm1 <| poison_message_circuit := Some b' |>).

Fixpoint truncate_batch_before_force_fail (items : list WorkItem) (wm : WorkManager)
    : list WorkItem * WorkManager :=
  match poison_message_circuit wm, items with
  | None, _ => (items, wm)
  | Some _, [] => ([], wm)
  | Some b, item :: rest =>
      let '(r, wm1) := check_force_fail b item wm in
      if r then ([], wm1)
      else let '(accepted, wm2) := truncate_batch_before_force_fail rest wm1 in
           (item :: accepted, wm2)
  end.

(** ** Releasing work *)

Definition release_in_flight_item (work_item_id : string) (reschedule : bool) (wm : WorkManager)
    : (bool * option Q) * WorkManager :=
  let completed_item := od_get work_item_id (in_flight_work_items wm) in
  let dispatch_time := od_get work_item_id (dispatch_timestamps wm) in
  let wm1 := wm <| in_flight_work_items ::= od_pop work_item_id |>
                <| dispatch_timestamps ::= od_pop work_item_id |> in
  match completed_item with
  | None => ((false, dispatch_time), wm1)
  | Some item =>
      let tp_offset_key := (wi_tp item, wi_offset item) in
      let wm2 := if decide (od_get tp_offset_key (work_item_ids_by_tp_offset wm1) = Some work_item_id)
                 then wm1 <| work_item_ids_by_tp_offset ::= od_pop tp_offset_key |> else wm1 in
      let wm3 := if dispatch_time is Some _ then release_ordering_lock item wm2 else wm2 in
      let wm4 := wm3 <| queue_topology ::= cleanup_empty_queue (wi_tp item) (wi_key item) |> in
      let wm5 := if dispatch_time is Some _
                 then wm4 <| current_in_flight_count ::= λ n, Z.max 0 (n - 1) |> else wm4 in
      let wm6 := if reschedule then invalidate_blocking_cache wm5 else wm5 in
      ((true, dispatch_time), wm6)
  end.

Definition force_fail (tp : TopicPartition) (offset epoch : Z) (error : string) (attempt : Z)
    (wm : WorkManager) : bool * WorkManager :=
  let '(work_id, wm1) :=
    match od_get (tp, offset) (work_item_ids_by_tp_offset wm) with
    | Some id => (Some id, wm)
    | None =>
        match list_find (λ p, wi_tp p.2 = tp ∧ wi_offset p.2 = offset) (in_flight_work_items wm) with
        | Some (_, (id, _)) => (Some id, wm <| work_item_ids_by_tp_offset ::= od_set (tp, offset) id |>)
        | None => (None, wm)
        end
    end in
  match work_id with
  | None => (false, wm1)
  | Some id =>
      (true, wm1 <| completion_queue ::=
                      λ q, q ++ [mkCompletion id tp offset epoch FAILURE (Some error) attempt] |>)
  end.

(** ** Assignment *)

Definition assign_tracker (tp : TopicPartition) (v : AssignedTracker) (wm : WorkManager) : WorkManager :=
  let wm1 :=
    match v with
    | StartingOffset o =>
        let l := fresh (dom (tracker_store wm)) in
        wm <| tracker_store ::= <[l := new_tracker tp o (wm_max_revoke_grace_ms wm) None]> |>
           <| offset_trackers ::= od_set tp l |>
           <| shared_offset_trackers ::= λ s, s ∖ {[tp]} |>
    | SharedTracker l =>
        wm <| offset_trackers ::= od_set tp l |>
           <| shared_offset_trackers ::= λ s, {[tp]} ∪ s |>
    end in
  wm1 <| queue_topology ::= assign tp |>.

Definition on_assign (assignments : odict TopicPartition AssignedTracker) (wm : WorkManager) : WorkManager :=
  let wm1 := fold_left (λ acc p, assign_tracker p.1 p.2 acc) assignments wm in
  invalidate_blocking_cache (wm1 <| rebalancing := false |>).

(** One iteration of the first loop of [on_revoke] *)
Definition revoke_partition (wm : WorkManager) (tp : TopicPartition) : WorkManager :=
  let '(removed_count, topo) := revoke tp (queue_topology wm) in
  let wm1 := wm <| queue_topology := topo |>
                <| total_queued_messages ::= λ n, Z.max 0 (n - removed_count) |>
                <| offset_trackers ::= od_pop tp |>
                <| shared_offset_trackers ::= λ s, s ∖ {[tp]} |> in
  match poison_message_circuit wm1 with
  | None => wm1
  | Some b => wm1 <| poison_message_circuit := Some (clear_partition tp b) |>
  end.

Definition on_revoke (revoked_tps : list TopicPartition) (wm : WorkManager) : WorkManager :=
  let wm1 := fold_left revoke_partition revoked_tps wm in
  let wm2 :=
    if decide (revoked_tps = []) then wm1
    else
      let stale_ids := (filter (λ p, wi_tp p.2 ∈ revoked_tps) (in_flight_work_items wm1)).*1 in
      let wm' := fold_left (λ acc id, (release_in_flight_item id false acc).2) stale_ids wm1 in
      let wm'' := match ordering_mode wm' with
                  | KEY_HASH => wm' <| keys_in_flight ::= filter (λ k, k.1 ∉ revoked_tps) |>
                  | PARTITION => wm' <| partitions_in_flight ::= λ s, s ∖ list_to_set revoked_tps |>
                  | UNORDERED => wm'
                  end in
      wm'' <| key_in_flight_counts ::= filter (λ p, p.1.1 ∉ revoked_tps) |>
           <| partition_in_flight_counts ::= filter (λ p, p.1 ∉ revoked_tps) |> in
  invalidate_blocking_cache (wm2 <| rebalancing := true |>).

(** ** Arrival of messages *)

(** The inner loop of [submit_message_batch]: one work item per message.  [maxes] is
    [max_offsets_by_tp]. *)
Fixpoint make_work_items (tp : TopicPartition) (key : PyValue) (messages : list GroupedMessage)
    (maxes : odict TopicPartition Z) (wm : WorkManager)
    : list WorkItem * odict TopicPartition Z * WorkManager :=
  match messages with
  | [] => ([], maxes, wm)
  | m :: rest =>
      let id := uuid4 (wm_uuids wm) in
      let item := mkWorkItem id tp (gm_offset m) (gm_epoch m) key (gm_payload m) 0
                    (Some (match gm_poison_key m with None => key | Some pk => pk end)) in
      let wm1 := wm <| wm_uuids ::= S |>
                    <| in_flight_work_items ::= od_set id item |>
                    <| work_item_ids_by_tp_offset ::= od_set (tp, gm_offset m) id |> in
      let maxes1 := match od_get tp maxes with
                    | Some previous_max =>
                        if previous_max <? gm_offset m then od_set tp (gm_offset m) maxes else maxes
                    | None => od_set tp (gm_offset m) maxes
                    end in
      let '(items, maxes2, wm2) := make_work_items tp key rest maxes1 wm1 in
      (item :: items, maxes2, wm2)
  end.

(** The loop over the groups; the flag is [false] when the [ValueError] of a partition
    that is not assigned is raised, leaving the groups before it enqueued. *)
Fixpoint submit_groups (groups : odict QueueKey (list GroupedMessage))
    (maxes : odict TopicPartition Z) (wm : WorkManager)
    : bool * odict TopicPartition Z * WorkManager :=
  match groups with
  | [] => (true, maxes, wm)
  | ((tp, key), messages) :: rest =>
      if negb (od_has tp (virtual_partition_queues (queue_topology wm))) then (false, maxes, wm)
      else
        let '(items, maxes1, wm1) := make_work_items tp key messages maxes wm in
        match enqueue_batch tp key items (queue_topology wm1) with
        | None => (false, maxes1, wm1)
        | Some topo =>
            submit_groups rest maxes1
              (wm1 <| queue_topology := topo |>
                   <| total_queued_messages ::= λ n, n + zlen items |>)
        end
  end.

(** [tracker.update_last_fetched_offset(max_offset)] for each partition seen *)
Definition fetch_tracker (wm : WorkManager) (p : TopicPartition * Z) : WorkManager :=
  match od_get p.1 (offset_trackers wm) with
  | None => wm
  | Some l => wm <| tracker_store ::= alter (update_last_fetched_offset p.2) l |>
  end.

Definition submit_message_batch (grouped_messages : odict QueueKey (list GroupedMessage))
    (wm : WorkManager) : bool * WorkManager :=
  let '(returned, maxes, wm1) := submit_groups grouped_messages [] wm in
  if negb returned then (false, wm1)
  else if decide (maxes = []) then (true, wm1)
  else (true, invalidate_blocking_cache (fold_left fetch_tracker maxes wm1)).

Definition submit_message (tp : TopicPartition) (offset epoch : Z) (key payload : PyValue)
    (wm : WorkManager) : bool * WorkManager :=
  submit_message_batch [((tp, key), [mkMessage offset epoch payload None])] wm.

(** ** Scheduling *)

(** One iteration of [get_blocking_offsets] *)
Definition blocking_offset_of (acc : odict TopicPartition (option OffsetRange) * WorkManager)
    (p : TopicPartition * loc) : odict TopicPartition (option OffsetRange) * WorkManager :=
  let '(blocking, wm) := acc in
  let wm1 := if decide (p.1 ∈ shared_offset_trackers wm) then wm
             else wm <| tracker_store ::= alter advance_high_water_mark p.2 |> in
  match tracker_store wm1 !! p.2 with
  | None => (blocking, wm1)
  | Some tracker =>
      (od_set p.1 ((λ head, mkRange head head) <$> get_first_gap_head tracker) blocking, wm1)
  end.

Definition get_blocking_offsets (wm : WorkManager) : odict TopicPartition (option OffsetRange) * WorkManager :=
  fold_left blocking_offset_of (offset_trackers wm) ([], wm).

(** One iteration of [_record_submitted_items] *)
Definition record_submitted_item (wm : WorkManager) (item : WorkItem) : WorkManager :=
  let '(now, wm1) := tick perf_counter wm in
  record_ordering_lock item
    (wm1 <| total_queued_messages ::= λ n, Z.max 0 (n - 1) |>
         <| current_in_flight_count ::= λ n, n + 1 |>
         <| dispatch_timestamps ::= od_set (wi_id item) now |>).

Definition record_submitted_items (items : list WorkItem) (wm : WorkManager) : WorkManager :=
  fold_left record_submitted_item items wm.

Definition force_fail_queued_item (item_to_submit : WorkItem) (k : QueueKey) (wm : WorkManager)
    : bool * WorkManager :=
  match poison_message_circuit wm with
  | None => (false, wm)
  | Some b =>
      let '(r, wm1) := check_force_fail b item_to_submit wm in
      if negb r then (false, wm1)
      else
        let '(dequeued_item, topo) := dequeue_submitted_item k.1 k.2 (queue_topology wm1) in
        let wm2 := wm1 <| queue_topology := topo |> in
        match dequeued_item, poison_message_circuit wm2 with
        | Some item, Some b' =>
            (true, invalidate_blocking_cache
                     (wm2 <| total_queued_messages ::= λ n, Z.max 0 (n - 1) |>
                          <| completion_queue ::= λ q, q ++ [build_forced_failure_event item b'] |>))
        | _, _ => (false, wm2)
        end
  end.

Definition dequeue_into (k : QueueKey) (count : Z) (wm : WorkManager) : list WorkItem * WorkManager :=
  let '(items, topo) := dequeue_submitted_items k.1 k.2 count (queue_topology wm) in
  (items, wm <| queue_topology := topo |>).

(** [submit] for one item, [submit_batch] for more *)
Definition submit_items (items : list WorkItem) (wm : WorkManager) : SubmitOutcome * WorkManager :=
  let '(o, e) := match items with
                 | [item] => engine_submit item (execution_engine wm)
                 | _ => engine_submit_batch items (execution_engine wm)
                 end in
  (o, wm <| execution_engine := e |>).

(** The state of the [while] loop of [schedule]: [deferred_queue_keys] and the manager. *)
Definition LoopState : Type := list QueueKey * WorkManager.

(** The body after the batch has been selected and found free of poisoned heads:
    lease the key, submit, account for what was accepted.  The flag says whether the
    loop goes on; the lease is dropped on every path ([finally]). *)
Definition submit_selected (k : QueueKey) (q : Queue) (item_to_submit : WorkItem) (items : list WorkItem)
    (truncated : bool) (st : LoopState) : bool * LoopState :=
  let '(deferred, wm0) := st in
  let wm := wm0 <| leased_queue_keys ::= λ s, {[k]} ∪ s |> in
  let '(outcome, wm1) := submit_items items wm in
  let unlease w := w <| leased_queue_keys ::= λ s, s ∖ {[k]} |> in
  let refresh w := w <| queue_topology ::=
                          refresh_queue_head (wi_tp item_to_submit) (wi_key item_to_submit) q |> in
  match outcome with
  | SubmitOk =>
      let '(dequeued, wm2) := dequeue_into k (zlen items) wm1 in
      match dequeued with
      | [] => (false, (deferred, unlease wm2))
      | _ =>
          let wm3 := record_submitted_items dequeued wm2 in
          if truncated
          then (true, (deferred ++ (if decide (k ∈ deferred) then [] else [k]),
                       unlease (wm3 <| queue_topology ::= deactivate_queue_key k |>)))
          else (true, (deferred, unlease wm3))
      end
  | BatchSubmitError accepted_count =>
      if 0 <? accepted_count then
        let '(dequeued, wm2) := dequeue_into k accepted_count wm1 in
        (false, (deferred, unlease (record_submitted_items dequeued wm2)))
      else (false, (deferred, unlease (refresh wm1)))
  | SubmitError => (false, (deferred, unlease (refresh wm1)))
  end.

(** The body for a selected key *)
Definition schedule_key (k : QueueKey) (st : LoopState) : bool * LoopState :=
  let '(deferred, wm) := st in
  match get_queue k.1 k.2 (queue_topology wm) with
  | None => (true, (deferred, wm <| queue_topology ::= deactivate_queue_key k |>))
  | Some q =>
      if q_empty q then (true, (deferred, wm <| queue_topology ::= deactivate_queue_key k |>))
      else
        match select_same_queue_batch q wm with
        | [] => (false, (deferred, wm))
        | (item_to_submit :: _) as items =>
            let '(force_failed, wm1) := force_fail_queued_item item_to_submit k wm in
            if force_failed then (true, (deferred, wm1))
            else
              let '(items', wm2) := truncate_batch_before_force_fail items wm1 in
              match items' with
              | [] => (true, (deferred, wm2))
              | _ => submit_selected k q item_to_submit items' (zlen items' <? zlen items) (deferred, wm2)
              end
        end
  end.

(** One iteration of the [while True] loop *)
Definition schedule_iteration (blocking_offsets : odict TopicPartition (option OffsetRange))
    (st : LoopState) : bool * LoopState :=
  let '(deferred, wm) := st in
  if max_in_flight_messages wm <=? current_in_flight_count wm then (false, st)
  else if rebalancing wm then (false, st)
  else
    match pop_next_queue_key blocking_offsets (is_queue_eligible wm) (queue_topology wm) with
    | (None, topo) => (false, (deferred, wm <| queue_topology := topo |>))
    | (Some k, topo) => schedule_key k (deferred, wm <| queue_topology := topo |>)
    end.

Fixpoint schedule_loop (blocking_offsets : odict TopicPartition (option OffsetRange)) (fuel : nat)
    (st : LoopState) : option LoopState :=
  match fuel with
  | O => None
  | S fuel' =>
      match schedule_iteration blocking_offsets st with
      | (true, st') => schedule_loop blocking_offsets fuel' st'
      | (false, st') => Some st'
      end
  end.

(** The [finally] clause: deferred keys with work left become runnable again. *)
Definition restore_deferred (wm : WorkManager) (k : QueueKey) : WorkManager :=
  match get_queue k.1 k.2 (queue_topology wm) with
  | Some q => if q_empty q then wm else wm <| queue_topology ::= refresh_queue_head k.1 k.2 q |>
  | None => wm
  end.

(** [schedule]: each iteration takes a key out of the runnable set and only a dispatched or
    force-failed item puts it back, so this fuel is enough; [None] would mean it is not. *)
Definition schedule_fuel (wm : WorkManager) : nat :=
  S (Z.to_nat (2 * total_items (queue_topology wm))
     + size (active_runnable_queue_keys (queue_topology wm))).

Definition schedule (wm : WorkManager) : option WorkManager :=
  let '(blocking_offsets, wm1) :=
    if blocking_cache_counter wm <=? 0 then
      let '(blocking, wm') := get_blocking_offsets wm in
      (blocking, wm' <| blocking_cache := blocking |> <| blocking_cache_counter := blocking_cache_ttl wm' |>)
    else (blocking_cache wm, wm <| blocking_cache_counter ::= λ n, n - 1 |>) in
  (λ st : LoopState, fold_left restore_deferred (set_order st.1) st.2)
    <$> schedule_loop blocking_offsets (schedule_fuel wm1) ([], wm1).

(** ** Completions *)

Definition observe_completion (event : CompletionEvent) (item : WorkItem) (dispatch_time : Q)
    (wm : WorkManager) : WorkManager :=
  match metrics_exporter wm with
  | None => wm
  | Some seen =>
      let '(now, wm1) := tick perf_counter wm in
      wm1 <| metrics_exporter := Some (seen ++ [(event, item, Qmax0 (now - dispatch_time))]) |>
  end.

Definition drop_dispatch (id : string) (wm : WorkManager) : WorkManager :=
  wm <| dispatch_timestamps ::= od_pop id |>.

Definition process_completion_event (event : CompletionEvent) (wm : WorkManager) : bool * WorkManager :=
  match od_get (ce_tp event) (offset_trackers wm) ≫= (λ l, (l,.) <$> tracker_store wm !! l) with
  | None => (false, drop_dispatch (ce_id event) wm)
  | Some (l, tracker) =>
      if decide (ce_epoch event ≠ get_current_epoch tracker) then
        let wm1 :=
          match od_get (ce_id event) (in_flight_work_items wm) with
          | Some item => if decide (wi_tp item = ce_tp event)
                         then (release_in_flight_item (ce_id event) true wm).2 else wm
          | None => wm
          end in
        (false, drop_dispatch (ce_id event) wm1)
      else
        let wm1 :=
          if decide (ce_tp event ∈ shared_offset_trackers wm) then wm
          else invalidate_blocking_cache (wm <| tracker_store ::= alter (mark_complete (ce_offset event)) l |>) in
        match od_get (ce_id event) (in_flight_work_items wm1) with
        | None => (false, drop_dispatch (ce_id event) wm1)
        | Some item =>
            let wm2 := match poison_message_circuit wm1 with
                       | None => wm1
                       | Some b =>
                           let '(now, wm') := tick monotonic wm1 in
                           wm' <| poison_message_circuit := Some (record_completion now event item b) |>
                       end in
            let '((_, dispatch_time), wm3) := release_in_flight_item (ce_id event) false wm2 in
            let wm4 := match dispatch_time with
                       | None => wm3
                       | Some t =>
                           let '(now1, wm') := tick perf_counter wm3 in
                           let '(now2, wm'') := tick perf_counter wm' in
                           observe_completion event item t
                             (record_completion_latency (Qmax0 (now1 - t)) now2 wm'')
                       end in
            (true, drop_dispatch (ce_id event) wm4)
        end
  end.

(** The inner loop of [poll_completed_events]: nothing is queued while it runs, so it
    visits exactly the events that are waiting. *)
Fixpoint drain_completions (events : list CompletionEvent) (should_schedule : bool) (wm : WorkManager)
    : bool * WorkManager :=
  match events with
  | [] => (should_schedule, wm)
  | event :: rest =>
      let '(r, wm1) := process_completion_event event (wm <| completion_queue := rest |>) in
      drain_completions rest (r || should_schedule) wm1
  end.

Fixpoint poll_loop (schedule_after_release : bool) (fuel : nat) (acc : list CompletionEvent)
    (wm : WorkManager) : option (list CompletionEvent * WorkManager) :=
  match fuel with
  | O => None
  | S fuel' =>
      let events := completion_queue wm in
      let '(should_schedule, wm1) := drain_completions events false wm in
      let acc1 := acc ++ events in
      if negb schedule_after_release || negb should_schedule then Some (acc1, wm1)
      else
        match schedule wm1 with
        | None => None
        | Some wm2 =>
            match completion_queue wm2 with
            | [] => Some (acc1, wm2)
            | _ => poll_loop schedule_after_release fuel' acc1 wm2
            end
        end
  end.

(** Every further round of the outer loop follows a schedule that force-failed at least one
    queued item, so one round per queued item and a last one are enough. *)
Definition poll_completed_events (schedule_after_release : bool) (wm : WorkManager)
    : option (list CompletionEvent * WorkManager) :=
  let '(events, e) := engine_poll_completed_events 1000 (execution_engine wm) in
  let wm1 := wm <| execution_engine := e |> <| completion_queue ::= λ q, q ++ events |> in
  poll_loop schedule_after_release (S (Z.to_nat (total_items (queue_topology wm1)))) [] wm1.

(** ** Queries *)

Definition get_in_flight_counts (wm : WorkManager) : odict TopicPartition Z :=
  fold_left (λ counts id,
    match od_get id (in_flight_work_items wm) with
    | None => counts
    | Some item => od_set (wi_tp item) (default 0 (od_get (wi_tp item) counts) + 1) counts
    end) (od_keys (dispatch_timestamps wm)) [].

Definition get_min_in_flight_offset (tp : TopicPartition) (wm : WorkManager) : option Z :=
  fold_left (λ acc id,
    match od_get id (in_flight_work_items wm) with
    | None => acc
    | Some item => if decide (wi_tp item = tp) then min_step acc (wi_offset item) else acc
    end) (od_keys (dispatch_timestamps wm)) None.

(** [set_max_in_flight_messages]; [None] is the [ValueError]. *)
Definition set_max_in_flight_messages (value : Z) (wm : WorkManager) : option WorkManager :=
  if value <? 1 then None else Some (wm <| max_in_flight_messages := value |>).

Definition get_poison_message_open_circuit_count (wm : WorkManager) : Z * WorkManager :=
  match poison_message_circuit wm with
  | None => (0, wm)
  | Some b =>
      let '(now, wm1) := tick monotonic wm in
      let '(n, b') := get_open_circuit_count now b in
      (n, wm1 <| poison_message_circuit := Some b' |>)
  end.

(** [get_gaps] of every tracker; the trackers keep their gap caches.  [now tp o] is what
    [time.time()] returns when the gap head [o] of [tp] is stamped. *)
Definition get_gaps (now : TopicPartition → Z → Q) (wm : WorkManager) : odict TopicPartition (list OffsetRange) * WorkManager :=
  fold_left (λ '(gaps, acc) p,
    match tracker_store acc !! p.2 with
    | None => (gaps, acc)
    | Some tracker =>
        let '(g, tracker') := OffsetTracker.get_gaps (now p.1) tracker in
        (od_set p.1 g gaps, acc <| tracker_store ::= <[p.2 := tracker']> |>)
    end) (offset_trackers wm) ([], wm).

Definition get_true_lag (wm : WorkManager) : odict TopicPartition Z :=
  fold_left (λ lag p,
    match tracker_store wm !! p.2 with
    | None => lag
    | Some tracker =>
        od_set p.1 (last_fetched_offset tracker - last_committed_offset tracker) lag
    end) (offset_trackers wm) [].

Definition get_total_in_flight_count (wm : WorkManager) : Z := current_in_flight_count wm.
Definition get_total_queued_messages (wm : WorkManager) : Z := total_queued_messages wm.

(** ** Pipeline diagnostics *)

(** The reasons the manager reports *)
Inductive PipelineBlockedReason :=
  | ORDERING_LOCK | ROUTE_LOCK | RETRY_DELAY | FRONTIER_DEFERRED | POISON_GUARD | REBALANCING | SHUTDOWN.

#[export] Instance PipelineBlockedReason_eq_dec : EqDecision PipelineBlockedReason.
Proof. solve_decision. Defined.

(** The counters of the loop over the queues *)
Record QueueDiagnostics := mkQueueDiagnostics {
  queued_subqueues : Z;
  queued_items : Z;
  eligible_subqueues : Z;
  eligible_items : Z;
  blocked_subqueues : Z;
  blocked_items : Z;
  blocked_counts : list (PipelineBlockedReason * Z);
  queue_depths : list Z;
}.

Definition all_blocked_reasons : list PipelineBlockedReason :=
  [ORDERING_LOCK; ROUTE_LOCK; RETRY_DELAY; FRONTIER_DEFERRED; POISON_GUARD; REBALANCING; SHUTDOWN].

(** [_diagnose_poison_safe_prefix]: the index of the first poisoned item, with the clock
    read once per item from reading [t] on *)
Fixpoint poison_prefix_loop (b : PoisonMessageCircuitBreaker) (t : nat) (items : list WorkItem) : Z * bool :=
  match items with
  | [] => (0, false)
  | item :: rest =>
      if would_force_fail (monotonic t) item b then (0, true)
      else let '(n, blocked) := poison_prefix_loop b (S t) rest in (n + 1, blocked)
  end.

Definition diagnose_poison_safe_prefix (items : list WorkItem) (wm : WorkManager) : Z * bool :=
  match poison_message_circuit wm with
  | None => (zlen items, false)
  | Some b => poison_prefix_loop b (wm_ticks wm) items
  end.

(** How one queue of depth [depth] is counted: its eligible prefix and the reason for the rest *)
Definition classify_queue (wm : WorkManager) (k : QueueKey) (q : Queue)
    : Z * option PipelineBlockedReason :=
  let candidate_prefix := peek_queue_batch q (resolve_logical_eligible_prefix_limit wm) in
  let '(poison_safe_prefix, poison_blocked) := diagnose_poison_safe_prefix candidate_prefix wm in
  if rebalancing wm then (0, Some REBALANCING)
  else if decide (k ∈ leased_queue_keys wm) then (0, Some ROUTE_LOCK)
  else if poison_blocked && (poison_safe_prefix =? 0) then (0, Some POISON_GUARD)
  else if negb (is_queue_eligible wm k) then (0, Some ORDERING_LOCK)
  else (poison_safe_prefix,
        if poison_blocked then Some POISON_GUARD
        else if poison_safe_prefix <? q_size q then Some FRONTIER_DEFERRED else None).

Definition diagnose_queue (wm : WorkManager) (k : QueueKey) (d : QueueDiagnostics) (q : Queue)
    : QueueDiagnostics :=
  let depth := q_size q in
  if depth <=? 0 then d
  else
    let '(eligible_prefix, reason) := classify_queue wm k q in
    let blocked_depth := depth - eligible_prefix in
    {| queued_subqueues := queued_subqueues d + 1;
       queued_items := queued_items d + depth;
       eligible_subqueues := if 0 <? eligible_prefix then eligible_subqueues d + 1 else eligible_subqueues d;
       eligible_items := if 0 <? eligible_prefix then eligible_items d + eligible_prefix else eligible_items d;
       blocked_subqueues := if 0 <? blocked_depth then blocked_subqueues d + 1 else blocked_subqueues d;
       blocked_items := if 0 <? blocked_depth then blocked_items d + blocked_depth else blocked_items d;
       blocked_counts :=
         match reason with
         | Some r => if 0 <? blocked_depth
                     then od_set r (default 0 (od_get r (blocked_counts d)) + blocked_depth) (blocked_counts d)
                     else blocked_counts d
         | None => blocked_counts d
         end;
       queue_depths := queue_depths d ++ [depth] |}.

Definition diagnose_queues (wm : WorkManager) : QueueDiagnostics :=
  fold_left (λ d p, fold_left (λ d' kq, diagnose_queue wm (p.1, kq.1) d' kq.2) p.2 d)
    (virtual_partition_queues (queue_topology wm))
    (mkQueueDiagnostics 0 0 0 0 0 0 ((λ r, (r, 0)) <$> all_blocked_reasons) []).

(** [get_pipeline_diagnostics], the fields that are not fixed placeholders *)
Record WorkManagerPipelineDiagnostics := mkPipelineDiagnostics {
  pd_queued : Z;
  pd_dispatched : Z;
  pd_blocked_counts : list (PipelineBlockedReason * Z);
  pd_capacity_blocked_items : Z;
  pd_capacity_max_in_flight : bool;
  pd_total_subqueues : Z;
  pd_subqueues : QueueDiagnostics;
  pd_top_k_depths : list Z;
}.

Definition get_pipeline_diagnostics (top_k_depths_limit : Z) (wm : WorkManager)
    : WorkManagerPipelineDiagnostics :=
  let d := diagnose_queues wm in
  let remaining_capacity := Z.max 0 (max_in_flight_messages wm - current_in_flight_count wm) in
  let capacity_blocked := Z.max 0 (eligible_items d - remaining_capacity) in
  {| pd_queued := queued_items d;
     pd_dispatched := current_in_flight_count wm;
     pd_blocked_counts := blocked_counts d;
     pd_capacity_blocked_items := capacity_blocked;
     pd_capacity_max_in_flight := 0 <? capacity_blocked;
     pd_total_subqueues := od_sum zlen (virtual_partition_queues (queue_topology wm));
     pd_subqueues := d;
     pd_top_k_depths :=
       py_take (Z.max 0 top_k_depths_limit) (reverse (merge_sort Z.le (queue_depths d))) |}.
End work_manager.

Arguments WorkManager E {_}.
