(* ===== verification/WorkManagerInv.v ===== *)
(** * Accounting of the work manager

    The invariant that ties the queues, the table of live work items, the dispatch
    ledger, the ordering locks and the pending completions together, and its
    preservation by the elementary moves of a work item: arrival, dispatch, forced
    failure and release. *)

From S2P Require Import Prelude Vendor Runtime Dto OffsetTracker PoisonMessage WorkQueueTopology ExecutionEngine WorkManager.

(** The queue a work item belongs to *)
Definition item_key (w : WorkItem) : QueueKey := (wi_tp w, wi_key w).

(** [m] counts, for every value of [f], the items of [ws] that have it. *)
Definition counts_exact {A} `{Countable A} (f : WorkItem → A) (m : gmap A Z) (ws : list WorkItem) : Prop :=
  ∀ a, default 0 (m !! a) = zlen (filter (λ w, f w = a) ws) ∧ (m !! a ≠ Some 0).

(** The live items among a list of identifiers *)
Definition lookup_items (items : odict string WorkItem) (ids : list string) : list WorkItem :=
  omap (λ id, od_get id items) ids.

Section invariant.
Context {E : Type} `{EE : ExecutionEngine E} `{TL : TrackerLibs} `{RT : Runtime}.
Implicit Types (wm : WorkManager E) (w : WorkItem).

(** The items the manager counts as running *)
Definition dispatched wm : list WorkItem :=
  lookup_items (in_flight_work_items wm) (od_keys (dispatch_timestamps wm)).

(** The locks of the ordering mode are those of the running items [ws]. *)
Definition locks_of wm (ws : list WorkItem) : Prop :=
  match ordering_mode wm with
  | KEY_HASH =>
      counts_exact item_key (key_in_flight_counts wm) ws ∧ keys_in_flight wm = dom (key_in_flight_counts wm)
  | PARTITION =>
      counts_exact wi_tp (partition_in_flight_counts wm) ws ∧
      partitions_in_flight wm = dom (partition_in_flight_counts wm)
  | UNORDERED => True
  end.

Definition locks_exact wm : Prop := locks_of wm (dispatched wm).

(** [limbo]: items that an operation in progress holds outside the queues;
    [uncounted]: how many of the queued messages it has not yet counted off. *)
Record acct_inv (limbo : list WorkItem) (uncounted : Z) wm : Prop := {
  ai_total : total_queued_messages wm = total_items (queue_topology wm) + uncounted;
  ai_count : current_in_flight_count wm = zlen (dispatch_timestamps wm);
  ai_items_nodup : NoDup (od_keys (in_flight_work_items wm));
  ai_disp_nodup : NoDup (od_keys (dispatch_timestamps wm));
  ai_ids id w : od_get id (in_flight_work_items wm) = Some w → wi_id w = id;
  ai_assigned id w :
    od_get id (in_flight_work_items wm) = Some w → assigned (queue_topology wm) (wi_tp w) = true;
  ai_fresh id : is_Some (od_get id (in_flight_work_items wm)) → ∃ n, (n < wm_uuids wm)%nat ∧ id = uuid4 n;
  ai_queued k w :
    w ∈ queue_of (queue_topology wm) k →
    k = item_key w ∧ od_get (wi_id w) (in_flight_work_items wm) = Some w ∧
    od_get (wi_id w) (dispatch_timestamps wm) = None;
  ai_queue_nodup k : NoDup (queue_of (queue_topology wm) k);
  ai_limbo w :
    w ∈ limbo → od_get (wi_id w) (in_flight_work_items wm) = Some w ∧
    od_get (wi_id w) (dispatch_timestamps wm) = None ∧ w ∉ queue_of (queue_topology wm) (item_key w);
  ai_limbo_nodup : NoDup limbo;
  ai_dispatched id :
    is_Some (od_get id (dispatch_timestamps wm)) → is_Some (od_get id (in_flight_work_items wm));
  ai_events event w :
    event ∈ completion_queue wm → od_get (ce_id event) (in_flight_work_items wm) = Some w →
    ce_tp event = wi_tp w ∧ w ∉ queue_of (queue_topology wm) (item_key w) ∧ w ∉ limbo;
  ai_not_lost id w :
    od_get id (in_flight_work_items wm) = Some w →
    w ∈ queue_of (queue_topology wm) (item_key w) ∨ w ∈ limbo ∨
    is_Some (od_get id (dispatch_timestamps wm)) ∨ ∃ event, event ∈ completion_queue wm ∧ ce_id event = id;
  ai_ids_index tp o id w :
    od_get (tp, o) (work_item_ids_by_tp_offset wm) = Some id →
    od_get id (in_flight_work_items wm) = Some w → wi_tp w = tp ∧ wi_offset w = o;
  ai_locks : locks_exact wm;
  ai_event_fresh event :
    event ∈ completion_queue wm → ∃ n, (n < wm_uuids wm)%nat ∧ ce_id event = uuid4 n;
  ai_index_fresh k id :
    od_get k (work_item_ids_by_tp_offset wm) = Some id → ∃ n, (n < wm_uuids wm)%nat ∧ id = uuid4 n;
}.

(** What the invariant reads of the state *)
Definition acct_view wm :=
  (queue_topology wm, completion_queue wm, in_flight_work_items wm, work_item_ids_by_tp_offset wm,
   dispatch_timestamps wm, total_queued_messages wm, current_in_flight_count wm,
   (ordering_mode wm, keys_in_flight wm, partitions_in_flight wm, key_in_flight_counts wm,
    partition_in_flight_counts wm, wm_uuids wm)).

Lemma acct_frame limbo n wm wm' :
  acct_view wm' = acct_view wm → acct_inv limbo n wm → acct_inv limbo n wm'.
Proof.
  unfold acct_view. intros [= E1 E2 E3 E4 E5 E6 E7 E8 E9 E10 E11 E12 E13] [].
  split; unfold locks_exact, locks_of, dispatched in *; rewrite ?E1, ?E2, ?E3, ?E4, ?E5, ?E6, ?E7, ?E8, ?E9, ?E10, ?E11, ?E12, ?E13;
    assumption.
Qed.

(** ** Counting *)

Lemma counts_exact_add {A} `{Countable A} (f : WorkItem → A) m ws w :
  counts_exact f m ws → counts_exact f (<[f w := default 0 (m !! f w) + 1]> m) (ws ++ [w]).
Proof.
  intros Hc a. rewrite filter_app, zlen_app. destruct (Hc a) as [H1 H2].
  destruct (decide (f w = a)) as [Hw|Hw].
  - subst a. rewrite lookup_insert_eq, filter_cons_True, filter_nil, H1 by done. simpl.
    pose proof (zlen_nonneg (filter (λ w0, f w0 = f w) ws)). change (zlen [w]) with 1.
    split; [done|]. intros [= ?]. lia.
  - rewrite lookup_insert_ne, filter_cons_False, filter_nil by done. change (zlen []) with 0.
    split; [lia|done].
Qed.

(** [counts_exact] only depends on the multiset of items. *)
Lemma counts_exact_perm {A} `{Countable A} (f : WorkItem → A) m ws ws' :
  ws ≡ₚ ws' → counts_exact f m ws → counts_exact f m ws'.
Proof. intros Hp Hc a. unfold zlen. rewrite <-Hp. apply Hc. Qed.

Lemma counts_exact_remove {A} `{Countable A} (f : WorkItem → A) m ws w :
  counts_exact f m (w :: ws) →
  let remaining := default 1 (m !! f w) - 1 in
  counts_exact f (if 0 <? remaining then <[f w := remaining]> m else delete (f w) m) ws ∧
  dom (if 0 <? remaining then <[f w := remaining]> m else delete (f w) m) =
    (if 0 <? remaining then dom m else dom m ∖ {[f w]}).
Proof.
  intros Hc remaining. destruct (Hc (f w)) as [H1 H2].
  rewrite filter_cons_True, zlen_cons in H1 by done.
  pose proof (zlen_nonneg (filter (λ w0, f w0 = f w) ws)) as H0.
  assert (∃ n, m !! f w = Some n) as [n Hn] by (destruct (m !! f w); simpl in H1; [eauto|lia]).
  rewrite Hn in H1; simpl in H1. unfold remaining. rewrite Hn; simpl.
  assert (∀ a, f w ≠ a → default 0 (m !! a) = zlen (filter (λ w, f w = a) ws) ∧ m !! a ≠ Some 0) as Hne.
  { intros a Ha. specialize (Hc a). by rewrite filter_cons_False in Hc. }
  destruct (Z.ltb_spec 0 (n - 1)).
  - split.
    + intros a. destruct (decide (f w = a)) as [<-|]; [|rewrite lookup_insert_ne by done; auto].
      rewrite lookup_insert_eq. simpl. split; [lia|]. intros [= ?]. lia.
    + rewrite dom_insert_L. apply subseteq_union_1_L, singleton_subseteq_l.
      apply elem_of_dom. by rewrite Hn.
  - split; [|by rewrite dom_delete_L].
    intros a. destruct (decide (f w = a)) as [<-|]; [|rewrite lookup_delete_ne by done; auto].
    rewrite lookup_delete_eq. simpl. split; [lia|done].
Qed.

(** A counter map over [ws] restricted to the values satisfying [P] *)
Lemma counts_exact_filter {A} `{Countable A} (f : WorkItem → A) (P : A → Prop) `{∀ a, Decision (P a)} m ws :
  (∀ w, w ∈ ws → P (f w)) → counts_exact f m ws → counts_exact f (filter (λ p, P p.1) m) ws.
Proof.
  intros HP Hc a. destruct (Hc a) as [H1 H2].
  destruct (decide (P a)) as [Ha|Ha].
  - destruct (m !! a) as [n|] eqn:En.
    + rewrite (map_lookup_filter_Some_2 _ _ a n); [done..|]. done.
    + rewrite map_lookup_filter_None_2 by auto. done.
  - rewrite map_lookup_filter_None_2 by (right; naive_solver). split; [|done]. simpl.
    assert (filter (λ w, f w = a) ws = []) as ->; [|done].
    apply elem_of_nil_inv. intros w [<- Hw]%list_elem_of_filter. by apply Ha, HP.
Qed.

(** Recording and releasing a lock touch nothing but the locks. *)
Definition same_but_locks wm wm' : Prop :=
  queue_topology wm' = queue_topology wm ∧ completion_queue wm' = completion_queue wm ∧
  in_flight_work_items wm' = in_flight_work_items wm ∧
  work_item_ids_by_tp_offset wm' = work_item_ids_by_tp_offset wm ∧
  dispatch_timestamps wm' = dispatch_timestamps wm ∧
  total_queued_messages wm' = total_queued_messages wm ∧
  current_in_flight_count wm' = current_in_flight_count wm ∧ wm_uuids wm' = wm_uuids wm ∧
  ordering_mode wm' = ordering_mode wm.

Lemma record_lock_spec wm w ws :
  locks_of wm ws →
  locks_of (record_ordering_lock w wm) (ws ++ [w]) ∧ same_but_locks wm (record_ordering_lock w wm).
Proof.
  unfold locks_of, record_ordering_lock, same_but_locks. destruct (ordering_mode wm) eqn:Em; simpl; rewrite Em.
  - intros [Hc Hk]. split; [|done]. split; [by apply (counts_exact_add item_key)|].
    rewrite dom_insert_L. by f_equal.
  - intros [Hc Hk]. split; [|done]. split; [by apply (counts_exact_add wi_tp)|].
    rewrite dom_insert_L. by f_equal.
  - done.
Qed.

Lemma release_lock_spec wm w ws :
  locks_of wm (w :: ws) →
  locks_of (release_ordering_lock w wm) ws ∧ same_but_locks wm (release_ordering_lock w wm).
Proof.
  unfold locks_of, release_ordering_lock, same_but_locks. destruct (ordering_mode wm) eqn:Em; simpl.
  - intros [Hc Hk]. destruct (counts_exact_remove item_key _ _ _ Hc) as [H1 H2].
    change (wi_tp w, wi_key w) with (item_key w). destruct (0 <? _); simpl; rewrite Em; [by rewrite H2|].
    by rewrite H2, Hk.
  - intros [Hc Hk]. destruct (counts_exact_remove wi_tp _ _ _ Hc) as [H1 H2].
    destruct (0 <? _); simpl; rewrite Em; [by rewrite H2|]. by rewrite H2, Hk.
  - by rewrite Em.
Qed.

Lemma locks_of_perm wm ws ws' : ws ≡ₚ ws' → locks_of wm ws → locks_of wm ws'.
Proof.
  intros Hp. unfold locks_of. destruct (ordering_mode wm); [..|done];
    (intros [? ?]; split; [by eapply counts_exact_perm|done]).
Qed.

(** ** The running items *)

Lemma lookup_items_ext items items' ids :
  (∀ id, id ∈ ids → od_get id items' = od_get id items) → lookup_items items' ids = lookup_items items ids.
Proof.
  intros Hx. apply list_omap_ext, Forall_Forall2_diag, Forall_forall. auto.
Qed.

Lemma lookup_items_snoc items ids id w :
  od_get id items = Some w → lookup_items items (ids ++ [id]) = lookup_items items ids ++ [w].
Proof. intros Hw. unfold lookup_items. rewrite omap_app. simpl. by rewrite Hw. Qed.

Lemma lookup_items_remove items (disp : odict string Q) id w :
  NoDup (od_keys disp) → od_get id items = Some w → id ∈ od_keys disp →
  lookup_items items (od_keys disp) ≡ₚ w :: lookup_items (od_pop id items) (od_keys (od_pop id disp)).
Proof.
  intros Hnd Hw Hin. rewrite od_keys_pop. unfold od_keys in *. generalize dependent (disp.*1).
  intros ids Hnd Hin. unfold lookup_items. induction ids as [|i ids IH]; [set_solver|].
  apply NoDup_cons in Hnd as [Hi Hnd]. rewrite filter_cons. destruct (decide (i = id)) as [->|Hne].
  - rewrite decide_False by naive_solver. simpl. rewrite Hw. f_equiv.
    change (lookup_items items ids ≡ₚ lookup_items (od_pop id items) (filter (λ k', k' ≠ id) ids)).
    assert (filter (λ k', k' ≠ id) ids = ids) as ->.
    { clear -Hi. induction ids as [|j ids IH]; [done|]. rewrite filter_cons, decide_True by set_solver.
      f_equal. apply IH. set_solver. }
    erewrite (lookup_items_ext items (od_pop id items)); [done|].
    intros j Hj. apply od_get_pop_ne. set_solver.
  - rewrite decide_True by done. simpl. rewrite od_get_pop_ne by done.
    assert (id ∈ ids) as Hin' by set_solver. destruct (od_get i items) as [w'|]; [|by apply IH].
    rewrite IH by done. by rewrite Permutation_swap.
Qed.

Lemma lookup_items_pop items (disp : odict string Q) id :
  od_get id disp = None → lookup_items (od_pop id items) (od_keys disp) = lookup_items items (od_keys disp).
Proof.
  intros Hd. apply lookup_items_ext. intros j Hj. apply od_get_pop_ne. intros ->.
  apply od_get_None in Hd. done.
Qed.

Lemma lookup_items_elem items ids w :
  w ∈ lookup_items items ids ↔ ∃ id, id ∈ ids ∧ od_get id items = Some w.
Proof. unfold lookup_items. apply list_elem_of_omap. Qed.

(** ** Moves of a work item *)

(** Only the queues, their size and the set of partitions matter of the topology. *)
Lemma acct_topology limbo n wm topo :
  (∀ k, queue_of topo k = queue_of (queue_topology wm) k) →
  total_items topo = total_items (queue_topology wm) →
  (∀ tp, assigned topo tp = assigned (queue_topology wm) tp) →
  acct_inv limbo n wm → acct_inv limbo n (wm <| queue_topology := topo |>).
Proof.
  intros Hq Ht Ha []. split; simpl; try assumption; try (intros *; rewrite ?Hq, ?Ha, ?Ht; naive_solver).
Qed.

(** Items leave the front of a queue. *)
Lemma acct_dequeue wm topo k ws rest :
  queue_of (queue_topology wm) k = ws ++ rest →
  (∀ k', queue_of topo k' = if decide (k = k') then rest else queue_of (queue_topology wm) k') →
  total_items topo = total_items (queue_topology wm) - zlen ws →
  (∀ tp, assigned topo tp = assigned (queue_topology wm) tp) →
  acct_inv [] 0 wm → acct_inv ws (zlen ws) (wm <| queue_topology := topo |>).
Proof.
  intros Hk Hq Ht Ha [A1 A2 A3 A4 A5 A6 A7 A8 A9 A10 A11 A12 A13 A14 A15 A16 A17 A18].
  assert (∀ k' w, w ∈ queue_of topo k' → w ∈ queue_of (queue_topology wm) k') as Hsub.
  { intros k' w. rewrite Hq. case_decide as Hd; [|done]. subst k'. rewrite Hk. set_solver. }
  pose proof (A9 k) as Hnd. rewrite Hk, NoDup_app in Hnd. destruct Hnd as (Hn1 & Hn2 & Hn3).
  assert (∀ w, w ∈ ws → w ∈ queue_of (queue_topology wm) k) as Hws by (rewrite Hk; set_solver).
  split; simpl; try done.
  - lia.
  - intros id w. rewrite Ha. apply A6.
  - intros k' w Hw%Hsub. by apply A8.
  - intros k'. rewrite Hq. case_decide; [done|apply A9].
  - intros w Hw. pose proof (Hws w Hw) as (Hkw & Hi & Hd)%A8. split; [done|]. split; [done|].
    rewrite Hq, <-Hkw, decide_True by done. by apply Hn2.
  - intros ev w He Hi. destruct (A13 ev w He Hi) as (H1 & H2 & _). split; [done|].
    split; [intros Hw%Hsub; done|]. intros Hw%Hws. destruct (A8 _ _ Hw) as (-> & _). done.
  - intros id w Hi. destruct (A14 id w Hi) as [Hw|[Hw|Hw]]; [|set_solver|by auto].
    destruct (decide (w ∈ ws)); [auto|]. left. rewrite Hq. case_decide as Hd; [|done].
    rewrite <-Hd, Hk in Hw. set_solver.
Qed.

(** A dequeued item is counted off and recorded as running. *)
Lemma acct_record limbo n wm w :
  0 ≤ n → acct_inv (w :: limbo) (1 + n) wm → acct_inv limbo n (record_submitted_item wm w).
Proof.
  intros Hn Hinv. pose proof (total_items_nonneg (queue_topology wm)) as Hpos.
  destruct Hinv as [A1 A2 A3 A4 A5 A6 A7 A8 A9 A10 A11 A12 A13 A14 A15 A16 A17 A18].
  destruct (A10 w) as (Hi & Hd & Hq); [set_solver|]. apply NoDup_cons in A11 as [Hwl Hnl].
  unfold record_submitted_item, tick. set (now := perf_counter _).
  assert (od_set (wi_id w) now (dispatch_timestamps wm) = dispatch_timestamps wm ++ [(wi_id w, now)]) as Hset
    by by apply od_set_fresh.
  set (wm1 := (wm <| wm_ticks ::= _ |>) <| total_queued_messages ::= _ |>).
  set (wm2 := wm1 <| current_in_flight_count ::= _ |> <| dispatch_timestamps ::= _ |>).
  assert (dispatched wm2 = dispatched wm ++ [w]) as Hdisp.
  { unfold dispatched, wm2, wm1; simpl. rewrite Hset. unfold od_keys. rewrite fmap_app.
    by apply lookup_items_snoc. }
  destruct (record_lock_spec wm2 w (dispatched wm) A16) as [Hlocks Hsame]. rewrite <-Hdisp in Hlocks.
  assert (queue_topology wm2 = queue_topology wm ∧ completion_queue wm2 = completion_queue wm ∧
    in_flight_work_items wm2 = in_flight_work_items wm ∧
    work_item_ids_by_tp_offset wm2 = work_item_ids_by_tp_offset wm ∧
    dispatch_timestamps wm2 = dispatch_timestamps wm ++ [(wi_id w, now)] ∧
    total_queued_messages wm2 = Z.max 0 (total_queued_messages wm - 1) ∧
    current_in_flight_count wm2 = current_in_flight_count wm + 1 ∧ wm_uuids wm2 = wm_uuids wm)
    as (F1 & F2 & F3 & F4 & F5 & F6 & F7 & F8) by (rewrite <-Hset; done).
  clearbody wm2. clear wm1. destruct Hsame as (G1 & G2 & G3 & G4 & G5 & G6 & G7 & G8 & _).
  rewrite F1 in G1. rewrite F2 in G2. rewrite F3 in G3. rewrite F4 in G4. rewrite F5 in G5.
  rewrite F6 in G6. rewrite F7 in G7. rewrite F8 in G8.
  assert (dispatched (record_ordering_lock w wm2) = dispatched wm2) as Hdd.
  { unfold dispatched. by rewrite G3, G5, F3, F5. }
  split; [..|unfold locks_exact; by rewrite Hdd|idtac|idtac];
    rewrite ?G1, ?G2, ?G3, ?G4, ?G5, ?G6, ?G7, ?G8; try done.
  - lia.
  - rewrite zlen_app, A2. done.
  - unfold od_keys. rewrite fmap_app. apply NoDup_app. split; [done|].
    split; [|apply NoDup_singleton]. intros x Hx ->%list_elem_of_singleton.
    apply od_get_None in Hd. done.
  - rewrite <-Hset. intros k w' Hw'. destruct (A8 k w' Hw') as (-> & Hi' & Hd'). split; [done|]. split; [done|].
    rewrite od_get_set_ne; [done|]. intros He. rewrite <-He, Hi in Hi'. by simplify_eq.
  - rewrite <-Hset. intros w' Hw'. destruct (A10 w') as (Hi' & Hd' & Hq'); [set_solver|].
    split; [done|]. split; [|done]. rewrite od_get_set_ne; [done|].
    intros He. rewrite <-He, Hi in Hi'. by simplify_eq.
  - intros id. rewrite <-Hset, od_get_set. case_decide; [subst; by rewrite Hi|apply A12].
  - intros ev w' He Hi'. destruct (A13 ev w' He Hi') as (? & ? & ?). set_solver.
  - intros id w' Hi'. rewrite <-Hset, od_get_set. case_decide as He; [right; right; left; done|].
    destruct (A14 id w' Hi') as [?|[Hl|?]]; [by auto| |by auto].
    apply elem_of_cons in Hl as [->|]; [|by auto]. apply A5 in Hi'. congruence.
Qed.

Lemma acct_record_all limbo ws wm :
  acct_inv (ws ++ limbo) (zlen ws) wm → acct_inv limbo 0 (record_submitted_items ws wm).
Proof.
  unfold record_submitted_items. revert wm. induction ws as [|w ws IH]; intros wm Hi; cbn [fold_left]; [done|].
  apply IH. apply acct_record; [auto with py|]. by rewrite zlen_cons in Hi.
Qed.

(** A dequeued item is failed without being run. *)
Lemma acct_force_failed wm w event :
  ce_id event = wi_id w → ce_tp event = wi_tp w →
  acct_inv [w] 1 wm →
  acct_inv [] 0 (wm <| total_queued_messages ::= λ n, Z.max 0 (n - 1) |>
                    <| completion_queue ::= λ q, q ++ [event] |>).
Proof.
  intros Hid Htp [A1 A2 A3 A4 A5 A6 A7 A8 A9 A10 A11 A12 A13 A14 A15 A16 A17 A18].
  destruct (A10 w) as (Hi & Hd & Hq); [set_solver|].
  pose proof (total_items_nonneg (queue_topology wm)). split; simpl; try done.
  - lia.
  - set_solver.
  - constructor.
  - intros ev w'. rewrite elem_of_app, list_elem_of_singleton. intros [He| ->] Hi'.
    + destruct (A13 ev w' He Hi') as (? & ? & _). set_solver.
    + rewrite Hid, Hi in Hi'. simplify_eq. set_solver.
  - intros id w' Hi'. destruct (A14 id w' Hi') as [?|[Hw|[?|(ev & ? & ?)]]]; [by auto|..].
    + apply list_elem_of_singleton in Hw as ->. right; right; right. exists event. split; [set_solver|]. by rewrite Hid; apply A5.
    + auto.
    + right; right; right. exists ev. set_solver.
  - intros ev. rewrite elem_of_app, list_elem_of_singleton. intros [He| ->]; [by apply A17|].
    rewrite Hid. apply A7. eauto.
Qed.

(** A completion for work that has left the queues arrives. *)
Lemma acct_push_event wm event :
  (∃ n, (n < wm_uuids wm)%nat ∧ ce_id event = uuid4 n) →
  (∀ w, od_get (ce_id event) (in_flight_work_items wm) = Some w →
     ce_tp event = wi_tp w ∧ w ∉ queue_of (queue_topology wm) (item_key w)) →
  acct_inv [] 0 wm → acct_inv [] 0 (wm <| completion_queue ::= λ q, q ++ [event] |>).
Proof.
  intros Hfr Hok [A1 A2 A3 A4 A5 A6 A7 A8 A9 A10 A11 A12 A13 A14 A15 A16 A17 A18]. split; simpl; try done.
  - intros ev w. rewrite elem_of_app, list_elem_of_singleton. intros [He| ->] Hi; [by apply (A13 ev)|].
    destruct (Hok w Hi). set_solver.
  - intros id w Hi. destruct (A14 id w Hi) as [?|[?|[?|(ev & ? & ?)]]]; [by auto..|].
    right; right; right. exists ev. set_solver.
  - intros ev. rewrite elem_of_app, list_elem_of_singleton. intros [He| ->]; [by apply A17|done].
Qed.

(** A processed completion leaves the queue once its item is gone. *)
Lemma acct_pop_event wm event rest :
  completion_queue wm = event :: rest →
  od_get (ce_id event) (in_flight_work_items wm) = None →
  acct_inv [] 0 wm → acct_inv [] 0 (wm <| completion_queue := rest |>).
Proof.
  intros Hc Hn [A1 A2 A3 A4 A5 A6 A7 A8 A9 A10 A11 A12 A13 A14 A15 A16 A17 A18]. split; simpl; try done.
  - intros ev w He. apply A13. rewrite Hc. set_solver.
  - intros id w Hi. destruct (A14 id w Hi) as [?|[?|[?|(ev & He & Hev)]]]; [by auto..|].
    right; right; right. exists ev. split; [|done]. rewrite Hc in He.
    apply elem_of_cons in He as [->|]; [|done]. subst id. congruence.
  - intros ev He. apply A17. rewrite Hc. set_solver.
Qed.

(** ** Release *)

(** The state after the table entries of [id] are gone and its lock is released *)
Lemma acct_release_core wm wm' id w :
  acct_inv [] 0 wm → od_get id (in_flight_work_items wm) = Some w →
  w ∉ queue_of (queue_topology wm) (item_key w) →
  queue_topology wm' = queue_topology wm → completion_queue wm' = completion_queue wm →
  in_flight_work_items wm' = od_pop id (in_flight_work_items wm) →
  dispatch_timestamps wm' = od_pop id (dispatch_timestamps wm) →
  total_queued_messages wm' = total_queued_messages wm →
  current_in_flight_count wm' = zlen (dispatch_timestamps wm') →
  wm_uuids wm' = wm_uuids wm →
  (∀ k id', od_get k (work_item_ids_by_tp_offset wm') = Some id' →
     od_get k (work_item_ids_by_tp_offset wm) = Some id') →
  locks_exact wm' → acct_inv [] 0 wm'.
Proof.
  intros [A1 A2 A3 A4 A5 A6 A7 A8 A9 A10 A11 A12 A13 A14 A15 A16 A17 A18] Hi Hq E1 E2 E3 E4 E5 E6 E7 E8 Hl.
  assert (∀ id' w', od_get id' (od_pop id (in_flight_work_items wm)) = Some w' →
    id ≠ id' ∧ od_get id' (in_flight_work_items wm) = Some w') as Hpop.
  { intros id' w'. rewrite od_get_pop. by case_decide. }
  split; rewrite ?E1, ?E2, ?E3, ?E5, ?E7; try done.
  - by apply NoDup_od_pop.
  - rewrite E4. by apply NoDup_od_pop.
  - intros id' w' [_ H]%Hpop. by apply A5.
  - intros id' w' [_ H]%Hpop. by eapply A6.
  - intros id' [w' [_ H]%Hpop]. apply A7. eauto.
  - intros k w' Hw'. destruct (A8 k w' Hw') as (-> & Hi' & Hd'). split; [done|]. rewrite E4, !od_get_pop.
    case_decide as He; [|done]. rewrite <-He in Hi'. rewrite Hi in Hi'. by simplify_eq.
  - intros w' ?%elem_of_nil. done.
  - intros id'. rewrite E4, !od_get_pop. case_decide; [done|]. apply A12.
  - intros ev w' He [_ H]%Hpop. by apply (A13 ev).
  - intros id' w' [Hne H]%Hpop. rewrite E4, od_get_pop_ne by done. by apply A14.
  - intros tp o id' w' Hx%E8 [_ H]%Hpop. by eapply A15.
  - intros k id' Hx%E8. by eapply A18.
Qed.

Lemma zlen_od_pop {K V} `{EqDecision K} (d : odict K V) k v :
  NoDup (od_keys d) → od_get k d = Some v → zlen (od_pop k d) = zlen d - 1.
Proof.
  unfold od_keys, od_pop. induction d as [|[k' v'] d IH]; simpl; [done|].
  rewrite NoDup_cons. intros [Hk Hd]. rewrite filter_cons. simpl. case_decide; subst.
  - intros _. rewrite decide_False by naive_solver. rewrite zlen_cons.
    replace (filter (λ p : K * V, p.1 ≠ k') d) with d; [lia|]. symmetry.
    apply (od_pop_absent d k'). by apply od_get_None.
  - intros Hg. rewrite decide_True by done. rewrite !zlen_cons, IH by done. lia.
Qed.

(** What a release keeps *)
Definition release_view wm :=
  (execution_engine wm, tracker_store wm, offset_trackers wm, completion_queue wm, total_queued_messages wm,
   ordering_mode wm, (max_in_flight_messages wm, rebalancing wm, route_batch_size wm, wm_uuids wm,
   leased_queue_keys wm, shared_offset_trackers wm)).

(** The ledgers agree with each other. *)
Record ledger_ok wm : Prop := {
  lo_count : current_in_flight_count wm = zlen (dispatch_timestamps wm);
  lo_nodup : NoDup (od_keys (dispatch_timestamps wm));
  lo_locks : locks_exact wm;
}.

(** [_release_in_flight_item] of a live item *)
Lemma release_step wm id w b :
  ledger_ok wm → od_get id (in_flight_work_items wm) = Some w →
  let wm' := (release_in_flight_item id b wm).2 in
  ledger_ok wm' ∧
  in_flight_work_items wm' = od_pop id (in_flight_work_items wm) ∧
  dispatch_timestamps wm' = od_pop id (dispatch_timestamps wm) ∧
  queue_topology wm' = cleanup_empty_queue (wi_tp w) (wi_key w) (queue_topology wm) ∧
  (∀ k id', od_get k (work_item_ids_by_tp_offset wm') = Some id' →
     od_get k (work_item_ids_by_tp_offset wm) = Some id') ∧
  release_view wm' = release_view wm.
Proof.
  intros [L1 L2 L3] Hi wm'.
  set (wm1 := wm <| in_flight_work_items ::= od_pop id |> <| dispatch_timestamps ::= od_pop id |>).
  set (wm2 := if decide (od_get (wi_tp w, wi_offset w) (work_item_ids_by_tp_offset wm1) = Some id)
              then wm1 <| work_item_ids_by_tp_offset ::= od_pop (wi_tp w, wi_offset w) |> else wm1).
  assert (∀ k id', od_get k (work_item_ids_by_tp_offset wm2) = Some id' →
    od_get k (work_item_ids_by_tp_offset wm) = Some id') as Hix.
  { intros k id'. unfold wm2. case_decide; [|done]. simpl. rewrite od_get_pop. by case_decide. }
  assert (queue_topology wm2 = queue_topology wm ∧
    in_flight_work_items wm2 = od_pop id (in_flight_work_items wm) ∧
    dispatch_timestamps wm2 = od_pop id (dispatch_timestamps wm) ∧
    current_in_flight_count wm2 = current_in_flight_count wm ∧ release_view wm2 = release_view wm)
    as (E1 & E3 & E4 & E6 & E7) by (unfold wm2; by case_decide).
  assert (∀ ws, locks_of wm ws → locks_of wm2 ws) as Hlw by (unfold wm2; intros ws; by case_decide).
  unfold locks_exact in L3.
  assert (release_in_flight_item id b wm =
    ((true, od_get id (dispatch_timestamps wm)),
     let wm3 := if od_get id (dispatch_timestamps wm) is Some _ then release_ordering_lock w wm2 else wm2 in
     let wm4 := wm3 <| queue_topology ::= cleanup_empty_queue (wi_tp w) (wi_key w) |> in
     let wm5 := if od_get id (dispatch_timestamps wm) is Some _
                then wm4 <| current_in_flight_count ::= λ n, Z.max 0 (n - 1) |> else wm4 in
     if b then invalidate_blocking_cache wm5 else wm5)) as Hrel.
  { unfold release_in_flight_item. rewrite Hi. done. }
  clearbody wm2. clear wm1.
  destruct (od_get id (dispatch_timestamps wm)) as [t|] eqn:Ed.
  - assert (dispatched wm ≡ₚ w :: dispatched wm2) as Hp.
    { unfold dispatched. rewrite E3, E4. apply lookup_items_remove; [done|done|].
      apply elem_of_od_keys. eauto. }
    destruct (release_lock_spec wm2 w (dispatched wm2)) as [HL (G1 & G2 & G3 & G4 & G5 & G6 & G7 & G8 & G9)].
    { by apply Hlw, (locks_of_perm _ _ _ Hp). }
    assert (release_view (release_ordering_lock w wm2) = release_view wm2) as G0.
    { unfold release_ordering_lock. destruct (ordering_mode wm2); [..|done]; by destruct (0 <? _). }
    pose proof (zlen_od_pop _ _ _ L2 Ed) as Hz.
    pose proof (zlen_nonneg (od_pop id (dispatch_timestamps wm))) as Hz0.
    assert (current_in_flight_count wm' = Z.max 0 (current_in_flight_count wm - 1) ∧
      in_flight_work_items wm' = od_pop id (in_flight_work_items wm) ∧
      dispatch_timestamps wm' = od_pop id (dispatch_timestamps wm) ∧
      queue_topology wm' = cleanup_empty_queue (wi_tp w) (wi_key w) (queue_topology wm) ∧
      work_item_ids_by_tp_offset wm' = work_item_ids_by_tp_offset wm2 ∧
      release_view wm' = release_view wm ∧
      ∀ ws, locks_of (release_ordering_lock w wm2) ws → locks_of wm' ws)
      as (F1 & F2 & F3 & F4 & F5 & F6 & F7).
    { unfold wm'. rewrite Hrel, <-E7, <-G0. rewrite <-E6, <-E3, <-E4, <-E1, <-G1, <-G3, <-G4, <-G5, <-G7.
      by destruct b. }
    split; [|split; [done|split; [done|split; [done|split; [by rewrite F5|done]]]]].
    split; [rewrite F1, F3; lia|rewrite F3; by apply NoDup_od_pop|].
    unfold locks_exact. apply F7. unfold dispatched in HL |- *. by rewrite F2, F3, <-E3, <-E4.
  - assert (od_pop id (dispatch_timestamps wm) = dispatch_timestamps wm) as Hpd by by apply od_pop_absent.
    assert (current_in_flight_count wm' = current_in_flight_count wm ∧
      in_flight_work_items wm' = od_pop id (in_flight_work_items wm) ∧
      dispatch_timestamps wm' = od_pop id (dispatch_timestamps wm) ∧
      queue_topology wm' = cleanup_empty_queue (wi_tp w) (wi_key w) (queue_topology wm) ∧
      work_item_ids_by_tp_offset wm' = work_item_ids_by_tp_offset wm2 ∧
      release_view wm' = release_view wm ∧ ∀ ws, locks_of wm2 ws → locks_of wm' ws)
      as (F1 & F2 & F3 & F4 & F5 & F6 & F7).
    { unfold wm'. rewrite Hrel, <-E7. rewrite <-E6, <-E3, <-E4, <-E1. by destruct b. }
    split; [|split; [done|split; [done|split; [done|split; [by rewrite F5|done]]]]].
    split; [by rewrite F1, F3, Hpd|rewrite F3; by apply NoDup_od_pop|].
    unfold locks_exact. apply F7, Hlw. unfold dispatched. rewrite F2, F3, Hpd, lookup_items_pop by done. done.
Qed.

Lemma acct_ledger limbo n wm : acct_inv limbo n wm → ledger_ok wm.
Proof. intros []. by split. Qed.

(** Release of an item that is no longer queued *)
Lemma acct_release wm id w b :
  acct_inv [] 0 wm → od_get id (in_flight_work_items wm) = Some w →
  w ∉ queue_of (queue_topology wm) (item_key w) → dicts_nodup (queue_topology wm) →
  acct_inv [] 0 (release_in_flight_item id b wm).2.
Proof.
  intros Hinv Hi Hq Hdn. destruct (release_step wm id w b (acct_ledger _ _ _ Hinv) Hi)
    as ([L1 L2 L3] & E1 & E2 & E3 & E4 & E5).
  set (wm' := (release_in_flight_item id b wm).2) in *. clearbody wm'. unfold release_view in E5.
  assert (acct_inv [] 0 (wm' <| queue_topology := queue_topology wm |>)) as Ha.
  { eapply acct_release_core; [done..| | | | | | | | |]; try done; simpl; congruence. }
  destruct (cleanup_count (wi_tp w) (wi_key w) (queue_topology wm) Hdn) as [_ Hct].
  eapply (acct_topology _ _ _ (queue_topology wm')) in Ha; [|rewrite E3..].
  - eapply acct_frame; [|exact Ha]. done.
  - intros k. apply queue_of_cleanup.
  - done.
  - intros tp. apply assigned_cleanup.
Qed.

(** ** Arrival *)

(** A new item enters the table; it is not queued yet. *)
Lemma acct_arrive limbo n wm wm' w :
  acct_inv limbo n wm → wi_id w = uuid4 (wm_uuids wm) → assigned (queue_topology wm) (wi_tp w) = true →
  wm_uuids wm' = S (wm_uuids wm) →
  in_flight_work_items wm' = od_set (wi_id w) w (in_flight_work_items wm) →
  work_item_ids_by_tp_offset wm' = od_set (wi_tp w, wi_offset w) (wi_id w) (work_item_ids_by_tp_offset wm) →
  queue_topology wm' = queue_topology wm → completion_queue wm' = completion_queue wm →
  dispatch_timestamps wm' = dispatch_timestamps wm → total_queued_messages wm' = total_queued_messages wm →
  current_in_flight_count wm' = current_in_flight_count wm →
  (∀ ws, locks_of wm ws → locks_of wm' ws) →
  acct_inv (limbo ++ [w]) n wm'.
Proof.
  intros [A1 A2 A3 A4 A5 A6 A7 A8 A9 A10 A11 A12 A13 A14 A15 A16 A17 A18] Hid Hasg Eu Ei Ex Eq Ec Ed Et En Hl.
  assert (∀ n', (n' < wm_uuids wm)%nat → uuid4 n' ≠ wi_id w) as Hnew.
  { intros n' Hlt He. rewrite Hid in He. apply (inj uuid4) in He. lia. }
  assert (od_get (wi_id w) (in_flight_work_items wm) = None) as Hni.
  { destruct (od_get _ _) eqn:E1; [|done]. destruct (A7 (wi_id w)) as (m & Hm & He); [eauto|].
    by destruct (Hnew m Hm). }
  assert (od_get (wi_id w) (dispatch_timestamps wm) = None) as Hnd.
  { destruct (od_get (wi_id w) (dispatch_timestamps wm)) eqn:E1; [|done].
    destruct (A12 (wi_id w)) as [? Hs]; [eauto|]. congruence. }
  assert (∀ id w', od_get id (od_set (wi_id w) w (in_flight_work_items wm)) = Some w' →
    (id = wi_id w ∧ w' = w) ∨ (id ≠ wi_id w ∧ od_get id (in_flight_work_items wm) = Some w')) as Hget.
  { intros id w'. rewrite od_get_set. case_decide; naive_solver. }
  assert (∀ k, w ∉ queue_of (queue_topology wm) k) as Hnq.
  { intros k (_ & Hx & _)%A8. congruence. }
  assert (∀ id w', od_get id (in_flight_work_items wm) = Some w' →
    od_get id (od_set (wi_id w) w (in_flight_work_items wm)) = Some w') as Hkeep.
  { intros id w' Hx. rewrite od_get_set_ne; [done|]. congruence. }
  split; rewrite ?Ei, ?Eq, ?Ed, ?Et, ?En, ?Ec, ?Eu; try done.
  - by apply NoDup_od_set.
  - intros id w' [[-> ->]|[_ ?]]%Hget; auto.
  - intros id w' [[-> ->]|[_ ?]]%Hget; eauto.
  - intros id [w' [[-> ->]|[_ Hx]]%Hget]; [by eexists; split; [|exact Hid]; lia|].
    destruct (A7 id) as (m & ? & ?); [eauto|]. exists m. split; [lia|done].
  - intros k w' Hw'. destruct (A8 k w' Hw') as (? & ? & ?). auto.
  - intros w' [Hw'|Hw']%elem_of_app.
    + destruct (A10 w' Hw') as (? & ? & ?). auto.
    + apply list_elem_of_singleton in Hw' as ->. rewrite od_get_set_eq. auto.
  - apply NoDup_app. split; [done|]. split; [|apply NoDup_singleton].
    intros x Hx ->%list_elem_of_singleton. destruct (A10 w Hx). congruence.
  - intros id Hs. destruct (A12 id Hs) as [w' Hw']. exists w'. by apply Hkeep.
  - intros ev w' He [[Hx ->]|[_ Hx]]%Hget.
    + destruct (A17 ev He) as (m & Hm & Hm'). destruct (Hnew m Hm). congruence.
    + destruct (A13 ev w' He Hx) as (? & ? & ?). split; [done|]. split; [done|].
      intros [?|Hx2]%elem_of_app; [done|]. apply list_elem_of_singleton in Hx2 as ->. apply A5 in Hx as Hx'.
      rewrite <-Hx' in Hx. congruence.
  - intros id w' [[-> ->]|[_ Hx]]%Hget; [right; left; set_solver|].
    destruct (A14 id w' Hx) as [?|[?|?]]; [by auto|right; left; set_solver|by auto].
  - intros tp o id w'. rewrite Ex, od_get_set. case_decide as Hk.
    + intros [= <-]. rewrite od_get_set_eq. intros [= <-]. by simplify_eq.
    + intros Hx [[-> ->]|[_ Hy]]%Hget; [|by eapply A15].
      destruct (A18 _ _ Hx) as (m & Hm & He). by destruct (Hnew m Hm).
  - unfold locks_exact, dispatched. rewrite Ei, Ed. rewrite (lookup_items_ext (in_flight_work_items wm)).
    + by apply Hl.
    + intros id Hin. apply od_get_set_ne. intros <-. apply od_get_None in Hnd. done.
  - intros ev He. destruct (A17 ev He) as (m & ? & ?). exists m. split; [lia|done].
  - intros k id. rewrite Ex, od_get_set. case_decide.
    + intros [= <-]. exists (wm_uuids wm). split; [lia|done].
    + intros Hx. destruct (A18 k id Hx) as (m & ? & ?). exists m. split; [lia|done].
Qed.

(** The new items of one key are appended to its queue and counted. *)
Lemma acct_enqueue wm topo k ws :
  (∀ w, w ∈ ws → item_key w = k) →
  (∀ k', queue_of topo k' = if decide (k = k') then queue_of (queue_topology wm) k ++ ws
                            else queue_of (queue_topology wm) k') →
  total_items topo = total_items (queue_topology wm) + zlen ws →
  (∀ tp, assigned topo tp = assigned (queue_topology wm) tp) →
  acct_inv ws 0 wm →
  acct_inv [] 0 (wm <| queue_topology := topo |> <| total_queued_messages ::= λ n, n + zlen ws |>).
Proof.
  intros Hk Hq Ht Ha [A1 A2 A3 A4 A5 A6 A7 A8 A9 A10 A11 A12 A13 A14 A15 A16 A17 A18].
  assert (∀ k' w, w ∈ queue_of topo k' → w ∈ queue_of (queue_topology wm) k' ∨ (k' = k ∧ w ∈ ws)) as Hsub.
  { intros k' w. rewrite Hq. case_decide; [subst|auto]. rewrite elem_of_app. naive_solver. }
  split; simpl; try done.
  - lia.
  - intros id w. rewrite Ha. apply A6.
  - intros k' w [Hw|[-> Hw]]%Hsub; [by apply A8|]. destruct (A10 w Hw) as (? & ? & _). by rewrite Hk.
  - intros k'. rewrite Hq. case_decide; [|apply A9]. apply NoDup_app. split; [apply A9|]. split; [|done].
    intros w Hw Hw'. destruct (A10 w Hw') as (_ & _ & Hn). rewrite (Hk w Hw') in Hn. done.
  - intros w ?%elem_of_nil. done.
  - constructor.
  - intros ev w He Hi. destruct (A13 ev w He Hi) as (? & ? & ?). split; [done|].
    split; [|set_solver]. by intros [?|[? ?]]%Hsub.
  - intros id w Hi. destruct (A14 id w Hi) as [Hw|[Hw|Hw]]; [| |by auto].
    + left. rewrite Hq. case_decide as Hd; [|done]. rewrite <-Hd in Hw. set_solver.
    + left. rewrite Hq, (Hk w Hw), decide_True by done. set_solver.
Qed.
End invariant.
