(* ===== verification/WorkManagerOps.v ===== *)
(** * The operations of the work manager keep its accounting

    The invariant of the whole manager, its preservation by scheduling and by the
    other operations, and what one scheduling pass does: which items move, in which
    order, and within which limits. *)

From S2P Require Import Prelude Vendor Runtime Dto OffsetTracker PoisonMessage WorkQueueTopology ExecutionEngine WorkManager WorkManagerInv.

Section operations.
Context {E : Type} `{EE : ExecutionEngine E} `{EL : !ExecutionEngineLaws E} `{TL : TrackerLibs} `{RT : Runtime}.
Implicit Types (wm : WorkManager E) (w : WorkItem) (d : list QueueKey).

(** Accepted work is known work that has left the queues. *)
Definition log_inv wm : Prop :=
  ∀ w, w ∈ engine_log (execution_engine wm) →
    (∃ n, (n < wm_uuids wm)%nat ∧ wi_id w = uuid4 n) ∧
    ∀ w', od_get (wi_id w) (in_flight_work_items wm) = Some w' →
      w' = w ∧ w ∉ queue_of (queue_topology wm) (item_key w).

(** Every partition with queues has its tracker. *)
Definition trackers_ok wm : Prop :=
  ∀ tp, assigned (queue_topology wm) tp = true →
    ∃ l, od_get tp (offset_trackers wm) = Some l ∧ is_Some (tracker_store wm !! l).

Record wm_core wm : Prop := {
  wc_dicts : dicts_nodup (queue_topology wm);
  wc_acct : acct_inv [] 0 wm;
  wc_engine : engine_ok (execution_engine wm);
  wc_log : log_inv wm;
  wc_trackers : trackers_ok wm;
  wc_batch : 1 ≤ route_batch_size wm;
}.

(** The invariant while the keys of [d] are deferred; [wm_inv] between operations. *)
Definition wm_inv_at (d : list QueueKey) wm : Prop :=
  topo_inv (list_to_set d) (queue_topology wm) ∧ parked (list_to_set d) (queue_topology wm) ∧ wm_core wm.

Definition wm_inv wm : Prop := wm_inv_at [] wm.

(** ** The poison check does not touch the work *)

Definition same_but_poison wm wm' : Prop :=
  ∃ t p, wm' = wm <| wm_ticks := t |> <| poison_message_circuit := p |>.

Lemma same_but_poison_refl wm : same_but_poison wm wm.
Proof. exists (wm_ticks wm), (poison_message_circuit wm). by destruct wm. Qed.

Lemma same_but_poison_trans wm1 wm2 wm3 :
  same_but_poison wm1 wm2 → same_but_poison wm2 wm3 → same_but_poison wm1 wm3.
Proof. intros (t & p & ->) (t' & p' & ->). by exists t', p'. Qed.

(** No circuit of [b] will ever fail [w]. *)
Definition never_fails w (b : PoisonMessageCircuitBreaker) : Prop :=
  ∀ now, should_force_fail now w b = (false, b).

Lemma should_force_fail_stable now w b b' :
  should_force_fail now w b = (false, b') → never_fails w b'.
Proof.
  unfold never_fails, should_force_fail, should_force_fail_gen.
  destruct (pb_enabled b) eqn:Ee; simpl; [|intros [= <-]; by rewrite Ee].
  destruct (od_get _ (pb_states b)) as [s|] eqn:Es; [|intros [= <-]; by rewrite Ee, Es].
  destruct (open_until s) as [u|] eqn:Eu; [|intros [= <-]; by rewrite Ee, Es, Eu].
  destruct (now <q u); [done|]. intros [= <-] now'. simpl. rewrite Ee. simpl. by rewrite od_get_pop_eq.
Qed.

Lemma check_force_fail_same b w wm :
  same_but_poison wm (check_force_fail b w wm).2.
Proof.
  unfold check_force_fail, tick. destruct (should_force_fail _ w b) as [r b']. simpl. eexists _, _. done.
Qed.

Lemma truncate_spec ws wm :
  let '(ws', wm') := truncate_batch_before_force_fail ws wm in
  same_but_poison wm wm' ∧ (∃ rest, ws = ws' ++ rest) ∧
  (∀ w, head ws = Some w → (∀ b, poison_message_circuit wm = Some b → never_fails w b) → head ws' = Some w).
Proof.
  revert wm. induction ws as [|w ws IH]; intros wm; simpl.
  { destruct (poison_message_circuit wm); (split; [apply same_but_poison_refl|]; split; [by exists []|done]). }
  destruct (poison_message_circuit wm) as [b|] eqn:Ep.
  2: { split; [apply same_but_poison_refl|]. split; [exists []; by rewrite app_nil_r|done]. }
  pose proof (check_force_fail_same b w wm) as Hs.
  destruct (check_force_fail b w wm) as [r wm1] eqn:Ec. simpl in Hs. destruct r.
  - split; [done|]. split; [by exists (w :: ws)|]. intros w0 [= <-] Hnf. exfalso. specialize (Hnf b eq_refl).
    unfold check_force_fail, tick in Ec. rewrite Hnf in Ec. done.
  - specialize (IH wm1). destruct (truncate_batch_before_force_fail ws wm1) as [ws' wm2].
    destruct IH as (H1 & (rest & ->) & _). split; [by eapply same_but_poison_trans|].
    split; [by exists rest|]. by intros w0 [= <-] _.
Qed.

(** ** Running items and the ordering locks *)

(** The value an item locks in the manager's ordering mode *)
Definition exclusive wm : Prop :=
  match ordering_mode wm with
  | KEY_HASH => supports_ordered_route_batch (execution_engine wm) = false → NoDup (item_key <$> dispatched wm)
  | PARTITION => NoDup (wi_tp <$> dispatched wm)
  | UNORDERED => True
  end.

Lemma counts_exact_free {A} `{Countable A} (f : WorkItem → A) (m : gmap A Z) ws a :
  counts_exact f m ws → a ∉ dom m → a ∉ f <$> ws.
Proof.
  intros Hc Ha (w & -> & Hw)%list_elem_of_fmap. destruct (Hc (f w)) as [H1 _].
  apply not_elem_of_dom in Ha. rewrite Ha in H1. simpl in H1.
  assert (w ∈ filter (λ w', f w' = f w) ws) as Hf by by apply list_elem_of_filter.
  symmetry in H1. apply zlen_nil_iff in H1. rewrite H1 in Hf. by apply elem_of_nil in Hf.
Qed.

(** An eligible key holds no lock. *)
Lemma eligible_free wm k :
  locks_exact wm → is_queue_eligible wm k = true →
  match ordering_mode wm with
  | KEY_HASH => k ∉ item_key <$> dispatched wm
  | PARTITION => k.1 ∉ wi_tp <$> dispatched wm
  | UNORDERED => True
  end.
Proof.
  unfold locks_exact, locks_of, is_queue_eligible. destruct (ordering_mode wm); [..|done];
    intros [Hc Hk] He; apply negb_true_iff, bool_decide_eq_false in He; rewrite Hk in He;
    by eapply counts_exact_free.
Qed.

(** What recording a submission leaves alone *)
Definition record_view wm :=
  (execution_engine wm, tracker_store wm, offset_trackers wm, queue_topology wm, completion_queue wm,
   in_flight_work_items wm, (ordering_mode wm, max_in_flight_messages wm, rebalancing wm,
   route_batch_size wm, wm_uuids wm, leased_queue_keys wm)).

Lemma record_item_view wm w : record_view (record_submitted_item wm w) = record_view wm.
Proof.
  unfold record_submitted_item, record_ordering_lock, tick; simpl. by destruct (ordering_mode wm).
Qed.

Lemma record_items_view ws wm : record_view (record_submitted_items ws wm) = record_view wm.
Proof.
  unfold record_submitted_items. revert wm. induction ws as [|w ws IH]; intros wm; cbn [fold_left]; [done|].
  by rewrite IH, record_item_view.
Qed.

Lemma record_item_disp wm w :
  dispatch_timestamps (record_submitted_item wm w) =
    od_set (wi_id w) (perf_counter (wm_ticks wm)) (dispatch_timestamps wm) ∧
  current_in_flight_count (record_submitted_item wm w) = current_in_flight_count wm + 1.
Proof.
  unfold record_submitted_item, record_ordering_lock, tick; simpl. by destruct (ordering_mode wm).
Qed.

Lemma record_item_dispatched wm w :
  od_get (wi_id w) (in_flight_work_items wm) = Some w → od_get (wi_id w) (dispatch_timestamps wm) = None →
  dispatched (record_submitted_item wm w) = dispatched wm ++ [w].
Proof.
  intros Hi Hd. unfold dispatched. destruct (record_item_disp wm w) as [-> _].
  assert (in_flight_work_items (record_submitted_item wm w) = in_flight_work_items wm) as ->.
  { pose proof (record_item_view wm w) as Hv. unfold record_view in Hv. congruence. }
  rewrite od_set_fresh by done. unfold od_keys. rewrite fmap_app. by apply lookup_items_snoc.
Qed.

Lemma record_items_dispatched limbo ws wm :
  acct_inv (ws ++ limbo) (zlen ws) wm →
  dispatched (record_submitted_items ws wm) = dispatched wm ++ ws ∧
  current_in_flight_count (record_submitted_items ws wm) = current_in_flight_count wm + zlen ws.
Proof.
  unfold record_submitted_items. revert wm. induction ws as [|w ws IH]; intros wm Ha; cbn [fold_left].
  { rewrite app_nil_r. change (zlen []) with 0. split; [done|lia]. }
  destruct (ai_limbo _ _ _ Ha w) as (Hi & Hd & _); [set_solver|].
  destruct (IH (record_submitted_item wm w)) as [-> ->].
  { apply acct_record; [auto with py|]. by rewrite zlen_cons in Ha. }
  destruct (record_item_disp wm w) as [_ ->]. rewrite record_item_dispatched by done.
  rewrite <-app_assoc, zlen_cons. split; [done|lia].
Qed.

(** ** What a scheduling pass does

    A pass moves items off the fronts of the queues, one after the other, either to the
    engine ([true]) or to a forced failure ([false]). *)

Definition fed_items (ms : list (bool * WorkItem)) : list WorkItem := (filter (λ m, m.1 = true) ms).*2.
Definition failed_items (ms : list (bool * WorkItem)) : list WorkItem := (filter (λ m, m.1 = false) ms).*2.
Definition moved_from (k : QueueKey) (ms : list (bool * WorkItem)) : list WorkItem :=
  (filter (λ m, item_key m.2 = k) ms).*2.

(** What scheduling never changes *)
Definition sched_static wm :=
  (tracker_store wm, offset_trackers wm, in_flight_work_items wm, ordering_mode wm,
   max_in_flight_messages wm, (rebalancing wm, route_batch_size wm, wm_uuids wm,
   supports_ordered_route_batch (execution_engine wm))).

Record sched_moves (ms : list (bool * WorkItem)) wm wm' : Prop := {
  sm_log : engine_log (execution_engine wm') = engine_log (execution_engine wm) ++ fed_items ms;
  sm_events : ∃ evs, completion_queue wm' = completion_queue wm ++ evs ∧
    ce_id <$> evs = wi_id <$> failed_items ms;
  sm_queues k : queue_of (queue_topology wm) k = moved_from k ms ++ queue_of (queue_topology wm') k;
  sm_total : total_items (queue_topology wm') = total_items (queue_topology wm) - zlen ms;
  sm_assigned tp : assigned (queue_topology wm') tp = assigned (queue_topology wm) tp;
  sm_capacity : current_in_flight_count wm' ≤ Z.max (current_in_flight_count wm) (max_in_flight_messages wm);
  sm_exclusive : exclusive wm → exclusive wm';
  sm_static : sched_static wm' = sched_static wm;
}.

Definition full_view wm :=
  (acct_view wm, execution_engine wm, offset_trackers wm, tracker_store wm,
   (max_in_flight_messages wm, rebalancing wm, route_batch_size wm)).

Lemma core_frame wm wm' : full_view wm' = full_view wm → wm_core wm → wm_core wm'.
Proof.
  intros Hv [H1 H2 H3 H4 H5 H6]. unfold full_view in Hv.
  assert (acct_view wm' = acct_view wm ∧ execution_engine wm' = execution_engine wm ∧
    offset_trackers wm' = offset_trackers wm ∧ tracker_store wm' = tracker_store wm)
    as (Ha & He & Ht & Hs) by (repeat split; congruence).
  pose proof Ha as Ha'. unfold acct_view in Ha'. simpl in Ha'.
  assert (queue_topology wm' = queue_topology wm ∧ in_flight_work_items wm' = in_flight_work_items wm ∧
    wm_uuids wm' = wm_uuids wm) as (Eq & Ei & Eu) by (split; [congruence|split; congruence]).
  split.
  - by rewrite Eq.
  - by eapply acct_frame.
  - by rewrite He.
  - intros w. rewrite He, Eq, Ei, Eu. apply H4.
  - intros tp. rewrite Eq, Ht, Hs. apply H5.
  - replace (route_batch_size wm') with (route_batch_size wm) by congruence. done.
Qed.

Lemma sched_moves_frame ms wm1 wm2 wm1' wm2' :
  full_view wm1' = full_view wm1 → full_view wm2' = full_view wm2 →
  sched_moves ms wm1 wm2 → sched_moves ms wm1' wm2'.
Proof.
  intros Hv1 Hv2 [H1 H2 H3 H4 H5 H6 H7 H8]. unfold full_view, acct_view in Hv1, Hv2.
  assert (∀ a b, full_view a = full_view b → exclusive a → exclusive b) as Hex.
  { intros a b Hab. unfold full_view, acct_view in Hab. unfold exclusive, dispatched.
    assert (ordering_mode a = ordering_mode b ∧ execution_engine a = execution_engine b ∧
      in_flight_work_items a = in_flight_work_items b ∧ dispatch_timestamps a = dispatch_timestamps b)
      as (-> & -> & -> & ->) by (repeat split; congruence). done. }
  split.
  - replace (execution_engine wm1') with (execution_engine wm1) by congruence.
    replace (execution_engine wm2') with (execution_engine wm2) by congruence. done.
  - replace (completion_queue wm1') with (completion_queue wm1) by congruence.
    replace (completion_queue wm2') with (completion_queue wm2) by congruence. done.
  - replace (queue_topology wm1') with (queue_topology wm1) by congruence.
    replace (queue_topology wm2') with (queue_topology wm2) by congruence. done.
  - replace (queue_topology wm1') with (queue_topology wm1) by congruence.
    replace (queue_topology wm2') with (queue_topology wm2) by congruence. done.
  - replace (queue_topology wm1') with (queue_topology wm1) by congruence.
    replace (queue_topology wm2') with (queue_topology wm2) by congruence. done.
  - replace (current_in_flight_count wm1') with (current_in_flight_count wm1) by congruence.
    replace (current_in_flight_count wm2') with (current_in_flight_count wm2) by congruence.
    replace (max_in_flight_messages wm1') with (max_in_flight_messages wm1) by congruence. done.
  - intros He. apply (Hex wm2); [done|]. apply H7. by apply (Hex wm1').
  - unfold sched_static in *.
    replace (execution_engine wm1') with (execution_engine wm1) by congruence.
    replace (execution_engine wm2') with (execution_engine wm2) by congruence. congruence.
Qed.

Lemma moved_from_app k ms ms' : moved_from k (ms ++ ms') = moved_from k ms ++ moved_from k ms'.
Proof. unfold moved_from. by rewrite filter_app, fmap_app. Qed.
Lemma fed_items_app ms ms' : fed_items (ms ++ ms') = fed_items ms ++ fed_items ms'.
Proof. unfold fed_items. by rewrite filter_app, fmap_app. Qed.
Lemma failed_items_app ms ms' : failed_items (ms ++ ms') = failed_items ms ++ failed_items ms'.
Proof. unfold failed_items. by rewrite filter_app, fmap_app. Qed.

Lemma sched_moves_nil wm wm' : full_view wm' = full_view wm → sched_moves [] wm wm'.
Proof.
  intros Hv. apply (sched_moves_frame [] wm wm); [done..|]. split; try done.
  - by rewrite app_nil_r.
  - exists []. by rewrite app_nil_r.
  - rewrite zlen_nil_0. lia.
  - lia.
Qed.

(** A pass that only rearranges the bookkeeping of the queues *)
Lemma sched_moves_topology wm topo :
  (∀ k, queue_of topo k = queue_of (queue_topology wm) k) →
  total_items topo = total_items (queue_topology wm) →
  (∀ tp, assigned topo tp = assigned (queue_topology wm) tp) →
  sched_moves [] wm (wm <| queue_topology := topo |>).
Proof.
  intros Hq Ht Ha. split; try done.
  - by rewrite app_nil_r.
  - exists []. by rewrite app_nil_r.
  - intros k. simpl. by rewrite Hq.
  - simpl. rewrite zlen_nil_0. lia.
  - simpl. lia.
Qed.

Lemma sched_moves_trans ms ms' wm1 wm2 wm3 :
  sched_moves ms wm1 wm2 → sched_moves ms' wm2 wm3 → sched_moves (ms ++ ms') wm1 wm3.
Proof.
  intros [A1 A2 A3 A4 A5 A6 A7 A8] [B1 B2 B3 B4 B5 B6 B7 B8].
  assert (max_in_flight_messages wm2 = max_in_flight_messages wm1) as Hm
    by (unfold sched_static in A8; congruence).
  split.
  - by rewrite B1, A1, fed_items_app, app_assoc.
  - destruct A2 as (ev & E1 & E2), B2 as (ev' & E3 & E4). exists (ev ++ ev').
    by rewrite E3, E1, failed_items_app, !fmap_app, E2, E4, app_assoc.
  - intros k. by rewrite A3, B3, moved_from_app, app_assoc.
  - rewrite B4, A4, zlen_app. lia.
  - intros tp. by rewrite B5, A5.
  - lia.
  - auto.
  - congruence.
Qed.

(** The moved items were queued, and are not queued any more. *)
Lemma sched_moves_gone ms wm wm' w :
  acct_inv [] 0 wm → sched_moves ms wm wm' → w ∈ moved_from (item_key w) ms →
  w ∈ queue_of (queue_topology wm) (item_key w) ∧ w ∉ queue_of (queue_topology wm') (item_key w).
Proof.
  intros Ha Hs Hw. pose proof (ai_queue_nodup _ _ _ Ha (item_key w)) as Hnd.
  rewrite (sm_queues _ _ _ Hs) in Hnd |- *. apply NoDup_app in Hnd as (_ & Hn & _).
  split; [set_solver|]. by apply Hn.
Qed.

Lemma log_inv_moves ms wm wm' :
  acct_inv [] 0 wm → log_inv wm → sched_moves ms wm wm' → log_inv wm'.
Proof.
  intros Ha Hl Hs w. pose proof (sm_static _ _ _ Hs) as Hst. unfold sched_static in Hst.
  assert (in_flight_work_items wm' = in_flight_work_items wm ∧ wm_uuids wm' = wm_uuids wm) as [-> ->]
    by (split; congruence).
  rewrite (sm_log _ _ _ Hs), elem_of_app. intros [Hw|Hw].
  - destruct (Hl w Hw) as [H1 H2]. split; [done|]. intros w' Hi. destruct (H2 w' Hi) as [-> Hn].
    split; [done|]. rewrite (sm_queues _ _ _ Hs) in Hn. set_solver.
  - assert (w ∈ moved_from (item_key w) ms) as Hm.
    { revert Hw. unfold fed_items, moved_from. rewrite !list_elem_of_fmap.
      intros (m & -> & [_ ?]%list_elem_of_filter). exists m. split; [done|]. by apply list_elem_of_filter. }
    destruct (sched_moves_gone _ _ _ _ Ha Hs Hm) as [Hin Hout].
    destruct (ai_queued _ _ _ Ha _ _ Hin) as (_ & Hi & _).
    split; [apply (ai_fresh _ _ _ Ha); eauto|]. intros w' Hi'. rewrite Hi in Hi'. by simplify_eq.
Qed.

Lemma trackers_ok_moves ms wm wm' : trackers_ok wm → sched_moves ms wm wm' → trackers_ok wm'.
Proof.
  intros Ht Hs tp. pose proof (sm_static _ _ _ Hs) as Hst. unfold sched_static in Hst.
  rewrite (sm_assigned _ _ _ Hs).
  replace (offset_trackers wm') with (offset_trackers wm) by congruence.
  replace (tracker_store wm') with (tracker_store wm) by congruence. apply Ht.
Qed.

(** The state in the middle of an iteration: [k] has been taken out, [loose] are deferred. *)
Definition picked (k : QueueKey) (loose : gset QueueKey) wm : Prop :=
  topo_inv ({[k]} ∪ loose) (queue_topology wm) ∧ parked loose (queue_topology wm) ∧ k ∉ loose ∧ wm_core wm.

Definition settled_at (loose : gset QueueKey) wm : Prop :=
  topo_inv loose (queue_topology wm) ∧ parked loose (queue_topology wm) ∧ wm_core wm.

(** How many items of one key may run at once *)
Definition batch_allowed wm (n : Z) : Prop :=
  current_in_flight_count wm + n ≤ max_in_flight_messages wm ∧
  match ordering_mode wm with
  | KEY_HASH => supports_ordered_route_batch (execution_engine wm) = false → n ≤ 1
  | PARTITION => n ≤ 1
  | UNORDERED => True
  end.

Lemma core_from_moves ms wm wm' :
  wm_core wm → sched_moves ms wm wm' → dicts_nodup (queue_topology wm') → acct_inv [] 0 wm' →
  engine_ok (execution_engine wm') → wm_core wm'.
Proof.
  intros [H1 H2 H3 H4 H5 H6] Hs Hd Ha He. split; [done|done|done| | |].
  - by apply (log_inv_moves ms wm).
  - by apply (trackers_ok_moves ms wm).
  - pose proof (sm_static _ _ _ Hs) as Hst. unfold sched_static in Hst.
    by replace (route_batch_size wm') with (route_batch_size wm) by congruence.
Qed.

Lemma moved_from_const (b : bool) k ws :
  (∀ w, w ∈ ws → item_key w = k) →
  ∀ k', moved_from k' (pair b <$> ws) = if decide (k = k') then ws else [].
Proof.
  intros Hk k'. unfold moved_from. induction ws as [|w ws IH]; [by case_decide|].
  rewrite fmap_cons, filter_cons. cbn [snd]. rewrite (Hk w) by set_solver.
  specialize (IH ltac:(set_solver)). revert IH. destruct (decide (k = k')); intros IH; [|exact IH].
  rewrite fmap_cons. cbn [snd]. f_equal. exact IH.
Qed.

Lemma fed_items_all ws : fed_items (pair true <$> ws) = ws.
Proof.
  unfold fed_items. induction ws as [|w ws IH]; [done|]. rewrite fmap_cons, filter_cons_True by done.
  rewrite fmap_cons. cbn [snd]. f_equal. exact IH.
Qed.

Lemma failed_items_fed ws : failed_items (pair true <$> ws) = [].
Proof. unfold failed_items. induction ws as [|w ws IH]; [done|]. by rewrite fmap_cons, filter_cons_False. Qed.

Lemma exclusive_after_dispatch wm wm' k ws :
  exclusive wm → locks_exact wm → is_queue_eligible wm k = true → batch_allowed wm (zlen ws) →
  (∀ w, w ∈ ws → item_key w = k) → dispatched wm' = dispatched wm ++ ws →
  sched_static wm' = sched_static wm → exclusive wm'.
Proof.
  intros He Hl Hk [_ Hb] Hws Hd Hst. pose proof (eligible_free wm k Hl Hk) as Hf.
  unfold exclusive in *. unfold sched_static in Hst.
  replace (ordering_mode wm') with (ordering_mode wm) by congruence.
  replace (supports_ordered_route_batch (execution_engine wm')) with
    (supports_ordered_route_batch (execution_engine wm)) by congruence. rewrite Hd.
  assert (∀ {A} (f : WorkItem → A) a, zlen ws ≤ 1 → (∀ w, w ∈ ws → f w = a) → a ∉ f <$> dispatched wm →
    NoDup (f <$> dispatched wm) → NoDup (f <$> dispatched wm ++ ws)) as Hone.
  { intros A f a Hlen Hfa Hna Hnd. destruct ws as [|w [|w' ws]]; [by rewrite app_nil_r| |].
    - rewrite fmap_app. apply NoDup_app. split; [done|]. split; [|apply NoDup_singleton].
      intros x Hx Hx'. apply list_elem_of_singleton in Hx'. subst x. rewrite Hfa in Hx; [done|set_solver].
    - rewrite !zlen_cons in Hlen. pose proof (zlen_nonneg ws). lia. }
  destruct (ordering_mode wm); [|..|done].
  - intros Hs. apply (Hone _ item_key k); auto.
  - apply (Hone _ wi_tp k.1); auto. intros w Hw. by rewrite <-(Hws w Hw).
Qed.

(** Accepted items leave the queue and become running items. *)
Lemma dispatch_spec k loose wm e' n :
  picked k loose wm → is_queue_eligible wm k = true → 0 < n →
  queue_of (queue_topology wm) k ≠ [] →
  batch_allowed wm (zlen (py_take n (queue_of (queue_topology wm) k))) →
  engine_ok e' → supports_ordered_route_batch e' = supports_ordered_route_batch (execution_engine wm) →
  engine_log e' = engine_log (execution_engine wm) ++ py_take n (queue_of (queue_topology wm) k) →
  let '(dq, wm2) := dequeue_into k n (wm <| execution_engine := e' |>) in
  let wm3 := record_submitted_items dq wm2 in
  dq = py_take n (queue_of (queue_topology wm) k) ∧ dq ≠ [] ∧
  settled_at loose wm3 ∧ sched_moves (pair true <$> dq) wm wm3.
Proof.
  intros (Hi & Hp & Hkl & Hc) Hel Hn Hne Hb Hok Hcap Hlog. unfold dequeue_into.
  pose proof (dequeue_items_spec loose k n (queue_topology wm) Hn Hi) as Hds.
  pose proof (dequeue_items_count k n (queue_topology wm) (wc_dicts _ Hc)) as Hdc.
  pose proof (dequeue_items_frame k n (queue_topology wm)) as [Hf1 Hf2].
  change (queue_topology (wm <| execution_engine := e' |>)) with (queue_topology wm).
  destruct (dequeue_submitted_items k.1 k.2 n (queue_topology wm)) as [dq topo]. simpl in Hf1, Hf2.
  destruct Hds as (Hi' & Hdq & Hq), Hdc as [Hdn Ht].
  assert (queue_of (queue_topology wm) k = dq ++ py_drop n (queue_of (queue_topology wm) k)) as Hsplit.
  { rewrite Hdq. unfold py_take, py_drop. by rewrite take_drop. }
  assert (dq ≠ []) as Hdne.
  { rewrite Hdq. unfold py_take. destruct (queue_of (queue_topology wm) k); [done|].
    destruct (Z.to_nat n) eqn:En; [lia|done]. }
  pose proof (wc_acct _ Hc) as Ha.
  assert (∀ w, w ∈ dq → item_key w = k) as Hdk.
  { intros w Hw. assert (w ∈ queue_of (queue_topology wm) k) as Hwq by (rewrite Hsplit; set_solver).
    by destruct (ai_queued _ _ _ Ha _ _ Hwq) as (-> & _). }
  set (wm1 := wm <| execution_engine := e' |>).
  set (wm2 := wm1 <| queue_topology := topo |>).
  assert (acct_inv dq (zlen dq) wm2) as Ha2.
  { apply (acct_dequeue wm1 topo k dq _ Hsplit); [done..|].
    by apply (acct_frame _ _ wm). }
  pose proof (record_items_view dq wm2) as Hv. unfold record_view in Hv.
  assert (acct_inv [] 0 (record_submitted_items dq wm2)) as Ha3
    by (apply acct_record_all; by rewrite app_nil_r).
  destruct (record_items_dispatched [] dq wm2) as [Hd3 Hc3]; [by rewrite app_nil_r|].
  set (wm3 := record_submitted_items dq wm2) in *. clearbody wm3.
  assert (queue_topology wm3 = topo) as Hq3 by (simpl in Hv; congruence).
  assert (execution_engine wm3 = e') as He3 by (simpl in Hv; congruence).
  assert (completion_queue wm3 = completion_queue wm) as Hcq3 by (simpl in Hv; congruence).
  assert (sched_static wm3 = sched_static wm) as Hst3.
  { unfold sched_static. rewrite He3, Hcap. simpl in Hv. congruence. }
  assert (dispatched wm3 = dispatched wm ++ dq) as Hdd by (rewrite Hd3; done).
  assert (current_in_flight_count wm3 = current_in_flight_count wm + zlen dq) as Hcc by (rewrite Hc3; done).
  rewrite <-Hdq in Hb, Hlog.
  assert (sched_moves (pair true <$> dq) wm wm3) as Hsm.
  { split.
    - by rewrite He3, fed_items_all.
    - exists []. rewrite failed_items_fed, app_nil_r. done.
    - intros k'. rewrite (moved_from_const true k dq Hdk), Hq3, Hq. by case_decide; [subst|].
    - rewrite Hq3, Ht. unfold zlen. rewrite length_fmap. lia.
    - intros tp. by rewrite Hq3.
    - rewrite Hcc. destruct Hb as [Hb _]. lia.
    - intros Hex. eapply exclusive_after_dispatch; try done. apply Ha.
    - done. }
  split; [done|]. split; [done|]. split; [|done]. split; [by rewrite Hq3|]. split.
  - rewrite Hq3. by eapply parked_step.
  - eapply core_from_moves; [done..| | |]; [by rewrite Hq3|done|by rewrite He3].
Qed.
End operations.
