(* ===== verification/WorkManagerSchedule.v ===== *)
(** * Scheduling passes of the work manager

    One iteration of the scheduling loop, the loop itself and its termination. *)

From S2P Require Import Prelude Vendor Runtime Dto OffsetTracker PoisonMessage WorkQueueTopology ExecutionEngine WorkManager WorkManagerInv WorkManagerOps.

Section schedule.
Context {E : Type} `{EE : ExecutionEngine E} `{EL : !ExecutionEngineLaws E} `{TL : TrackerLibs} `{RT : Runtime}.
Implicit Types (wm : WorkManager E) (w : WorkItem) (d : list QueueKey) (loose : gset QueueKey).

Lemma settled_frame loose wm wm' : full_view wm' = full_view wm → settled_at loose wm → settled_at loose wm'.
Proof.
  intros Hv (H1 & H2 & H3). assert (queue_topology wm' = queue_topology wm) as Eq
    by (unfold full_view, acct_view in Hv; congruence).
  unfold settled_at. rewrite Eq. split; [done|]. split; [done|]. by eapply core_frame.
Qed.

Lemma picked_frame k loose wm wm' : full_view wm' = full_view wm → picked k loose wm → picked k loose wm'.
Proof.
  intros Hv (H1 & H2 & H3 & H4). assert (queue_topology wm' = queue_topology wm) as Eq
    by (unfold full_view, acct_view in Hv; congruence).
  unfold picked. rewrite Eq. split; [done|]. split; [done|]. split; [done|]. by eapply core_frame.
Qed.

Lemma same_but_poison_view wm wm' : same_but_poison wm wm' → full_view wm' = full_view wm.
Proof. by intros (t & p & ->). Qed.

(** Rearranging the bookkeeping keeps the core invariant. *)
Lemma core_topology wm topo :
  (∀ k, queue_of topo k = queue_of (queue_topology wm) k) →
  total_items topo = total_items (queue_topology wm) →
  (∀ tp, assigned topo tp = assigned (queue_topology wm) tp) → dicts_nodup topo →
  wm_core wm → wm_core (wm <| queue_topology := topo |>).
Proof.
  intros Hq Ht Ha Hd Hc. pose proof (sched_moves_topology wm topo Hq Ht Ha) as Hs.
  apply (core_from_moves _ _ _ Hc Hs); [done| |apply Hc]. by apply acct_topology, Hc.
Qed.

Lemma core_frame_topology wm topo :
  virtual_partition_queues topo = virtual_partition_queues (queue_topology wm) →
  wm_core wm → wm_core (wm <| queue_topology := topo |>) ∧ sched_moves [] wm (wm <| queue_topology := topo |>).
Proof.
  intros Ev Hc. split; [apply core_topology|apply sched_moves_topology]; try done.
  - intros k. by apply queue_of_frame.
  - by apply total_items_frame.
  - intros tp. by apply assigned_frame.
  - eapply dicts_nodup_frame; [done|]. apply Hc.
  - intros k. by apply queue_of_frame.
  - by apply total_items_frame.
  - intros tp. by apply assigned_frame.
Qed.

(** ** The poisoned head of a queue *)

Lemma force_fail_queued_item_spec k loose wm item :
  picked k loose wm → head (queue_of (queue_topology wm) k) = Some item →
  let '(r, wm1) := force_fail_queued_item item k wm in
  if r then settled_at loose wm1 ∧ sched_moves [(false, item)] wm wm1
  else same_but_poison wm wm1 ∧ ∀ b, poison_message_circuit wm1 = Some b → never_fails item b.
Proof.
  intros Hp Hh. unfold force_fail_queued_item.
  destruct (poison_message_circuit wm) as [b|] eqn:Eb; [|split; [apply same_but_poison_refl|congruence]].
  pose proof (check_force_fail_same b item wm) as Hs. unfold check_force_fail, tick in *.
  destruct (should_force_fail _ item b) as [r b'] eqn:Ef. simpl in Hs.
  pose proof (picked_frame _ _ _ _ (same_but_poison_view _ _ Hs) Hp) as Hp1.
  pose proof (same_but_poison_view _ _ Hs) as Hv1.
  set (wm1 := (wm <| wm_ticks ::= S |>) <| poison_message_circuit := Some b' |>) in *.
  destruct r; cbn [negb]; [|split; [done|]; intros b0 [= <-]; by eapply should_force_fail_stable].
  assert (poison_message_circuit wm1 = Some b') as Eb' by done.
  assert (queue_topology wm1 = queue_topology wm) as Eqt by done. clearbody wm1.
  destruct Hp1 as (Hi & Hpk & Hkl & Hc). rewrite Eqt in Hi, Hpk.
  pose proof (dequeue_item_spec loose k (queue_topology wm) Hi) as Hds.
  pose proof (dequeue_item_count k (queue_topology wm)) as Hdc.
  pose proof (dequeue_item_frame k (queue_topology wm)) as [Hf1 Hf2].
  rewrite Eqt. pose proof (wc_dicts _ Hc) as Hdn. rewrite Eqt in Hdn. specialize (Hdc Hdn).
  destruct (dequeue_submitted_item k.1 k.2 (queue_topology wm)) as [dq topo]. simpl in Hf1, Hf2.
  destruct Hds as (Hi' & Hdq & Hq), Hdc as [Hdn' Ht]. rewrite Hh in Hdq. subst dq.
  change (poison_message_circuit (wm1 <| queue_topology := topo |>)) with (poison_message_circuit wm1).
  rewrite Eb'. set (ev := build_forced_failure_event item b').
  assert (queue_of (queue_topology wm1) k = [item] ++ tail (queue_of (queue_topology wm) k)) as Hsplit.
  { rewrite Eqt. by destruct (queue_of (queue_topology wm) k); simplify_eq/=. }
  pose proof (wc_acct _ Hc) as Ha.
  assert (item_key item = k) as Hik.
  { assert (item ∈ queue_of (queue_topology wm1) k) as Hin by (rewrite Hsplit; set_solver).
    by destruct (ai_queued _ _ _ Ha _ _ Hin) as (-> & _). }
  assert (acct_inv [item] 1 (wm1 <| queue_topology := topo |>)) as Ha2.
  { apply (acct_dequeue wm1 topo k [item] _ Hsplit); rewrite ?Eqt; done. }
  set (wm2 := wm1 <| queue_topology := topo |>) in *.
  pose proof (acct_force_failed wm2 item ev eq_refl eq_refl Ha2) as Ha3.
  set (wm3 := invalidate_blocking_cache _).
  assert (acct_inv [] 0 wm3) as Ha3' by (eapply acct_frame; [|exact Ha3]; done).
  assert (sched_moves [(false, item)] wm1 wm3) as Hsm.
  { split; try done.
    - by rewrite app_nil_r.
    - by exists [ev].
    - intros k'. unfold moved_from. rewrite filter_cons. cbn [snd]. rewrite Hik. change (queue_topology wm3) with topo.
      rewrite Hq. case_decide; [subst k'; by rewrite Hsplit|]. by rewrite Eqt.
    - change (queue_topology wm3) with topo. rewrite Ht, Eqt. done.
    - intros tp. change (queue_topology wm3) with topo. by rewrite Hf2, Eqt.
    - change (current_in_flight_count wm3) with (current_in_flight_count wm1). lia. }
  split.
  - split; [done|]. split; [by eapply parked_step|]. eapply core_from_moves; [exact Hc|exact Hsm|done|done|apply Hc].
  - eapply sched_moves_frame; [symmetry; exact Hv1|done|done].
Qed.

(** ** Submitting a batch *)

Lemma submit_items_spec ws wm :
  ws ≠ [] → engine_ok (execution_engine wm) →
  let '(o, wm1) := submit_items ws wm in
  ∃ e', wm1 = wm <| execution_engine := e' |> ∧ engine_ok e' ∧ outcome_ok o ws ∧
    engine_log e' = engine_log (execution_engine wm) ++ accepted_items o ws ∧
    supports_ordered_route_batch e' = supports_ordered_route_batch (execution_engine wm).
Proof.
  intros Hne Hok. unfold submit_items. destruct ws as [|w [|w' ws]]; [done|..].
  - destruct (engine_submit w (execution_engine wm)) as [o e'] eqn:Es.
    destruct (submit_accepts _ _ _ _ Hok Es) as (? & ? & ? & ?). by exists e'.
  - destruct (engine_submit_batch _ (execution_engine wm)) as [o e'] eqn:Es.
    destruct (submit_batch_accepts _ _ _ _ Hok Es) as (? & ? & ? & ?). by exists e'.
Qed.

(** Nothing was accepted: the key is put back. *)
Lemma refuse_spec k loose wm e' q :
  picked k loose wm → engine_ok e' → engine_log e' = engine_log (execution_engine wm) →
  supports_ordered_route_batch e' = supports_ordered_route_batch (execution_engine wm) →
  q_items q = queue_of (queue_topology wm) k →
  let wm' := (wm <| execution_engine := e' |>) <| queue_topology ::= refresh_queue_head k.1 k.2 q |> in
  settled_at loose wm' ∧ sched_moves [] wm wm'.
Proof.
  intros (Hi & Hp & Hkl & Hc) Hok Hlog Hcap Hq.
  set (wm1 := wm <| execution_engine := e' |>).
  assert (wm_core wm1 ∧ sched_moves [] wm wm1) as [Hc1 Hs1].
  { assert (sched_moves [] wm wm1) as Hs1.
    { split; try done.
      - by rewrite app_nil_r.
      - exists []. by rewrite app_nil_r.
      - rewrite zlen_nil_0. change (queue_topology wm1) with (queue_topology wm). lia.
      - change (current_in_flight_count wm1) with (current_in_flight_count wm). lia.
      - unfold exclusive. change (execution_engine wm1) with e'. by rewrite Hcap.
      - unfold sched_static. change (execution_engine wm1) with e'. by rewrite Hcap. }
    split; [|done]. apply (core_from_moves _ _ _ Hc Hs1); [apply Hc| |done].
    eapply acct_frame; [|apply Hc]. done. }
  intros wm'. pose proof (refresh_queues k.1 k.2 q (queue_topology wm)) as Ev.
  destruct (core_frame_topology wm1 (refresh_queue_head k.1 k.2 q (queue_topology wm)) Ev Hc1) as [Hc2 Hs2].
  split; [|exact (sched_moves_trans [] [] _ _ _ Hs1 Hs2)].
  split; [by apply topo_inv_refresh|]. split; [|exact Hc2].
  eapply parked_step; [exact Hkl| |exact Hp]. intros k' Hk'. by apply refresh_heads.
Qed.

(** Parking a key that has just been dispatched from *)
Lemma park_spec k loose wm :
  settled_at loose wm →
  let wm' := wm <| queue_topology ::= deactivate_queue_key k |> in
  settled_at ({[k]} ∪ loose) wm' ∧ sched_moves [] wm wm'.
Proof.
  intros (Hi & Hp & Hc) wm'. pose proof (deactivate_queues k (queue_topology wm)) as Ev.
  destruct (core_frame_topology wm _ Ev Hc) as [Hc2 Hs2]. split; [|exact Hs2].
  split; [by apply topo_inv_deactivate|]. split; [|exact Hc2].
  intros k'. change (queue_topology wm') with (deactivate_queue_key k (queue_topology wm)).
  rewrite deactivate_heads. case_decide; [done|]. intros Hk'. apply Hp. set_solver.
Qed.

Lemma py_take_prefix {A} (ws rest : list A) n : n ≤ zlen ws → py_take n (ws ++ rest) = py_take n ws.
Proof. intros Hn. unfold py_take. apply take_app_le. unfold zlen in Hn. lia. Qed.

Lemma py_take_all {A} (ws : list A) : py_take (zlen ws) ws = ws.
Proof. unfold py_take, zlen. rewrite Nat2Z.id. by apply take_ge. Qed.

Lemma batch_allowed_le wm n m : m ≤ n → batch_allowed wm n → batch_allowed wm m.
Proof. intros Hm [H1 H2]. split; [lia|]. destruct (ordering_mode wm); [intros H; specialize (H2 H); lia|lia|done]. Qed.

(** The invariant of the loop, and what an iteration from [wm] does *)
Definition loop_inv (st : LoopState (E:=E)) : Prop := NoDup st.1 ∧ settled_at (list_to_set st.1) st.2.

Definition iteration_ok wm (r : bool * LoopState (E:=E)) : Prop :=
  loop_inv r.2 ∧
  ∃ ms, sched_moves ms wm r.2.2 ∧ (r.1 = true → ms ≠ []).

Lemma submit_selected_spec k d wm q item ws rest truncated :
  NoDup d → picked k (list_to_set d) wm → q_items q = queue_of (queue_topology wm) k →
  queue_of (queue_topology wm) k = ws ++ rest → head ws = Some item →
  is_queue_eligible wm k = true → batch_allowed wm (zlen ws) →
  iteration_ok wm (submit_selected k q item ws truncated (d, wm)).
Proof.
  intros Hnd Hp Hqi Hsplit Hhd Hel Hb. unfold submit_selected.
  set (wml := wm <| leased_queue_keys ::= λ s, {[k]} ∪ s |>).
  assert (full_view wml = full_view wm) as Hvl by done.
  pose proof (picked_frame _ _ _ _ Hvl Hp) as Hpl.
  assert (ws ≠ []) as Hne by by destruct ws.
  assert (queue_of (queue_topology wml) k ≠ []) as Hqne
    by (change (queue_topology wml) with (queue_topology wm); rewrite Hsplit; by destruct ws).
  assert (item_key item = k) as Hik.
  { destruct Hp as (_ & _ & _ & Hc).
    assert (item ∈ queue_of (queue_topology wm) k) as Hin
      by (rewrite Hsplit; apply elem_of_app; left; by apply head_Some_elem_of).
    by destruct (ai_queued _ _ _ (wc_acct _ Hc) _ _ Hin) as (-> & _). }
  replace (wi_tp item) with k.1 by by rewrite <-Hik. replace (wi_key item) with k.2 by by rewrite <-Hik.
  pose proof (submit_items_spec ws wml Hne) as Hsi.
  assert (engine_ok (execution_engine wml)) as Hok0 by apply Hpl. specialize (Hsi Hok0).
  destruct (submit_items ws wml) as [o wm1]. destruct Hsi as (e' & -> & Hok & Ho & Hlog & Hcap).
  assert (∀ ms wm3, settled_at (list_to_set d) wm3 → sched_moves ms wml wm3 → 
    let wm4 := wm3 <| leased_queue_keys ::= λ s, s ∖ {[k]} |> in
    settled_at (list_to_set d) wm4 ∧ sched_moves ms wm wm4) as Hun.
  { intros ms wm3 Hs3 Hm3 wm4. split; [by apply (settled_frame _ wm3)|].
    by apply (sched_moves_frame ms wml wm3). }
  assert (engine_log e' = engine_log (execution_engine wml) →
    iteration_ok wm (false, (d, ((wml <| execution_engine := e' |>)
       <| queue_topology ::= refresh_queue_head k.1 k.2 q |>) <| leased_queue_keys ::= λ s, s ∖ {[k]} |>)))
    as Href.
  { intros Hl. destruct (refuse_spec k (list_to_set d) wml e' q Hpl Hok Hl Hcap Hqi) as [H1 H2].
    destruct (Hun [] _ H1 H2) as [H3 H4]. split; [split; [done|exact H3]|]. by exists []. }
  assert (∀ n, 0 < n → n ≤ zlen ws → accepted_items o ws = py_take n ws →
    let '(dq, wm2) := dequeue_into k n (wml <| execution_engine := e' |>) in
    dq ≠ [] ∧ settled_at (list_to_set d) (record_submitted_items dq wm2) ∧
    sched_moves (pair true <$> dq) wml (record_submitted_items dq wm2)) as Hacc.
  { intros n Hn Hle Hai.
    assert (py_take n (queue_of (queue_topology wml) k) = py_take n ws) as Htk
      by (change (queue_topology wml) with (queue_topology wm); rewrite Hsplit; by apply py_take_prefix).
    pose proof (dispatch_spec k (list_to_set d) wml e' n Hpl Hel Hn Hqne) as Hd.
    rewrite Htk in Hd. rewrite Hai in Hlog.
    destruct (dequeue_into k n _) as [dq wm2]. apply Hd; [|done..].
    apply (batch_allowed_le wml (zlen ws)); [|done]. unfold py_take, zlen. rewrite length_take. lia. }
  assert (0 < zlen ws) as Hpos.
  { pose proof (zlen_nonneg ws). assert (zlen ws ≠ 0) by (by rewrite zlen_nil_iff). lia. }
  destruct o as [|n|].
  - specialize (Hacc (zlen ws) Hpos ltac:(lia)). rewrite py_take_all in Hacc. specialize (Hacc eq_refl).
    destruct (dequeue_into k (zlen ws) _) as [dq wm2]. destruct Hacc as (Hdq & Hs3 & Hm3).
    destruct dq as [|w dq]; [done|]. set (wm3 := record_submitted_items (w :: dq) wm2) in *. clearbody wm3.
    destruct truncated; [|destruct (Hun _ _ Hs3 Hm3); by split; [split; [done|]|]; [done|]; exists (pair true <$> w :: dq)].
    destruct (park_spec k (list_to_set d) wm3 Hs3) as [H1 H2].
    pose proof (sched_moves_trans _ _ _ _ _ Hm3 H2) as Hm4. rewrite app_nil_r in Hm4.
    split; [|exists (pair true <$> w :: dq); split; [|done];
      by eapply (sched_moves_frame _ wml); [| |exact Hm4]].
    assert (k ∉ d) as Hkd by (destruct Hp as (_ & _ & Hk & _); set_solver).
    split; simpl.
    { rewrite decide_False by done. apply NoDup_app. split; [done|]. split; [|apply NoDup_singleton]. set_solver. }
    assert (list_to_set (d ++ (if decide (k ∈ d) then [] else [k])) =@{gset QueueKey} {[k]} ∪ list_to_set d) as ->.
    { rewrite list_to_set_app_L. case_decide; set_solver. }
    by eapply settled_frame; [|exact H1].
  - case_bool.
    + specialize (Hacc n). destruct (dequeue_into k n _) as [dq wm2].
      destruct Hacc as (Hdq & Hs3 & Hm3); [done|simpl in Ho; lia|done|].
      destruct (Hun _ _ Hs3 Hm3) as [H1 H2]. split; [done|]. by exists (pair true <$> dq).
    + apply Href. rewrite Hlog. simpl in Ho |- *. replace n with 0 by lia. unfold py_take. by rewrite app_nil_r.
  - apply Href. rewrite Hlog. by rewrite app_nil_r.
Qed.

(** ** One iteration *)

Lemma route_batch_limit wm :
  1 ≤ route_batch_size wm → current_in_flight_count wm < max_in_flight_messages wm →
  1 ≤ resolve_route_batch_limit wm ∧ batch_allowed wm (resolve_route_batch_limit wm).
Proof.
  intros Hr Hc. unfold resolve_route_batch_limit, batch_allowed. case_bool; [lia|].
  destruct (ordering_mode wm); [|lia|lia]. destruct (supports_ordered_route_batch _); [|lia].
  split; [lia|]. split; [lia|done].
Qed.

Lemma eligible_view wm wm' k : full_view wm' = full_view wm → is_queue_eligible wm' k = is_queue_eligible wm k.
Proof.
  intros Hv. unfold full_view, acct_view in Hv. unfold is_queue_eligible.
  replace (ordering_mode wm') with (ordering_mode wm) by congruence.
  replace (keys_in_flight wm') with (keys_in_flight wm) by congruence.
  by replace (partitions_in_flight wm') with (partitions_in_flight wm) by congruence.
Qed.

Lemma batch_allowed_view wm wm' n : full_view wm' = full_view wm → batch_allowed wm n → batch_allowed wm' n.
Proof.
  intros Hv. unfold full_view, acct_view in Hv. unfold batch_allowed.
  replace (ordering_mode wm') with (ordering_mode wm) by congruence.
  replace (execution_engine wm') with (execution_engine wm) by congruence.
  replace (current_in_flight_count wm') with (current_in_flight_count wm) by congruence.
  by replace (max_in_flight_messages wm') with (max_in_flight_messages wm) by congruence.
Qed.

Lemma iteration_ok_frame wm wm' r : full_view wm' = full_view wm → iteration_ok wm r → iteration_ok wm' r.
Proof.
  intros Hv [H1 (ms & H2 & H3)]. split; [done|]. exists ms. split; [|done].
  by apply (sched_moves_frame ms wm r.2.2).
Qed.

Lemma schedule_key_spec k d wm :
  NoDup d → picked k (list_to_set d) wm → is_queue_eligible wm k = true →
  queue_of (queue_topology wm) k ≠ [] → current_in_flight_count wm < max_in_flight_messages wm →
  iteration_ok wm (schedule_key k (d, wm)).
Proof.
  intros Hnd Hp Hel Hqne Hcap. unfold schedule_key.
  destruct (get_queue k.1 k.2 (queue_topology wm)) as [q|] eqn:Eg; [|by unfold queue_of in Hqne; rewrite Eg in Hqne].
  assert (queue_of (queue_topology wm) k = q_items q) as Hqi by (unfold queue_of; by rewrite Eg).
  destruct (q_empty q) eqn:Ee; [apply q_empty_spec in Ee; congruence|].
  destruct (route_batch_limit wm) as [Hl1 Hlb]; [apply Hp|done|].
  unfold select_same_queue_batch, peek_queue_batch. case_bool; [lia|].
  set (n := resolve_route_batch_limit wm) in *. clearbody n.
  assert (q_items q = py_take n (q_items q) ++ py_drop n (q_items q)) as Hsplit
    by (unfold py_take, py_drop; by rewrite take_drop).
  assert (zlen (py_take n (q_items q)) ≤ n) as Hlen by (unfold py_take, zlen; rewrite length_take; lia).
  destruct (py_take n (q_items q)) as [|item items] eqn:Et.
  { exfalso. rewrite Hqi in Hqne. destruct (q_items q); [done|]. unfold py_take in Et.
    destruct (Z.to_nat n) eqn:En; [lia|done]. }
  pose proof (force_fail_queued_item_spec k (list_to_set d) wm item Hp) as Hff.
  assert (head (queue_of (queue_topology wm) k) = Some item) as Hhd by (rewrite Hqi, Hsplit; done).
  specialize (Hff Hhd). destruct (force_fail_queued_item item k wm) as [r wm1]. destruct r.
  { destruct Hff as [H1 H2]. split; [done|]. exists [(false, item)]. done. }
  destruct Hff as [Hs1 Hnf]. pose proof (truncate_spec (item :: items) wm1) as Htr.
  destruct (truncate_batch_before_force_fail (item :: items) wm1) as [ws wm2].
  destruct Htr as (Hs2 & (rest & Hws) & Hhd2). specialize (Hhd2 item eq_refl Hnf).
  destruct ws as [|w ws]; [done|]. simpl in Hhd2. injection Hhd2 as ->.
  rewrite <-app_comm_cons in Hws. injection Hws as Hws.
  pose proof (same_but_poison_view _ _ (same_but_poison_trans _ _ _ Hs1 Hs2)) as Hv.
  apply (iteration_ok_frame wm2); [done|].
  assert (queue_topology wm2 = queue_topology wm) as Eq by (unfold full_view, acct_view in Hv; congruence).
  apply (submit_selected_spec k d wm2 q item (item :: ws) (rest ++ py_drop n (q_items q))); try done.
  - by eapply picked_frame.
  - by rewrite Eq.
  - rewrite Eq, Hqi. etransitivity; [exact Hsplit|]. simpl. by rewrite Hws, <-app_assoc.
  - by rewrite (eligible_view wm).
  - apply (batch_allowed_view wm); [done|]. apply (batch_allowed_le wm n); [|done].
    rewrite zlen_cons in Hlen |- *. rewrite Hws, zlen_app in Hlen. pose proof (zlen_nonneg rest). lia.
Qed.

Lemma schedule_iteration_spec bo d wm :
  loop_inv (d, wm) → iteration_ok wm (schedule_iteration bo (d, wm)).
Proof.
  intros [Hnd (Hi & Hp & Hc)]. simpl in Hi, Hp, Hc, Hnd. unfold schedule_iteration.
  assert (iteration_ok wm (false, (d, wm))) as Hstay.
  { split; [split; [done|]; done|]. exists []. split; [by apply sched_moves_nil|done]. }
  case_bool; [done|]. destruct (rebalancing wm); [done|].
  pose proof (pop_next_spec (list_to_set d) bo (is_queue_eligible wm) (queue_topology wm) Hi Hp) as Hpop.
  destruct (pop_next_queue_key bo _ _) as [[k|] topo]; destruct Hpop as (Ev & Eh & Hpop).
  - destruct Hpop as (Hi' & Hqne & Hel & Hk).
    destruct (core_frame_topology wm topo Ev Hc) as [Hc' Hs'].
    assert (picked k (list_to_set d) (wm <| queue_topology := topo |>)) as Hpk.
    { split; [done|]. split; [|done]. intros k' Hk'. change (head_offsets topo !! k' = None).
      rewrite Eh. by apply Hp. }
    destruct (schedule_key_spec k d (wm <| queue_topology := topo |>)) as [H1 (ms & H2 & H3)]; try done.
    + change (queue_of topo k ≠ []). by rewrite (queue_of_frame (queue_topology wm)).
    + split; [done|]. exists ms. split; [|done]. exact (sched_moves_trans [] ms _ _ _ Hs' H2).
  - destruct Hpop as (-> & _).
    replace (wm <| queue_topology := queue_topology wm |>) with wm by by destruct wm. done.
Qed.

(** ** The loop *)

Lemma schedule_loop_spec bo fuel st :
  loop_inv st → (Z.to_nat (total_items (queue_topology st.2)) < fuel)%nat →
  ∃ st', schedule_loop bo fuel st = Some st' ∧ loop_inv st' ∧ ∃ ms, sched_moves ms st.2 st'.2.
Proof.
  revert st. induction fuel as [|fuel IH]; intros [d wm] Hl Hf; [lia|]. cbn [schedule_loop].
  destruct (schedule_iteration_spec bo d wm Hl) as [H1 (ms & H2 & H3)].
  destruct (schedule_iteration bo (d, wm)) as [b st]. cbn [fst snd] in *. destruct b.
  2: { exists st. split; [done|]. split; [done|]. by exists ms. }
  destruct (IH st H1) as (st' & H4 & H5 & ms' & H6).
  - pose proof (sm_total _ _ _ H2) as Ht. pose proof (total_items_nonneg (queue_topology wm)).
    pose proof (total_items_nonneg (queue_topology st.2)).
    assert (0 < zlen ms). { pose proof (zlen_nonneg ms). assert (zlen ms ≠ 0) by (rewrite zlen_nil_iff; auto). lia. }
    lia.
  - exists st'. split; [done|]. split; [done|]. exists (ms ++ ms'). by eapply sched_moves_trans.
Qed.

Lemma restore_spec k loose wm :
  k ∉ loose → settled_at ({[k]} ∪ loose) wm →
  settled_at loose (restore_deferred wm k) ∧ sched_moves [] wm (restore_deferred wm k).
Proof.
  intros Hkl (Hi & Hp & Hc). unfold restore_deferred.
  assert (queue_of (queue_topology wm) k = [] → settled_at loose wm ∧ sched_moves [] wm wm) as Hidle.
  { intros Hq. split; [|by apply sched_moves_nil]. split; [|split; [|done]].
    - apply (topo_inv_drop _ k); [apply Hp; set_solver|done|done].
    - intros k' Hk'. apply Hp. set_solver. }
  destruct (get_queue k.1 k.2 (queue_topology wm)) as [q|] eqn:Eg.
  2: { apply Hidle. unfold queue_of. by rewrite Eg. }
  assert (queue_of (queue_topology wm) k = q_items q) as Hqi by (unfold queue_of; by rewrite Eg).
  destruct (q_empty q) eqn:Ee; [apply Hidle; rewrite Hqi; by apply q_empty_spec|].
  pose proof (refresh_queues k.1 k.2 q (queue_topology wm)) as Ev.
  destruct (core_frame_topology wm _ Ev Hc) as [Hc' Hs']. split; [|exact Hs'].
  split; [by apply topo_inv_refresh|]. split; [|exact Hc'].
  apply (parked_step loose (queue_topology wm) _ k); [done|intros; by apply refresh_heads|].
  intros k' Hk'. apply Hp. set_solver.
Qed.

Lemma restore_all_spec l wm :
  NoDup l → settled_at (list_to_set l) wm →
  settled_at ∅ (fold_left restore_deferred l wm) ∧ sched_moves [] wm (fold_left restore_deferred l wm).
Proof.
  revert wm. induction l as [|k l IH]; intros wm Hnd Hs; cbn [fold_left].
  { split; [done|]. by apply sched_moves_nil. }
  apply NoDup_cons in Hnd as [Hk Hnd]. destruct (restore_spec k (list_to_set l) wm) as [H1 H2]; [set_solver|done|].
  destruct (IH _ Hnd H1) as [H3 H4]. split; [done|]. exact (sched_moves_trans [] [] _ _ _ H2 H4).
Qed.

(** ** [schedule] *)

(** What the computation of the blocking offsets may change *)
Definition same_but_trackers wm wm' : Prop :=
  ∃ store cache counter, wm' = wm <| tracker_store := store |> <| blocking_cache := cache |>
                                  <| blocking_cache_counter := counter |> ∧
    dom store = dom (tracker_store wm).

Lemma blocking_offsets_same l (acc : odict TopicPartition (option OffsetRange) * WorkManager E) :
  let r := fold_left blocking_offset_of l acc in
  ∃ store, r.2 = acc.2 <| tracker_store := store |> ∧ dom store = dom (tracker_store acc.2).
Proof.
  revert acc. induction l as [|p l IH]; intros [bl wm]; cbn [fold_left].
  { exists (tracker_store wm). by destruct wm. }
  destruct (IH (blocking_offset_of (bl, wm) p)) as (store & -> & Hd).
  assert (∃ s, (blocking_offset_of (bl, wm) p).2 = wm <| tracker_store := s |> ∧ dom s = dom (tracker_store wm))
    as (s & Es & Hs).
  { unfold blocking_offset_of. case_decide; simpl.
    - exists (tracker_store wm). destruct (tracker_store wm !! p.2); by destruct wm.
    - exists (alter advance_high_water_mark p.2 (tracker_store wm)). rewrite dom_alter_L.
      by destruct (alter _ _ _ !! p.2). }
  rewrite Es in Hd |- *. exists store. split; [done|]. rewrite Hd. done.
Qed.

Lemma settled_trackers loose wm wm' :
  same_but_trackers wm wm' → settled_at loose wm → settled_at loose wm'.
Proof.
  intros (store & cache & counter & -> & Hd) (H1 & H2 & [H3 H4 H5 H6 H7 H8]).
  split; [done|]. split; [done|]. split; try done.
  - by apply (acct_frame _ _ wm).
  - intros tp Htp. destruct (H7 tp Htp) as (l & Hl & Hs). exists l. split; [done|].
    apply elem_of_dom. simpl. rewrite Hd. by apply elem_of_dom.
Qed.

(** One scheduling pass from [wm] *)
Record schedule_result wm wm' : Prop := {
  sr_inv : wm_inv wm';
  sr_moves : ∃ wm0 ms, same_but_trackers wm wm0 ∧ sched_moves ms wm0 wm';
}.

Lemma schedule_spec wm : wm_inv wm → ∃ wm', schedule wm = Some wm' ∧ schedule_result wm wm'.
Proof.
  intros Hinv. unfold schedule.
  assert (∃ bo wm1, (if blocking_cache_counter wm <=? 0
    then let '(blocking, wm') := get_blocking_offsets wm in
      (blocking, wm' <| blocking_cache := blocking |> <| blocking_cache_counter := blocking_cache_ttl wm' |>)
    else (blocking_cache wm, wm <| blocking_cache_counter ::= λ n, n - 1 |>)) = (bo, wm1) ∧
    same_but_trackers wm wm1) as (bo & wm1 & -> & Hsame).
  { case_bool.
    - pose proof (blocking_offsets_same (offset_trackers wm) ([], wm)) as (store & Hb & Hd).
      unfold get_blocking_offsets. destruct (fold_left _ _ _) as [bl wm'] eqn:Ef. simpl in Hb, Hd. subst wm'.
      eexists _, _. split; [done|]. by exists store, bl, (blocking_cache_ttl wm).
    - eexists _, _. split; [done|]. exists (tracker_store wm), (blocking_cache wm), (blocking_cache_counter wm - 1).
      by destruct wm. }
  pose proof (settled_trackers ∅ wm wm1 Hsame Hinv) as Hs1.
  destruct (schedule_loop_spec bo (schedule_fuel wm1) ([], wm1)) as (st & -> & [Hnd Hst] & ms & Hms).
  - split; [constructor|done].
  - unfold schedule_fuel. cbn [snd]. pose proof (total_items_nonneg (queue_topology wm1)). lia.
  - eexists. split; [done|].
    destruct (restore_all_spec (set_order st.1) st.2) as [H1 H2].
    + by rewrite set_order_perm.
    + assert (list_to_set (set_order st.1) =@{gset QueueKey} list_to_set st.1) as ->; [|done].
      apply set_eq. intros x. rewrite !elem_of_list_to_set. by rewrite (set_order_perm st.1).
    + split; [exact H1|]. exists wm1, ms. split; [done|].
      pose proof (sched_moves_trans _ _ _ _ _ Hms H2) as Hm. by rewrite app_nil_r in Hm.
Qed.
End schedule.
