(* ===== verification/WorkManagerSteps.v ===== *)
(** * Steps of the work manager

    Arrival, completion, assignment, revocation and forced failure keep the invariant. *)

From S2P Require Import Prelude Vendor Runtime Dto OffsetTracker PoisonMessage WorkQueueTopology ExecutionEngine WorkManager WorkManagerInv WorkManagerOps WorkManagerSchedule.

Section steps.
Context {E : Type} `{EE : ExecutionEngine E} `{EL : !ExecutionEngineLaws E} `{TL : TrackerLibs} `{RT : Runtime}.
Implicit Types (wm : WorkManager E) (w : WorkItem).

(** Fields of the static configuration *)
Definition config_view wm :=
  (ordering_mode wm, route_batch_size wm, max_in_flight_messages wm,
   supports_ordered_route_batch (execution_engine wm)).

(** ** Arrival *)

(** What the creation of work items may change *)
Record arrived_from wm wm' : Prop := {
  af_shape : ∃ u its ix, wm' = wm <| wm_uuids := u |> <| in_flight_work_items := its |>
                                  <| work_item_ids_by_tp_offset := ix |>;
  af_uuids : (wm_uuids wm ≤ wm_uuids wm')%nat;
  af_items id w : od_get id (in_flight_work_items wm') = Some w →
    od_get id (in_flight_work_items wm) = Some w ∨ ∃ n, (wm_uuids wm ≤ n)%nat ∧ id = uuid4 n;
}.

Lemma make_work_items_spec tp key ms maxes limbo wm :
  acct_inv limbo 0 wm → assigned (queue_topology wm) tp = true →
  let '(items, _, wm') := make_work_items tp key ms maxes wm in
  acct_inv (limbo ++ items) 0 wm' ∧ arrived_from wm wm' ∧ dispatched wm' = dispatched wm ∧
  (∀ w, w ∈ items → item_key w = (tp, key) ∧ ∃ n, (wm_uuids wm ≤ n)%nat ∧ wi_id w = uuid4 n).
Proof.
  revert maxes limbo wm. induction ms as [|m ms IH]; intros maxes limbo wm Ha Htp; cbn [make_work_items].
  { rewrite app_nil_r. split; [done|]. split; [|split; [done|set_solver]].
    split; [|done|auto]. exists (wm_uuids wm), (in_flight_work_items wm), (work_item_ids_by_tp_offset wm).
    by destruct wm. }
  set (item := mkWorkItem _ _ _ _ _ _ _ _). 
  match goal with |- context [make_work_items tp key ms ?mx ?w1] => set (maxes1 := mx); set (wm1 := w1) end.
  assert (acct_inv (limbo ++ [item]) 0 wm1) as Ha1 by by apply (acct_arrive limbo 0 wm wm1 item).
  assert (dispatched wm1 = dispatched wm) as Hd1.
  { unfold dispatched. apply lookup_items_ext. intros id Hid. apply od_get_set_ne. intros <-.
    apply elem_of_od_keys in Hid. apply (ai_dispatched _ _ _ Ha) in Hid.
    apply (ai_fresh _ _ _ Ha) in Hid as (n & Hn & He). apply (inj uuid4) in He. lia. }
  specialize (IH maxes1 (limbo ++ [item]) wm1 Ha1 Htp).
  destruct (make_work_items tp key ms maxes1 wm1) as [[items maxes2] wm2].
  destruct IH as (H1 & [(u & its & ix & E2) H3 H4] & H5 & H6). rewrite <-app_assoc in H1.
  split; [done|]. split; [|split; [congruence|]].
  - split.
    + exists u, its, ix. by rewrite E2.
    + change (wm_uuids wm1) with (S (wm_uuids wm)) in H3. lia.
    + intros id w [Hw|(n & Hn & ->)]%H4.
      * change (in_flight_work_items wm1) with (od_set (wi_id item) item (in_flight_work_items wm)) in Hw.
        rewrite od_get_set in Hw. case_decide; [|auto]. right. exists (wm_uuids wm). by subst.
      * right. exists n. split; [|done]. change (wm_uuids wm1) with (S (wm_uuids wm)) in Hn. lia.
  - intros w [->|Hw]%elem_of_cons; [split; [done|]; by exists (wm_uuids wm)|].
    destruct (H6 w Hw) as (? & n & Hn & ?). split; [done|]. exists n. split; [|done].
    change (wm_uuids wm1) with (S (wm_uuids wm)) in Hn. lia.
Qed.

Lemma enqueue_batch_total k ws t : assigned t k.1 = true → is_Some (enqueue_batch k.1 k.2 ws t).
Proof.
  unfold enqueue_batch, ensure_queue, assigned. destruct (get_queue k.1 k.2 t); [by eexists|].
  intros ->. by eexists.
Qed.

(** One group of messages *)
Lemma submit_group_spec tp key ms maxes wm :
  wm_inv wm → assigned (queue_topology wm) tp = true →
  let '(items, _, wm1) := make_work_items tp key ms maxes wm in
  ∃ topo, enqueue_batch tp key items (queue_topology wm1) = Some topo ∧
    let wm2 := wm1 <| queue_topology := topo |> <| total_queued_messages ::= λ n, n + zlen items |> in
    wm_inv wm2 ∧ dispatched wm2 = dispatched wm ∧ config_view wm2 = config_view wm.
Proof.
  intros (Hi & Hp & [C1 C2 C3 C4 C5 C6]) Htp.
  pose proof (make_work_items_spec tp key ms maxes [] wm C2 Htp) as Hm.
  destruct (make_work_items tp key ms maxes wm) as [[items maxes1] wm1].
  destruct Hm as (Ha1 & [(u & its & ix & E1) Hu Hits] & Hd1 & Hw).
  assert (queue_topology wm1 = queue_topology wm) as Eq by by rewrite E1.
  destruct (enqueue_batch_total (tp, key) items (queue_topology wm)) as [topo Et]; [done|].
  exists topo. rewrite Eq. split; [done|]. intros wm2.
  destruct (enqueue_batch_spec ∅ (tp, key) items (queue_topology wm) topo) as [Hi' Hq];
    [set_solver|done|done|].
  destruct (enqueue_batch_count (tp, key) items (queue_topology wm) topo C1 Et) as [Hdn Htot].
  assert (∀ tp', assigned topo tp' = assigned (queue_topology wm) tp') as Hasg.
  { intros tp'. by eapply (enqueue_batch_assigned (tp, key)). }
  assert (acct_inv [] 0 wm2) as Ha2.
  { apply (acct_enqueue wm1 topo (tp, key) items); rewrite ?Eq; try done. intros w Hw'. by apply Hw. }
  split; [|split; [|by unfold wm2; rewrite E1]].
  - split; [done|]. split; [by apply parked_empty|]. split; try done.
    + unfold wm2. by rewrite E1.
    + intros w Hlog. assert (w ∈ engine_log (execution_engine wm)) as Hlog0 by (revert Hlog; unfold wm2; by rewrite E1).
      destruct (C4 w Hlog0) as [(n & Hn & Hid) Hold]. change (wm_uuids wm2) with (wm_uuids wm1).
      split; [exists n; split; [lia|done]|]. intros w'. change (in_flight_work_items wm2) with (in_flight_work_items wm1).
      change (queue_topology wm2) with topo.
      assert (∀ m, (wm_uuids wm ≤ m)%nat → wi_id w ≠ uuid4 m) as Hfr.
      { intros m Hm He. rewrite Hid in He. apply (inj uuid4) in He. lia. }
      intros [Hw'|(m & Hm & Hm')]%Hits; [|by destruct (Hfr m)].
      destruct (Hold w' Hw') as [-> Hnq]. split; [done|]. rewrite Hq. case_decide; [|done].
      intros [Hx|Hx]%elem_of_app; [congruence|]. destruct (Hw w Hx) as (_ & m & Hm & Hm'). by destruct (Hfr m).
    + intros tp'. change (queue_topology wm2) with topo. rewrite Hasg. unfold wm2. rewrite E1. apply C5.
    + unfold wm2. by rewrite E1.
  - change (dispatched wm2) with (dispatched wm1). done.
Qed.

Lemma submit_groups_spec groups maxes wm :
  wm_inv wm →
  let '(_, _, wm') := submit_groups groups maxes wm in
  wm_inv wm' ∧ dispatched wm' = dispatched wm ∧ config_view wm' = config_view wm.
Proof.
  revert maxes wm. induction groups as [|[[tp key] ms] groups IH]; intros maxes wm Hinv; cbn [submit_groups]; [done|].
  destruct (od_has tp _) eqn:Ea; cbn [negb]; [|done].
  pose proof (submit_group_spec tp key ms maxes wm Hinv Ea) as Hg.
  destruct (make_work_items tp key ms maxes wm) as [[items maxes1] wm1].
  destruct Hg as (topo & -> & Hinv2 & Hd2 & Hc2).
  set (wm2 := wm1 <| queue_topology := topo |> <| total_queued_messages ::= _ |>) in *. clearbody wm2.
  specialize (IH maxes1 wm2 Hinv2). destruct (submit_groups groups maxes1 wm2) as [[r maxes2] wm3].
  destruct IH as (? & ? & ?). split; [done|]. split; congruence.
Qed.

Lemma fetch_trackers_same l wm :
  ∃ store, fold_left fetch_tracker l wm = wm <| tracker_store := store |> ∧ dom store = dom (tracker_store wm).
Proof.
  revert wm. induction l as [|p l IH]; intros wm; cbn [fold_left].
  { exists (tracker_store wm). by destruct wm. }
  destruct (IH (fetch_tracker wm p)) as (store & -> & Hd). unfold fetch_tracker in *.
  destruct (od_get p.1 (offset_trackers wm)) as [l0|]; [|by exists store].
  exists store. split; [done|]. rewrite Hd. simpl. by rewrite dom_alter_L.
Qed.

Lemma wm_inv_trackers wm wm' : same_but_trackers wm wm' → wm_inv wm → wm_inv wm'.
Proof. apply settled_trackers. Qed.

Lemma submit_message_batch_spec groups wm :
  wm_inv wm →
  wm_inv (submit_message_batch groups wm).2 ∧ dispatched (submit_message_batch groups wm).2 = dispatched wm ∧
  config_view (submit_message_batch groups wm).2 = config_view wm.
Proof.
  intros Hinv. unfold submit_message_batch. pose proof (submit_groups_spec groups [] wm Hinv) as Hg.
  destruct (submit_groups groups [] wm) as [[r maxes] wm1]. destruct Hg as (H1 & H2 & H3).
  destruct r; cbn [negb]; [|done]. case_decide; [done|]. cbn [snd].
  destruct (fetch_trackers_same maxes wm1) as (store & -> & Hd).
  split; [|done]. apply (wm_inv_trackers wm1); [|done]. exists store, (blocking_cache wm1), 0. split; [|done].
  unfold invalidate_blocking_cache. by destruct wm1.
Qed.

(** ** Release and completion *)

(** A step that hands nothing to the engine and takes nothing from the queues *)
Record quiet wm wm' : Prop := {
  qu_inv : wm_inv wm';
  qu_queues k : queue_of (queue_topology wm') k = queue_of (queue_topology wm) k;
  qu_total : total_items (queue_topology wm') = total_items (queue_topology wm);
  qu_engine : execution_engine wm' = execution_engine wm;
  qu_events : completion_queue wm' = completion_queue wm;
  qu_uuids : wm_uuids wm' = wm_uuids wm;
  qu_config : config_view wm' = config_view wm;
  qu_count : current_in_flight_count wm' ≤ current_in_flight_count wm;
  qu_dispatched : dispatched wm' = dispatched wm ∨ ∃ w, dispatched wm ≡ₚ w :: dispatched wm';
}.

Lemma quiet_refl wm : wm_inv wm → quiet wm wm.
Proof. intros Hi. split; try done. left. done. Qed.

Lemma release_good wm id w b :
  wm_inv wm → od_get id (in_flight_work_items wm) = Some w →
  w ∉ queue_of (queue_topology wm) (item_key w) →
  let wm' := (release_in_flight_item id b wm).2 in
  quiet wm wm' ∧ in_flight_work_items wm' = od_pop id (in_flight_work_items wm).
Proof.
  intros (Hi & Hp & [C1 C2 C3 C4 C5 C6]) Hid Hnq. cbv zeta.
  destruct (release_step wm id w b (acct_ledger _ _ _ C2) Hid) as (L & E1 & E2 & E3 & E4 & E5).
  pose proof (acct_release wm id w b C2 Hid Hnq C1) as Ha.
  set (wm' := (release_in_flight_item id b wm).2) in *. clearbody wm'. unfold release_view in E5.
  destruct (cleanup_count (wi_tp w) (wi_key w) (queue_topology wm) C1) as [Hdn Hct].
  assert (∀ k, queue_of (queue_topology wm') k = queue_of (queue_topology wm) k) as Hq
    by (intros k; rewrite E3; apply queue_of_cleanup).
  split; [|done]. split; try (congruence || done).
  - split; [rewrite E3; by apply (topo_inv_cleanup ∅ (wi_tp w, wi_key w))|].
    split; [by apply parked_empty|]. split.
    + by rewrite E3.
    + done.
    + by replace (execution_engine wm') with (execution_engine wm) by congruence.
    + intros w0. replace (execution_engine wm') with (execution_engine wm) by congruence.
      replace (wm_uuids wm') with (wm_uuids wm) by congruence. intros Hl. destruct (C4 w0 Hl) as [H1 H2].
      split; [done|]. intros w'. rewrite E1, od_get_pop, Hq. case_decide; [done|]. apply H2.
    + intros tp. rewrite E3, assigned_cleanup. replace (offset_trackers wm') with (offset_trackers wm) by congruence.
      replace (tracker_store wm') with (tracker_store wm) by congruence. apply C5.
    + by replace (route_batch_size wm') with (route_batch_size wm) by congruence.
  - unfold config_view. replace (execution_engine wm') with (execution_engine wm) by congruence. congruence.
  - rewrite (lo_count _ L), E2, (ai_count _ _ _ C2).
    destruct (od_get id (dispatch_timestamps wm)) eqn:Ed; [|by rewrite od_pop_absent].
    erewrite zlen_od_pop; [|apply C2|done]. lia.
  - unfold dispatched. rewrite E1, E2. destruct (od_get id (dispatch_timestamps wm)) eqn:Ed.
    + right. exists w. apply lookup_items_remove; [apply C2|done|]. apply elem_of_od_keys. eauto.
    + left. rewrite (od_pop_absent (dispatch_timestamps wm)) by done. by rewrite lookup_items_pop.
Qed.

(** Clocks, statistics, the circuit breaker, the exporter and the trackers are not part of the accounting. *)
Definition quiet_view wm :=
  (full_view wm, dispatch_timestamps wm).

Lemma quiet_frame wm1 wm2 wm3 :
  full_view wm3 = full_view wm2 → quiet wm1 wm2 → quiet wm1 wm3.
Proof.
  intros Hv Hq. destruct Hq as [Q1 Q2 Q3 Q4 Q5 Q6 Q7 Q8 Q9]. pose proof Hv as Hv'.
  unfold full_view, acct_view in Hv'.
  assert (queue_topology wm3 = queue_topology wm2 ∧ execution_engine wm3 = execution_engine wm2 ∧
    dispatched wm3 = dispatched wm2) as (E1 & E2 & E3).
  { split; [congruence|]. split; [congruence|]. unfold dispatched.
    replace (in_flight_work_items wm3) with (in_flight_work_items wm2) by congruence.
    by replace (dispatch_timestamps wm3) with (dispatch_timestamps wm2) by congruence. }
  split; rewrite ?E1, ?E2, ?E3; try (done || congruence).
  - by apply (settled_frame ∅ wm2).
  - unfold config_view in *. rewrite E2. congruence.
Qed.

Lemma quiet_start wm1 wm2 wm3 :
  same_but_trackers wm1 wm2 → quiet wm2 wm3 → quiet wm1 wm3.
Proof. intros (s & c & n & -> & _) [Q1 Q2 Q3 Q4 Q5 Q6 Q7 Q8 Q9]. by split. Qed.

Lemma quiet_start_view wm1 wm2 wm3 :
  full_view wm2 = full_view wm1 → quiet wm2 wm3 → quiet wm1 wm3.
Proof.
  intros Hv [Q1 Q2 Q3 Q4 Q5 Q6 Q7 Q8 Q9]. unfold full_view, acct_view in Hv.
  assert (queue_topology wm2 = queue_topology wm1 ∧ execution_engine wm2 = execution_engine wm1 ∧
    dispatched wm2 = dispatched wm1 ∧ current_in_flight_count wm2 = current_in_flight_count wm1)
    as (E1 & E2 & E3 & E4).
  { split; [congruence|]. split; [congruence|]. split; [|congruence]. unfold dispatched.
    replace (in_flight_work_items wm2) with (in_flight_work_items wm1) by congruence.
    by replace (dispatch_timestamps wm2) with (dispatch_timestamps wm1) by congruence. }
  rewrite E1 in Q2, Q3. rewrite E2 in Q4. rewrite E3 in Q9. rewrite E4 in Q8.
  split; try (done || congruence). unfold config_view in *. rewrite E2 in Q7. congruence.
Qed.

(** Forgetting the dispatch time of a dead item *)
Lemma drop_dispatch_dead wm id :
  wm_inv wm → od_get id (in_flight_work_items wm) = None → drop_dispatch id wm = wm.
Proof.
  intros (_ & _ & Hc) Hn. unfold drop_dispatch.
  assert (od_get id (dispatch_timestamps wm) = None) as Hd.
  { destruct (od_get id (dispatch_timestamps wm)) eqn:Ed; [|done].
    destruct (ai_dispatched _ _ _ (wc_acct _ Hc) id) as [? ?]; [eauto|congruence]. }
  assert (∀ d, d = dispatch_timestamps wm → wm <| dispatch_timestamps := d |> = wm) as Hs
    by (intros d ->; by destruct wm).
  apply Hs, od_pop_absent, Hd.
Qed.

(** ** Processing one completion *)

Lemma process_event_spec event wm :
  wm_inv wm → event ∈ completion_queue wm →
  let wm' := (process_completion_event event wm).2 in
  quiet wm wm' ∧ od_get (ce_id event) (in_flight_work_items wm') = None.
Proof.
  intros Hinv He wm'. pose proof Hinv as (_ & _ & Hc). pose proof (wc_acct _ Hc) as Ha.
  unfold wm', process_completion_event. clear wm'.
  assert (od_get (ce_id event) (in_flight_work_items wm) = None →
    let wm' := drop_dispatch (ce_id event) wm in
    quiet wm wm' ∧ od_get (ce_id event) (in_flight_work_items wm') = None) as Hdead.
  { intros Hn wm'. unfold wm'. rewrite drop_dispatch_dead by done. split; [by apply quiet_refl|done]. }
  assert (∀ w, od_get (ce_id event) (in_flight_work_items wm) = Some w →
    ce_tp event = wi_tp w ∧ w ∉ queue_of (queue_topology wm) (item_key w)) as Hev.
  { intros w Hw. by destruct (ai_events _ _ _ Ha event w He Hw) as (? & ? & _). }
  destruct (od_get (ce_tp event) (offset_trackers wm) ≫= _) as [[l tracker]|] eqn:Et.
  2: { apply Hdead. destruct (od_get (ce_id event) _) as [w|] eqn:Ei; [|done]. exfalso.
       destruct (Hev w eq_refl) as [Htp _]. destruct (wc_trackers _ Hc (wi_tp w)) as (l & Hl & [t Ht]).
       { by eapply (ai_assigned _ _ _ Ha). }
       rewrite Htp, Hl in Et. simpl in Et. by rewrite Ht in Et. }
  case_decide.
  - cbn [snd]. destruct (od_get (ce_id event) (in_flight_work_items wm)) as [w|] eqn:Ei; [|by apply Hdead].
    destruct (Hev w eq_refl) as [Htp Hnq]. rewrite decide_True by done.
    destruct (release_good wm (ce_id event) w true Hinv Ei Hnq) as [Hq Hit].
    assert (od_get (ce_id event) (in_flight_work_items (release_in_flight_item (ce_id event) true wm).2) = None)
      as Hn by (rewrite Hit; apply od_get_pop_eq).
    rewrite drop_dispatch_dead by (done || exact (qu_inv _ _ Hq)). done.
  - assert (∃ wm1, (if decide (ce_tp event ∈ shared_offset_trackers wm) then wm
      else invalidate_blocking_cache (wm <| tracker_store ::= alter (mark_complete (ce_offset event)) l |>)) = wm1 ∧
      same_but_trackers wm wm1) as (wm1 & -> & Hsame).
    { eexists. split; [done|]. case_decide.
      - exists (tracker_store wm), (blocking_cache wm), (blocking_cache_counter wm). by destruct wm.
      - exists (alter (mark_complete (ce_offset event)) l (tracker_store wm)), (blocking_cache wm), 0.
        split; [by destruct wm|apply dom_alter_L]. }
    pose proof (wm_inv_trackers _ _ Hsame Hinv) as Hinv1.
    assert (in_flight_work_items wm1 = in_flight_work_items wm) as Eit
      by (destruct Hsame as (? & ? & ? & -> & _); done).
    assert (queue_topology wm1 = queue_topology wm) as Eqt
      by (destruct Hsame as (? & ? & ? & -> & _); done).
    rewrite Eit. destruct (od_get (ce_id event) (in_flight_work_items wm)) as [w|] eqn:Ei.
    2: { cbn [snd]. rewrite drop_dispatch_dead by (done || by rewrite Eit). split; [|by rewrite Eit].
         eapply quiet_start; [done|]. by apply quiet_refl. }
    destruct (Hev w eq_refl) as [Htp Hnq].
    match goal with |- context [release_in_flight_item _ false ?w2] => set (wm2 := w2) end.
    assert (full_view wm2 = full_view wm1 ∧ in_flight_work_items wm2 = in_flight_work_items wm1 ∧
      queue_topology wm2 = queue_topology wm1) as (Hv2 & Ei2 & Eq2).
    { unfold wm2. destruct (poison_message_circuit wm1); [|done]. unfold tick. done. }
    assert (wm_inv wm2) as Hinv2 by by apply (settled_frame ∅ wm1).
    clearbody wm2.
    destruct (release_good wm2 (ce_id event) w false) as [Hq Hit]; [done|congruence|congruence|].
    destruct (release_in_flight_item (ce_id event) false wm2) as [[r t] wm3]. cbn [snd] in Hq, Hit.
    match goal with |- context [drop_dispatch _ ?w4] => set (wm4 := w4) end.
    assert (full_view wm4 = full_view wm3) as Hv4.
    { unfold wm4. destruct t as [t|]; [|done]. unfold tick, observe_completion, record_completion_latency,
        prune_completion_timestamps. simpl. destruct (metrics_exporter wm3); done. }
    assert (in_flight_work_items wm4 = in_flight_work_items wm3) as Ei4
      by (unfold full_view, acct_view in Hv4; congruence).
    clearbody wm4. pose proof (quiet_frame _ _ _ Hv4 Hq) as Hq4. cbn [snd].
    assert (od_get (ce_id event) (in_flight_work_items wm4) = None) as Hn
      by (rewrite Ei4, Hit; apply od_get_pop_eq).
    rewrite drop_dispatch_dead by (done || exact (qu_inv _ _ Hq4)). split; [|done].
    eapply quiet_start; [done|]. eapply quiet_start_view; [|done]. done.
Qed.

(** ** Draining the completion queue *)

(** Processing an event does not look at the completion queue. *)
Lemma release_events id b c wm :
  release_in_flight_item id b (wm <| completion_queue := c |>) =
    ((release_in_flight_item id b wm).1, (release_in_flight_item id b wm).2 <| completion_queue := c |>).
Proof.
  unfold release_in_flight_item. simpl. destruct (od_get id (in_flight_work_items wm)) as [w|]; [|done].
  unfold release_ordering_lock, invalidate_blocking_cache.
  destruct (od_get id (dispatch_timestamps wm)), b, (decide (od_get (wi_tp w, wi_offset w) _ = _)),
    (ordering_mode wm) eqn:Em; simpl; rewrite ?Em; try done; by destruct (0 <? _).
Qed.

Lemma process_events event c wm :
  process_completion_event event (wm <| completion_queue := c |>) =
    ((process_completion_event event wm).1, (process_completion_event event wm).2 <| completion_queue := c |>).
Proof.
  unfold process_completion_event.
  change (offset_trackers (wm <| completion_queue := c |>)) with (offset_trackers wm).
  change (tracker_store (wm <| completion_queue := c |>)) with (tracker_store wm).
  destruct (od_get (ce_tp event) (offset_trackers wm) ≫= _) as [[l tracker]|]; [|done].
  case_decide.
  { change (in_flight_work_items (wm <| completion_queue := c |>)) with (in_flight_work_items wm).
    destruct (od_get (ce_id event) (in_flight_work_items wm)); [|done]. case_decide; [|done].
    rewrite release_events. done. }
  change (shared_offset_trackers (wm <| completion_queue := c |>)) with (shared_offset_trackers wm).
  set (wm1 := if decide (ce_tp event ∈ shared_offset_trackers wm) then wm else _).
  match goal with |- context [if decide (ce_tp event ∈ shared_offset_trackers wm) then ?a else ?b] =>
    replace (if decide (ce_tp event ∈ shared_offset_trackers wm) then a else b)
      with (wm1 <| completion_queue := c |>) by (unfold wm1; by case_decide) end.
  clearbody wm1.
  change (in_flight_work_items (wm1 <| completion_queue := c |>)) with (in_flight_work_items wm1).
  destruct (od_get (ce_id event) (in_flight_work_items wm1)) as [w|]; [|done].
  change (poison_message_circuit (wm1 <| completion_queue := c |>)) with (poison_message_circuit wm1).
  set (wm2 := match poison_message_circuit wm1 with None => wm1 | Some b =>
    let '(now, wm') := tick monotonic wm1 in
    wm' <| poison_message_circuit := Some (record_completion now event w b) |> end).
  match goal with |- context [release_in_flight_item (ce_id event) false ?a] =>
    replace a with (wm2 <| completion_queue := c |>)
      by (unfold wm2; by destruct (poison_message_circuit wm1)) end.
  rewrite release_events. clearbody wm2.
  destruct (release_in_flight_item (ce_id event) false wm2) as [[r t] wm3]. cbn [fst snd].
  destruct t as [t|]; [|done]. unfold tick, observe_completion, record_completion_latency,
    prune_completion_timestamps, drop_dispatch. simpl. by destruct (metrics_exporter wm3).
Qed.

(** Draining leaves an empty queue and otherwise only releases work. *)
Record drained wm wm' : Prop := {
  dr_inv : wm_inv wm';
  dr_queues k : queue_of (queue_topology wm') k = queue_of (queue_topology wm) k;
  dr_total : total_items (queue_topology wm') = total_items (queue_topology wm);
  dr_engine : execution_engine wm' = execution_engine wm;
  dr_events : completion_queue wm' = [];
  dr_config : config_view wm' = config_view wm;
  dr_count : current_in_flight_count wm' ≤ current_in_flight_count wm;
  dr_exclusive : exclusive wm → exclusive wm';
}.

Lemma quiet_exclusive wm wm' : quiet wm wm' → exclusive wm → exclusive wm'.
Proof.
  intros Hq. pose proof (qu_config _ _ Hq) as Hc. unfold config_view in Hc. unfold exclusive.
  replace (ordering_mode wm') with (ordering_mode wm) by congruence.
  replace (supports_ordered_route_batch (execution_engine wm')) with
    (supports_ordered_route_batch (execution_engine wm)) by congruence.
  assert (∀ {A} (f : WorkItem → A), NoDup (f <$> dispatched wm) → NoDup (f <$> dispatched wm')) as Hnd.
  { intros A f Hn. destruct (qu_dispatched _ _ Hq) as [->|[w Hp]]; [done|].
    rewrite Hp, fmap_cons in Hn. by apply NoDup_cons in Hn as [_ ?]. }
  destruct (ordering_mode wm); [|..|done]; auto.
Qed.

Lemma drain_spec events s wm :
  wm_inv wm → completion_queue wm = events → drained wm (drain_completions events s wm).2.
Proof.
  revert s wm. induction events as [|event events IH]; intros s wm Hinv Hcq; cbn [drain_completions].
  { by split. }
  rewrite process_events. destruct (process_event_spec event wm Hinv) as [Hq Hn]; [rewrite Hcq; set_solver|].
  set (wm1 := (process_completion_event event wm).2) in *. clearbody wm1.
  assert (wm_inv (wm1 <| completion_queue := events |>)) as Hinv1.
  { destruct (qu_inv _ _ Hq) as (H1 & H2 & [C1 C2 C3 C4 C5 C6]). split; [done|]. split; [done|].
    split; try done. apply (acct_pop_event wm1 event events); [|done..]. by rewrite (qu_events _ _ Hq). }
  pose proof (quiet_exclusive _ _ Hq) as Hex.
  destruct (IH ((process_completion_event event wm).1 || s) _ Hinv1 eq_refl) as [D1 D2 D3 D4 D5 D6 D7 D8].
  destruct Hq as [Q1 Q2 Q3 Q4 Q5 Q6 Q7 Q8 Q9]. split; try done.
  - intros k. rewrite D2. apply Q2.
  - rewrite D3. apply Q3.
  - rewrite D4. apply Q4.
  - rewrite D6. apply Q7.
  - etransitivity; [exact D7|]. exact Q8.
  - intros He. apply D8. by apply Hex.
Qed.

(** ** [poll_completed_events] *)

(** The moves of all the passes of one poll, and what is left of the completion queue *)
Record polled wm wm' : Prop := {
  po_inv : wm_inv wm';
  po_events : completion_queue wm' = [];
  po_config : config_view wm' = config_view wm;
  po_count : current_in_flight_count wm' ≤ Z.max (current_in_flight_count wm) (max_in_flight_messages wm);
  po_exclusive : exclusive wm → exclusive wm';
}.

Lemma schedule_config wm wm' :
  schedule_result wm wm' →
  config_view wm' = config_view wm ∧ (exclusive wm → exclusive wm') ∧
  current_in_flight_count wm' ≤ Z.max (current_in_flight_count wm) (max_in_flight_messages wm) ∧
  ∃ ms : list (bool * WorkItem), total_items (queue_topology wm') = total_items (queue_topology wm) - zlen ms ∧
    (completion_queue wm = [] → completion_queue wm' ≠ [] → ms ≠ []).
Proof.
  intros [_ (wm0 & ms & (st & ca & co & -> & _) & Hs)]. destruct Hs as [A1 A2 A3 A4 A5 A6 A7 A8].
  unfold sched_static in A8. split; [unfold config_view; simpl in A8; congruence|].
  split; [exact A7|]. split; [exact A6|]. exists ms. split; [exact A4|]. intros Hc Hc' ->.
  destruct A2 as (evs & Hev & Hids). simpl in Hev. rewrite Hc in Hev. simpl in Hev.
  apply Hc'. rewrite Hev. by destruct evs.
Qed.

Lemma poll_loop_spec b fuel acc wm :
  wm_inv wm → (Z.to_nat (total_items (queue_topology wm)) < fuel)%nat →
  ∃ events wm', poll_loop b fuel acc wm = Some (acc ++ completion_queue wm ++ events, wm') ∧ polled wm wm'.
Proof.
  revert acc wm. induction fuel as [|fuel IH]; intros acc wm Hinv Hf; [lia|]. cbn [poll_loop].
  pose proof (drain_spec (completion_queue wm) false wm Hinv eq_refl) as [D1 D2 D3 D4 D5 D6 D7 D8].
  destruct (drain_completions (completion_queue wm) false wm) as [s wm1]. cbn [snd] in *.
  assert (max_in_flight_messages wm1 = max_in_flight_messages wm) as Hmax
    by (unfold config_view in D6; congruence).
  destruct (negb b || negb s).
  { exists [], wm1. rewrite app_nil_r. split; [done|]. split; try done. lia. }
  destruct (schedule_spec wm1 D1) as (wm2 & -> & Hr).
  destruct (schedule_config _ _ Hr) as (S1 & S2 & S3 & ms & S4 & S5). pose proof (sr_inv _ _ Hr) as S0.
  assert (max_in_flight_messages wm2 = max_in_flight_messages wm1) as Hmax2
    by (unfold config_view in S1; congruence).
  destruct (completion_queue wm2) as [|ev evs] eqn:Ec.
  { exists [], wm2. rewrite app_nil_r. split; [done|]. split; [done|done|congruence|lia|auto]. }
  destruct (IH (acc ++ completion_queue wm) wm2 S0) as (events & wm3 & -> & [P1 P2 P3 P4 P5]).
  - specialize (S5 D5 ltac:(done)). pose proof (total_items_nonneg (queue_topology wm2)).
    assert (0 < zlen ms). { pose proof (zlen_nonneg ms). assert (zlen ms ≠ 0) by (by rewrite zlen_nil_iff). lia. }
    lia.
  - exists (ev :: evs ++ events), wm3. rewrite Ec, <-!app_assoc. split; [done|].
    split; [done|done|congruence|lia|auto].
Qed.

(** Events of the engine are completions of accepted work. *)
Lemma push_events_spec es wm :
  wm_inv wm → (∀ ev, ev ∈ es → ∃ w, w ∈ engine_log (execution_engine wm) ∧ completes w ev) →
  wm_inv (wm <| completion_queue ::= λ q, q ++ es |>).
Proof.
  assert (∀ wm0 a b, a = b → wm0 <| completion_queue := a |> = wm0 <| completion_queue := b |>) as Hab
    by by intros ??? ->.
  revert wm. induction es as [|ev es IH]; intros wm Hinv Hes.
  { assert (wm <| completion_queue ::= λ q, q ++ [] |> = wm) as ->; [|done].
    transitivity (wm <| completion_queue := completion_queue wm |>); [|by destruct wm].
    apply (Hab wm). by rewrite app_nil_r. }
  assert (wm_inv (wm <| completion_queue ::= λ q, q ++ [ev] |>)) as Hinv1.
  { destruct Hinv as (H1 & H2 & [C1 C2 C3 C4 C5 C6]). split; [done|]. split; [done|]. split; try done.
    destruct (Hes ev) as (w & Hw & Hid & Htp & _); [set_solver|]. destruct (C4 w Hw) as [Hn Hold].
    apply acct_push_event; [by rewrite Hid| |done]. intros w'. rewrite Hid. intros Hi.
    destruct (Hold w' Hi) as [-> ?]. done. }
  specialize (IH _ Hinv1).
  assert (wm <| completion_queue ::= λ q, q ++ ev :: es |> =
    (wm <| completion_queue ::= λ q, q ++ [ev] |>) <| completion_queue ::= λ q, q ++ es |>) as ->.
  - transitivity (wm <| completion_queue := (completion_queue wm ++ [ev]) ++ es |>); [|done].
    apply (Hab wm). by rewrite <-app_assoc.
  - apply IH. intros ev' Hev'. apply Hes. set_solver.
Qed.

Lemma poll_loop_full b wm :
  wm_inv wm → ∃ events wm', poll_completed_events b wm = Some (completion_queue wm ++
    (engine_poll_completed_events 1000 (execution_engine wm)).1 ++ events, wm') ∧ polled wm wm'.
Proof.
  intros Hinv. unfold poll_completed_events.
  destruct (engine_poll_completed_events 1000 (execution_engine wm)) as [es e] eqn:Ep.
  assert (engine_ok (execution_engine wm)) as Hok by apply Hinv.
  destruct (poll_completes _ _ _ _ Hok Ep) as (H1 & H2 & H3 & H4).
  set (wm0 := wm <| execution_engine := e |>).
  assert (wm_inv wm0) as Hinv0.
  { destruct Hinv as (I1 & I2 & [C1 C2 C3 C4 C5 C6]). split; [done|]. split; [done|]. split; try done.
    - by apply (acct_frame _ _ wm).
    - intros w. change (execution_engine wm0) with e. rewrite H2. apply C4. }
  pose proof (push_events_spec es wm0 Hinv0) as Hinv1.
  assert (∀ ev, ev ∈ es → ∃ w, w ∈ engine_log (execution_engine wm0) ∧ completes w ev) as Hes.
  { intros ev Hev. change (execution_engine wm0) with e. rewrite H2. by apply H4. }
  specialize (Hinv1 Hes). set (wm1 := wm0 <| completion_queue ::= λ q, q ++ es |>) in *.
  destruct (poll_loop_spec b (S (Z.to_nat (total_items (queue_topology wm1)))) [] wm1 Hinv1 ltac:(lia))
    as (events & wm' & -> & [P1 P2 P3 P4 P5]).
  exists events, wm'. split; [cbn [fst app]; unfold wm1; simpl; by rewrite <-app_assoc|].
  assert (config_view wm1 = config_view wm) as Hcv.
  { unfold config_view. change (execution_engine wm1) with e. by rewrite H3. }
  split; [done|done|congruence|exact P4|].
  intros He. apply P5. unfold exclusive in *. change (execution_engine wm1) with e. rewrite H3. exact He.
Qed.

Lemma poll_spec b wm :
  wm_inv wm → ∃ events wm', poll_completed_events b wm = Some (events, wm') ∧ polled wm wm'.
Proof. intros (events & wm' & Hp & ?)%(poll_loop_full b). eauto. Qed.
End steps.
