(* ===== verification/WorkManagerSystem.v ===== *)
(** * The work manager as a system

    Assignment, revocation and forced failure, the step relation of the manager and the
    properties of its reachable states. *)

From S2P Require Import Prelude Vendor Runtime Dto OffsetTracker PoisonMessage WorkQueueTopology ExecutionEngine WorkManager WorkManagerInv WorkManagerOps WorkManagerSchedule WorkManagerSteps.

Section system.
Context {E : Type} `{EE : ExecutionEngine E} `{EL : !ExecutionEngineLaws E} `{TL : TrackerLibs} `{RT : Runtime}.
Implicit Types (wm : WorkManager E) (w : WorkItem).

(** ** Assignment *)

(** The trackers an assignment shares exist. *)
Definition tracker_exists (store : gmap loc OffsetTracker) (v : AssignedTracker) : Prop :=
  match v with StartingOffset _ => True | SharedTracker l => is_Some (store !! l) end.

Lemma assign_unassigned_queues tp t :
  assigned t tp = false →
  (∀ k, queue_of (assign tp t) k = queue_of t k) ∧ (∀ key, queue_of t (tp, key) = []) ∧
  partition_queues tp t = [] ∧ (∀ tp', assigned (assign tp t) tp' = bool_decide (tp = tp') || assigned t tp').
Proof.
  unfold assigned, od_has. destruct (od_get tp (virtual_partition_queues t)) eqn:Eg; [done|]. intros _.
  assert (partition_queues tp t = []) as Hpq by (unfold partition_queues; by rewrite Eg).
  assert (∀ key, queue_of t (tp, key) = []) as Hq.
  { intros key. unfold queue_of, get_queue. cbn [fst snd]. by rewrite Hpq. }
  split; [|split; [done|split; [done|]]].
  - intros [tp' key]. destruct (decide (tp = tp')) as [<-|Hne].
    + rewrite Hq. unfold queue_of, get_queue, partition_queues, assign; simpl. by rewrite od_get_set_eq.
    + unfold queue_of, get_queue, partition_queues, assign; simpl. by rewrite od_get_set_ne.
  - intros tp'. unfold assign; simpl. fold (od_has tp' (od_set tp [] (virtual_partition_queues t))).
    by rewrite od_has_set.
Qed.

Lemma assign_tracker_spec tp v wm :
  wm_inv wm → assigned (queue_topology wm) tp = false → tracker_exists (tracker_store wm) v →
  let wm' := assign_tracker tp v wm in
  wm_inv wm' ∧ dispatched wm' = dispatched wm ∧ config_view wm' = config_view wm ∧
  (∀ l, is_Some (tracker_store wm !! l) → is_Some (tracker_store wm' !! l)) ∧
  (∀ tp', assigned (queue_topology wm') tp' = bool_decide (tp = tp') || assigned (queue_topology wm) tp').
Proof.
  intros (Hi & Hp & [C1 C2 C3 C4 C5 C6]) Htp Hv wm'.
  destruct (assign_unassigned_queues tp (queue_topology wm) Htp) as (Hq & Hno & Hpq & Hasg).
  destruct (assign_count tp (queue_topology wm) C1) as [Hdn Htot].
  rewrite Hpq in Htot. change (dict_items []) with 0 in Htot.
  assert (queue_topology wm' = assign tp (queue_topology wm)) as Eq by by destruct v.
  assert (∃ l, offset_trackers wm' = od_set tp l (offset_trackers wm) ∧ is_Some (tracker_store wm' !! l) ∧
    ∀ l', is_Some (tracker_store wm !! l') → is_Some (tracker_store wm' !! l')) as (l & Hl & Hsl & Hst).
  { unfold wm', assign_tracker. destruct v as [o|l]; simpl.
    - eexists. split; [done|]. rewrite lookup_insert_eq. split; [done|]. intros l' Hl'.
      rewrite lookup_insert. by case_decide.
    - exists l. done. }
  assert (∀ limbo n, acct_inv limbo n wm → acct_inv limbo n (wm <| queue_topology := assign tp (queue_topology wm) |>)) as Ha.
  { intros limbo n [A1 A2 A3 A4 A5 A6 A7 A8 A9 A10 A11 A12 A13 A14 A15 A16 A17 A18].
    split; simpl; try done.
    - lia.
    - intros id w Hw. change (assigned (assign tp (queue_topology wm)) (wi_tp w) = true).
      rewrite Hasg, (A6 id w Hw). apply orb_true_r.
    - intros k w. rewrite Hq. apply A8.
    - intros k. rewrite Hq. apply A9.
    - intros w. rewrite Hq. apply A10.
    - intros ev w. rewrite Hq. apply A13.
    - intros id w. rewrite Hq. apply A14. }
  assert (acct_view wm' = acct_view (wm <| queue_topology := assign tp (queue_topology wm) |>)) as Hav by by destruct v.
  assert (execution_engine wm' = execution_engine wm ∧ wm_uuids wm' = wm_uuids wm ∧
    in_flight_work_items wm' = in_flight_work_items wm ∧ config_view wm' = config_view wm ∧
    dispatched wm' = dispatched wm ∧ route_batch_size wm' = route_batch_size wm)
    as (Ee & Eu & Ei & Ecf & Ed & Er) by by destruct v.
  clearbody wm'. split; [|split; [done|split; [done|split; [done|by rewrite Eq]]]].
  split; [rewrite Eq; by apply topo_inv_assign|]. split; [by apply parked_empty|]. split.
  - by rewrite Eq.
  - eapply acct_frame; [exact Hav|]. by apply Ha.
  - by rewrite Ee.
  - intros w. rewrite Ee, Eu, Ei, Eq. intros Hw. destruct (C4 w Hw) as [H1 H2]. split; [done|].
    intros w' Hw'. rewrite Hq. by apply H2.
  - intros tp'. rewrite Eq, Hasg, Hl, od_get_set. case_bool_decide; simpl.
    + intros _. exists l. by rewrite decide_True.
    + rewrite decide_False by done. intros (l' & ? & ?)%C5. exists l'. auto.
  - by rewrite Er.
Qed.

Lemma on_assign_spec assignments wm :
  wm_inv wm → NoDup (od_keys assignments) →
  (∀ tp v, (tp, v) ∈ assignments → assigned (queue_topology wm) tp = false ∧ tracker_exists (tracker_store wm) v) →
  wm_inv (on_assign assignments wm) ∧ dispatched (on_assign assignments wm) = dispatched wm ∧
  config_view (on_assign assignments wm) = config_view wm.
Proof.
  intros Hinv Hnd Has. unfold on_assign.
  assert (wm_inv (fold_left (λ acc p, assign_tracker p.1 p.2 acc) assignments wm) ∧
    dispatched (fold_left (λ acc p, assign_tracker p.1 p.2 acc) assignments wm) = dispatched wm ∧
    config_view (fold_left (λ acc p, assign_tracker p.1 p.2 acc) assignments wm) = config_view wm) as (H1 & H2 & H3).
  { revert wm Hinv Hnd Has. induction assignments as [|[tp v] rest IH]; intros wm Hinv Hnd Has; cbn [fold_left]; [done|].
    unfold od_keys in Hnd. rewrite fmap_cons, NoDup_cons in Hnd. destruct Hnd as [Hn Hnd].
    destruct (Has tp v) as [Ha Hv]; [left|].
    destruct (assign_tracker_spec tp v wm Hinv Ha Hv) as (S1 & S2 & S3 & S4 & S5).
    destruct (IH (assign_tracker tp v wm) S1 Hnd) as (T1 & T2 & T3).
    - intros tp' v' Hin. destruct (Has tp' v') as [Ha' Hv']; [by right|]. split.
      + rewrite S5, bool_decide_false; [done|]. intros ->. apply Hn, list_elem_of_fmap. by exists (tp', v').
      + destruct v'; [done|]. by apply S4.
    - split; [exact T1|]. split; [exact (eq_trans T2 S2)|exact (eq_trans T3 S3)]. }
  set (wm1 := fold_left _ assignments wm) in *. clearbody wm1.
  split; [|done]. eapply (settled_frame ∅ (wm1 <| rebalancing := false |>)); [done|].
  destruct H1 as (I1 & I2 & [C1 C2 C3 C4 C5 C6]). split; [done|]. split; [done|]. split; try done.
  by apply (acct_frame _ _ wm1).
Qed.

(** ** Forced failure of a blocking offset *)

Lemma force_fail_spec tp offset epoch error attempt wm :
  wm_inv wm →
  (∀ key w, w ∈ queue_of (queue_topology wm) (tp, key) → wi_offset w ≠ offset) →
  let wm' := (force_fail tp offset epoch error attempt wm).2 in
  wm_inv wm' ∧ dispatched wm' = dispatched wm ∧ config_view wm' = config_view wm.
Proof.
  intros (I1 & I2 & [C1 C2 C3 C4 C5 C6]) Hnq. unfold force_fail.
  assert (∀ id wm1, acct_inv [] 0 wm1 → in_flight_work_items wm1 = in_flight_work_items wm →
    queue_topology wm1 = queue_topology wm → od_get (tp, offset) (work_item_ids_by_tp_offset wm1) = Some id →
    acct_inv [] 0 (wm1 <| completion_queue ::=
      λ q, q ++ [mkCompletion id tp offset epoch FAILURE (Some error) attempt] |>)) as Hpush.
  { intros id wm1 Ha Ei Eq Hx. apply acct_push_event; [by eapply (ai_index_fresh _ _ _ Ha)| |done].
    cbn [ce_id ce_tp]. intros w Hw. destruct (ai_ids_index _ _ _ Ha _ _ _ _ Hx Hw) as [Htp Ho].
    split; [done|]. rewrite Eq. intros Hin. unfold item_key in Hin. rewrite Htp in Hin. by apply (Hnq _ _ Hin). }
  destruct (od_get (tp, offset) (work_item_ids_by_tp_offset wm)) as [id|] eqn:Ex.
  { cbn [snd]. split; [|done]. split; [done|]. split; [done|]. split; try done. by apply Hpush. }
  destruct (list_find _ (in_flight_work_items wm)) as [[i [id w]]|] eqn:Ef; [|by split].
  apply list_find_Some in Ef as (Hlk & [Htp Ho] & _). cbn [snd] in Htp, Ho |- *.
  assert (od_get id (in_flight_work_items wm) = Some w) as Hw.
  { apply od_elem_get; [apply C2|]. by eapply list_elem_of_lookup_2. }
  set (wm1 := wm <| work_item_ids_by_tp_offset ::= od_set (tp, offset) id |>).
  assert (acct_inv [] 0 wm1) as Ha1.
  { destruct C2 as [A1 A2 A3 A4 A5 A6 A7 A8 A9 A10 A11 A12 A13 A14 A15 A16 A17 A18]. split; simpl; try done.
    - intros tp' o' id' w'. rewrite od_get_set. case_decide; [|apply A15]. intros [= <-] Hw'.
      simplify_eq. done.
    - intros k id'. rewrite od_get_set. case_decide; [|apply A18]. intros [= <-]. apply A7. eauto. }
  split; [|done]. split; [done|]. split; [done|]. split; try done.
  apply Hpush; [done..|]. unfold wm1. simpl. apply od_get_set_eq.
Qed.

(** ** Revocation *)

(** What dropping the queues of a partition leaves alone *)
Definition ledger_view wm :=
  (execution_engine wm, tracker_store wm, completion_queue wm, in_flight_work_items wm,
   work_item_ids_by_tp_offset wm, dispatch_timestamps wm, current_in_flight_count wm,
   (ordering_mode wm, keys_in_flight wm, partitions_in_flight wm, key_in_flight_counts wm,
    partition_in_flight_counts wm, max_in_flight_messages wm, route_batch_size wm, wm_uuids wm)).

(** The queues and trackers of [tps] are gone. *)
Record queues_revoked (tps : list TopicPartition) wm wm' : Prop := {
  rv_ok : topology_ok (queue_topology wm');
  rv_queues k :
    queue_of (queue_topology wm') k = if decide (k.1 ∈ tps) then [] else queue_of (queue_topology wm) k;
  rv_assigned tp :
    assigned (queue_topology wm') tp = negb (bool_decide (tp ∈ tps)) && assigned (queue_topology wm) tp;
  rv_total : total_queued_messages wm' = total_items (queue_topology wm');
  rv_trackers tp : tp ∉ tps → od_get tp (offset_trackers wm') = od_get tp (offset_trackers wm);
  rv_view : ledger_view wm' = ledger_view wm;
}.

Lemma revoke_assigned tp t tp' :
  assigned (revoke tp t).2 tp' = negb (bool_decide (tp = tp')) && assigned t tp'.
Proof.
  unfold assigned, revoke; simpl. rewrite od_has_pop. f_equal. f_equal.
  induction (od_keys (partition_queues tp t)) as [|key keys IH] in t |- *; cbn [fold_left]; [done|].
  by rewrite IH, deactivate_queues.
Qed.

Lemma revoke_partition_spec tp wm :
  topology_ok (queue_topology wm) → total_queued_messages wm = total_items (queue_topology wm) →
  queues_revoked [tp] wm (revoke_partition wm tp).
Proof.
  intros [Hi Hd] Ht. unfold revoke_partition.
  destruct (revoke_spec ∅ tp (queue_topology wm) Hi) as (H1 & H2 & _).
  destruct (revoke_count tp (queue_topology wm) Hd) as [H3 H4].
  pose proof (revoke_assigned tp (queue_topology wm)) as H5.
  destruct (revoke tp (queue_topology wm)) as [removed topo]. cbn [fst snd] in *.
  set (wm1 := wm <| queue_topology := topo |> <| total_queued_messages ::= _ |>
                 <| offset_trackers ::= _ |> <| shared_offset_trackers ::= _ |>).
  assert (queues_revoked [tp] wm wm1) as Hr.
  { split; simpl; try done.
    - intros k. rewrite H2. apply decide_ext. by rewrite list_elem_of_singleton.
    - intros tp'. change (assigned topo tp' = negb (bool_decide (tp' ∈ [tp])) && assigned (queue_topology wm) tp').
      rewrite H5. f_equal. f_equal. apply bool_decide_ext. set_solver.
    - rewrite Ht, <-H4. pose proof (total_items_nonneg topo). lia.
    - intros tp' Hne. apply od_get_pop_ne. set_solver. }
  destruct (poison_message_circuit wm1); [|done]. destruct Hr. by split.
Qed.

Lemma revoke_partitions_spec tps wm :
  topology_ok (queue_topology wm) → total_queued_messages wm = total_items (queue_topology wm) →
  queues_revoked tps wm (fold_left revoke_partition tps wm).
Proof.
  revert wm. induction tps as [|tp tps IH]; intros wm Hok Ht; cbn [fold_left].
  { split; try done. }
  destruct (revoke_partition_spec tp wm Hok Ht) as [R1 R2 R3 R4 R5 R6].
  destruct (IH _ R1 R4) as [S1 S2 S3 S4 S5 S6]. split; try done.
  - intros k. rewrite S2, R2. rewrite (decide_ext (k.1 ∈ tp :: tps) (k.1 ∈ tps ∨ k.1 ∈ [tp]))
      by (rewrite !elem_of_cons, elem_of_nil; tauto).
    repeat case_decide; tauto.
  - intros tp'. rewrite S3, R3, andb_assoc. f_equal. rewrite <-negb_orb, <-bool_decide_or. f_equal.
    apply bool_decide_ext. rewrite !elem_of_cons, elem_of_nil. tauto.
  - intros tp' [? ?]%not_elem_of_cons. rewrite S5, R5; [done|by rewrite list_elem_of_singleton|done].
  - congruence.
Qed.

(** Releasing a list of live items *)
Lemma release_all_spec ids wm :
  ledger_ok wm → NoDup ids → dicts_nodup (queue_topology wm) → topo_inv ∅ (queue_topology wm) →
  (∀ id, id ∈ ids → is_Some (od_get id (in_flight_work_items wm))) →
  let wm' := fold_left (λ acc id, (release_in_flight_item id false acc).2) ids wm in
  ledger_ok wm' ∧ topology_ok (queue_topology wm') ∧
  (∀ k, queue_of (queue_topology wm') k = queue_of (queue_topology wm) k) ∧
  total_items (queue_topology wm') = total_items (queue_topology wm) ∧
  (∀ tp, assigned (queue_topology wm') tp = assigned (queue_topology wm) tp) ∧
  in_flight_work_items wm' = filter (λ p, p.1 ∉ ids) (in_flight_work_items wm) ∧
  dispatch_timestamps wm' = filter (λ p, p.1 ∉ ids) (dispatch_timestamps wm) ∧
  (∀ k id', od_get k (work_item_ids_by_tp_offset wm') = Some id' →
     od_get k (work_item_ids_by_tp_offset wm) = Some id') ∧
  release_view wm' = release_view wm.
Proof.
  assert (∀ {V} id ids (d : odict string V), filter (λ p, p.1 ∉ ids) (od_pop id d) = filter (λ p, p.1 ∉ id :: ids) d)
    as Hpop.
  { intros V id ids0 d. unfold od_pop. rewrite list_filter_filter. apply list_filter_iff. set_solver. }
  assert (∀ {V} (d : odict string V), filter (λ p, p.1 ∉ []) d = d) as Hnil.
  { intros V d. induction d as [|p d IHd]; [done|]. rewrite filter_cons, decide_True by set_solver. by rewrite IHd. }
  revert wm. induction ids as [|id ids IH]; intros wm L Hnd Hd Hi Hids; cbn [fold_left].
  { by rewrite !Hnil. }
  apply NoDup_cons in Hnd as [Hn Hnd]. destruct (Hids id) as [w Hw]; [left|].
  destruct (release_step wm id w false L Hw) as (L1 & E1 & E2 & E3 & E4 & E5).
  set (wm1 := (release_in_flight_item id false wm).2) in *. clearbody wm1.
  destruct (cleanup_count (wi_tp w) (wi_key w) (queue_topology wm) Hd) as [Hd1 Ht1].
  destruct (IH wm1 L1 Hnd) as (S1 & S2 & S3 & S4 & S5 & S6 & S7 & S8 & S9).
  - by rewrite E3.
  - rewrite E3. by apply (topo_inv_cleanup ∅ (wi_tp w, wi_key w)).
  - intros id' Hid'. rewrite E1, od_get_pop_ne by (by intros ->). apply Hids. by right.
  - split; [done|]. split; [done|]. split; [intros k; by rewrite S3, E3, queue_of_cleanup|].
    split; [by rewrite S4, E3|]. split; [intros tp; by rewrite S5, E3, assigned_cleanup|].
    split; [by rewrite S6, E1, Hpop|]. split; [by rewrite S7, E2, Hpop|].
    split; [intros k id' Hk; apply E4; by apply S8|]. congruence.
Qed.

Lemma od_get_filter_pairs {V} (P : string * V → Prop) `{∀ p, Decision (P p)} (d : odict string V) id v :
  NoDup (od_keys d) → od_get id (filter P d) = Some v ↔ od_get id d = Some v ∧ P (id, v).
Proof.
  intros Hnd. assert (NoDup (od_keys (filter P d))) as Hnd'.
  { unfold od_keys. clear -Hnd. unfold od_keys in Hnd. induction d as [|p d IH]; [done|].
    rewrite fmap_cons, NoDup_cons in Hnd. destruct Hnd as [Hn Hnd]. rewrite filter_cons. case_decide; [|auto].
    rewrite fmap_cons, NoDup_cons. split; [|auto].
    intros (q & Eq & [_ ?]%list_elem_of_filter)%list_elem_of_fmap. apply Hn, list_elem_of_fmap. eauto. }
  split.
  - intros [? ?]%od_get_elem%list_elem_of_filter. split; [by apply od_elem_get|done].
  - intros [?%od_get_elem ?]. apply od_elem_get; [done|]. by apply list_elem_of_filter.
Qed.

Lemma dispatched_revoked (tps : list TopicPartition) wm wm' :
  acct_inv [] 0 wm →
  let stale := (filter (λ p, wi_tp p.2 ∈ tps) (in_flight_work_items wm)).*1 in
  in_flight_work_items wm' = filter (λ p, p.1 ∉ stale) (in_flight_work_items wm) →
  dispatch_timestamps wm' = filter (λ p, p.1 ∉ stale) (dispatch_timestamps wm) →
  (∀ id w, od_get id (in_flight_work_items wm') = Some w ↔
     od_get id (in_flight_work_items wm) = Some w ∧ wi_tp w ∉ tps) ∧
  (∀ id, is_Some (od_get id (dispatch_timestamps wm')) ↔
     is_Some (od_get id (dispatch_timestamps wm)) ∧ id ∉ stale) ∧
  (∀ id w, od_get id (in_flight_work_items wm) = Some w → (id ∈ stale ↔ wi_tp w ∈ tps)) ∧
  dispatched wm' = filter (λ w, wi_tp w ∉ tps) (dispatched wm).
Proof.
  intros Ha stale Ei Ed.
  assert (∀ id w, od_get id (in_flight_work_items wm) = Some w → (id ∈ stale ↔ wi_tp w ∈ tps)) as Hst.
  { intros id w Hw. unfold stale. rewrite list_elem_of_fmap. split.
    - intros ([id' w'] & -> & [Hin Hel]%list_elem_of_filter). simpl in *.
      apply od_elem_get in Hel; [|apply Ha]. congruence.
    - intros Htp. exists (id, w). split; [done|]. apply list_elem_of_filter. split; [done|]. by apply od_get_elem. }
  assert (∀ id w, od_get id (in_flight_work_items wm') = Some w ↔
     od_get id (in_flight_work_items wm) = Some w ∧ wi_tp w ∉ tps) as Hit.
  { intros id w. rewrite Ei, od_get_filter_pairs by apply Ha. simpl. split.
    - intros [Hw Hs]. split; [done|]. by rewrite <-(Hst id w Hw).
    - intros [Hw Hs]. split; [done|]. by rewrite (Hst id w Hw). }
  split; [done|]. split; [|split; [done|]].
  - intros id. rewrite Ed. split.
    + intros [t Ht]. apply od_get_filter_pairs in Ht as [? ?]; [|apply Ha]. eauto.
    + intros [[t Ht] ?]. exists t. apply od_get_filter_pairs; [apply Ha|done].
  - unfold dispatched. rewrite Ed.
    assert (∀ id, id ∈ od_keys (dispatch_timestamps wm) → is_Some (od_get id (in_flight_work_items wm))) as Hin.
    { intros id Hid%elem_of_od_keys. by apply (ai_dispatched _ _ _ Ha). }
    clear Ed. induction (dispatch_timestamps wm) as [|[id t] d IH]; [done|].
    unfold od_keys in *. rewrite fmap_cons in Hin. destruct (Hin id) as [w Hw]; [left|].
    specialize (IH (λ id' H, Hin id' (list_elem_of_further _ _ _ H))).
    rewrite filter_cons, fmap_cons. cbn [fst]. unfold lookup_items in *.
    change (omap (λ i, od_get i (in_flight_work_items wm)) (id :: d.*1)) with
      (match od_get id (in_flight_work_items wm) with
       | Some y => y :: omap (λ i, od_get i (in_flight_work_items wm)) d.*1
       | None => omap (λ i, od_get i (in_flight_work_items wm)) d.*1 end).
    rewrite Hw, filter_cons. destruct (decide (wi_tp w ∈ tps)) as [Htp|Htp].
    + rewrite (decide_False (P := id ∉ stale)) by (by rewrite (Hst id w Hw); intros H; apply H).
      rewrite decide_False by auto. exact IH.
    + rewrite (decide_True (P := id ∉ stale)) by by rewrite (Hst id w Hw).
      rewrite decide_True by done. rewrite fmap_cons. cbn [fst].
      change (omap (λ i, od_get i (in_flight_work_items wm')) (id :: (filter (λ p, p.1 ∉ stale) d).*1)) with
        (match od_get id (in_flight_work_items wm') with
         | Some y => y :: omap (λ i, od_get i (in_flight_work_items wm')) (filter (λ p, p.1 ∉ stale) d).*1
         | None => omap (λ i, od_get i (in_flight_work_items wm')) (filter (λ p, p.1 ∉ stale) d).*1 end).
      rewrite (proj2 (Hit id w) (conj Hw Htp)). f_equal. exact IH.
Qed.

Lemma ledger_frame wm wm' : ledger_view wm' = ledger_view wm → ledger_ok wm → ledger_ok wm'.
Proof.
  unfold ledger_view. intros Hv [L1 L2 L3]. unfold locks_exact, locks_of, dispatched in *.
  split.
  - replace (current_in_flight_count wm') with (current_in_flight_count wm) by congruence.
    by replace (dispatch_timestamps wm') with (dispatch_timestamps wm) by congruence.
  - by replace (dispatch_timestamps wm') with (dispatch_timestamps wm) by congruence.
  - unfold locks_exact, locks_of, dispatched.
    replace (dispatch_timestamps wm') with (dispatch_timestamps wm) by congruence.
    replace (in_flight_work_items wm') with (in_flight_work_items wm) by congruence.
    replace (ordering_mode wm') with (ordering_mode wm) by congruence.
    replace (key_in_flight_counts wm') with (key_in_flight_counts wm) by congruence.
    replace (partition_in_flight_counts wm') with (partition_in_flight_counts wm) by congruence.
    replace (keys_in_flight wm') with (keys_in_flight wm) by congruence.
    by replace (partitions_in_flight wm') with (partitions_in_flight wm) by congruence.
Qed.

(** Dropping the locks of revoked partitions, of which no item is running *)
Definition drop_locks (tps : list TopicPartition) wm : WorkManager E :=
  let wm' := match ordering_mode wm with
             | KEY_HASH => wm <| keys_in_flight ::= filter (λ k, k.1 ∉ tps) |>
             | PARTITION => wm <| partitions_in_flight ::= λ s, s ∖ list_to_set tps |>
             | UNORDERED => wm
             end in
  wm' <| key_in_flight_counts ::= filter (λ p, p.1.1 ∉ tps) |>
      <| partition_in_flight_counts ::= filter (λ p, p.1 ∉ tps) |>.

Lemma drop_locks_same tps wm : same_but_locks wm (drop_locks tps wm).
Proof. unfold drop_locks, same_but_locks. destruct (ordering_mode wm) eqn:Em; simpl; by rewrite ?Em. Qed.

Lemma drop_locks_static tps wm :
  execution_engine (drop_locks tps wm) = execution_engine wm ∧
  tracker_store (drop_locks tps wm) = tracker_store wm ∧
  offset_trackers (drop_locks tps wm) = offset_trackers wm ∧
  max_in_flight_messages (drop_locks tps wm) = max_in_flight_messages wm ∧
  route_batch_size (drop_locks tps wm) = route_batch_size wm.
Proof. unfold drop_locks. by destruct (ordering_mode wm). Qed.

Lemma drop_locks_spec tps wm :
  (∀ w, w ∈ dispatched wm → wi_tp w ∉ tps) → locks_exact wm → locks_exact (drop_locks tps wm).
Proof.
  intros Hd Hl. assert (dispatched (drop_locks tps wm) = dispatched wm) as Hdd.
  { destruct (drop_locks_same tps wm) as (_ & _ & E1 & _ & E2 & _). unfold dispatched. by rewrite E1, E2. }
  unfold locks_exact. rewrite Hdd. unfold locks_exact, locks_of in *.
  destruct (drop_locks_same tps wm) as (_ & _ & _ & _ & _ & _ & _ & _ & ->).
  destruct (ordering_mode wm) eqn:Em; [..|done]; destruct Hl as [Hc Hk]; unfold drop_locks; rewrite Em; simpl.
  - split; [exact (counts_exact_filter item_key (λ k, k.1 ∉ tps) _ _ Hd Hc)|].
    rewrite Hk. apply set_eq. intros k. rewrite elem_of_filter, !elem_of_dom. split.
    + intros [Hk' [n Hn]]. exists n. by apply map_lookup_filter_Some.
    + intros [n [Hn Hk']%map_lookup_filter_Some]. split; [done|eauto].
  - split; [exact (counts_exact_filter wi_tp (λ tp, tp ∉ tps) _ _ Hd Hc)|].
    rewrite Hk. apply set_eq. intros tp. rewrite elem_of_difference, elem_of_list_to_set, !elem_of_dom. split.
    + intros [[n Hn] Hk']. exists n. by apply map_lookup_filter_Some.
    + intros [n [Hn Hk']%map_lookup_filter_Some]. split; [eauto|done].
Qed.

Lemma on_revoke_unfold tp tps wm :
  let tps := tp :: tps in
  let wm1 := fold_left revoke_partition tps wm in
  let stale := (filter (λ p, wi_tp p.2 ∈ tps) (in_flight_work_items wm1)).*1 in
  on_revoke tps wm = invalidate_blocking_cache
    ((drop_locks tps (fold_left (λ acc id, (release_in_flight_item id false acc).2) stale wm1)) <| rebalancing := true |>).
Proof. intros tps'. unfold on_revoke. by rewrite decide_False. Qed.

(** A key in the revoked partitions cannot be waiting, running or locked afterwards. *)
Lemma on_revoke_spec tps wm :
  wm_inv wm →
  let wm' := on_revoke tps wm in
  wm_inv wm' ∧ config_view wm' = config_view wm ∧ (exclusive wm → exclusive wm') ∧
  current_in_flight_count wm' ≤ current_in_flight_count wm ∧
  (∀ k, queue_of (queue_topology wm') k = if decide (k.1 ∈ tps) then [] else queue_of (queue_topology wm) k) ∧
  (∀ id w, od_get id (in_flight_work_items wm') = Some w ↔
     od_get id (in_flight_work_items wm) = Some w ∧ wi_tp w ∉ tps).
Proof.
  intros (Hi & Hp & [C1 C2 C3 C4 C5 C6]). destruct tps as [|tp0 tps0].
  { cbv zeta. assert (full_view (on_revoke [] wm) = full_view (wm <| rebalancing := true |>)) as Hv by done.
    unfold on_revoke. cbn [fold_left]. rewrite decide_True by done. unfold invalidate_blocking_cache.
    split; [|split; [done|split; [done|split; [simpl; lia|split; [done|]]]]].
    - split; [done|]. split; [done|]. split; try done. by apply (acct_frame _ _ wm).
    - intros id w. simpl. split; [intros; split; [done|set_solver]|by intros [? _]]. }
  rewrite on_revoke_unfold. set (tps := tp0 :: tps0). clearbody tps. clear tp0 tps0.
  destruct (revoke_partitions_spec tps wm (conj Hi C1)) as [R1 R2 R3 R4 R5 R6].
  { rewrite (ai_total _ _ _ C2). lia. }
  set (wm1 := fold_left revoke_partition tps wm) in *. clearbody wm1.
  assert (ledger_ok wm1) as L1 by (eapply ledger_frame; [exact R6|]; by eapply acct_ledger).
  unfold ledger_view in R6.
  assert (in_flight_work_items wm1 = in_flight_work_items wm ∧ dispatch_timestamps wm1 = dispatch_timestamps wm)
    as [Ei1 Ed1] by (split; congruence).
  rewrite Ei1. set (stale := (filter (λ p, wi_tp p.2 ∈ tps) (in_flight_work_items wm)).*1).
  assert (NoDup stale) as Hnds.
  { eapply sublist_NoDup; [apply (ai_items_nodup _ _ _ C2)|]. unfold stale, od_keys.
    apply fmap_sublist, sublist_filter. }
  destruct (release_all_spec stale wm1 L1 Hnds (proj2 R1) (proj1 R1))
    as (L2 & T1 & T2 & T3 & T4 & T5 & T6 & T7 & T8).
  { intros id. rewrite Ei1. unfold stale. intros ([id' w] & -> & [_ ?]%list_elem_of_filter)%list_elem_of_fmap.
    exists w. by apply od_elem_get; [apply C2|]. }
  set (wm2 := fold_left _ stale wm1) in *. clearbody wm2. rewrite Ei1 in T5. rewrite Ed1 in T6.
  unfold release_view in T8.
  destruct (dispatched_revoked tps wm wm2 C2 T5 T6) as (Hit & Hdi & Hst & Hdd).
  assert (locks_exact (drop_locks tps wm2)) as HL.
  { apply drop_locks_spec; [|apply L2]. rewrite Hdd. by intros w [? _]%list_elem_of_filter. }
  destruct (drop_locks_same tps wm2) as (G1 & G2 & G3 & G4 & G5 & G6 & G7 & G8 & G9).
  destruct (drop_locks_static tps wm2) as (G10 & G11 & G12 & G13 & G14).
  set (wm3 := drop_locks tps wm2) in *.
  assert (execution_engine wm3 = execution_engine wm ∧ tracker_store wm3 = tracker_store wm ∧
    config_view wm3 = config_view wm ∧ offset_trackers wm3 = offset_trackers wm1 ∧
    completion_queue wm3 = completion_queue wm ∧ wm_uuids wm3 = wm_uuids wm ∧
    total_queued_messages wm3 = total_queued_messages wm1 ∧ route_batch_size wm3 = route_batch_size wm)
    as (F1 & F2 & F3 & F4 & F5 & F6 & F7 & F8).
  { assert (execution_engine wm3 = execution_engine wm) as Fe
      by (rewrite G10; congruence).
    split; [done|]. unfold config_view. rewrite Fe, G2, G6, G8, G9, G11, G12, G13, G14.
    repeat split; congruence. }
  assert (dispatched wm3 = filter (λ w, wi_tp w ∉ tps) (dispatched wm)) as Hd3.
  { rewrite <-Hdd. unfold dispatched. by rewrite G3, G5. }
  assert (∀ k' id', od_get k' (work_item_ids_by_tp_offset wm2) = Some id' →
    od_get k' (work_item_ids_by_tp_offset wm) = Some id') as Hix.
  { intros k' id' Hx%T7. by replace (work_item_ids_by_tp_offset wm) with (work_item_ids_by_tp_offset wm1) by congruence. }
  clearbody wm3.
  assert (∀ k, queue_of (queue_topology wm2) k = if decide (k.1 ∈ tps) then [] else queue_of (queue_topology wm) k) as Hq
    by (intros k; by rewrite T2, R2).
  assert (∀ tp, assigned (queue_topology wm2) tp = negb (bool_decide (tp ∈ tps)) && assigned (queue_topology wm) tp) as Hasg
    by (intros tp; by rewrite T4, R3).
  assert (∀ k w, w ∈ queue_of (queue_topology wm2) k → w ∈ queue_of (queue_topology wm) k ∧ k.1 ∉ tps) as Hqs.
  { intros k w. rewrite Hq. case_decide; [set_solver|done]. }
  assert (acct_inv [] 0 wm3) as Ha3.
  { destruct C2 as [A1 A2 A3 A4 A5 A6 A7 A8 A9 A10 A11 A12 A13 A14 A15 A16 A17 A18].
    split; rewrite ?G1, ?G3, ?G5, ?F5, ?F6.
    - rewrite F7, R4, T3. lia.
    - rewrite G7. apply L2.
    - rewrite T5. apply (sublist_NoDup _ _ A3), fmap_sublist, sublist_filter.
    - apply L2.
    - intros id w [Hw _]%Hit. by apply A5.
    - intros id w [Hw Hn]%Hit. rewrite Hasg, (A6 id w Hw), bool_decide_false by done. done.
    - intros id [w [Hw _]%Hit]. apply A7. eauto.
    - intros k w [Hw Hn]%Hqs. destruct (A8 k w Hw) as (-> & Hi' & Hd'). split; [done|]. split.
      + apply Hit. done.
      + destruct (od_get (wi_id w) (dispatch_timestamps wm2)) eqn:Ex; [|done].
        destruct (proj1 (Hdi (wi_id w))) as [[t Ht] _]; [eauto|congruence].
    - intros k. rewrite Hq. case_decide; [constructor|apply A9].
    - intros w ?%elem_of_nil. done.
    - constructor.
    - intros id [Hs Hns]%Hdi. destruct (A12 id Hs) as [w Hw]. exists w. apply Hit. split; [done|].
      by rewrite <-(Hst id w Hw).
    - intros ev w He [Hw _]%Hit. destruct (A13 ev w He Hw) as (? & Hn & ?). split; [done|]. split; [|done].
      by intros [? _]%Hqs.
    - intros id w [Hw Hn]%Hit. destruct (A14 id w Hw) as [Hx|[Hx|[Hx|Hx]]]; [|set_solver| |by auto].
      + left. rewrite Hq, decide_False by done. done.
      + right; right; left. apply Hdi. split; [done|]. by rewrite (Hst id w Hw).
    - intros tp o id w. rewrite G4. intros Hx%Hix [Hw _]%Hit. by eapply A15.
    - done.
    - done.
    - intros k id. rewrite G4. intros Hx%Hix. by eapply A18. }
  set (wm4 := invalidate_blocking_cache (wm3 <| rebalancing := true |>)).
  split; [|split; [exact F3|split; [|split; [|split]]]].
  - split; [change (queue_topology wm4) with (queue_topology wm3); rewrite G1; apply T1|].
    split; [by apply parked_empty|]. split; change (queue_topology wm4) with (queue_topology wm3).
    + rewrite G1. apply T1.
    + by apply (acct_frame _ _ wm3).
    + change (execution_engine wm4) with (execution_engine wm3). by rewrite F1.
    + intros w. change (execution_engine wm4) with (execution_engine wm3).
      change (queue_topology wm4) with (queue_topology wm3). change (wm_uuids wm4) with (wm_uuids wm3).
      change (in_flight_work_items wm4) with (in_flight_work_items wm3). rewrite F1, F6, G3, G1.
      intros Hl. destruct (C4 w Hl) as [H1 H2]. split; [done|]. intros w' [Hw' _]%Hit.
      destruct (H2 w' Hw') as [-> Hn]. split; [done|]. by intros [? _]%Hqs.
    + intros tp. change (queue_topology wm4) with (queue_topology wm3).
      change (offset_trackers wm4) with (offset_trackers wm3). change (tracker_store wm4) with (tracker_store wm3).
      rewrite G1, F2, F4, Hasg. intros [Hn Hag]%andb_true_iff. apply negb_true_iff, bool_decide_eq_false in Hn.
      rewrite R5 by done. by apply C5.
    + change (route_batch_size wm4) with (route_batch_size wm3). by rewrite F8.
  - intros Hex. unfold exclusive in *. unfold config_view in F3.
    change (ordering_mode wm4) with (ordering_mode wm3). change (execution_engine wm4) with (execution_engine wm3).
    change (dispatched wm4) with (dispatched wm3).
    replace (ordering_mode wm3) with (ordering_mode wm) by congruence. rewrite F1, Hd3.
    assert (∀ {A} (f : WorkItem → A), NoDup (f <$> dispatched wm) →
      NoDup (f <$> filter (λ w, wi_tp w ∉ tps) (dispatched wm))) as Hnd.
    { intros A f Hn. eapply sublist_NoDup; [exact Hn|]. apply fmap_sublist, sublist_filter. }
    destruct (ordering_mode wm); [|..|done]; auto.
  - change (current_in_flight_count wm4) with (current_in_flight_count wm3).
    rewrite G7, (lo_count _ L2), T6, (ai_count _ _ _ C2). unfold zlen.
    pose proof (length_filter (λ p : string * Q, p.1 ∉ stale) (dispatch_timestamps wm)). lia.
  - intros k. change (queue_topology wm4) with (queue_topology wm3). by rewrite G1.
  - intros id w. change (in_flight_work_items wm4) with (in_flight_work_items wm3). rewrite G3. apply Hit.
Qed.

(** ** Steps and reachable states *)

(** One call of the manager, or a change the broker makes to the trackers it shares.
    Partitions are assigned when they are not owned, and a blocking offset is forced to fail
    when its item has left the queues. *)
Inductive wm_step : WorkManager E → unit → WorkManager E → Prop :=
  | wm_assign assignments wm :
      NoDup (od_keys assignments) →
      (∀ tp v, (tp, v) ∈ assignments →
         assigned (queue_topology wm) tp = false ∧ tracker_exists (tracker_store wm) v) →
      wm_step wm () (on_assign assignments wm)
  | wm_revoke tps wm : wm_step wm () (on_revoke tps wm)
  | wm_submit groups wm : wm_step wm () (submit_message_batch groups wm).2
  | wm_schedule wm wm' : schedule wm = Some wm' → wm_step wm () wm'
  | wm_poll b events wm wm' : poll_completed_events b wm = Some (events, wm') → wm_step wm () wm'
  | wm_force_fail tp offset epoch error attempt wm :
      (∀ key w, w ∈ queue_of (queue_topology wm) (tp, key) → wi_offset w ≠ offset) →
      wm_step wm () (force_fail tp offset epoch error attempt wm).2
  | wm_set_max value wm wm' : set_max_in_flight_messages value wm = Some wm' → wm_step wm () wm'
  | wm_broker store wm :
      dom store = dom (tracker_store wm) → wm_step wm () (wm <| tracker_store := store |>).

Definition wm_good wm : Prop := wm_inv wm ∧ exclusive wm.

Lemma exclusive_same wm wm' :
  dispatched wm' = dispatched wm → config_view wm' = config_view wm → exclusive wm → exclusive wm'.
Proof.
  unfold config_view, exclusive. intros Hd Hc. rewrite Hd.
  replace (ordering_mode wm') with (ordering_mode wm) by congruence.
  by replace (supports_ordered_route_batch (execution_engine wm')) with
    (supports_ordered_route_batch (execution_engine wm)) by congruence.
Qed.

Lemma wm_step_good wm e wm' : wm_good wm → wm_step wm e wm' → wm_good wm'.
Proof.
  intros [Hi Hx] Hs. destruct Hs as [as_ wm Hnd Has|tps wm|groups wm|wm wm' Hs|b evs wm wm' Hp|tp o ep er at_ wm Hq|v wm wm' Hm|st wm Hd].
  - destruct (on_assign_spec as_ wm Hi Hnd Has) as (H1 & H2 & H3). split; [done|]. by eapply exclusive_same.
  - destruct (on_revoke_spec tps wm Hi) as (H1 & _ & H3 & _). split; auto.
  - destruct (submit_message_batch_spec groups wm Hi) as (H1 & H2 & H3). split; [done|]. by eapply exclusive_same.
  - destruct (schedule_spec wm Hi) as (wm2 & E2 & Hr). rewrite Hs in E2. injection E2 as <-.
    split; [apply (sr_inv _ _ Hr)|]. by apply (schedule_config _ _ Hr).
  - destruct (poll_spec b wm Hi) as (evs2 & wm2 & E2 & [P1 _ _ _ P5]). rewrite Hp in E2. injection E2 as <- <-.
    split; auto.
  - destruct (force_fail_spec tp o ep er at_ wm Hi Hq) as (H1 & H2 & H3). split; [done|]. by eapply exclusive_same.
  - unfold set_max_in_flight_messages in Hm. destruct (v <? 1); [done|]. injection Hm as <-. split; [|exact Hx].
    destruct Hi as (I1 & I2 & [C1 C2 C3 C4 C5 C6]). split; [done|]. split; [done|]. split; try done.
    by apply (acct_frame _ _ wm).
  - split; [|exact Hx]. apply (wm_inv_trackers wm); [|done].
    exists st, (blocking_cache wm), (blocking_cache_counter wm). split; [by destruct wm|done].
Qed.

Lemma new_work_manager_good engine cap exporter mode ttl grace poison batch store wm :
  engine_ok engine → engine_log engine = [] →
  new_work_manager engine cap exporter mode ttl grace poison batch store = Some wm → wm_good wm.
Proof.
  intros Hok Hlog. unfold new_work_manager. case_bool; [done|]. intros [= <-].
  split; [|unfold exclusive; simpl; destruct mode; simpl; intros; constructor].
  split; [apply topo_inv_new|]. split; [by apply parked_empty|]. split; simpl; try done.
  - apply dicts_nodup_new.
  - split; simpl; try done; try (by constructor); try (intros *; intros Hw; by apply elem_of_nil in Hw);
      try (intros *; intros [? ?]; done).
    unfold locks_exact, locks_of, dispatched; simpl. destruct mode; simpl; [..|done];
      (split; [intros a; by rewrite lookup_empty|by rewrite dom_empty_L]).
  - intros w Hw. simpl in Hw. rewrite Hlog in Hw. by apply elem_of_nil in Hw.
Qed.

Lemma steps_snoc {S' E'} (R : S' → E' → S' → Prop) s es s' e s'' :
  steps R s es s' → R s' e s'' → steps R s (es ++ [e]) s''.
Proof.
  induction 1; intros Hr; simpl; [by eapply steps_cons, steps_nil|]. eapply steps_cons; [done|auto].
Qed.

(** A key none of whose items is running is eligible. *)
Lemma free_eligible wm k :
  locks_exact wm → (k ∉ item_key <$> dispatched wm) → (k.1 ∉ wi_tp <$> dispatched wm) →
  is_queue_eligible wm k = true.
Proof.
  assert (∀ {A} `{Countable A} (f : WorkItem → A) (m : gmap A Z) ws a,
    counts_exact f m ws → a ∉ f <$> ws → a ∉ dom m) as Hfree.
  { intros A ?? f m ws a Hc Ha Hin. apply elem_of_dom in Hin as [n Hn]. destruct (Hc a) as [H1 H2].
    rewrite Hn in H1, H2. simpl in H1.
    destruct (filter (λ w, f w = a) ws) as [|w l] eqn:Ef; [change (zlen []) with 0 in H1; congruence|].
    apply Ha. assert (w ∈ filter (λ w, f w = a) ws) as [<- Hw]%list_elem_of_filter by (rewrite Ef; left).
    by apply list_elem_of_fmap_2. }
  unfold locks_exact, locks_of, is_queue_eligible. destruct (ordering_mode wm); [..|done];
    intros [Hc ->] Hk Hp; apply negb_true_iff, bool_decide_eq_false; by eapply Hfree.
Qed.

(** The states of the manager *)
Definition reachable wm : Prop :=
  ∃ engine cap exporter mode ttl grace poison batch store wm0 es,
    engine_ok engine ∧ engine_log engine = [] ∧
    new_work_manager engine cap exporter mode ttl grace poison batch store = Some wm0 ∧
    steps wm_step wm0 es wm.

Lemma reachable_good wm : reachable wm → wm_good wm.
Proof.
  intros (en & cap & ex & mode & ttl & gr & po & ba & st & wm0 & es & Hok & Hlog & Hnew & Hs).
  eapply (steps_invariant wm_step wm_good); [|by eapply new_work_manager_good|exact Hs].
  intros s e s' Hg Hst. by eapply wm_step_good.
Qed.

(** ** Claims *)



(** C13. A scheduling pass ends, from every reachable state and with every engine, and it
    moves items off the fronts of the queues in order: what it takes from a key is a prefix
    of that key's queue, the items it feeds to the engine and the items it force-fails are
    together exactly the items taken, and the running items never exceed the limit by its doing. *)
Theorem schedule_dispatches_in_order wm :
  reachable wm →
  ∃ wm' ms,
    schedule wm = Some wm' ∧ reachable wm' ∧
    (∀ k, queue_of (queue_topology wm) k = moved_from k ms ++ queue_of (queue_topology wm') k) ∧
    engine_log (execution_engine wm') = engine_log (execution_engine wm) ++ fed_items ms ∧
    (∃ evs, completion_queue wm' = completion_queue wm ++ evs ∧ ce_id <$> evs = wi_id <$> failed_items ms) ∧
    total_items (queue_topology wm') = total_items (queue_topology wm) - zlen ms ∧
    current_in_flight_count wm' ≤ Z.max (current_in_flight_count wm) (max_in_flight_messages wm).
Proof.
  intros Hr. destruct (reachable_good wm Hr) as [Hi _].
  destruct (schedule_spec wm Hi) as (wm' & Hs & [_ (wm0 & ms & (st & ca & co & -> & _) & [M1 M2 M3 M4 _ M6 _ _])]).
  exists wm', ms. split; [done|]. split; [|done].
  destruct Hr as (en & cap & ex & mode & ttl & gr & po & ba & st' & wm1 & es & H1 & H2 & H3 & H4).
  exists en, cap, ex, mode, ttl, gr, po, ba, st', wm1, (es ++ [()]). split; [done|]. split; [done|]. split; [done|].
  eapply steps_snoc; [exact H4|]. by apply wm_schedule.
Qed.

(** Polling completions ends from every reachable state: the outer loop goes round only
    while scheduling force-fails queued items, every completion that was pending is returned
    first, in order, and none is left behind. *)
Theorem poll_terminates b wm :
  reachable wm →
  ∃ events wm',
    poll_completed_events b wm = Some (completion_queue wm ++
      (engine_poll_completed_events 1000 (execution_engine wm)).1 ++ events, wm') ∧
    completion_queue wm' = [] ∧
    current_in_flight_count wm' ≤ Z.max (current_in_flight_count wm) (max_in_flight_messages wm).
Proof.
  intros Hr. destruct (reachable_good wm Hr) as [Hi _].
  destruct (poll_loop_full b wm Hi) as (events & wm' & -> & [_ P2 _ P4 _]). eauto.
Qed.

(** Revocation leaves no trace of a partition: nothing of it waits, is live or holds an
    ordering lock afterwards, and the other partitions keep their queues and items. *)
Lemma revoke_forgets tps wm :
  reachable wm →
  let wm' := on_revoke tps wm in
  (∀ k, queue_of (queue_topology wm') k = if decide (k.1 ∈ tps) then [] else queue_of (queue_topology wm) k) ∧
  (∀ id w, od_get id (in_flight_work_items wm') = Some w ↔
     od_get id (in_flight_work_items wm) = Some w ∧ wi_tp w ∉ tps) ∧
  (∀ w, w ∈ dispatched wm' → wi_tp w ∉ tps) ∧
  (∀ k, k.1 ∈ tps → is_queue_eligible wm' k = true) ∧ rebalancing wm' = true.
Proof.
  intros [Hi _]%reachable_good wm'. destruct (on_revoke_spec tps wm Hi) as (H1 & _ & _ & _ & H5 & H6).
  fold wm' in H1, H5, H6. assert (∀ w, w ∈ dispatched wm' → wi_tp w ∉ tps) as Hd.
  { intros w (id & _ & Hw)%lookup_items_elem. by apply H6 in Hw as [_ ?]. }
  split; [done|]. split; [done|]. split; [done|]. split; [|by unfold wm', on_revoke].
  intros k Hk. apply free_eligible; [apply H1|..]; intros (w & Ew & Hw)%list_elem_of_fmap; apply (Hd w Hw).
  - by rewrite Ew in Hk.
  - by rewrite <-Ew.
Qed.

End system.

(** ** A concrete run

    Two messages of one key and one of another arrive in [KEY_HASH] mode, and a scheduling
    pass starts the first of each key. *)
Section witnesses.
#[local] Instance demo_libs : TrackerLibs := vendor_lists.

Definition wm_demo_tp : TopicPartition := mkTp "orders" 0.
Definition wm_demo_a : PyValue := PyBytes [97].
Definition wm_demo_b : PyValue := PyBytes [98].
Definition wm_demo_engine : DemoEngine := mkDemoEngine 10 [] [] false.

Definition wm_demo_0 : WorkManager DemoEngine :=
  mkWM wm_demo_engine ∅ [] new_topology [] [] [] [] 0 None [] 5 0 false None KEY_HASH
    500 ∅ ∅ ∅ ∅ ∅ [] 100 0 ∅ None 4 0 0.
Definition wm_demo_1 : WorkManager DemoEngine := on_assign [(wm_demo_tp, StartingOffset 0)] wm_demo_0.
Definition wm_demo_messages : odict QueueKey (list GroupedMessage) :=
  [((wm_demo_tp, wm_demo_a), [mkMessage 0 0 PyNone None; mkMessage 1 0 PyNone None]);
   ((wm_demo_tp, wm_demo_b), [mkMessage 2 0 PyNone None])].
Definition wm_demo_2 : WorkManager DemoEngine := (submit_message_batch wm_demo_messages wm_demo_1).2.
Definition wm_demo_3 : WorkManager DemoEngine := default wm_demo_2 (schedule wm_demo_2).

Lemma wm_demo_2_reachable : reachable wm_demo_2.
Proof.
  exists wm_demo_engine, 5, None, KEY_HASH, 100, 500, None, 4, ∅, wm_demo_0, [(); ()].
  split; [intros w Hw; by apply elem_of_nil in Hw|]. split; [done|]. split; [done|].
  apply steps_cons with wm_demo_1.
  - apply wm_assign.
    + apply NoDup_singleton.
    + intros tp v Hin%list_elem_of_singleton. by simplify_eq.
  - apply steps_cons with wm_demo_2; [apply wm_submit|apply steps_nil].
Qed.

Lemma wm_demo_3_reachable : reachable wm_demo_3.
Proof.
  destruct wm_demo_2_reachable as (en & cap & ex & mode & ttl & gr & po & ba & st & wm0 & es & H1 & H2 & H3 & H4).
  exists en, cap, ex, mode, ttl, gr, po, ba, st, wm0, (es ++ [()]). split; [done|]. split; [done|]. split; [done|].
  eapply steps_snoc; [exact H4|]. apply wm_schedule.
  destruct (schedule_spec wm_demo_2 (proj1 (reachable_good _ wm_demo_2_reachable))) as (wm' & Hs & _).
  unfold wm_demo_3. by rewrite Hs.
Qed.



Lemma schedule_dispatches_in_order_witness :
  ∃ wm' ms, schedule wm_demo_2 = Some wm' ∧
    queue_of (queue_topology wm_demo_2) (wm_demo_tp, wm_demo_a)
      = moved_from (wm_demo_tp, wm_demo_a) ms ++ queue_of (queue_topology wm') (wm_demo_tp, wm_demo_a) ∧
    current_in_flight_count wm' ≤ 5.
Proof.
  destruct (schedule_dispatches_in_order wm_demo_2 wm_demo_2_reachable) as (wm' & ms & H1 & _ & H2 & _ & _ & _ & H3).
  exists wm', ms. split; [exact H1|]. split; [apply H2|exact H3].
Defined.

Lemma poll_terminates_witness :
  ∃ events wm', poll_completed_events true wm_demo_3 = Some (events, wm') ∧ completion_queue wm' = [] ∧
    zlen (engine_poll_completed_events 1000 (execution_engine wm_demo_3)).1 = 2.
Proof.
  destruct (poll_terminates true wm_demo_3 wm_demo_3_reachable) as (events & wm' & H1 & H2 & _).
  eexists _, wm'. split; [exact H1|]. split; [exact H2|vm_compute; reflexivity].
Defined.


(** ** Forcing a queued offset to fail

    The blocking-offset timeout may hit an item that still waits in its queue. *)

Definition wm_leak_1 : WorkManager DemoEngine :=
  (submit_message wm_demo_tp 0 0 wm_demo_a PyNone wm_demo_1).2.
Definition wm_leak_2 : WorkManager DemoEngine :=
  (force_fail wm_demo_tp 0 0 "Blocking offset 0 exceeded 1.000s" 3 wm_leak_1).2.
Definition poll_state (wm : WorkManager DemoEngine) : WorkManager DemoEngine :=
  match poll_completed_events true wm with Some (_, wm') => wm' | None => wm end.
Definition wm_leak_3 : WorkManager DemoEngine := poll_state wm_leak_2.
Definition wm_leak_4 : WorkManager DemoEngine := poll_state wm_leak_3.

(** Forcing a blocking offset to fail while its item still waits in its queue leaks the
    item's dispatch slot: the forced failure removes the item from the table but not from the
    queue, the queued item is then dispatched although its failure has been reported, and when the
    engine completes it the in-flight count and the ordering lock stay taken with nothing running. *)
Theorem force_fail_of_queued_item_leaks :
  (force_fail wm_demo_tp 0 0 "Blocking offset 0 exceeded 1.000s" 3 wm_leak_1).1 = true ∧
  (wi_offset <$> de_held (execution_engine wm_leak_3)) = [0] ∧
  in_flight_work_items wm_leak_4 = [] ∧ dispatch_timestamps wm_leak_4 = [] ∧
  de_held (execution_engine wm_leak_4) = [] ∧
  get_total_in_flight_count wm_leak_4 = 1 ∧
  is_queue_eligible wm_leak_4 (wm_demo_tp, wm_demo_a) = false.
Proof. vm_compute. repeat split. Qed.
End witnesses.
