(* ===== verification/WorkManagerDiagnostics.v ===== *)
(** * Pipeline diagnostics of the work manager

    The counters that [get_pipeline_diagnostics] reports add up. *)

From S2P Require Import Prelude Vendor Runtime Dto OffsetTracker PoisonMessage WorkQueueTopology ExecutionEngine WorkManager.

Section diagnostics.
Context {E : Type} `{EE : ExecutionEngine E} `{TL : TrackerLibs} `{RT : Runtime}.
Implicit Types (wm : WorkManager E).

Lemma poison_prefix_bounds b t ws :
  let '(n, blocked) := poison_prefix_loop b t ws in
  0 ≤ n ≤ zlen ws ∧ (blocked = false → n = zlen ws).
Proof.
  revert t. induction ws as [|w ws IH]; intros t; simpl; [done|]. rewrite zlen_cons.
  pose proof (zlen_nonneg ws). destruct (would_force_fail _ w b); [split; [lia|done]|].
  specialize (IH (S t)). destruct (poison_prefix_loop b (S t) ws) as [n bl]. destruct IH as [IH1 IH2].
  split; [lia|]. intros Hb. specialize (IH2 Hb). lia.
Qed.

Lemma peek_batch_length q limit : zlen (peek_queue_batch q limit) ≤ q_size q.
Proof.
  unfold peek_queue_batch, q_size, py_take, zlen. case_bool; [simpl; lia|]. rewrite length_take. lia.
Qed.

(** The eligible prefix lies inside the queue, and a blocked rest has a reason. *)
Lemma classify_bounds wm k q :
  let '(n, reason) := classify_queue wm k q in
  0 ≤ n ≤ q_size q ∧ (0 < q_size q - n → is_Some reason).
Proof.
  unfold classify_queue, diagnose_poison_safe_prefix.
  pose proof (peek_batch_length q (resolve_logical_eligible_prefix_limit wm)) as Hl.
  set (ws := peek_queue_batch q _) in *. pose proof (zlen_nonneg ws).
  assert (∃ n bl, match poison_message_circuit wm with
    | None => (zlen ws, false) | Some b => poison_prefix_loop b (wm_ticks wm) ws end = (n, bl) ∧
    0 ≤ n ≤ zlen ws) as (n & bl & -> & Hn).
  { destruct (poison_message_circuit wm) as [b|]; [|by exists (zlen ws), false].
    pose proof (poison_prefix_bounds b (wm_ticks wm) ws) as Hp.
    destruct (poison_prefix_loop b (wm_ticks wm) ws) as [n bl]. exists n, bl. split; [done|apply Hp]. }
  repeat match goal with |- context [if ?c then _ else _] => destruct c eqn:? end;
    (split; [lia|]); try (by intros; eexists); lia.
Qed.

(** The counters agree with each other. *)
Record diagnostics_ok (d : QueueDiagnostics) : Prop := {
  do_split : eligible_items d + blocked_items d = queued_items d;
  do_reasons : od_sum id (blocked_counts d) = blocked_items d;
  do_depths : foldr Z.add 0 (queue_depths d) = queued_items d;
  do_eligible : 0 ≤ eligible_items d;
}.

Lemma foldr_add_snoc l x : foldr Z.add 0 (l ++ [x]) = foldr Z.add 0 l + x.
Proof. induction l as [|y l IH]; simpl; lia. Qed.

Lemma diagnose_queue_ok wm k d q :
  diagnostics_ok d →
  diagnostics_ok (diagnose_queue wm k d q) ∧ queued_items (diagnose_queue wm k d q) = queued_items d + q_size q.
Proof.
  intros [H1 H2 H3 H4]. unfold diagnose_queue. pose proof (zlen_nonneg (q_items q)) as Hq. fold (q_size q) in Hq.
  case_bool; [split; [done|lia]|].
  pose proof (classify_bounds wm k q) as Hc. destruct (classify_queue wm k q) as [n reason].
  destruct Hc as [Hn Hr]. split; [|done]. split; simpl.
  - destruct (Z.ltb_spec 0 n), (Z.ltb_spec 0 (q_size q - n)); lia.
  - destruct (Z.ltb_spec 0 (q_size q - n)) as [Hb|Hb].
    + destruct (Hr Hb) as [r ->]. rewrite od_sum_set, <-H2. unfold id at 2 3.
      destruct (od_get r (blocked_counts d)); simpl; lia.
    + by destruct reason.
  - rewrite foldr_add_snoc. lia.
  - case_bool; lia.
Qed.

Lemma diagnose_queues_ok wm :
  diagnostics_ok (diagnose_queues wm) ∧ queued_items (diagnose_queues wm) = total_items (queue_topology wm).
Proof.
  unfold diagnose_queues, total_items.
  set (d0 := mkQueueDiagnostics _ _ _ _ _ _ _ _).
  assert (diagnostics_ok d0 ∧ queued_items d0 = 0) as [Hd Hz] by done.
  assert (∀ qs d tp, diagnostics_ok d →
    let d' := fold_left (λ d' kq, diagnose_queue wm (tp, kq.1) d' kq.2) qs d in
    diagnostics_ok d' ∧ queued_items d' = queued_items d + dict_items qs) as Hin.
  { induction qs as [|[key q] qs IH]; intros d tp Hok; cbn [fold_left].
    { split; [done|]. unfold dict_items. simpl. lia. }
    destruct (diagnose_queue_ok wm (tp, key) d q Hok) as [H1 H2]. destruct (IH _ tp H1) as [H3 H4].
    split; [exact H3|]. etransitivity; [exact H4|]. rewrite H2. unfold dict_items. simpl. lia. }
  revert Hd Hz. generalize d0. intros d Hd Hz. replace (od_sum _ _) with
    (queued_items d + od_sum dict_items (virtual_partition_queues (queue_topology wm))) by lia. clear Hz.
  revert d Hd. induction (virtual_partition_queues (queue_topology wm)) as [|[tp qs] l IH];
    intros d Hd; cbn [fold_left]; [simpl; split; [done|lia]|].
  destruct (Hin qs d tp Hd) as [H1 H2]. destruct (IH _ H1) as [H3 H4].
  split; [exact H3|]. etransitivity; [exact H4|]. rewrite H2. simpl. lia.
Qed.

(** The pipeline diagnostics account for every waiting item exactly once: eligible and
    blocked items add up to the queued items, which are the items of the queues; every blocked
    item is attributed to a reason; and the items held back by the in-flight limit are eligible ones. *)
Theorem pipeline_diagnostics_add_up limit wm :
  let p := get_pipeline_diagnostics limit wm in
  pd_queued p = total_items (queue_topology wm) ∧
  eligible_items (pd_subqueues p) + blocked_items (pd_subqueues p) = pd_queued p ∧
  od_sum id (pd_blocked_counts p) = blocked_items (pd_subqueues p) ∧
  0 ≤ pd_capacity_blocked_items p ≤ eligible_items (pd_subqueues p) ∧
  (pd_capacity_max_in_flight p = true ↔
     max_in_flight_messages wm - current_in_flight_count wm < eligible_items (pd_subqueues p) ∧
     0 < eligible_items (pd_subqueues p)).
Proof.
  destruct (diagnose_queues_ok wm) as [[H1 H2 H3 H4] H5]. simpl.
  split; [done|]. split; [done|]. split; [done|]. split; [lia|]. rewrite Z.ltb_lt. lia.
Qed.
End diagnostics.
