(* ===== verification/WorkManagerTrackers.v ===== *)
(** * What the work manager does to the trackers it shares

    The broker hands its own trackers to the work manager, which then leaves completing and
    committing to the broker: scheduling, polling and forcing failures do not touch a shared
    tracker, and a submission only raises the last fetched offset. *)

From S2P Require Import Prelude Vendor Runtime Dto OffsetTracker PoisonMessage WorkQueueTopology ExecutionEngine WorkManager.

Section trackers.
Context {E : Type} `{EE : ExecutionEngine E} `{TL : TrackerLibs} `{RT : Runtime}.
Implicit Types (wm : WorkManager E).

Definition tracker_view wm := (tracker_store wm, offset_trackers wm, shared_offset_trackers wm).

Definition all_shared wm : Prop := ∀ tp l, od_get tp (offset_trackers wm) = Some l → tp ∈ shared_offset_trackers wm.

Lemma all_shared_view wm wm' : tracker_view wm' = tracker_view wm → all_shared wm → all_shared wm'.
Proof. unfold tracker_view, all_shared. intros [= _ -> ->]. done. Qed.

(** Every update of the manager outside [assign_tracker] and [fetch_tracker] is of other fields. *)
Ltac view_cases := repeat (case_match; try done).

(** ** Scheduling *)

Lemma release_lock_trackers w wm : tracker_view (release_ordering_lock w wm) = tracker_view wm.
Proof. unfold release_ordering_lock. view_cases. Qed.

Lemma record_items_trackers ws wm : tracker_view (record_submitted_items ws wm) = tracker_view wm.
Proof.
  unfold record_submitted_items. apply (fold_left_inv (λ s, tracker_view s = tracker_view wm)); [|done].
  intros s w <-. unfold record_submitted_item. cbn. unfold record_ordering_lock. cbn. view_cases.
Qed.

Lemma check_force_fail_trackers b w wm : tracker_view (check_force_fail b w wm).2 = tracker_view wm.
Proof. unfold check_force_fail. cbn. by destruct (should_force_fail _ _ _). Qed.

Lemma truncate_trackers ws wm : tracker_view (truncate_batch_before_force_fail ws wm).2 = tracker_view wm.
Proof.
  revert wm. induction ws as [|w ws IH]; intros wm; cbn [truncate_batch_before_force_fail].
  { by destruct (poison_message_circuit wm). }
  destruct (poison_message_circuit wm) as [b|]; [|done].
  pose proof (check_force_fail_trackers b w wm) as H1. destruct (check_force_fail b w wm) as [[] wm1]; [done|].
  specialize (IH wm1). destruct (truncate_batch_before_force_fail ws wm1) as [ws2 wm2]. cbn in *. congruence.
Qed.

Lemma force_fail_queued_trackers w k wm : tracker_view (force_fail_queued_item w k wm).2 = tracker_view wm.
Proof.
  unfold force_fail_queued_item. destruct (poison_message_circuit wm) as [b|]; [|done].
  pose proof (check_force_fail_trackers b w wm) as H1. destruct (check_force_fail b w wm) as [[] wm1]; [|done].
  cbn [negb]. destruct (dequeue_submitted_item _ _ _) as [[] topo]; [|done].
  cbn. by destruct (poison_message_circuit wm1).
Qed.

Lemma submit_items_trackers ws wm : tracker_view (submit_items ws wm).2 = tracker_view wm.
Proof. unfold submit_items. by destruct (match ws with [w] => _ | _ => _ end). Qed.

Lemma dequeue_into_trackers k n wm : tracker_view (dequeue_into k n wm).2 = tracker_view wm.
Proof. unfold dequeue_into. by destruct (dequeue_submitted_items _ _ _ _). Qed.

Lemma submit_selected_trackers k q w ws truncated st :
  tracker_view (submit_selected k q w ws truncated st).2.2 = tracker_view st.2.
Proof.
  destruct st as [deferred wm]. unfold submit_selected. cbn [snd].
  set (wm0 := wm <| leased_queue_keys ::= _ |>).
  pose proof (submit_items_trackers ws wm0) as H1. destruct (submit_items ws wm0) as [outcome wm1]. cbn in H1.
  destruct outcome as [|n|]; [| |done].
  - pose proof (dequeue_into_trackers k (zlen ws) wm1) as H2. destruct (dequeue_into k (zlen ws) wm1) as [dq wm2].
    cbn in H2. destruct dq as [|d dq]; [exact (eq_trans H2 H1)|].
    pose proof (record_items_trackers (d :: dq) wm2) as H3.
    destruct truncated; exact (eq_trans H3 (eq_trans H2 H1)).
  - destruct (0 <? n); [|done].
    pose proof (dequeue_into_trackers k n wm1) as H2. destruct (dequeue_into k n wm1) as [dq wm2].
    cbn in H2. exact (eq_trans (record_items_trackers dq wm2) (eq_trans H2 H1)).
Qed.

Lemma schedule_key_trackers k st : tracker_view (schedule_key k st).2.2 = tracker_view st.2.
Proof.
  destruct st as [deferred wm]. unfold schedule_key. cbn [snd].
  destruct (get_queue _ _ _) as [q|]; [|done]. destruct (q_empty q); [done|].
  destruct (select_same_queue_batch q wm) as [|w ws]; [done|].
  pose proof (force_fail_queued_trackers w k wm) as H1. destruct (force_fail_queued_item w k wm) as [[] wm1]; [done|].
  pose proof (truncate_trackers (w :: ws) wm1) as H2.
  destruct (truncate_batch_before_force_fail (w :: ws) wm1) as [ws2 wm2]. cbn in H1, H2.
  destruct ws2 as [|w2 ws2]; [cbn; congruence|]. rewrite submit_selected_trackers. cbn. congruence.
Qed.

Lemma schedule_loop_trackers bo fuel st st' :
  schedule_loop bo fuel st = Some st' → tracker_view st'.2 = tracker_view st.2.
Proof.
  revert st. induction fuel as [|fuel IH]; intros st; cbn [schedule_loop]; [done|].
  assert (tracker_view (schedule_iteration bo st).2.2 = tracker_view st.2) as H1.
  { destruct st as [deferred wm]. unfold schedule_iteration. do 2 (case_match; [done|]).
    destruct (pop_next_queue_key _ _ _) as [[k|] topo]; [|done]. by rewrite schedule_key_trackers. }
  destruct (schedule_iteration bo st) as [[] st1]; [|by intros [= <-]]. intros H2%IH. cbn in H1. congruence.
Qed.

(** The blocking offsets of shared trackers are read off. *)
Lemma blocking_offsets_trackers wm : all_shared wm → tracker_view (get_blocking_offsets wm).2 = tracker_view wm.
Proof.
  intros Hsh. unfold get_blocking_offsets.
  assert (∀ l acc, (∀ p, p ∈ l → p.1 ∈ shared_offset_trackers acc.2) →
    tracker_view (fold_left blocking_offset_of l acc).2 = tracker_view acc.2) as H.
  { induction l as [|p l IH]; intros [bl w] Hp; [done|]. cbn [fold_left].
    assert (tracker_view (blocking_offset_of (bl, w) p).2 = tracker_view w) as H1.
    { unfold blocking_offset_of. rewrite decide_True by (apply (Hp p); left). by destruct (tracker_store w !! p.2). }
    rewrite IH; [exact H1|]. intros q Hq.
    assert (shared_offset_trackers (blocking_offset_of (bl, w) p).2 = shared_offset_trackers w) as ->
      by exact (f_equal snd H1). apply (Hp q). by right. }
  apply H. intros [tp l] Hin. cbn.
  destruct (od_get tp (offset_trackers wm)) as [l'|] eqn:Hl; [by eapply Hsh|].
  apply od_get_None in Hl. exfalso. apply Hl. apply list_elem_of_fmap. by exists (tp, l).
Qed.

Lemma schedule_trackers wm wm' : all_shared wm → schedule wm = Some wm' → tracker_view wm' = tracker_view wm.
Proof.
  intros Hsh. unfold schedule.
  match goal with |- context [let '(_, _) := ?x in _] => assert (tracker_view x.2 = tracker_view wm) as H1; [|destruct x as [bo wm1]] end.
  { case_match; [|done]. pose proof (blocking_offsets_trackers wm Hsh) as H1.
    destruct (get_blocking_offsets wm) as [bl w]. done. }
  intros (st & Hst & ->)%fmap_Some. apply schedule_loop_trackers in Hst. cbn in Hst, H1. rewrite <-H1, <-Hst.
  apply (fold_left_inv (λ s, tracker_view s = tracker_view st.2)); [|done].
  intros s k <-. unfold restore_deferred. destruct (get_queue _ _ _); [|done]. by case_match.
Qed.

(** ** Completions *)

Lemma release_item_trackers id b wm : tracker_view (release_in_flight_item id b wm).2 = tracker_view wm.
Proof.
  unfold release_in_flight_item. destruct (od_get id (in_flight_work_items wm)) as [w|]; [|done]. cbn [snd].
  match goal with |- context [decide ?P] => set (wm2 := if decide P then _ else _) end.
  assert (tracker_view wm2 = tracker_view wm) as H2 by (unfold wm2; by case_decide). clearbody wm2.
  destruct (od_get id (dispatch_timestamps wm)); [|destruct b; exact H2].
  rewrite <-H2, <-(release_lock_trackers w wm2). by destruct b.
Qed.

Lemma process_completion_trackers e wm :
  all_shared wm → tracker_view (process_completion_event e wm).2 = tracker_view wm.
Proof.
  intros Hsh. unfold process_completion_event.
  destruct (od_get (ce_tp e) (offset_trackers wm)) as [l|] eqn:Hl; [|done]. cbn [mbind option_bind].
  destruct (tracker_store wm !! l) as [t|]; [|done]. cbn [fmap option_fmap option_map].
  case_decide.
  { cbn [snd]. destruct (od_get (ce_id e) (in_flight_work_items wm)); [|done]. case_decide; [|done].
    exact (release_item_trackers (ce_id e) true wm). }
  rewrite decide_True by by eapply Hsh.
  destruct (od_get (ce_id e) (in_flight_work_items wm)) as [w|]; [|done].
  set (wm2 := match poison_message_circuit wm with Some _ => _ | None => _ end).
  assert (tracker_view wm2 = tracker_view wm) as H2 by (unfold wm2; by destruct (poison_message_circuit wm)).
  clearbody wm2. pose proof (release_item_trackers (ce_id e) false wm2) as H3.
  destruct (release_in_flight_item (ce_id e) false wm2) as [[r [d|]] wm3]; cbn [snd] in H3;
    [|exact (eq_trans H3 H2)].
  cbn [tick]. rewrite <-H2, <-H3. unfold observe_completion. cbn. by case_match.
Qed.

Lemma drain_completions_trackers events s wm :
  all_shared wm → tracker_view (drain_completions events s wm).2 = tracker_view wm.
Proof.
  revert s wm. induction events as [|e events IH]; intros s wm Hsh; cbn [drain_completions]; [done|].
  match goal with |- context [process_completion_event e ?w] =>
    pose proof (process_completion_trackers e w Hsh) as H1; destruct (process_completion_event e w) as [r wm1] end.
  cbn [snd] in H1.
  rewrite IH; [exact H1|]. by apply (all_shared_view wm).
Qed.

Lemma poll_loop_trackers b fuel acc wm events wm' :
  all_shared wm → poll_loop b fuel acc wm = Some (events, wm') → tracker_view wm' = tracker_view wm.
Proof.
  revert acc wm. induction fuel as [|fuel IH]; intros acc wm Hsh; cbn [poll_loop]; [done|].
  pose proof (drain_completions_trackers (completion_queue wm) false wm Hsh) as H1.
  destruct (drain_completions (completion_queue wm) false wm) as [r wm1]. cbn [snd] in H1.
  case_match; [by intros [= _ <-]|]. destruct (schedule wm1) as [wm2|] eqn:Hs; [|done].
  assert (tracker_view wm2 = tracker_view wm) as H2.
  { rewrite <-H1. apply (schedule_trackers wm1 wm2); [|done]. by apply (all_shared_view wm). }
  destruct (completion_queue wm2); [by intros [= _ <-]|]. intros H3%IH; [congruence|]. by apply (all_shared_view wm).
Qed.

Lemma poll_trackers b wm events wm' :
  all_shared wm → poll_completed_events b wm = Some (events, wm') → tracker_view wm' = tracker_view wm.
Proof.
  intros Hsh. unfold poll_completed_events. destruct (engine_poll_completed_events _ _) as [evs en].
  intros H%poll_loop_trackers; [exact H|exact Hsh].
Qed.

Lemma force_fail_trackers tp o ep error attempt wm :
  tracker_view (force_fail tp o ep error attempt wm).2 = tracker_view wm.
Proof.
  unfold force_fail. destruct (od_get _ _); [done|]. destruct (list_find _ _) as [[? [? ?]]|]; done.
Qed.

(** ** Submission *)

(** The tracker's settled offsets and epoch are as they were. *)
Definition fetched (t t' : OffsetTracker) : Prop :=
  last_committed_offset t' = last_committed_offset t ∧ completed_offsets t' = completed_offsets t ∧ epoch t' = epoch t.

Definition stores_fetched (s s' : gmap loc OffsetTracker) : Prop := ∀ l, option_Forall2 fetched (s !! l) (s' !! l).

#[export] Instance fetched_preorder : PreOrder fetched.
Proof. split; [done|]. intros t1 t2 t3 (A1 & A2 & A3) (B1 & B2 & B3). repeat split; congruence. Qed.

#[export] Instance stores_fetched_preorder : PreOrder stores_fetched.
Proof.
  split; [intros s l; destruct (s !! l); by constructor|].
  intros s1 s2 s3 H12 H23 l. specialize (H12 l). specialize (H23 l).
  inversion H12 as [t1 t2 Ht E1 E2|E1 E2]; rewrite <-E2 in H23; inversion H23 as [t2' t3 Ht' E2' E3|E2' E3].
  - constructor. by trans t2.
  - constructor.
Qed.

Lemma update_last_fetched_fetched o t : fetched t (update_last_fetched_offset o t).
Proof. unfold update_last_fetched_offset. by case_match. Qed.

Lemma make_work_items_trackers tp key ms maxes wm :
  tracker_view (make_work_items tp key ms maxes wm).2 = tracker_view wm.
Proof.
  revert maxes wm. induction ms as [|m ms IH]; intros maxes wm; cbn [make_work_items]; [done|].
  match goal with |- context [make_work_items tp key ms ?mx ?w1] =>
    specialize (IH mx w1); destruct (make_work_items tp key ms mx w1) as [[items maxes2] wm2] end.
  exact IH.
Qed.

Lemma submit_groups_trackers groups maxes wm :
  tracker_view (submit_groups groups maxes wm).2 = tracker_view wm.
Proof.
  revert maxes wm. induction groups as [|[[tp key] ms] groups IH]; intros maxes wm; cbn [submit_groups]; [done|].
  case_match; [done|].
  pose proof (make_work_items_trackers tp key ms maxes wm) as H1.
  destruct (make_work_items tp key ms maxes wm) as [[items maxes1] wm1]. cbn [snd] in H1.
  destruct (enqueue_batch _ _ _ _) as [topo|]; [|exact H1]. rewrite IH. exact H1.
Qed.

Lemma fetch_trackers_fetched l wm :
  let wm' := fold_left fetch_tracker l wm in
  stores_fetched (tracker_store wm) (tracker_store wm')
  ∧ offset_trackers wm' = offset_trackers wm ∧ shared_offset_trackers wm' = shared_offset_trackers wm.
Proof.
  revert wm. induction l as [|p l IH]; intros wm; cbn [fold_left]; [done|].
  destruct (IH (fetch_tracker wm p)) as (H1 & H2 & H3).
  assert (stores_fetched (tracker_store wm) (tracker_store (fetch_tracker wm p))
    ∧ offset_trackers (fetch_tracker wm p) = offset_trackers wm
    ∧ shared_offset_trackers (fetch_tracker wm p) = shared_offset_trackers wm) as (A1 & A2 & A3).
  { unfold fetch_tracker. destruct (od_get p.1 (offset_trackers wm)) as [l0|]; [|done]. split; [|done].
    intros l1. cbn. destruct (decide (l1 = l0)) as [->|]; [rewrite lookup_alter_eq|rewrite lookup_alter_ne by done].
    - destruct (tracker_store wm !! l0); constructor. apply update_last_fetched_fetched.
    - by destruct (tracker_store wm !! l1); constructor. }
  split; [by trans (tracker_store (fetch_tracker wm p))|]. split; congruence.
Qed.

Lemma submit_batch_trackers groups wm :
  let wm' := (submit_message_batch groups wm).2 in
  stores_fetched (tracker_store wm) (tracker_store wm')
  ∧ offset_trackers wm' = offset_trackers wm ∧ shared_offset_trackers wm' = shared_offset_trackers wm.
Proof.
  unfold submit_message_batch. pose proof (submit_groups_trackers groups [] wm) as Hg.
  destruct (submit_groups groups [] wm) as [[r maxes] wm1]. unfold tracker_view in Hg. cbn in Hg.
  injection Hg as E1 E2 E3. rewrite <-E1, <-E2, <-E3.
  destruct r; cbn [negb]; [|done]. case_decide; [done|]. cbn. apply (fetch_trackers_fetched maxes wm1).
Qed.

(** ** Assignment and revocation *)

Lemma on_revoke_shared tps wm : all_shared wm → all_shared (on_revoke tps wm).
Proof.
  intros Hsh. unfold on_revoke.
  assert (all_shared (fold_left revoke_partition tps wm)) as H1.
  { apply (fold_left_inv all_shared); [|done]. intros w tp Hw. unfold revoke_partition.
    destruct (revoke tp (queue_topology w)) as [n topo].
    assert (∀ w', offset_trackers w' = od_pop tp (offset_trackers w) →
      shared_offset_trackers w' = shared_offset_trackers w ∖ {[tp]} → all_shared w') as Hgo.
    { intros w' E1 E2 tp' l. rewrite E1, E2, od_get_pop. case_decide; [done|]. intros Hl%Hw. set_solver. }
    cbn. destruct (poison_message_circuit w); by apply Hgo. }
  case_decide; [exact H1|]. cbn zeta. set (w1 := fold_left revoke_partition tps wm) in *. clearbody w1.
  match goal with |- context [fold_left ?f ?l w1] => set (w2 := fold_left f l w1) end.
  assert (tracker_view w2 = tracker_view w1) as H2.
  { unfold w2. apply (fold_left_inv (λ s, tracker_view s = tracker_view w1)); [|done]. intros s id <-.
    apply release_item_trackers. }
  clearbody w2. apply (all_shared_view w1); [|done]. rewrite <-H2. by destruct (ordering_mode w2).
Qed.

Lemma on_assign_shared (locs : odict TopicPartition loc) wm :
  all_shared wm → all_shared (on_assign (od_map SharedTracker locs) wm).
Proof.
  intros Hsh. unfold on_assign. cbn.
  assert (all_shared (fold_left (λ acc p, assign_tracker p.1 p.2 acc) (od_map SharedTracker locs) wm)) as H; [|exact H].
  revert wm Hsh. induction locs as [|[tp l] locs IH]; intros wm Hsh; [done|]. cbn. apply IH.
  intros tp' l'. cbn. rewrite od_get_set. case_decide; [set_solver|]. intros Hl%Hsh. set_solver.
Qed.
End trackers.
