(* ===== verification/WorkManagerLoad.v ===== *)
(** * How much work the work manager holds

    The broker pauses consumption on the sum of the items in flight and the items queued.  Every
    operation of the work manager but a submission leaves that sum as it was or lowers it,
    whatever the engine answers and whatever is force-failed; a submission raises it by at most
    the messages submitted. *)

From S2P Require Import Prelude Vendor Runtime Dto OffsetTracker PoisonMessage WorkQueueTopology ExecutionEngine WorkManager.

Section load.
Context {E : Type} `{EE : ExecutionEngine E} `{TL : TrackerLibs} `{RT : Runtime}.
Implicit Types (wm : WorkManager E).

(** The queued total covers the items in the queues, and the in-flight count is one. *)
Definition counted wm : Prop :=
  dicts_nodup (queue_topology wm) ∧ total_items (queue_topology wm) ≤ total_queued_messages wm
  ∧ 0 ≤ get_total_in_flight_count wm.

Definition load wm : Z := get_total_in_flight_count wm + get_total_queued_messages wm.

(** From a counted state to one that holds at most [n] more *)
Definition grows (n : Z) wm wm' : Prop := counted wm → counted wm' ∧ load wm' ≤ load wm + n.

Definition load_view wm := (queue_topology wm, total_queued_messages wm, current_in_flight_count wm).

Lemma grows_view wm wm' : load_view wm' = load_view wm → grows 0 wm wm'.
Proof.
  unfold load_view, grows, counted, load, get_total_in_flight_count, get_total_queued_messages.
  intros [= -> -> ->]. split; [done|lia].
Qed.

Lemma grows_refl wm : grows 0 wm wm.
Proof. by apply grows_view. Qed.

Lemma grows_trans n m wm1 wm2 wm3 : grows n wm1 wm2 → grows m wm2 wm3 → grows (n + m) wm1 wm3.
Proof. intros H1 H2 Hc. destruct (H1 Hc) as [Hc2 ?]. destruct (H2 Hc2). split; [done|lia]. Qed.

Lemma grows_trans0 wm1 wm2 wm3 : grows 0 wm1 wm2 → grows 0 wm2 wm3 → grows 0 wm1 wm3.
Proof. apply (grows_trans 0 0). Qed.

Lemma grows_mono n m wm wm' : n ≤ m → grows n wm wm' → grows m wm wm'.
Proof. intros Hn H Hc. destruct (H Hc). split; [done|lia]. Qed.

Lemma grows_topology wm topo :
  virtual_partition_queues topo = virtual_partition_queues (queue_topology wm) →
  grows 0 wm (wm <| queue_topology := topo |>).
Proof.
  intros Hq (H1 & H2 & H3).
  split; [split; [|split]|unfold load, get_total_in_flight_count, get_total_queued_messages; cbn; lia]; cbn; [|by rewrite (total_items_frame _ _ Hq)|done].
  by eapply dicts_nodup_frame.
Qed.

Lemma grows_refresh wm tp key q : grows 0 wm (wm <| queue_topology ::= refresh_queue_head tp key q |>).
Proof. apply (grows_topology wm), refresh_queues. Qed.

Lemma grows_deactivate wm k : grows 0 wm (wm <| queue_topology ::= deactivate_queue_key k |>).
Proof. apply (grows_topology wm), deactivate_queues. Qed.

Ltac count_done :=
  unfold counted, load, get_total_in_flight_count, get_total_queued_messages in *; cbn in *;
  (split; [split; [done|split; lia]|lia]).

Ltac load_done := apply grows_view; repeat (case_match; try done); done.

(** ** Scheduling *)

Lemma release_lock_load w wm : load_view (release_ordering_lock w wm) = load_view wm.
Proof. unfold release_ordering_lock. repeat (case_match; try done). Qed.

Lemma record_item_load wm w :
  let wm' := record_submitted_item wm w in
  queue_topology wm' = queue_topology wm ∧ total_queued_messages wm' = Z.max 0 (total_queued_messages wm - 1)
  ∧ current_in_flight_count wm' = current_in_flight_count wm + 1.
Proof. unfold record_submitted_item. cbn. unfold record_ordering_lock. cbn. repeat (case_match; try done). Qed.

Lemma record_items_load ws wm :
  zlen ws ≤ total_queued_messages wm →
  let wm' := record_submitted_items ws wm in
  queue_topology wm' = queue_topology wm ∧ total_queued_messages wm' = total_queued_messages wm - zlen ws
  ∧ current_in_flight_count wm' = current_in_flight_count wm + zlen ws.
Proof.
  unfold record_submitted_items. revert wm. induction ws as [|w ws IH]; intros wm Hn; cbn [fold_left].
  { rewrite zlen_nil_0. split; [done|lia]. }
  rewrite zlen_cons in *. pose proof (zlen_nonneg ws).
  destruct (record_item_load wm w) as (H1 & H2 & H3). destruct (IH (record_submitted_item wm w)) as (H4 & H5 & H6); [lia|].
  rewrite H4, H5, H6, H1, H2, H3. split; [done|lia].
Qed.

(** Items taken from a queue and accounted for as in flight *)
Lemma dequeue_record_load k n wm :
  grows 0 wm (let '(ws, wm1) := dequeue_into k n wm in record_submitted_items ws wm1).
Proof.
  unfold dequeue_into. intros (Hd & Ht & Hn). pose proof (dequeue_items_count k n (queue_topology wm) Hd) as Hq.
  destruct (dequeue_submitted_items _ _ _ _) as [ws topo]. destruct Hq as [Hd' Ht'].
  pose proof (total_items_nonneg topo). pose proof (zlen_nonneg ws). unfold get_total_in_flight_count in Hn.
  destruct (record_items_load ws (wm <| queue_topology := topo |>)) as (H1 & H2 & H3); [cbn; lia|].
  cbn in H1, H2, H3. unfold counted, load, get_total_in_flight_count, get_total_queued_messages.
  rewrite H1, H2, H3. count_done.
Qed.

Lemma check_force_fail_load b w wm : load_view (check_force_fail b w wm).2 = load_view wm.
Proof. unfold check_force_fail. cbn. by destruct (should_force_fail _ _ _). Qed.

Lemma truncate_load ws wm : load_view (truncate_batch_before_force_fail ws wm).2 = load_view wm.
Proof.
  revert wm. induction ws as [|w ws IH]; intros wm; cbn [truncate_batch_before_force_fail].
  { by destruct (poison_message_circuit wm). }
  destruct (poison_message_circuit wm) as [b|]; [|done].
  pose proof (check_force_fail_load b w wm) as H1. destruct (check_force_fail b w wm) as [[] wm1]; [done|].
  specialize (IH wm1). destruct (truncate_batch_before_force_fail ws wm1) as [ws2 wm2]. cbn in *. congruence.
Qed.

Lemma force_fail_queued_load w k wm : grows 0 wm (force_fail_queued_item w k wm).2.
Proof.
  unfold force_fail_queued_item. destruct (poison_message_circuit wm) as [b|]; [|apply grows_refl].
  unfold check_force_fail. cbn. destruct (should_force_fail _ _ _) as [r b'].
  destruct r; cbn [negb snd]; [|by apply grows_view].
  intros (Hd & Ht & Hn). cbn.
  pose proof (dequeue_item_count k (queue_topology wm) Hd) as Hq.
  destruct (dequeue_submitted_item k.1 k.2 (queue_topology wm)) as [[item|] topo]; destruct Hq as [Hd' Ht']; cbn.
  - pose proof (total_items_nonneg topo). count_done.
  - count_done.
Qed.

Lemma submit_items_load ws wm : load_view (submit_items ws wm).2 = load_view wm.
Proof. unfold submit_items. by destruct (match ws with [w] => _ | _ => _ end). Qed.

Lemma submit_selected_load k q w ws truncated st : grows 0 st.2 (submit_selected k q w ws truncated st).2.2.
Proof.
  destruct st as [deferred wm]. unfold submit_selected. cbn [snd].
  set (wm0 := wm <| leased_queue_keys ::= _ |>).
  pose proof (submit_items_load ws wm0) as H1. destruct (submit_items ws wm0) as [outcome wm1]. cbn [snd] in H1.
  assert (grows 0 wm wm1) as Hg by by apply grows_view.
  assert (∀ wm', grows 0 wm' (wm' <| leased_queue_keys ::= λ s, s ∖ {[k]} |>)) as Hun by (intros; by apply grows_view).
  assert (grows 0 wm1 ((wm1 <| queue_topology ::= refresh_queue_head (wi_tp w) (wi_key w) q |>)
    <| leased_queue_keys ::= λ s, s ∖ {[k]} |>)) as Hre by (eapply grows_trans0; [apply grows_refresh|apply Hun]).
  eapply grows_trans0; [exact Hg|]. destruct outcome as [|n|]; [| |exact Hre].
  - pose proof (dequeue_record_load k (zlen ws) wm1) as H2. destruct (dequeue_into k (zlen ws) wm1) as [dq wm2].
    destruct dq as [|d dq]; [eapply grows_trans0; [exact H2|apply Hun]|].
    destruct truncated; (eapply grows_trans0; [exact H2|]); [|apply Hun].
    eapply grows_trans0; [apply grows_deactivate|apply Hun].
  - destruct (0 <? n); [|exact Hre].
    pose proof (dequeue_record_load k n wm1) as H2. destruct (dequeue_into k n wm1) as [dq wm2].
    eapply grows_trans0; [exact H2|apply Hun].
Qed.

Lemma schedule_key_load k st : grows 0 st.2 (schedule_key k st).2.2.
Proof.
  destruct st as [deferred wm]. unfold schedule_key. cbn [snd].
  destruct (get_queue _ _ _) as [q|]; [|apply grows_deactivate]. destruct (q_empty q); [apply grows_deactivate|].
  destruct (select_same_queue_batch q wm) as [|w ws]; [apply grows_refl|].
  pose proof (force_fail_queued_load w k wm) as H1. destruct (force_fail_queued_item w k wm) as [[] wm1]; [exact H1|].
  pose proof (truncate_load (w :: ws) wm1) as H2.
  destruct (truncate_batch_before_force_fail (w :: ws) wm1) as [ws2 wm2]. cbn [snd] in H1, H2.
  eapply grows_trans0; [exact H1|].
  destruct ws2 as [|w2 ws2]; [by apply grows_view|].
  eapply grows_trans0; [apply grows_view; exact H2|]. exact (submit_selected_load k q w (w2 :: ws2) _ (deferred, wm2)).
Qed.

Lemma pick_next_queues elig n t : virtual_partition_queues (pick_next_loop elig n t).2 = virtual_partition_queues t.
Proof.
  revert t. induction n as [|n IH]; intros t; cbn [pick_next_loop]; [done|].
  destruct (rq_popleft _) as [[k rest]|]; [|done].
  destruct (negb (bool_decide _)); [by rewrite IH|].
  destruct (match get_queue _ _ _ with None => true | Some q => q_empty q end); [by rewrite IH, deactivate_queues|].
  destruct (negb (elig k)); [by rewrite IH|done].
Qed.

Lemma pop_next_queues bo elig t : virtual_partition_queues (pop_next_queue_key bo elig t).2 = virtual_partition_queues t.
Proof.
  unfold pop_next_queue_key, pick_blocking_queue_key.
  destruct (fold_left _ _ _) as [[k ?]|]; [done|]. apply pick_next_queues.
Qed.

Lemma schedule_loop_load bo fuel st st' : schedule_loop bo fuel st = Some st' → grows 0 st.2 st'.2.
Proof.
  revert st. induction fuel as [|fuel IH]; intros st; cbn [schedule_loop]; [done|].
  assert (grows 0 st.2 (schedule_iteration bo st).2.2) as H1.
  { destruct st as [deferred wm]. unfold schedule_iteration. do 2 (case_match; [apply grows_refl|]).
    pose proof (pop_next_queues bo (is_queue_eligible wm) (queue_topology wm)) as H2.
    destruct (pop_next_queue_key _ _ _) as [[k|] topo]; cbn [snd] in H2 |- *; [|by apply grows_topology].
    eapply grows_trans0; [by apply grows_topology|]. exact (schedule_key_load k (deferred, wm <| queue_topology := topo |>)). }
  destruct (schedule_iteration bo st) as [[] st1]; [|by intros [= <-]]. intros H2%IH. by eapply grows_trans0.
Qed.

Lemma blocking_offsets_load wm : load_view (get_blocking_offsets wm).2 = load_view wm.
Proof.
  unfold get_blocking_offsets.
  apply (fold_left_inv (λ acc : odict TopicPartition (option OffsetRange) * WorkManager E, load_view acc.2 = load_view wm)); [|done].
  intros [bl w] p <-. unfold blocking_offset_of. repeat (case_match; try done).
Qed.

Lemma restore_deferred_load wm k : grows 0 wm (restore_deferred wm k).
Proof.
  unfold restore_deferred. destruct (get_queue _ _ _) as [q|]; [|apply grows_refl].
  destruct (q_empty q); [apply grows_refl|apply grows_refresh].
Qed.

Lemma grows_fold {A} (f : WorkManager E → A → WorkManager E) l wm :
  (∀ w x, grows 0 w (f w x)) → grows 0 wm (fold_left f l wm).
Proof.
  intros Hf. apply (fold_left_inv (grows 0 wm)); [|apply grows_refl]. intros s x Hs. by eapply grows_trans0.
Qed.

Lemma schedule_load wm wm' : schedule wm = Some wm' → grows 0 wm wm'.
Proof.
  unfold schedule.
  match goal with |- context [let '(_, _) := ?x in _] => assert (load_view x.2 = load_view wm) as H1; [|destruct x as [bo wm1]] end.
  { case_match; [|done]. pose proof (blocking_offsets_load wm) as H1. destruct (get_blocking_offsets wm) as [bl w]. done. }
  intros (st & Hst & ->)%fmap_Some. apply schedule_loop_load in Hst. cbn [snd] in Hst, H1.
  eapply grows_trans0; [apply grows_view; exact H1|]. eapply grows_trans0; [exact Hst|].
  apply grows_fold. intros. apply restore_deferred_load.
Qed.

(** ** Completions *)

Lemma release_item_load id b wm : grows 0 wm (release_in_flight_item id b wm).2.
Proof.
  unfold release_in_flight_item. destruct (od_get id (in_flight_work_items wm)) as [w|]; [|load_done]. cbn [snd].
  match goal with |- context [decide ?P] => set (wm2 := if decide P then _ else _) end.
  assert (load_view wm2 = load_view wm) as H2 by (unfold wm2; by case_decide). clearbody wm2.
  match goal with |- context [set_field queue_topology _ ?x] => set (wm3 := x) end.
  assert (load_view wm3 = load_view wm) as H3.
  { unfold wm3. destruct (od_get id (dispatch_timestamps wm)); [by rewrite release_lock_load|done]. } clearbody wm3.
  eapply grows_trans0; [apply grows_view; exact H3|].
  intros (Hd & Ht & Hn). destruct (cleanup_count (wi_tp w) (wi_key w) (queue_topology wm3) Hd) as [H4 H5].
  destruct (od_get id (dispatch_timestamps wm)); destruct b; cbn;
    count_done.
Qed.

Lemma process_completion_load e wm : grows 0 wm (process_completion_event e wm).2.
Proof.
  unfold process_completion_event.
  destruct (_ ≫= _) as [[l t]|]; [|load_done]. case_decide.
  { cbn [snd]. destruct (od_get (ce_id e) (in_flight_work_items wm)); [|load_done]. case_decide; [|load_done].
    eapply grows_trans0; [apply release_item_load|load_done]. }
  match goal with |- context [od_get (ce_id e) (in_flight_work_items ?x)] => set (wm1 := x) end.
  assert (load_view wm1 = load_view wm) as H1 by (unfold wm1; by case_decide). clearbody wm1.
  eapply grows_trans0; [apply grows_view; exact H1|].
  destruct (od_get (ce_id e) (in_flight_work_items wm1)) as [w|]; [|load_done].
  set (wm2 := match poison_message_circuit wm1 with Some _ => _ | None => _ end).
  assert (load_view wm2 = load_view wm1) as H2 by (unfold wm2; by destruct (poison_message_circuit wm1)).
  clearbody wm2. eapply grows_trans0; [apply grows_view; exact H2|].
  pose proof (release_item_load (ce_id e) false wm2) as H3.
  destruct (release_in_flight_item (ce_id e) false wm2) as [[r [d|]] wm3]; cbn [snd] in H3;
    (eapply grows_trans0; [exact H3|]); [|load_done].
  cbn [tick snd]. unfold observe_completion. load_done.
Qed.

Lemma drain_completions_load events s wm : grows 0 wm (drain_completions events s wm).2.
Proof.
  revert s wm. induction events as [|e events IH]; intros s wm; cbn [drain_completions]; [apply grows_refl|].
  pose proof (process_completion_load e (wm <| completion_queue := events |>)) as H1.
  destruct (process_completion_event e _) as [r wm1]. cbn [snd] in H1.
  eapply grows_trans0; [|apply IH]. eapply grows_trans0; [|exact H1]. load_done.
Qed.

Lemma poll_loop_load b fuel acc wm events wm' : poll_loop b fuel acc wm = Some (events, wm') → grows 0 wm wm'.
Proof.
  revert acc wm. induction fuel as [|fuel IH]; intros acc wm; cbn [poll_loop]; [done|].
  pose proof (drain_completions_load (completion_queue wm) false wm) as H1.
  destruct (drain_completions (completion_queue wm) false wm) as [r wm1]. cbn [snd] in H1.
  case_match; [by intros [= _ <-]|]. destruct (schedule wm1) as [wm2|] eqn:Hs; [|done].
  apply schedule_load in Hs. assert (grows 0 wm wm2) as H2 by by eapply grows_trans0.
  destruct (completion_queue wm2); [by intros [= _ <-]|]. intros H3%IH. by eapply grows_trans0.
Qed.

Lemma poll_load b wm events wm' : poll_completed_events b wm = Some (events, wm') → grows 0 wm wm'.
Proof.
  unfold poll_completed_events. destruct (engine_poll_completed_events _ _) as [evs en].
  intros H%poll_loop_load. eapply grows_trans0; [|exact H]. load_done.
Qed.

Lemma force_fail_load tp o ep error attempt wm : grows 0 wm (force_fail tp o ep error attempt wm).2.
Proof.
  unfold force_fail. destruct (od_get _ _); [load_done|]. destruct (list_find _ _) as [[? [? ?]]|]; load_done.
Qed.

Lemma set_max_load v wm wm' : set_max_in_flight_messages v wm = Some wm' → grows 0 wm wm'.
Proof. unfold set_max_in_flight_messages. case_match; [done|]. intros [= <-]. load_done. Qed.

(** ** Submission *)

Definition messages_in (groups : odict QueueKey (list GroupedMessage)) : Z := od_sum zlen groups.

Lemma make_work_items_load tp key ms maxes wm :
  let r := make_work_items tp key ms maxes wm in
  load_view r.2 = load_view wm ∧ zlen r.1.1 = zlen ms.
Proof.
  revert maxes wm. induction ms as [|m ms IH]; intros maxes wm; cbn [make_work_items]; [done|].
  match goal with |- context [make_work_items tp key ms ?mx ?w1] =>
    specialize (IH mx w1); destruct (make_work_items tp key ms mx w1) as [[items maxes2] wm2] end.
  cbn in IH |- *. destruct IH as [H1 H2]. rewrite !zlen_cons, H2. done.
Qed.

Lemma messages_in_cons k ms groups : messages_in ((k, ms) :: groups) = zlen ms + messages_in groups.
Proof. done. Qed.

Lemma messages_in_nonneg groups : 0 ≤ messages_in groups.
Proof.
  induction groups as [|[k ms] groups IH]; [done|]. rewrite messages_in_cons. pose proof (zlen_nonneg ms). lia.
Qed.

Lemma submit_groups_load groups maxes wm : grows (messages_in groups) wm (submit_groups groups maxes wm).2.
Proof.
  revert maxes wm. induction groups as [|[[tp key] ms] groups IH]; intros maxes wm; cbn [submit_groups].
  { apply grows_refl. }
  rewrite messages_in_cons. pose proof (zlen_nonneg ms). pose proof (messages_in_nonneg groups).
  destruct (negb _); [apply (grows_mono 0); [lia|apply grows_refl]|].
  destruct (make_work_items_load tp key ms maxes wm) as [H1 H2].
  destruct (make_work_items tp key ms maxes wm) as [[items maxes1] wm1]. cbn [fst snd] in H1, H2.
  destruct (enqueue_batch _ _ _ _) as [topo|] eqn:He; [|apply (grows_mono 0); [lia|by apply grows_view]].
  eapply grows_trans; [|apply IH]. apply (grows_trans 0 (zlen ms) wm wm1); [by apply grows_view|].
  intros (Hd & Ht & Hn). destruct (enqueue_batch_count (tp, key) items _ topo Hd He) as [H3 H4].
  count_done.
Qed.

Lemma submit_batch_load groups wm : grows (messages_in groups) wm (submit_message_batch groups wm).2.
Proof.
  unfold submit_message_batch. pose proof (submit_groups_load groups [] wm) as Hg.
  destruct (submit_groups groups [] wm) as [[r maxes] wm1]. cbn [snd] in Hg.
  destruct r; cbn [negb]; [|done]. case_decide; [done|]. cbn [snd].
  rewrite <-(Z.add_0_r (messages_in groups)). eapply grows_trans; [exact Hg|].
  eapply grows_trans0; [|load_done]. apply grows_fold. intros w p. unfold fetch_tracker. load_done.
Qed.

Lemma submit_message_load tp o ep key payload wm : grows 1 wm (submit_message tp o ep key payload wm).2.
Proof. apply submit_batch_load. Qed.

(** ** Revocation and assignment *)

Lemma on_revoke_load tps wm : grows 0 wm (on_revoke tps wm).
Proof.
  unfold on_revoke.
  assert (grows 0 wm (fold_left revoke_partition tps wm)) as H1.
  { apply grows_fold. intros w tp. unfold revoke_partition.
    intros (Hd & Ht & Hn). destruct (revoke_count tp (queue_topology w) Hd) as [H1 H2].
    assert (0 ≤ (revoke tp (queue_topology w)).1) as Hpos by apply dict_items_nonneg.
    destruct (revoke tp (queue_topology w)) as [n topo]. cbn [fst snd] in H1, H2, Hpos.
    pose proof (total_items_nonneg topo).
    assert (∀ w', queue_topology w' = topo → total_queued_messages w' = Z.max 0 (total_queued_messages w - n) →
      current_in_flight_count w' = current_in_flight_count w →
      counted w' ∧ load w' ≤ load w + 0) as Hgo.
    { intros w' E1 E2 E3. unfold counted, load, get_total_in_flight_count, get_total_queued_messages.
      rewrite E1, E2, E3. count_done. }
    cbn. destruct (poison_message_circuit w); by apply Hgo. }
  case_decide; [eapply grows_trans0; [exact H1|load_done]|]. cbn zeta.
  set (w1 := fold_left revoke_partition tps wm) in *. clearbody w1.
  match goal with |- context [fold_left ?f ?l w1] => set (w2 := fold_left f l w1) end.
  assert (grows 0 w1 w2) as H2 by (apply grows_fold; intros; apply release_item_load).
  clearbody w2. eapply grows_trans0; [exact H1|]. eapply grows_trans0; [exact H2|].
  apply grows_view. by destruct (ordering_mode w2).
Qed.

Lemma on_assign_load (assignments : odict TopicPartition AssignedTracker) wm : grows 0 wm (on_assign assignments wm).
Proof.
  unfold on_assign.
  assert (grows 0 wm (fold_left (λ acc p, assign_tracker p.1 p.2 acc) assignments wm)) as H.
  2: { eapply grows_trans0; [exact H|load_done]. }
  apply grows_fold. intros w [tp v]. cbn [fst snd]. set (w1 := assign_tracker tp v w).
  assert (queue_topology w1 = assign tp (queue_topology w)
    ∧ total_queued_messages w1 = total_queued_messages w
    ∧ current_in_flight_count w1 = current_in_flight_count w) as (E1 & E2 & E3) by (unfold w1, assign_tracker; by destruct v).
  intros (Hd & Ht & Hn). destruct (assign_count tp _ Hd) as [H1 H2].
  pose proof (dict_items_nonneg (partition_queues tp (queue_topology w))).
  unfold counted, load, get_total_in_flight_count, get_total_queued_messages in *. rewrite E1, E2, E3. count_done.
Qed.
End load.
