(* ===== verification/Adaptive.v ===== *)
(** * Adaptive limits and back pressure
    ([control_plane/adaptive_concurrency.py], [control_plane/adaptive_backpressure.py],
    [control_plane/broker_backpressure_support.py] and [check_backpressure] of
    [control_plane/broker_runtime_support.py])

    Two controllers move the in-flight limit of the broker between a floor and the
    configured maximum; the broker pauses and resumes the Kafka consumer on the load.
    What the broker needs from the work manager is the class [LimitedWork]. *)

From S2P Require Import Prelude Vendor Runtime Dto OffsetTracker PoisonMessage WorkQueueTopology ExecutionEngine WorkManager.

(** ** [int(n * 0.7)] in binary64

    The nearest number with a 53-bit significand, ties to even, of a positive integer;
    the literal [0.7] is [6305039478318694 / 2^53].  Neither factor is subnormal. *)

Definition round53 (m : Z) : Z :=
  let s := Z.log2 m - 52 in
  if s <=? 0 then m
  else
    let q := m / 2 ^ s in
    let r := m mod 2 ^ s in
    let half := 2 ^ (s - 1) in
    let q' := if r <? half then q else if half <? r then q + 1 else if Z.even q then q else q + 1 in
    q' * 2 ^ s.

Definition seven_tenths (n : Z) : Z := round53 (round53 n * 6305039478318694) / 2 ^ 53.

(** [max(1, int(limit * 0.7))] *)
Definition resume_limit_of (limit : Z) : Z := Z.max 1 (seven_tenths limit).

(** [int(queue_max * 0.7) if queue_max else 0] *)
Definition queue_resume_threshold_of (queue_max : Z) : Z :=
  if queue_max =? 0 then 0 else seven_tenths queue_max.

(** ** Adaptive concurrency *)

Record AdaptiveConcurrencyConfig := mkConcurrencyConfig {
  acc_enabled : bool;
  acc_min_in_flight : Z;
  acc_scale_up_step : Z;
  acc_scale_down_step : Z;
  acc_cooldown_ms : Z;
}.

(** The bounds the settings class validates *)
Definition concurrency_config_ok (c : AdaptiveConcurrencyConfig) : Prop :=
  0 ≤ acc_min_in_flight c ∧ 0 < acc_scale_up_step c ∧ 0 < acc_scale_down_step c ∧ 0 ≤ acc_cooldown_ms c.

Record AdaptiveConcurrencySample := mkSample {
  current_limit : Z;
  total_in_flight : Z;
  total_queued : Z;
  total_true_lag : Z;
  sample_is_paused : bool;
  queue_max_messages : Z;
}.

Record AdaptiveConcurrencyController := mkConcurrency {
  ac_config : AdaptiveConcurrencyConfig;
  ac_configured_max : Z;
  ac_min_in_flight : Z;
  ac_cooldown_seconds : Q;
  ac_last_adjusted_at : option Q;
}.

#[export] Instance AdaptiveConcurrencyController_settable : Settable AdaptiveConcurrencyController :=
  λ c, mkConcurrency (ac_config c) (ac_configured_max c) (ac_min_in_flight c)
         (ac_cooldown_seconds c) (ac_last_adjusted_at c).

Definition resolve_min_in_flight (configured raw : Z) : Z :=
  if raw <=? 0 then Z.max 1 (configured / 4) else Z.min configured (Z.max 1 raw).

Definition new_concurrency_controller (config : AdaptiveConcurrencyConfig) (configured_max_in_flight : Z)
    : AdaptiveConcurrencyController :=
  let configured := Z.max 1 configured_max_in_flight in
  mkConcurrency config configured (resolve_min_in_flight configured (acc_min_in_flight config))
    (Qmax0 (ms_to_seconds (acc_cooldown_ms config))) None.

(** [self._last_adjusted_at is not None and now - self._last_adjusted_at < self._cooldown_seconds] *)
Definition in_cooldown (last : option Q) (cooldown now : Q) : bool :=
  match last with
  | None => false
  | Some t => (now - t)%Q <q cooldown
  end.

(** [queue_max > 0 and queued >= queue_max] *)
Definition is_queue_full (queue_max queued : Z) : bool := (0 <? queue_max) && (queue_max <=? queued).

(** [evaluate] at the clock reading [now] *)
Definition ac_evaluate (sample : AdaptiveConcurrencySample) (now : Q) (c : AdaptiveConcurrencyController)
    : option Z * AdaptiveConcurrencyController :=
  if negb (acc_enabled (ac_config c)) then (None, c)
  else if in_cooldown (ac_last_adjusted_at c) (ac_cooldown_seconds c) now then (None, c)
  else
    let total_load := total_in_flight sample + total_queued sample in
    let queue_full := is_queue_full (queue_max_messages sample) (total_queued sample) in
    let new_limit :=
      if sample_is_paused sample || queue_full || (current_limit sample <? total_load) then
        Some (Z.max (ac_min_in_flight c) (current_limit sample - acc_scale_down_step (ac_config c)))
      else if (current_limit sample <=? total_true_lag sample) && (total_queued sample =? 0) then
        Some (Z.min (ac_configured_max c) (current_limit sample + acc_scale_up_step (ac_config c)))
      else None in
    match new_limit with
    | None => (None, c)
    | Some l => if l =? current_limit sample then (None, c)
                else (Some l, c <| ac_last_adjusted_at := Some now |>)
    end.

Record AdaptiveConcurrencyRuntimeSnapshot := mkConcurrencySnapshot {
  acs_configured_max_in_flight : Z;
  acs_effective_max_in_flight : Z;
  acs_min_in_flight : Z;
  acs_scale_up_step : Z;
  acs_scale_down_step : Z;
  acs_cooldown_ms : Z;
}.

Definition ac_build_runtime_snapshot (effective_max_in_flight : Z) (c : AdaptiveConcurrencyController)
    : AdaptiveConcurrencyRuntimeSnapshot :=
  mkConcurrencySnapshot (ac_configured_max c)
    (Z.max 1 (Z.min (ac_configured_max c) effective_max_in_flight))
    (ac_min_in_flight c) (acc_scale_up_step (ac_config c)) (acc_scale_down_step (ac_config c))
    (acc_cooldown_ms (ac_config c)).

(** ** Adaptive back pressure *)

Record AdaptiveBackpressureConfig := mkBackpressureConfig {
  abc_enabled : bool;
  abc_min_in_flight : Z;
  abc_scale_up_step : Z;
  abc_scale_down_step : Z;
  abc_cooldown_ms : Z;
  abc_lag_scale_up_threshold : Z;
  abc_low_latency_threshold_ms : Q;
  abc_high_latency_threshold_ms : Q;
}.

Definition backpressure_config_ok (c : AdaptiveBackpressureConfig) : Prop :=
  1 ≤ abc_min_in_flight c ∧ 0 < abc_scale_up_step c ∧ 0 < abc_scale_down_step c ∧ 0 ≤ abc_cooldown_ms c.

Inductive Decision_kind := DISABLED | HOLD | COOLDOWN | SCALE_DOWN | SCALE_UP.

Record AdaptiveBackpressureController := mkBackpressure {
  ab_config : AdaptiveBackpressureConfig;
  ab_configured_max : Z;
  ab_min_in_flight : Z;
  ab_effective_max_in_flight : Z;
  ab_cooldown_seconds : Q;
  ab_last_adjusted_at : option Q;
  last_decision : Decision_kind;
}.

#[export] Instance AdaptiveBackpressureController_settable : Settable AdaptiveBackpressureController :=
  λ c, mkBackpressure (ab_config c) (ab_configured_max c) (ab_min_in_flight c)
         (ab_effective_max_in_flight c) (ab_cooldown_seconds c) (ab_last_adjusted_at c) (last_decision c).

Definition new_backpressure_controller (configured_max_in_flight : Z) (config : AdaptiveBackpressureConfig)
    : AdaptiveBackpressureController :=
  let configured := Z.max 1 configured_max_in_flight in
  mkBackpressure config configured (Z.min configured (Z.max 1 (abc_min_in_flight config))) configured
    (Qmax0 (ms_to_seconds (abc_cooldown_ms config))) None
    (if negb (abc_enabled config) then DISABLED else HOLD).

(** The common end of both scaling branches: install [next_limit] when it differs *)
Definition ab_move_to (next_limit : Z) (now : Q) (decision : Decision_kind)
    (c : AdaptiveBackpressureController) : Z * AdaptiveBackpressureController :=
  if next_limit =? ab_effective_max_in_flight c
  then (ab_effective_max_in_flight c, c <| last_decision := HOLD |>)
  else (next_limit, c <| ab_effective_max_in_flight := next_limit |>
                      <| ab_last_adjusted_at := Some now |> <| last_decision := decision |>).

(** [evaluate] at the clock reading [now] *)
Definition ab_evaluate (lag queued : Z) (avg_completion_latency_seconds : option Q) (is_paused : bool)
    (now : Q) (c : AdaptiveBackpressureController) : Z * AdaptiveBackpressureController :=
  let cfg := ab_config c in
  if negb (abc_enabled cfg) then (ab_effective_max_in_flight c, c <| last_decision := DISABLED |>)
  else if in_cooldown (ab_last_adjusted_at c) (ab_cooldown_seconds c) now then
    (ab_effective_max_in_flight c, c <| last_decision := COOLDOWN |>)
  else
    let latency_ms := (λ s, (s * 1000)%Q) <$> avg_completion_latency_seconds in
    let should_scale_down :=
      is_paused || match latency_ms with Some ms => abc_high_latency_threshold_ms cfg <=q ms | None => false end in
    let should_scale_up :=
      (abc_lag_scale_up_threshold cfg <=? lag) && negb is_paused && (queued =? 0)
      && match latency_ms with Some ms => ms <=q abc_low_latency_threshold_ms cfg | None => false end in
    if should_scale_down then
      ab_move_to (Z.max (ab_min_in_flight c) (ab_effective_max_in_flight c - abc_scale_down_step cfg))
        now SCALE_DOWN c
    else if should_scale_up then
      ab_move_to (Z.min (ab_configured_max c) (ab_effective_max_in_flight c + abc_scale_up_step cfg))
        now SCALE_UP c
    else (ab_effective_max_in_flight c, c <| last_decision := HOLD |>).

Record AdaptiveBackpressureSnapshot := mkBackpressureSnapshot {
  abs_configured_max_in_flight : Z;
  abs_effective_max_in_flight : Z;
  abs_min_in_flight : Z;
  abs_scale_up_step : Z;
  abs_scale_down_step : Z;
  abs_cooldown_ms : Z;
  abs_lag_scale_up_threshold : Z;
  abs_low_latency_threshold_ms : Q;
  abs_high_latency_threshold_ms : Q;
  abs_last_decision : Decision_kind;
  abs_avg_completion_latency_seconds : option Q;
}.

Definition ab_build_runtime_snapshot (latency : option Q) (c : AdaptiveBackpressureController)
    : AdaptiveBackpressureSnapshot :=
  let cfg := ab_config c in
  mkBackpressureSnapshot (ab_configured_max c) (ab_effective_max_in_flight c) (ab_min_in_flight c)
    (abc_scale_up_step cfg) (abc_scale_down_step cfg) (abc_cooldown_ms cfg)
    (abc_lag_scale_up_threshold cfg) (abc_low_latency_threshold_ms cfg)
    (abc_high_latency_threshold_ms cfg) (last_decision c) latency.

(** ** What the broker needs of the work manager *)

Class LimitedWork (W : Type) := {
  lw_total_in_flight : W → Z;          (* get_total_in_flight_count *)
  lw_total_queued : W → Z;             (* get_total_queued_messages *)
  lw_average_latency : W → option Q;   (* get_average_completion_latency_seconds *)
  lw_limit : W → Z;                    (* the limit the scheduler obeys *)
  lw_set_limit : Z → W → option W;     (* set_max_in_flight_messages; None is the ValueError *)
}.

Class LimitedWorkLaws (W : Type) `{LimitedWork W} : Prop := {
  lw_set_limit_ok v w : 1 ≤ v → ∃ w', lw_set_limit v w = Some w' ∧ lw_limit w' = v
                          ∧ lw_total_in_flight w' = lw_total_in_flight w
                          ∧ lw_total_queued w' = lw_total_queued w;
}.

#[export] Instance work_manager_limited {E} `{ExecutionEngine E} `{TrackerLibs} : LimitedWork (WorkManager E) := {|
  lw_total_in_flight := get_total_in_flight_count;
  lw_total_queued := get_total_queued_messages;
  lw_average_latency := completion_latency_ema_seconds;
  lw_limit := max_in_flight_messages;
  lw_set_limit := set_max_in_flight_messages;
|}.

#[export] Instance work_manager_limited_laws {E} `{ExecutionEngine E} `{TrackerLibs} : LimitedWorkLaws (WorkManager E).
Proof.
  constructor. intros v w Hv. cbn [lw_set_limit work_manager_limited]. unfold set_max_in_flight_messages.
  destruct (Z.ltb_spec v 1); [lia|]. by eexists.
Qed.

(** ** Broker back pressure *)

(** The calls made on the Kafka consumer *)
Inductive ConsumerCall :=
  | Pause (partitions : list TopicPartition)
  | Resume (partitions : list TopicPartition).

Section broker_backpressure.
Context {W : Type} `{LW : LimitedWork W}.

Record BrokerLimits := mkLimits {
  configured_max_in_flight : Z;
  MAX_IN_FLIGHT_MESSAGES : Z;
  MIN_IN_FLIGHT_MESSAGES_TO_RESUME : Z;
  QUEUE_MAX_MESSAGES : Z;
  queue_resume_threshold : Z;
  is_paused : bool;
  backpressure_controller : AdaptiveBackpressureController;
  concurrency_controller : AdaptiveConcurrencyController;
  limited_work : W;
  consumer_calls : list ConsumerCall;   (* pause and resume calls so far, oldest first *)
}.

#[export] Instance BrokerLimits_settable : Settable BrokerLimits :=
  λ b, mkLimits (configured_max_in_flight b) (MAX_IN_FLIGHT_MESSAGES b)
         (MIN_IN_FLIGHT_MESSAGES_TO_RESUME b) (QUEUE_MAX_MESSAGES b) (queue_resume_threshold b)
         (is_paused b) (backpressure_controller b) (concurrency_controller b) (limited_work b)
         (consumer_calls b).

(** [set_runtime_max_in_flight]; [None] is an error of the work manager *)
Definition set_runtime_max_in_flight (value : Z) (b : BrokerLimits) : option BrokerLimits :=
  let new_value := Z.max 1 (Z.min (Z.max 1 (configured_max_in_flight b)) value) in
  let old_value := MAX_IN_FLIGHT_MESSAGES b in
  let b1 := b <| MAX_IN_FLIGHT_MESSAGES := new_value |>
              <| MIN_IN_FLIGHT_MESSAGES_TO_RESUME := resume_limit_of new_value |> in
  if old_value =? new_value then Some b1
  else
    match lw_set_limit new_value (limited_work b1) with
    | None => None
    | Some w => Some (b1 <| limited_work := w |>)
    end.

(** The broker's constructor, as far as limits go: the work manager [w] was built with the
    configured limit *)
Definition init_limits (configured queue_max : Z) (bp : AdaptiveBackpressureConfig)
    (cc : AdaptiveConcurrencyConfig) (w : W) : option BrokerLimits :=
  set_runtime_max_in_flight configured
    (mkLimits configured configured (resume_limit_of configured) queue_max
       (queue_resume_threshold_of queue_max) false
       (new_backpressure_controller configured bp) (new_concurrency_controller cc configured) w []).

Definition maybe_adjust_adaptive_backpressure (queued lag : Z) (now : Q) (b : BrokerLimits) : option BrokerLimits :=
  if negb (abc_enabled (ab_config (backpressure_controller b))) then Some b
  else
    let '(new_limit, c) :=
      ab_evaluate lag queued (lw_average_latency (limited_work b)) (is_paused b) now
        (backpressure_controller b) in
    let b1 := b <| backpressure_controller := c |> in
    if new_limit =? MAX_IN_FLIGHT_MESSAGES b1 then Some b1 else set_runtime_max_in_flight new_limit b1.

Definition maybe_adjust_adaptive_concurrency (queued lag : Z) (now : Q) (b : BrokerLimits) : option BrokerLimits :=
  let sample := mkSample (MAX_IN_FLIGHT_MESSAGES b) (lw_total_in_flight (limited_work b)) queued lag
                  (is_paused b) (QUEUE_MAX_MESSAGES b) in
  let '(new_limit, c) := ac_evaluate sample now (concurrency_controller b) in
  let b1 := b <| concurrency_controller := c |> in
  match new_limit with
  | None => Some b1
  | Some l => set_runtime_max_in_flight l b1
  end.

(** [BrokerRuntimeSupport.check_backpressure] with the consumer's assignment: the new paused
    flag and the call on the consumer *)
Definition check_runtime_backpressure (assignment : list TopicPartition) (queued : Z) (b : BrokerLimits)
    : bool * list ConsumerCall :=
  let current_load := lw_total_in_flight (limited_work b) + queued in
  match assignment with
  | [] => (is_paused b, [])
  | _ =>
      let queue_full := is_queue_full (QUEUE_MAX_MESSAGES b) queued in
      if negb (is_paused b) && ((MAX_IN_FLIGHT_MESSAGES b <? current_load) || queue_full) then
        (true, [Pause assignment])
      else if is_paused b && ((current_load <? MIN_IN_FLIGHT_MESSAGES_TO_RESUME b)
                 && ((queue_resume_threshold b =? 0) || (queued <=? queue_resume_threshold b))) then
        (false, [Resume assignment])
      else (is_paused b, [])
  end.

(** [BrokerBackpressureSupport.check_backpressure]: [assignment] is [None] when the consumer is
    not initialised, [now1] and [now2] are the clock readings of the two controllers.  The
    outer [None] is the [RuntimeError]. *)
Definition check_backpressure (assignment : option (list TopicPartition)) (lag : Z) (now1 now2 : Q)
    (b : BrokerLimits) : option BrokerLimits :=
  match assignment with
  | None => None
  | Some partitions =>
      let queued := lw_total_queued (limited_work b) in
      match maybe_adjust_adaptive_backpressure queued lag now1 b with
      | None => None
      | Some b1 =>
          match maybe_adjust_adaptive_concurrency queued lag now2 b1 with
          | None => None
          | Some b2 =>
              let current_load := lw_total_in_flight (limited_work b2) + queued in
              let queue_full := is_queue_full (QUEUE_MAX_MESSAGES b2) queued in
              if negb (abc_enabled (ab_config (backpressure_controller b2)))
                 && negb (acc_enabled (ac_config (concurrency_controller b2)))
                 && negb (is_paused b2) && negb queue_full
                 && (current_load <=? MAX_IN_FLIGHT_MESSAGES b2)
              then Some b2
              else
                let '(paused, calls) := check_runtime_backpressure partitions queued b2 in
                Some (b2 <| is_paused := paused |> <| consumer_calls ::= λ l, l ++ calls |>)
          end
      end
  end.
End broker_backpressure.

Arguments BrokerLimits W : clear implicits.

(** [_get_total_true_lag] over the broker's trackers *)
Definition get_total_true_lag `{TL : TrackerLibs} (trackers : list OffsetTracker) : Z :=
  fold_left (λ acc t, acc + Z.max 0 (last_fetched_offset t - last_committed_offset t)) trackers 0.

(** ** Rounding *)

(** Rounding to 53 bits errs by at most one part in [2^53]. *)
Lemma round53_error m : 1 ≤ m → (2 ^ 53 - 1) * m ≤ 2 ^ 53 * round53 m ≤ (2 ^ 53 + 1) * m.
Proof.
  intros Hm. unfold round53. cbv zeta. change (2 ^ 53) with 9007199254740992.
  destruct (Z.leb_spec (Z.log2 m - 52) 0); [lia|].
  destruct (Z.log2_spec m) as [Hlo _]; [lia|].
  set (s := Z.log2 m - 52) in *.
  assert (2 ^ Z.log2 m = 2 ^ 53 * 2 ^ (s - 1)) as E1
    by (rewrite <-Z.pow_add_r by lia; f_equal; lia).
  change (2 ^ 53) with 9007199254740992 in *.
  assert (2 ^ s = 2 * 2 ^ (s - 1)) as E2
    by (rewrite <-Z.pow_succ_r by lia; f_equal; lia).
  assert (0 < 2 ^ (s - 1)) by lia.
  pose proof (Z.div_mod m (2 ^ s) ltac:(lia)) as Hdm.
  pose proof (Z.mod_pos_bound m (2 ^ s) ltac:(lia)).
  rewrite E2 in *. set (h := 2 ^ (s - 1)) in *. rewrite E1 in Hlo.
  set (q := m / (2 * h)) in *. set (r := m mod (2 * h)) in *.
  case_bool; [nia|]. case_bool; [nia|]. destruct (Z.even q); nia.
Qed.

Lemma seven_tenths_bounds n :
  1 ≤ n → 0 ≤ seven_tenths n ∧ seven_tenths n < n ∧ (2 ≤ n → 1 ≤ seven_tenths n).
Proof.
  intros Hn. unfold seven_tenths.
  pose proof (round53_error n Hn) as H1. set (a := round53 n) in *.
  assert (1 ≤ a) by (change (2 ^ 53) with 9007199254740992 in *; lia).
  pose proof (round53_error (a * 6305039478318694) ltac:(lia)) as H2.
  set (b := round53 (a * 6305039478318694)) in *.
  change (2 ^ 53) with 9007199254740992 in *.
  repeat split; [apply Z.div_pos; lia|apply Z.div_lt_upper_bound; lia|].
  intros. apply Z.div_le_lower_bound; lia.
Qed.

Lemma resume_limit_bounds n : 1 ≤ n → 1 ≤ resume_limit_of n ≤ n.
Proof. intros Hn. unfold resume_limit_of. pose proof (seven_tenths_bounds n Hn). lia. Qed.

#[export] Hint Resolve resume_limit_bounds : py.

(** The product is rounded before it is truncated: 90 slots resume below 62, not 63. *)
Example seven_tenths_of_90 : seven_tenths 90 = 62 ∧ seven_tenths 100 = 70 ∧ seven_tenths 1 = 0.
Proof. by vm_compute. Qed.

(** ** The concurrency controller *)

(** The adjustments of a run: the sample, the time and the limit chosen *)
Fixpoint ac_run (c : AdaptiveConcurrencyController) (inputs : list (AdaptiveConcurrencySample * Q))
    : list (AdaptiveConcurrencySample * Q * Z) :=
  match inputs with
  | [] => []
  | (s, now) :: rest =>
      match ac_evaluate s now c with
      | (Some l, c') => (s, now, l) :: ac_run c' rest
      | (None, c') => ac_run c' rest
      end
  end.

Definition overloaded (s : AdaptiveConcurrencySample) : bool :=
  sample_is_paused s || is_queue_full (queue_max_messages s) (total_queued s)
  || (current_limit s <? total_in_flight s + total_queued s).

(** What one adjustment may be *)
Definition ac_adjustment_ok (c : AdaptiveConcurrencyController) (a : AdaptiveConcurrencySample * Q * Z) : Prop :=
  let '(s, _, l) := a in
  if overloaded s then
    l = Z.max (ac_min_in_flight c) (current_limit s - acc_scale_down_step (ac_config c)) ∧ l ≠ current_limit s
  else
    l = Z.min (ac_configured_max c) (current_limit s + acc_scale_up_step (ac_config c)) ∧ l ≠ current_limit s
    ∧ current_limit s ≤ total_true_lag s ∧ total_queued s = 0.

Definition spaced {A} (cooldown : Q) : list (A * Q * Z) → Prop :=
  Sorted (λ a b, (cooldown <= b.1.2 - a.1.2)%Q).

Lemma ac_evaluate_spec s now c l c' :
  ac_evaluate s now c = (l, c') →
  match l with
  | None => c' = c
  | Some z => ac_adjustment_ok c (s, now, z) ∧ c' = c <| ac_last_adjusted_at := Some now |>
              ∧ in_cooldown (ac_last_adjusted_at c) (ac_cooldown_seconds c) now = false
              ∧ acc_enabled (ac_config c) = true
  end.
Proof.
  unfold ac_evaluate, ac_adjustment_ok. fold (overloaded s).
  destruct (acc_enabled (ac_config c)) eqn:He; cbn [negb]; [|by intros [= <- <-]].
  destruct (in_cooldown _ _ _) eqn:Hc; [by intros [= <- <-]|].
  destruct (overloaded s).
  - case_bool; intros [= <- <-]; [done|]. done.
  - destruct (Z.leb_spec (current_limit s) (total_true_lag s)); cbn [andb]; [|by intros [= <- <-]].
    destruct (Z.eqb_spec (total_queued s) 0); cbn [andb]; [|by intros [= <- <-]].
    case_bool; intros [= <- <-]; done.
Qed.

Lemma ac_run_ok c inputs :
  Forall (ac_adjustment_ok c) (ac_run c inputs) ∧ spaced (ac_cooldown_seconds c) (ac_run c inputs)
  ∧ (∀ t a rest, ac_last_adjusted_at c = Some t → ac_run c inputs = a :: rest →
       (ac_cooldown_seconds c <= a.1.2 - t)%Q).
Proof.
  revert c. induction inputs as [|[s now] rest IH]; intros c; cbn [ac_run]; [repeat constructor; done|].
  destruct (ac_evaluate s now c) as [[l|] c'] eqn:He; apply ac_evaluate_spec in He; [|by subst].
  destruct He as (Hok & -> & Hcd & _).
  destruct (IH (c <| ac_last_adjusted_at := Some now |>)) as (Hall & Hsp & Hhd).
  repeat split.
  - constructor; [done|]. exact Hall.
  - constructor; [exact Hsp|].
    destruct (ac_run _ rest) as [|a r] eqn:E; constructor.
    exact (Hhd now a r eq_refl eq_refl).
  - intros t a r Ht [= <- _]. unfold in_cooldown in Hcd. rewrite Ht in Hcd. by apply Qltb_ge.
Qed.

Lemma min_in_flight_range configured raw :
  1 ≤ configured → 1 ≤ resolve_min_in_flight configured raw ≤ configured.
Proof.
  intros H. unfold resolve_min_in_flight. case_bool; [|lia].
  pose proof (Z.div_le_upper_bound configured 4 configured). lia.
Qed.

Lemma Qmax0_ms_to_seconds ms : 0 ≤ ms → Qmax0 (ms_to_seconds ms) = ms_to_seconds ms.
Proof.
  intros. unfold Qmax0. replace (0 <=q _) with true; [done|]. symmetry. apply Qle_bool_iff.
  unfold ms_to_seconds, Qdiv, Qmult, Qle; simpl. lia.
Qed.

(** A run of the adaptive concurrency controller, from any configuration the settings
    validate and on any samples: every adjustment keeps the limit between the floor and the
    configured maximum and changes it; under overload (paused, full queue, or load above the
    limit) a limit above the floor goes down; otherwise it goes up, and only when the lag
    reaches the limit and nothing is queued; and consecutive adjustments are at least the
    cooldown apart. *)
Theorem concurrency_adjustments_sound config configured inputs :
  concurrency_config_ok config →
  let c := new_concurrency_controller config configured in
  Forall (λ '(s, _, l),
      (1 ≤ current_limit s ≤ Z.max 1 configured → 1 ≤ l ≤ Z.max 1 configured) ∧
      (if overloaded s
       then ac_min_in_flight c ≤ l ∧ (ac_min_in_flight c ≤ current_limit s → l < current_limit s)
       else current_limit s ≤ total_true_lag s ∧ total_queued s = 0
            ∧ (current_limit s ≤ Z.max 1 configured → current_limit s < l)))
    (ac_run c inputs)
  ∧ spaced (ms_to_seconds (acc_cooldown_ms config)) (ac_run c inputs).
Proof.
  intros (H0 & Hup & Hdown & Hcd) c. destruct (ac_run_ok c inputs) as (Hall & Hsp & _).
  assert (1 ≤ ac_min_in_flight c ≤ Z.max 1 configured) as Hmin by (apply min_in_flight_range; lia).
  assert (ac_config c = config) as Ec by done.
  assert (ac_configured_max c = Z.max 1 configured) as Em by done.
  assert (ac_cooldown_seconds c = ms_to_seconds (acc_cooldown_ms config)) as Es
    by (by apply Qmax0_ms_to_seconds).
  clearbody c. rewrite <-Es. split; [|done].
  eapply Forall_impl; [exact Hall|]. intros [[s t] l]. unfold ac_adjustment_ok. rewrite Ec, Em.
  destruct (overloaded s); intros; destruct_and!; repeat split; intros; lia.
Qed.

Definition demo_concurrency_config : AdaptiveConcurrencyConfig := mkConcurrencyConfig true 0 32 64 1000.

(** Overload at time 0 lowers 100 to 36, the sample half a second later is ignored, and lag
    at time 2 raises 36 to 68. *)
Definition demo_samples : list (AdaptiveConcurrencySample * Q) :=
  [(mkSample 100 90 20 500 false 0, 0%Q); (mkSample 36 90 20 500 false 0, 1 # 2);
   (mkSample 36 0 0 500 false 0, 2%Q)].

Lemma concurrency_adjustments_sound_witness :
  concurrency_config_ok demo_concurrency_config
  ∧ (λ a, a.2) <$> ac_run (new_concurrency_controller demo_concurrency_config 100) demo_samples = [36; 68]
  ∧ spaced (ms_to_seconds 1000) (ac_run (new_concurrency_controller demo_concurrency_config 100) demo_samples).
Proof.
  assert (concurrency_config_ok demo_concurrency_config) as Hc by (repeat split; vm_compute; congruence).
  split; [exact Hc|]. split; [vm_compute; reflexivity|].
  exact (proj2 (concurrency_adjustments_sound demo_concurrency_config 100 demo_samples Hc)).
Defined.

(** ** The back-pressure controller *)

Record BackpressureInput := mkInput {
  in_lag : Z; in_queued : Z; in_latency : option Q; in_paused : bool; in_now : Q;
}.

Definition ab_step (c : AdaptiveBackpressureController) (i : BackpressureInput)
    : Z * AdaptiveBackpressureController :=
  ab_evaluate (in_lag i) (in_queued i) (in_latency i) (in_paused i) (in_now i) c.

(** The changes of the effective limit in a run: the limit before, the time, the limit after *)
Fixpoint ab_run (c : AdaptiveBackpressureController) (inputs : list BackpressureInput)
    : list (BackpressureInput * Q * Z) :=
  match inputs with
  | [] => []
  | i :: rest =>
      let '(l, c') := ab_step c i in
      if l =? ab_effective_max_in_flight c then ab_run c' rest else (i, in_now i, l) :: ab_run c' rest
  end.

Definition slow (cfg : AdaptiveBackpressureConfig) (i : BackpressureInput) : Prop :=
  in_paused i = true ∨ ∃ s, in_latency i = Some s ∧ (abc_high_latency_threshold_ms cfg <= s * 1000)%Q.

Definition fast (cfg : AdaptiveBackpressureConfig) (i : BackpressureInput) : Prop :=
  in_paused i = false ∧ in_queued i = 0 ∧ abc_lag_scale_up_threshold cfg ≤ in_lag i
  ∧ ∃ s, in_latency i = Some s ∧ (s * 1000 <= abc_low_latency_threshold_ms cfg)%Q.

(** The effective limit lies between the floor and the configured maximum. *)
Definition ab_inv (c : AdaptiveBackpressureController) : Prop :=
  1 ≤ ab_min_in_flight c ∧ ab_min_in_flight c ≤ ab_effective_max_in_flight c
  ∧ ab_effective_max_in_flight c ≤ ab_configured_max c
  ∧ 0 < abc_scale_up_step (ab_config c) ∧ 0 < abc_scale_down_step (ab_config c).

(** The parts of a controller that never change *)
Definition ab_same_setup (c c' : AdaptiveBackpressureController) : Prop :=
  ab_config c' = ab_config c ∧ ab_configured_max c' = ab_configured_max c
  ∧ ab_min_in_flight c' = ab_min_in_flight c ∧ ab_cooldown_seconds c' = ab_cooldown_seconds c.

(** One evaluation: the value returned is the effective limit; it changes only outside the
    cooldown, down when the pipeline is slow and up when it is fast and idle. *)
Definition ab_moved (c : AdaptiveBackpressureController) (i : BackpressureInput) (l : Z)
    (c' : AdaptiveBackpressureController) : Prop :=
  l = ab_effective_max_in_flight c' ∧ ab_same_setup c c' ∧
  if decide (l = ab_effective_max_in_flight c) then ab_last_adjusted_at c' = ab_last_adjusted_at c
  else ab_last_adjusted_at c' = Some (in_now i)
       ∧ in_cooldown (ab_last_adjusted_at c) (ab_cooldown_seconds c) (in_now i) = false
       ∧ (slow (ab_config c) i
            ∧ l = Z.max (ab_min_in_flight c) (ab_effective_max_in_flight c - abc_scale_down_step (ab_config c))
          ∨ ¬ slow (ab_config c) i ∧ fast (ab_config c) i
            ∧ l = Z.min (ab_configured_max c) (ab_effective_max_in_flight c + abc_scale_up_step (ab_config c))).

Lemma ab_move_to_spec next i d c l c' :
  ab_move_to next (in_now i) d c = (l, c') →
  l = ab_effective_max_in_flight c' ∧ ab_same_setup c c' ∧
  if decide (l = ab_effective_max_in_flight c) then ab_last_adjusted_at c' = ab_last_adjusted_at c
  else ab_last_adjusted_at c' = Some (in_now i) ∧ l = next.
Proof.
  unfold ab_move_to, ab_same_setup. destruct (Z.eqb_spec next (ab_effective_max_in_flight c));
    intros [= <- <-]; case_decide; done.
Qed.

Lemma slow_bool cfg i :
  in_paused i || match (λ s, (s * 1000)%Q) <$> in_latency i with
                 | Some ms => abc_high_latency_threshold_ms cfg <=q ms | None => false end = true
  ↔ slow cfg i.
Proof.
  unfold slow. rewrite orb_true_iff. destruct (in_latency i) as [s|]; simpl.
  - rewrite Qle_bool_iff. naive_solver.
  - naive_solver.
Qed.

Lemma ab_step_spec c i l c' : ab_step c i = (l, c') → ab_moved c i l c'.
Proof.
  unfold ab_step, ab_evaluate, ab_moved.
  destruct (abc_enabled _); cbn [negb]; [|intros [= <- <-]; by case_decide].
  destruct (in_cooldown _ _ _) eqn:Hc; [intros [= <- <-]; by case_decide|].
  cbv zeta. pose proof (slow_bool (ab_config c) i) as Hslow.
  destruct (in_paused i || _) eqn:Hs.
  - intros (-> & ? & H)%ab_move_to_spec. repeat (split; [done|]). case_decide; [done|].
    destruct H. repeat (split; [done|]). left. split; [by apply Hslow|done].
  - assert (¬ slow (ab_config c) i) as Hns by (intros ?%Hslow; done).
    apply orb_false_iff in Hs as [Hp _]. rewrite Hp. cbn [negb andb].
    destruct (_ && _ && _ && _) eqn:Hf; [|intros [= <- <-]; by case_decide].
    intros (-> & ? & H)%ab_move_to_spec. repeat (split; [done|]). case_decide; [done|].
    destruct H. repeat (split; [done|]). right. split; [done|]. split; [|done].
    repeat rewrite andb_true_iff in Hf. destruct Hf as (((Hl & _) & Hq) & Ht).
    split; [done|]. split; [lia|]. split; [lia|].
    destruct (in_latency i) as [s|]; simpl in Ht; [|done]. exists s. split; [done|]. by apply Qle_bool_iff.
Qed.

Lemma ab_moved_inv c i l c' : ab_inv c → ab_moved c i l c' → ab_inv c'.
Proof.
  intros (Hmin & Hlo & Hhi & Hup & Hdown) (-> & (E1 & E2 & E3 & E4) & H).
  unfold ab_inv. rewrite E1, E2, E3. case_decide as Heq; [rewrite Heq; done|].
  destruct H as (_ & _ & [(_ & ->)|(_ & _ & ->)]); repeat split; lia.
Qed.

(** What one change of the limit may be, for a controller set up as [c0] *)
Definition ab_adjustment_ok (c0 : AdaptiveBackpressureController) (a : BackpressureInput * Q * Z) : Prop :=
  let '(i, _, l) := a in
  ab_min_in_flight c0 ≤ l ∧ l ≤ ab_configured_max c0
  ∧ (slow (ab_config c0) i ∧ l < ab_configured_max c0
     ∨ ¬ slow (ab_config c0) i ∧ fast (ab_config c0) i ∧ ab_min_in_flight c0 < l).

Lemma ab_adjustment_ok_setup c c' a : ab_same_setup c c' → ab_adjustment_ok c' a → ab_adjustment_ok c a.
Proof. intros (E1 & E2 & E3 & _). destruct a as [[i t] l]. unfold ab_adjustment_ok. by rewrite E1, E2, E3. Qed.

Lemma ab_run_ok c inputs :
  ab_inv c →
  Forall (ab_adjustment_ok c) (ab_run c inputs) ∧ spaced (ab_cooldown_seconds c) (ab_run c inputs)
  ∧ (∀ t a rest, ab_last_adjusted_at c = Some t → ab_run c inputs = a :: rest →
       (ab_cooldown_seconds c <= a.1.2 - t)%Q).
Proof.
  revert c. induction inputs as [|i rest IH]; intros c Hinv; cbn [ab_run]; [repeat constructor; done|].
  destruct (ab_step c i) as [l c'] eqn:He. apply ab_step_spec in He.
  pose proof (ab_moved_inv _ _ _ _ Hinv He) as Hinv'.
  destruct He as (El & Hset & H). destruct (IH c' Hinv') as (Hall & Hsp & Hhd).
  assert (Forall (ab_adjustment_ok c) (ab_run c' rest)) as Hall'
    by (eapply Forall_impl; [exact Hall|]; intros a; by apply ab_adjustment_ok_setup).
  destruct Hinv as (Hmin & Hlo & Hhi & Hup & Hdown). destruct Hinv' as (Hmin' & Hlo' & Hhi' & _).
  destruct Hset as (E1 & E2 & E3 & E4). rewrite E2, E3, E4 in *.
  destruct (Z.eqb_spec l (ab_effective_max_in_flight c)) as [Heq|Hne].
  - rewrite decide_True in H by done. rewrite H in Hhd. done.
  - rewrite decide_False in H by done. destruct H as (Hlast & Hcd & H). repeat split.
    + constructor; [|done]. unfold ab_adjustment_ok. rewrite <-El in Hlo', Hhi'.
      split; [done|]. split; [done|].
      destruct H as [(? & ?)|(? & ? & ?)]; [left|right]; repeat (split; [done|]); lia.
    + constructor; [done|]. destruct (ab_run c' rest) as [|a r] eqn:E; constructor.
      exact (Hhd (in_now i) a r Hlast eq_refl).
    + intros t a r Ht [= <- _]. unfold in_cooldown in Hcd. rewrite Ht in Hcd. by apply Qltb_ge.
Qed.

Lemma new_backpressure_inv configured config :
  backpressure_config_ok config → ab_inv (new_backpressure_controller configured config).
Proof.
  intros (? & ? & ? & ?). unfold ab_inv, new_backpressure_controller. cbn. lia.
Qed.

(** A run of the adaptive back-pressure controller, from any configuration the settings
    validate and on any inputs: every change keeps the limit between the floor and the
    configured maximum, lowers it only when the consumer is paused or the average latency is
    at the high threshold, raises it only when it is not slow, nothing is queued, the lag is
    at its threshold and the latency is known and low; consecutive changes are at least the
    cooldown apart. *)
Theorem backpressure_adjustments_sound configured config inputs :
  backpressure_config_ok config →
  let c := new_backpressure_controller configured config in
  let floor := Z.min (Z.max 1 configured) (abc_min_in_flight config) in
  Forall (λ '(i, _, l),
      floor ≤ l ≤ Z.max 1 configured
      ∧ (slow config i ∧ l < Z.max 1 configured ∨ ¬ slow config i ∧ fast config i ∧ floor < l))
    (ab_run c inputs)
  ∧ spaced (ms_to_seconds (abc_cooldown_ms config)) (ab_run c inputs).
Proof.
  intros Hok c floor. destruct (ab_run_ok c inputs) as (Hall & Hsp & _); [by apply new_backpressure_inv|].
  destruct Hok as (H1 & H2 & H3 & H4).
  assert (ab_cooldown_seconds c = ms_to_seconds (abc_cooldown_ms config)) as Es
    by (by apply Qmax0_ms_to_seconds).
  rewrite <-Es. split; [|done]. eapply Forall_impl; [exact Hall|]. intros [[i t] l].
  unfold ab_adjustment_ok. cbn [c ab_min_in_flight ab_configured_max ab_config new_backpressure_controller].
  rewrite (Z.max_r 1 (abc_min_in_flight config)) by lia. tauto.
Qed.

Definition demo_backpressure_config : AdaptiveBackpressureConfig :=
  mkBackpressureConfig true 1 16 16 1000 0 25 100.

Lemma backpressure_adjustments_sound_witness :
  backpressure_config_ok demo_backpressure_config
  ∧ (λ a, a.2) <$> ab_run (new_backpressure_controller 100 demo_backpressure_config)
      [mkInput 10 5 (Some (1 # 5)) false 0; mkInput 10 5 None true (1 # 2);
       mkInput 10 0 (Some (1 # 100)) false 3] = [84; 100]
  ∧ spaced (ms_to_seconds 1000) (ab_run (new_backpressure_controller 100 demo_backpressure_config)
      [mkInput 10 5 (Some (1 # 5)) false 0; mkInput 10 5 None true (1 # 2);
       mkInput 10 0 (Some (1 # 100)) false 3]).
Proof.
  assert (backpressure_config_ok demo_backpressure_config) as Hc by (repeat split; vm_compute; congruence).
  split; [exact Hc|]. split; [vm_compute; reflexivity|].
  exact (proj2 (backpressure_adjustments_sound 100 demo_backpressure_config _ Hc)).
Defined.

(** ** The broker's limits along a run *)

(** The paused flag after a sequence of consumer calls, [None] when the consumer is paused
    twice or resumed twice in a row. *)
Fixpoint paused_after (p : bool) (calls : list ConsumerCall) : option bool :=
  match calls with
  | [] => Some p
  | Pause _ :: rest => if p then None else paused_after true rest
  | Resume _ :: rest => if p then paused_after false rest else None
  end.

Lemma paused_after_app p calls more q :
  paused_after p calls = Some q → paused_after p (calls ++ more) = paused_after q more.
Proof.
  revert p. induction calls as [|[l|l] calls IH]; intros p; simpl; [by intros [= ->]|..];
    destruct p; auto; done.
Qed.

Section limits_theory.
Context {W : Type} `{LL : LimitedWorkLaws W}.
Implicit Types b : BrokerLimits W.

Record limits_inv b : Prop := mkLimitsInv {
  li_limit : 1 ≤ MAX_IN_FLIGHT_MESSAGES b ≤ Z.max 1 (configured_max_in_flight b);
  li_resume : MIN_IN_FLIGHT_MESSAGES_TO_RESUME b = resume_limit_of (MAX_IN_FLIGHT_MESSAGES b);
  li_work : lw_limit (limited_work b) = MAX_IN_FLIGHT_MESSAGES b;
  li_threshold : queue_resume_threshold b = queue_resume_threshold_of (QUEUE_MAX_MESSAGES b);
  li_calls : paused_after false (consumer_calls b) = Some (is_paused b);
}.

Lemma set_runtime_max_in_flight_spec value b :
  limits_inv b →
  ∃ b', set_runtime_max_in_flight value b = Some b' ∧ limits_inv b'
    ∧ MAX_IN_FLIGHT_MESSAGES b' = Z.max 1 (Z.min (Z.max 1 (configured_max_in_flight b)) value)
    ∧ configured_max_in_flight b' = configured_max_in_flight b
    ∧ lw_total_in_flight (limited_work b') = lw_total_in_flight (limited_work b)
    ∧ QUEUE_MAX_MESSAGES b' = QUEUE_MAX_MESSAGES b ∧ is_paused b' = is_paused b
    ∧ consumer_calls b' = consumer_calls b.
Proof.
  intros [H1 H2 H3 H4 H5]. unfold set_runtime_max_in_flight.
  set (v := Z.max 1 _). assert (1 ≤ v ≤ Z.max 1 (configured_max_in_flight b)) as Hv by lia.
  destruct (Z.eqb_spec (MAX_IN_FLIGHT_MESSAGES b) v) as [Heq|Hne].
  - eexists. split; [done|]. split; [|done]. constructor; try done. cbn. congruence.
  - destruct (lw_set_limit_ok v (limited_work b)) as (w' & Hset & Hl & Hif & _); [lia|].
    cbn [limited_work set_field]. rewrite Hset.
    eexists. split; [done|]. split; [constructor; done|]. done.
Qed.

Lemma adjust_backpressure_spec queued lag now b :
  limits_inv b →
  ∃ b', maybe_adjust_adaptive_backpressure queued lag now b = Some b' ∧ limits_inv b'
    ∧ configured_max_in_flight b' = configured_max_in_flight b.
Proof.
  intros Hb. unfold maybe_adjust_adaptive_backpressure.
  destruct (negb _); [by exists b|]. destruct (ab_evaluate _ _ _ _ _ _) as [l c].
  set (b1 := b <| backpressure_controller := c |>).
  assert (limits_inv b1) as Hb1 by (destruct Hb; by constructor).
  destruct (l =? _); [by exists b1|].
  destruct (set_runtime_max_in_flight_spec l b1 Hb1) as (b' & ? & ? & _ & ? & _). by exists b'.
Qed.

Lemma adjust_concurrency_spec queued lag now b :
  limits_inv b →
  ∃ b', maybe_adjust_adaptive_concurrency queued lag now b = Some b' ∧ limits_inv b'
    ∧ configured_max_in_flight b' = configured_max_in_flight b.
Proof.
  intros Hb. unfold maybe_adjust_adaptive_concurrency.
  destruct (ac_evaluate _ _ _) as [[l|] c];
    set (b1 := b <| concurrency_controller := c |>);
    assert (limits_inv b1) as Hb1 by (destruct Hb; by constructor); [|by exists b1].
  destruct (set_runtime_max_in_flight_spec l b1 Hb1) as (b' & ? & ? & _ & ? & _). by exists b'.
Qed.

(** A check makes at most one call, and the flag says which call was the last. *)
Lemma check_runtime_calls ps queued b paused calls :
  check_runtime_backpressure ps queued b = (paused, calls) →
  paused_after (is_paused b) calls = Some paused.
Proof.
  unfold check_runtime_backpressure. destruct ps as [|p ps]; [by intros [= <- <-]|].
  destruct (is_paused b); cbn [negb andb].
  - destruct (_ && _); by intros [= <- <-].
  - destruct (_ || _); by intros [= <- <-].
Qed.

Lemma check_backpressure_spec ps lag now1 now2 b :
  limits_inv b →
  ∃ b', check_backpressure (Some ps) lag now1 now2 b = Some b' ∧ limits_inv b'
    ∧ configured_max_in_flight b' = configured_max_in_flight b.
Proof.
  intros Hb. unfold check_backpressure. set (queued := lw_total_queued (limited_work b)).
  destruct (adjust_backpressure_spec queued lag now1 b Hb) as (b1 & -> & Hb1 & E1).
  destruct (adjust_concurrency_spec queued lag now2 b1 Hb1) as (b2 & -> & Hb2 & E2).
  destruct (_ && _); [exists b2; by rewrite E2|].
  destruct (check_runtime_backpressure ps queued b2) as [paused calls] eqn:Hc.
  apply check_runtime_calls in Hc. eexists. split; [done|]. split; [|cbn; congruence].
  destruct Hb2. constructor; try done. cbn. by rewrite (paused_after_app _ _ _ (is_paused b2)).
Qed.

(** The broker checks its load at any moment; between checks the work manager does anything
    but change its limit. *)
Inductive limits_step b : unit → BrokerLimits W → Prop :=
  | limits_check ps lag now1 now2 b' :
      check_backpressure (Some ps) lag now1 now2 b = Some b' → limits_step b () b'
  | limits_work w :
      lw_limit w = lw_limit (limited_work b) → limits_step b () (b <| limited_work := w |>).

Lemma limits_step_inv b e b' : limits_inv b → limits_step b e b' → limits_inv b'.
Proof.
  intros Hb [ps lag n1 n2 b1 Hs|w Hw].
  - destruct (check_backpressure_spec ps lag n1 n2 b Hb) as (b2 & Hs' & ? & _). congruence.
  - destruct Hb. constructor; try done. cbn. congruence.
Qed.

Lemma init_limits_inv configured queue_max bp cc w b :
  1 ≤ configured → lw_limit w = configured → init_limits configured queue_max bp cc w = Some b →
  limits_inv b ∧ configured_max_in_flight b = configured.
Proof.
  intros Hc Hw Hi. unfold init_limits in Hi.
  set (b0 := mkLimits _ _ _ _ _ _ _ _ _ _) in Hi.
  assert (limits_inv b0) as H0 by (constructor; cbn; try done; lia).
  destruct (set_runtime_max_in_flight_spec configured b0 H0) as (b' & ? & ? & _ & ? & _).
  simplify_eq. done.
Qed.

Lemma limits_step_configured b e b' :
  limits_inv b → limits_step b e b' → configured_max_in_flight b' = configured_max_in_flight b.
Proof.
  intros Hb [ps lag n1 n2 b1 Hs|w Hw]; [|done].
  destruct (check_backpressure_spec ps lag n1 n2 b Hb) as (b2 & Hs' & _ & ?). congruence.
Qed.

(** A state of the broker after its constructor and any steps *)
Definition reachable_limits (configured queue_max : Z) (b' : BrokerLimits W) : Prop :=
  ∃ bp cc w b es, lw_limit w = configured ∧ init_limits configured queue_max bp cc w = Some b
    ∧ steps limits_step b es b'.

Lemma reachable_limits_inv configured queue_max b' :
  1 ≤ configured → reachable_limits configured queue_max b' →
  limits_inv b' ∧ configured_max_in_flight b' = configured.
Proof.
  intros Hc (bp & cc & w & b & es & Hw & Hi & Hs).
  revert Hs. apply (steps_invariant _ (λ b, limits_inv b ∧ configured_max_in_flight b = configured));
    [|by eapply init_limits_inv].
  intros s e s' [Hi' Es] Hst. split; [by eapply limits_step_inv|].
  rewrite (limits_step_configured _ _ _ Hi' Hst). done.
Qed.

(** From the constructor on, whatever the two controllers decide and however the work
    manager evolves: the live in-flight limit stays between 1 and the configured maximum, the
    scheduler obeys exactly that limit, the resume threshold is 70 percent of it and never above
    it, pause and resume calls on the consumer strictly alternate with the paused flag telling
    which was last, and the next check always returns. *)
Theorem broker_limits_sound configured queue_max (b : BrokerLimits W) :
  1 ≤ configured → reachable_limits configured queue_max b →
  1 ≤ MAX_IN_FLIGHT_MESSAGES b ≤ configured
  ∧ lw_limit (limited_work b) = MAX_IN_FLIGHT_MESSAGES b
  ∧ MIN_IN_FLIGHT_MESSAGES_TO_RESUME b = Z.max 1 (seven_tenths (MAX_IN_FLIGHT_MESSAGES b))
  ∧ MIN_IN_FLIGHT_MESSAGES_TO_RESUME b ≤ MAX_IN_FLIGHT_MESSAGES b
  ∧ paused_after false (consumer_calls b) = Some (is_paused b)
  ∧ ∀ ps lag now1 now2, is_Some (check_backpressure (Some ps) lag now1 now2 b).
Proof.
  intros Hc Hr. destruct (reachable_limits_inv _ _ _ Hc Hr) as [Hb Eb].
  pose proof (λ ps lag now1 now2, check_backpressure_spec ps lag now1 now2 b Hb) as Hck.
  destruct Hb as [H1 H2 H3 H4 H5]. pose proof (resume_limit_bounds (MAX_IN_FLIGHT_MESSAGES b) ltac:(lia)).
  rewrite Eb in H1. split; [lia|]. split; [done|]. split; [done|]. split; [lia|]. split; [done|].
  intros. destruct (Hck ps lag now1 now2) as (? & -> & _). done.
Qed.

(** The pause decision has hysteresis: for a running consumer with an assignment, a check
    pauses exactly when the load is above the limit or the queue is full, and then a second
    check at the same load leaves the consumer paused.  The second part needs a queue limit
    other than 1. *)
Theorem pause_has_hysteresis configured queue_max (b : BrokerLimits W) p ps queued :
  1 ≤ configured → reachable_limits configured queue_max b → is_paused b = false →
  let load := lw_total_in_flight (limited_work b) + queued in
  let full := 0 < QUEUE_MAX_MESSAGES b ∧ QUEUE_MAX_MESSAGES b ≤ queued in
  (check_runtime_backpressure (p :: ps) queued b = (true, [Pause (p :: ps)])
     ↔ MAX_IN_FLIGHT_MESSAGES b < load ∨ full)
  ∧ (check_runtime_backpressure (p :: ps) queued b = (true, [Pause (p :: ps)]) →
     QUEUE_MAX_MESSAGES b ≠ 1 →
     check_runtime_backpressure (p :: ps) queued (b <| is_paused := true |>) = (true, [])).
Proof.
  intros Hc Hr Hp load full. destruct (reachable_limits_inv _ _ _ Hc Hr) as [[H1 H2 H3 H4 H5] _].
  unfold check_runtime_backpressure. rewrite Hp. cbn [negb andb]. fold load.
  assert ((MAX_IN_FLIGHT_MESSAGES b <? load) || is_queue_full (QUEUE_MAX_MESSAGES b) queued = true
          ↔ MAX_IN_FLIGHT_MESSAGES b < load ∨ full) as Hiff.
  { unfold is_queue_full. rewrite orb_true_iff, andb_true_iff, Z.ltb_lt, Z.ltb_lt, Z.leb_le. done. }
  destruct (_ || _); [|split; [split; [done|intros ?%Hiff; done]|done]].
  split; [split; [intros _; by apply Hiff|done]|]. intros _ Hq. cbn. fold load.
  destruct (_ && _) eqn:Hrs; [|done]. exfalso.
  apply andb_true_iff in Hrs as [Hlow Hth]. rewrite H2 in Hlow. rewrite H4 in Hth.
  pose proof (resume_limit_bounds (MAX_IN_FLIGHT_MESSAGES b) ltac:(lia)).
  destruct (proj1 Hiff eq_refl) as [?|[Hf1 Hf2]]; [lia|].
  unfold queue_resume_threshold_of in Hth. case_bool; [lia|].
  pose proof (seven_tenths_bounds (QUEUE_MAX_MESSAGES b)). lia.
Qed.
End limits_theory.

(** ** Concrete runs *)

#[local] Instance adaptive_demo_libs : TrackerLibs := vendor_lists.

(** A work manager with limit 10, [n] items in flight and [q] queued *)
Definition loaded_manager (n q : Z) : WorkManager DemoEngine :=
  mkWM (mkDemoEngine 10 [] [] false) ∅ [] new_topology [] [] [] [] q None [] 10 n false None KEY_HASH
    500 ∅ ∅ ∅ ∅ ∅ [] 100 0 ∅ None 4 0 0.

Definition limits_demo_tp : TopicPartition := mkTp "orders" 0.

Definition fixed_backpressure : AdaptiveBackpressureConfig := mkBackpressureConfig false 1 16 16 1000 0 25 100.
Definition fixed_concurrency : AdaptiveConcurrencyConfig := mkConcurrencyConfig false 0 32 64 1000.

(** The broker with queue limit [queue_max], before and after load arrives *)
Definition limits_demo_0 (queue_max : Z) : BrokerLimits (WorkManager DemoEngine) :=
  mkLimits 10 10 7 queue_max (queue_resume_threshold_of queue_max) false
    (new_backpressure_controller 10 fixed_backpressure) (new_concurrency_controller fixed_concurrency 10)
    (loaded_manager 0 0) [].
Definition limits_demo_1 (queue_max n q : Z) : BrokerLimits (WorkManager DemoEngine) :=
  (limits_demo_0 queue_max) <| limited_work := loaded_manager n q |>.

Lemma limits_demo_reachable queue_max n q : reachable_limits 10 queue_max (limits_demo_1 queue_max n q).
Proof.
  exists fixed_backpressure, fixed_concurrency, (loaded_manager 0 0), (limits_demo_0 queue_max), [()].
  split; [done|]. split; [done|].
  apply steps_cons with (limits_demo_1 queue_max n q); [by apply limits_work|apply steps_nil].
Qed.

Lemma broker_limits_sound_witness :
  reachable_limits 10 0 (limits_demo_1 0 8 4)
  ∧ MIN_IN_FLIGHT_MESSAGES_TO_RESUME (limits_demo_1 0 8 4) = 7
  ∧ is_Some (check_backpressure (Some [limits_demo_tp]) 0 0 0 (limits_demo_1 0 8 4)).
Proof.
  pose proof (limits_demo_reachable 0 8 4) as Hr. split; [exact Hr|]. split; [reflexivity|].
  destruct (broker_limits_sound 10 0 (limits_demo_1 0 8 4) ltac:(lia) Hr) as (_ & _ & _ & _ & _ & H).
  apply H.
Defined.

Lemma pause_has_hysteresis_witness :
  check_runtime_backpressure [limits_demo_tp] 4 (limits_demo_1 4 2 4) = (true, [Pause [limits_demo_tp]])
  ∧ check_runtime_backpressure [limits_demo_tp] 4 ((limits_demo_1 4 2 4) <| is_paused := true |>) = (true, []).
Proof.
  split; [vm_compute; reflexivity|].
  apply (pause_has_hysteresis 10 4 (limits_demo_1 4 2 4) limits_demo_tp [] 4 ltac:(lia)
           (limits_demo_reachable 4 2 4) eq_refl); [vm_compute; reflexivity|cbn; lia].
Defined.

(** A queue limit of 1 gets the resume threshold [int(1 * 0.7) = 0], which the check reads
    as "no threshold": the broker pauses a consumer with a full queue and resumes it at the very
    next check although the queue is still full, and so on without end. *)
Theorem queue_limit_of_one_flaps :
  let b := limits_demo_1 1 0 1 in
  reachable_limits 10 1 b ∧ queue_resume_threshold b = 0 ∧
  ∃ b1 b2, check_backpressure (Some [limits_demo_tp]) 0 0 0 b = Some b1
    ∧ check_backpressure (Some [limits_demo_tp]) 0 0 0 b1 = Some b2
    ∧ is_paused b1 = true ∧ is_paused b2 = false
    ∧ consumer_calls b2 = [Pause [limits_demo_tp]; Resume [limits_demo_tp]]
    ∧ lw_total_queued (limited_work b2) = QUEUE_MAX_MESSAGES b2.
Proof.
  split; [apply limits_demo_reachable|]. split; [by vm_compute|].
  eexists _, _. split; [reflexivity|]. split; [reflexivity|]. by vm_compute.
Qed.
