(* ===== verification/MetricsDto.v ===== *)
(** * What the consumer reports about itself ([pyrallel_consumer/dto.py])

    The frozen data classes of metrics, runtime snapshots and pipeline diagnostics, and the
    enumerations whose values become metric labels. *)

From S2P Require Import Prelude Vendor Dto WorkManager Adaptive.

(** ** System metrics *)

Inductive ResourceSignalStatus := AVAILABLE | UNAVAILABLE | STALE | FIRST_SAMPLE_PENDING.

#[export] Instance ResourceSignalStatus_eq_dec : EqDecision ResourceSignalStatus.
Proof. solve_decision. Defined.
#[export] Instance Decision_kind_eq_dec : EqDecision Decision_kind.
Proof. solve_decision. Defined.

Definition resource_status_value (s : ResourceSignalStatus) : string :=
  match s with
  | AVAILABLE => "available"
  | UNAVAILABLE => "unavailable"
  | STALE => "stale"
  | FIRST_SAMPLE_PENDING => "first_sample_pending"
  end.

Record ResourceSignalSnapshot := mkResourceSignal {
  rsig_status : ResourceSignalStatus;
  rsig_cpu_utilization : option Q;
  rsig_memory_utilization : option Q;
}.

(** The values of [AdaptiveBackpressureController.last_decision] *)
Definition decision_value (d : Decision_kind) : string :=
  match d with
  | DISABLED => "disabled"
  | HOLD => "hold"
  | COOLDOWN => "cooldown"
  | SCALE_DOWN => "scale_down"
  | SCALE_UP => "scale_up"
  end.

Record ProcessBatchMetrics := mkProcessBatchMetrics {
  pbm_size_flush_count : Z;
  pbm_timer_flush_count : Z;
  pbm_close_flush_count : Z;
  pbm_total_flushed_items : Z;
  pbm_last_flush_size : Z;
  pbm_last_flush_wait_seconds : Q;
  pbm_buffered_items : Z;
  pbm_buffered_age_seconds : Q;
  pbm_demand_flush_count : Z;
  pbm_last_main_to_worker_ipc_seconds : Q;
  pbm_avg_main_to_worker_ipc_seconds : Q;
  pbm_last_worker_exec_seconds : Q;
  pbm_avg_worker_exec_seconds : Q;
  pbm_last_worker_to_main_ipc_seconds : Q;
  pbm_avg_worker_to_main_ipc_seconds : Q;
  pbm_transport_mode : string;
  pbm_support_state : string;
  pbm_timer_flush_supported : bool;
  pbm_demand_flush_supported : bool;
  pbm_recycle_supported : bool;
  pbm_items_per_input_ipc : option Q;
  pbm_items_per_completion_ipc : option Q;
  pbm_route_batch_count : Z;
  pbm_route_batch_item_count : Z;
  pbm_route_batch_size_avg : option Q;
  pbm_route_batch_size_max : option Z;
  pbm_completion_item_payload_count : Z;
  pbm_completion_batch_payload_count : Z;
}.

Record PartitionMetrics := mkPartitionMetrics {
  pm_tp : TopicPartition;
  pm_true_lag : Z;
  pm_gap_count : Z;
  pm_blocking_offset : option Z;
  pm_blocking_duration_sec : option Q;
  pm_queued_count : Z;
}.

Record SystemMetrics := mkSystemMetrics {
  sm_total_in_flight : Z;
  sm_is_paused : bool;
  sm_partitions : list PartitionMetrics;
  sm_process_batch_metrics : option ProcessBatchMetrics;
  sm_resource_signal : option ResourceSignalSnapshot;
  sm_adaptive_backpressure : option AdaptiveBackpressureSnapshot;
  sm_adaptive_concurrency : option AdaptiveConcurrencyRuntimeSnapshot;
  sm_completed_offset_skips_total : Z;
}.

#[export] Instance SystemMetrics_settable : Settable SystemMetrics :=
  λ m, mkSystemMetrics (sm_total_in_flight m) (sm_is_paused m) (sm_partitions m) (sm_process_batch_metrics m)
         (sm_resource_signal m) (sm_adaptive_backpressure m) (sm_adaptive_concurrency m)
         (sm_completed_offset_skips_total m).

(** ** Runtime snapshots *)

Record PartitionRuntimeSnapshot := mkPartitionSnapshot {
  ps_tp : TopicPartition;
  ps_current_epoch : Z;
  ps_last_committed_offset : Z;
  ps_last_fetched_offset : Z;
  ps_true_lag : Z;
  ps_gaps : list OffsetRange;
  ps_blocking_offset : option Z;
  ps_blocking_duration_sec : option Q;
  ps_queued_count : Z;
  ps_in_flight_count : Z;
  ps_min_in_flight_offset : option Z;
}.

Record QueueRuntimeSnapshot := mkQueueSnapshot {
  qs_total_in_flight : Z;
  qs_total_queued : Z;
  qs_max_in_flight : Z;
  qs_is_paused : bool;
  qs_is_rebalancing : bool;
  qs_ordering_mode : OrderingMode;
  qs_configured_max_in_flight : Z;
}.

(** The sizes of the message cache; the other fields copy settings. *)
Record DlqRuntimeSnapshot := mkDlqSnapshot {
  ds_message_cache_size_bytes : Z;
  ds_message_cache_entry_count : Z;
}.

(** The parts that are computed *)
Record RuntimeSnapshot := mkRuntimeSnapshot {
  rs_queue : QueueRuntimeSnapshot;
  rs_dlq : DlqRuntimeSnapshot;
  rs_partitions : list PartitionRuntimeSnapshot;
}.

(** ** Pipeline diagnostics *)

Inductive PipelineStage :=
  | ACQUIRED | BUFFERED | QUEUED | DISPATCHED | EXECUTING | COMPLETED_UNSETTLED | FAILED | STAGE_DLQ.

Inductive PipelineDispatchCapacityReason := MAX_IN_FLIGHT | ADAPTIVE_LIMIT.

Inductive PipelineSettlementBlockerReason :=
  | COMMIT_PENDING | ACK_PENDING | DELETE_PENDING | ARCHIVE_PENDING | DLQ_PUBLISH_PENDING
  | ORDERED_CURSOR_GAP | BLOCKER_UNKNOWN.

Inductive PipelineDiagnosticsSupportState := SUPPORTED | SUPPORT_UNAVAILABLE | NOT_IMPLEMENTED.

Inductive PipelineDiagnosticsScope := WORK_MANAGER_ONLY | COMBINED.

Inductive PipelineDiagnosticsSection :=
  | STAGES | BLOCKED | SUBQUEUES | DISPATCH_CAPACITY | ADMISSION | WORKERS | SETTLEMENT | POLL.

#[export] Instance PipelineStage_eq_dec : EqDecision PipelineStage.
Proof. solve_decision. Defined.
#[export] Instance PipelineDispatchCapacityReason_eq_dec : EqDecision PipelineDispatchCapacityReason.
Proof. solve_decision. Defined.
#[export] Instance PipelineSettlementBlockerReason_eq_dec : EqDecision PipelineSettlementBlockerReason.
Proof. solve_decision. Defined.
#[export] Instance PipelineDiagnosticsSupportState_eq_dec : EqDecision PipelineDiagnosticsSupportState.
Proof. solve_decision. Defined.
#[export] Instance PipelineDiagnosticsSection_eq_dec : EqDecision PipelineDiagnosticsSection.
Proof. solve_decision. Defined.

Definition all_stages : list PipelineStage :=
  [ACQUIRED; BUFFERED; QUEUED; DISPATCHED; EXECUTING; COMPLETED_UNSETTLED; FAILED; STAGE_DLQ].

Definition stage_value (s : PipelineStage) : string :=
  match s with
  | ACQUIRED => "acquired"
  | BUFFERED => "buffered"
  | QUEUED => "queued"
  | DISPATCHED => "dispatched"
  | EXECUTING => "executing"
  | COMPLETED_UNSETTLED => "completed_unsettled"
  | FAILED => "failed"
  | STAGE_DLQ => "dlq"
  end.

Definition blocked_reason_value (r : PipelineBlockedReason) : string :=
  match r with
  | ORDERING_LOCK => "ordering_lock"
  | ROUTE_LOCK => "route_lock"
  | RETRY_DELAY => "retry_delay"
  | FRONTIER_DEFERRED => "frontier_deferred"
  | POISON_GUARD => "poison_guard"
  | REBALANCING => "rebalancing"
  | SHUTDOWN => "shutdown"
  end.

Definition all_capacity_reasons : list PipelineDispatchCapacityReason := [MAX_IN_FLIGHT; ADAPTIVE_LIMIT].

Definition capacity_reason_value (r : PipelineDispatchCapacityReason) : string :=
  match r with MAX_IN_FLIGHT => "max_in_flight" | ADAPTIVE_LIMIT => "adaptive_limit" end.

Definition all_blocker_reasons : list PipelineSettlementBlockerReason :=
  [COMMIT_PENDING; ACK_PENDING; DELETE_PENDING; ARCHIVE_PENDING; DLQ_PUBLISH_PENDING; ORDERED_CURSOR_GAP;
   BLOCKER_UNKNOWN].

Definition blocker_reason_value (r : PipelineSettlementBlockerReason) : string :=
  match r with
  | COMMIT_PENDING => "commit_pending"
  | ACK_PENDING => "ack_pending"
  | DELETE_PENDING => "delete_pending"
  | ARCHIVE_PENDING => "archive_pending"
  | DLQ_PUBLISH_PENDING => "dlq_publish_pending"
  | ORDERED_CURSOR_GAP => "ordered_cursor_gap"
  | BLOCKER_UNKNOWN => "unknown"
  end.

Definition all_support_states : list PipelineDiagnosticsSupportState :=
  [SUPPORTED; SUPPORT_UNAVAILABLE; NOT_IMPLEMENTED].

Definition support_state_value (s : PipelineDiagnosticsSupportState) : string :=
  match s with
  | SUPPORTED => "supported"
  | SUPPORT_UNAVAILABLE => "unavailable"
  | NOT_IMPLEMENTED => "not_implemented"
  end.

Definition all_sections : list PipelineDiagnosticsSection :=
  [STAGES; BLOCKED; SUBQUEUES; DISPATCH_CAPACITY; ADMISSION; WORKERS; SETTLEMENT; POLL].

Definition section_value (s : PipelineDiagnosticsSection) : string :=
  match s with
  | STAGES => "stages"
  | BLOCKED => "blocked"
  | SUBQUEUES => "subqueues"
  | DISPATCH_CAPACITY => "dispatch_capacity"
  | ADMISSION => "admission"
  | WORKERS => "workers"
  | SETTLEMENT => "settlement"
  | POLL => "poll"
  end.

Record PipelineCount := mkPipelineCount { pc_count : Z; pc_oldest_age_ms : option Z }.

Record PipelineDispatchCapacityDiagnostics := mkDispatchCapacity {
  dc_blocked_items : Z;
  dc_reason : option PipelineDispatchCapacityReason;
}.

Record PipelineWorkerDiagnostics := mkWorkers {
  pw_total : Z;
  pw_executing : Z;
  pw_admitted : option Z;
  pw_top_k_loads : list Z;
  pw_support_state : PipelineDiagnosticsSupportState;
}.

Record PipelineSettlementDiagnostics := mkSettlement {
  pst_completed_unsettled : Z;
  pst_blocker_reason : option PipelineSettlementBlockerReason;
  pst_support_state : PipelineDiagnosticsSupportState;
}.

Record PipelinePollDiagnostics := mkPoll {
  pp_records_total : Z;
  pp_nonempty_polls_total : Z;
  pp_empty_polls_total : Z;
  pp_error_polls_total : Z;
  pp_completed_offset_skips_total : Z;
  pp_broker_kind : string;
  pp_support_state : PipelineDiagnosticsSupportState;
}.

Record PipelineSubqueueDiagnostics := mkSubqueues {
  sq_total : Z;
  sq_queued : Z;
  sq_queued_items : Z;
  sq_eligible_subqueues : Z;
  sq_eligible_items : Z;
  sq_blocked_subqueues : Z;
  sq_blocked_items : Z;
  sq_top_k_depths : list Z;
}.

(** [WorkManagerPipelineDiagnostics], under its alias; the admission section is a placeholder
    that no code fills. *)
Record PipelineDiagnosticsSnapshot := mkPipelineSnapshot {
  pds_stage_counts : odict PipelineStage PipelineCount;
  pds_blocked_counts : odict PipelineBlockedReason PipelineCount;
  pds_dispatch_capacity : PipelineDispatchCapacityDiagnostics;
  pds_workers : PipelineWorkerDiagnostics;
  pds_subqueues : PipelineSubqueueDiagnostics;
  pds_stage_support : odict PipelineStage PipelineDiagnosticsSupportState;
  pds_section_support : odict PipelineDiagnosticsSection PipelineDiagnosticsSupportState;
  pds_scope : PipelineDiagnosticsScope;
  pds_settlement : PipelineSettlementDiagnostics;
  pds_poll : PipelinePollDiagnostics;
}.

#[export] Instance PipelineDiagnosticsSnapshot_settable : Settable PipelineDiagnosticsSnapshot :=
  λ d, mkPipelineSnapshot (pds_stage_counts d) (pds_blocked_counts d) (pds_dispatch_capacity d) (pds_workers d)
         (pds_subqueues d) (pds_stage_support d) (pds_section_support d) (pds_scope d) (pds_settlement d)
         (pds_poll d).

Definition default_poll : PipelinePollDiagnostics := mkPoll 0 0 0 0 0 "kafka" NOT_IMPLEMENTED.
Definition default_settlement : PipelineSettlementDiagnostics := mkSettlement 0 None NOT_IMPLEMENTED.

(** [EngineWorkerDiagnostics], and the envelope an engine reports *)
Record EngineWorkerDiagnostics := mkEngineWorkers {
  ew_total : Z;
  ew_executing : Z;
  ew_admitted : option Z;
  ew_top_k_loads : list Z;
}.

Record EngineRuntimeDiagnostics := mkEngineRuntime {
  er_process : option ProcessBatchMetrics;
  er_workers : option EngineWorkerDiagnostics;
}.

(** ** The label values of an enumeration are distinct. *)

Lemma labels_NoDup :
  NoDup (stage_value <$> all_stages) ∧ NoDup (blocked_reason_value <$> all_blocked_reasons)
  ∧ NoDup (capacity_reason_value <$> all_capacity_reasons) ∧ NoDup (blocker_reason_value <$> all_blocker_reasons)
  ∧ NoDup (support_state_value <$> all_support_states) ∧ NoDup (section_value <$> all_sections).
Proof. split_and!; by apply (bool_decide_unpack _). Qed.

#[export] Instance stage_value_inj : Inj (=) (=) stage_value.
Proof. intros [] []; by vm_compute. Qed.
#[export] Instance blocked_reason_value_inj : Inj (=) (=) blocked_reason_value.
Proof. intros [] []; by vm_compute. Qed.
#[export] Instance capacity_reason_value_inj : Inj (=) (=) capacity_reason_value.
Proof. intros [] []; by vm_compute. Qed.
#[export] Instance blocker_reason_value_inj : Inj (=) (=) blocker_reason_value.
Proof. intros [] []; by vm_compute. Qed.
#[export] Instance support_state_value_inj : Inj (=) (=) support_state_value.
Proof. intros [] []; by vm_compute. Qed.
#[export] Instance section_value_inj : Inj (=) (=) section_value.
Proof. intros [] []; by vm_compute. Qed.
#[export] Instance resource_status_value_inj : Inj (=) (=) resource_status_value.
Proof. intros [] []; by vm_compute. Qed.
#[export] Instance decision_value_inj : Inj (=) (=) decision_value.
Proof. intros [] []; by vm_compute. Qed.
