(* ===== verification/Prometheus.v ===== *)
(** * Prometheus collectors ([prometheus_client])

    The package is not part of the repository: collectors enter the development as a type class of
    the operations [metrics_exporter.py] calls, with their documented behaviour.  A collector keeps
    one series for each tuple of label values; [sample] is what a scrape shows for one of them. *)

From S2P Require Import Prelude.

Class PrometheusLib := {
  Gauge : Type;
  Counter : Type;
  Histogram : Type;

  (** [Gauge(name, doc, labelnames)], [g.labels(ls).set(v)], [g.remove(ls)] ([None] is the [KeyError]
      that some versions raise for a series that does not exist) *)
  new_gauge : list string → Gauge;
  gauge_set : list string → Q → Gauge → Gauge;
  gauge_remove : list string → Gauge → option Gauge;
  gauge_sample : list string → Gauge → option Q;

  (** [Counter(...)], [c.labels(ls).inc(n)]: the flag is [false] for the [ValueError] of a negative
      amount, raised after [labels] has created the series *)
  new_counter : list string → Counter;
  counter_inc : list string → Z → Counter → bool * Counter;
  counter_sample : list string → Counter → option Z;

  (** [Histogram(...)], [h.labels(ls).observe(x)] and the number of observations *)
  new_histogram : list string → Histogram;
  histogram_observe : list string → Q → Histogram → Histogram;
  histogram_count : list string → Histogram → option Z;

  (** A collector without labels has its one series from the start. *)
  gauge_sample_new names ls :
    gauge_sample ls (new_gauge names) = if decide (names = [] ∧ ls = []) then Some 0%Q else None;
  gauge_sample_set ls v g ls' :
    gauge_sample ls' (gauge_set ls v g) = if decide (ls = ls') then Some v else gauge_sample ls' g;
  gauge_remove_present ls g : is_Some (gauge_sample ls g) → is_Some (gauge_remove ls g);
  gauge_sample_remove ls g g' ls' :
    gauge_remove ls g = Some g' → gauge_sample ls' g' = if decide (ls = ls') then None else gauge_sample ls' g;

  counter_sample_new names ls :
    counter_sample ls (new_counter names) = if decide (names = [] ∧ ls = []) then Some 0 else None;
  counter_inc_ok ls n c : (counter_inc ls n c).1 = (0 <=? n);
  counter_sample_inc ls n c ls' :
    counter_sample ls' (counter_inc ls n c).2
    = if decide (ls = ls') then Some (default 0 (counter_sample ls c) + Z.max 0 n) else counter_sample ls' c;

  histogram_count_new names ls :
    histogram_count ls (new_histogram names) = if decide (names = [] ∧ ls = []) then Some 0 else None;
  histogram_count_observe ls x h ls' :
    histogram_count ls' (histogram_observe ls x h)
    = if decide (ls = ls') then Some (default 0 (histogram_count ls h) + 1) else histogram_count ls' h;
}.

(** ** A concrete client: one dictionary per collector *)

Section table.
Context {V : Type} (zero : V).

Definition table_new (names : list string) : odict (list string) V := if decide (names = []) then [([], zero)] else [].

Lemma table_get_new names ls :
  od_get ls (table_new names) = if decide (names = [] ∧ ls = []) then Some zero else None.
Proof.
  unfold table_new. destruct (decide (names = [])); cbn; repeat case_decide; naive_solver.
Qed.

Lemma table_get_set ls v (t : odict (list string) V) ls' :
  od_get ls' (od_set ls v t) = if decide (ls = ls') then Some v else od_get ls' t.
Proof. rewrite od_get_set. repeat case_decide; naive_solver. Qed.

Lemma table_get_pop ls (t : odict (list string) V) ls' :
  od_get ls' (od_pop ls t) = if decide (ls = ls') then None else od_get ls' t.
Proof. case_decide as H; [rewrite H; apply od_get_pop_eq|by apply od_get_pop_ne]. Qed.
End table.

#[export, refine] Instance prometheus_tables : PrometheusLib := {|
  Gauge := odict (list string) Q;
  Counter := odict (list string) Z;
  Histogram := odict (list string) Z;
  new_gauge := table_new 0%Q;
  gauge_set ls v g := od_set ls v g;
  gauge_remove ls g := if od_has ls g then Some (od_pop ls g) else None;
  gauge_sample ls g := od_get ls g;
  new_counter := table_new 0;
  counter_inc ls n c := (0 <=? n, od_set ls (default 0 (od_get ls c) + Z.max 0 n) c);
  counter_sample ls c := od_get ls c;
  new_histogram := table_new 0;
  histogram_observe ls _ h := od_set ls (default 0 (od_get ls h) + 1) h;
  histogram_count ls h := od_get ls h;
|}.
Proof.
  all: intros.
  all: try apply table_get_new.
  all: try apply table_get_set.
  - destruct H as [v Hv]. unfold od_has. rewrite Hv. by eexists.
  - destruct (od_has ls g); [|done]. simplify_eq. apply table_get_pop.
  - done.
Defined.
