(* ===== verification/MetricsExporter.v ===== *)
(** * The Prometheus exporter ([pyrallel_consumer/metrics_exporter.py])

    [PrometheusMetricsExporter] projects system metrics, pipeline diagnostics and single events into
    collectors.  A gauge update is the list of the writes it makes, in the order of the code; the
    operations that validate a label or increment a counter may raise, and return a flag beside the
    state they leave behind. *)

From stdpp Require Import functions pretty.
From S2P Require Import Prelude Vendor Dto WorkManager Adaptive MetricsDto Prometheus.

(** ** Collectors, by the attribute that holds them *)

Inductive GaugeField :=
  | in_flight_gauge | lag_gauge | gap_gauge | queued_gauge | blocking_duration_gauge | backpressure_gauge
  | metadata_size_gauge
  | resource_signal_status_gauge | resource_cpu_utilization_gauge | resource_memory_utilization_gauge
  | ab_configured_max_in_flight_gauge | ab_effective_max_in_flight_gauge | ab_min_in_flight_gauge
  | ab_scale_up_step_gauge | ab_scale_down_step_gauge | ab_cooldown_ms_gauge | ab_lag_scale_up_threshold_gauge
  | ab_low_latency_threshold_ms_gauge | ab_high_latency_threshold_ms_gauge
  | ab_avg_completion_latency_seconds_gauge | ab_last_decision_gauge
  | ac_configured_max_in_flight_gauge | ac_effective_max_in_flight_gauge | ac_min_in_flight_gauge
  | ac_scale_up_step_gauge | ac_scale_down_step_gauge | ac_cooldown_ms_gauge
  | batch_flush_count | batch_avg_size_gauge | batch_last_size_gauge | batch_last_wait_seconds_gauge
  | batch_buffered_items_gauge | batch_buffered_age_seconds_gauge
  | route_batch_count_gauge | route_batch_items_gauge | route_batch_avg_size_gauge | route_batch_max_size_gauge
  | ipc_items_per_input_payload_gauge | ipc_items_per_completion_payload_gauge
  | completion_item_payload_count_gauge | completion_batch_payload_count_gauge
  | last_main_to_worker_ipc_seconds_gauge | avg_main_to_worker_ipc_seconds_gauge
  | last_worker_exec_seconds_gauge | avg_worker_exec_seconds_gauge
  | last_worker_to_main_ipc_seconds_gauge | avg_worker_to_main_ipc_seconds_gauge
  | transport_mode_gauge | batch_support_state_gauge
  | timer_flush_supported_gauge | demand_flush_supported_gauge | recycle_supported_gauge
  | stage_messages_gauge | blocked_messages_gauge | dispatch_capacity_blocked_messages_gauge
  | section_support_state_gauge | worker_capacity_units_gauge | subqueue_items_gauge | subqueues_gauge
  | settlement_blocker_state_gauge | coordinator_pending_partitions.

Inductive CounterField :=
  | processed_total | commit_failures_total | dlq_publish_failures_total
  | poll_records_total | poll_events_total | completed_offset_skips_total
  | coordinator_coalesced_total | coordinator_submitted_total | coordinator_success_total
  | coordinator_failures_total | coordinator_retries_total.

Inductive HistogramField := latency_hist | completion_to_commit_latency_hist | settlement_latency_hist.

#[export] Instance GaugeField_eq_dec : EqDecision GaugeField.
Proof. solve_decision. Defined.
#[export] Instance CounterField_eq_dec : EqDecision CounterField.
Proof. solve_decision. Defined.
#[export] Instance HistogramField_eq_dec : EqDecision HistogramField.
Proof. solve_decision. Defined.

(** [labelnames] of each collector *)
Definition gauge_labelnames (f : GaugeField) : list string :=
  match f with
  | lag_gauge | gap_gauge | queued_gauge | blocking_duration_gauge => ["topic"; "partition"]
  | metadata_size_gauge => ["topic"]
  | resource_signal_status_gauge => ["status"]
  | ab_last_decision_gauge => ["decision"]
  | batch_flush_count => ["reason"]
  | transport_mode_gauge => ["mode"]
  | batch_support_state_gauge => ["state"]
  | stage_messages_gauge => ["stage"; "engine_type"]
  | blocked_messages_gauge | dispatch_capacity_blocked_messages_gauge | settlement_blocker_state_gauge =>
      ["reason"; "engine_type"]
  | section_support_state_gauge => ["section"; "state"; "engine_type"]
  | worker_capacity_units_gauge | subqueue_items_gauge | subqueues_gauge => ["state"; "engine_type"]
  | coordinator_pending_partitions => ["engine_type"]
  | _ => []
  end%string.

Definition counter_labelnames (f : CounterField) : list string :=
  match f with
  | processed_total => ["topic"; "partition"; "status"]
  | commit_failures_total => ["topic"; "partition"; "reason"]
  | dlq_publish_failures_total => ["topic"; "partition"]
  | poll_records_total | completed_offset_skips_total => ["engine_type"; "broker_kind"]
  | poll_events_total => ["event"; "engine_type"; "broker_kind"]
  | coordinator_coalesced_total | coordinator_submitted_total | coordinator_success_total => ["engine_type"]
  | coordinator_failures_total | coordinator_retries_total => ["engine_type"; "reason"]
  end%string.

Definition histogram_labelnames (f : HistogramField) : list string :=
  match f with
  | latency_hist => ["topic"; "partition"]
  | completion_to_commit_latency_hist | settlement_latency_hist => ["engine_type"]
  end%string.

(** The tuples of label values the code checks against *)
Definition COMMIT_FAILURE_REASONS : list string := ["kafka_exception"; "rebalance_bridge_failed"]%string.
Definition PIPELINE_ENGINE_TYPES : list string := ["async"; "process"]%string.
Definition PIPELINE_BROKER_KINDS : list string := ["kafka"; "unknown"]%string.
Definition COMMIT_COORDINATOR_FAILURE_REASONS : list string :=
  ["kafka_exception"; "queue_full"; "worker_crash"; "stale_lease"; "shutdown_timeout"; "rebalance_bridge_failed";
   "close_commit_failed"]%string.

Definition RESOURCE_SIGNAL_STATUSES : list string :=
  resource_status_value <$> [AVAILABLE; UNAVAILABLE; STALE; FIRST_SAMPLE_PENDING].
Definition ADAPTIVE_BACKPRESSURE_DECISIONS : list string :=
  ["disabled"; "hold"; "scale_up"; "scale_down"; "cooldown"]%string.

(** Gauge values are floats: numbers, with flags as 1 and 0. *)
Definition flag (b : bool) : Q := if b then 1%Q else 0%Q.

Definition str_of_int (n : Z) : string := pretty n.

(** ** Gauge writes *)

(** [gauge.labels(...).set(value)] and [_remove_labeled_metric] *)
Inductive GaugeWrite :=
  | SetTo (f : GaugeField) (labels : list string) (value : Q)
  | RemoveLabeled (f : GaugeField) (labels : list string).

(** "Publish when supported, remove otherwise" *)
Definition publish (supported : bool) (f : GaugeField) (labels : list string) (value : Q) : GaugeWrite :=
  if supported then SetTo f labels value else RemoveLabeled f labels.

(** *** System metrics *)

Definition set0 (f : GaugeField) : GaugeWrite := SetTo f [] 0%Q.
Definition set_int (f : GaugeField) (n : Z) : GaugeWrite := SetTo f [] (inject_Z n).

Definition partition_labels (tp : TopicPartition) : list string := [topic tp; str_of_int (partition tp)].

Definition partition_writes (p : PartitionMetrics) : list GaugeWrite :=
  let labels := partition_labels (pm_tp p) in
  [SetTo lag_gauge labels (inject_Z (pm_true_lag p));
   SetTo gap_gauge labels (inject_Z (pm_gap_count p));
   SetTo queued_gauge labels (inject_Z (pm_queued_count p));
   SetTo blocking_duration_gauge labels (default 0%Q (pm_blocking_duration_sec p))].

(** [_update_resource_signal] *)
Definition resource_signal_writes (signal : option ResourceSignalSnapshot) : list GaugeWrite :=
  let signal_status :=
    match signal with
    | Some s => resource_status_value (rsig_status s)
    | None => resource_status_value UNAVAILABLE
    end in
  ((λ status, SetTo resource_signal_status_gauge [status] (flag (bool_decide (status = signal_status))))
     <$> RESOURCE_SIGNAL_STATUSES)
  ++ [SetTo resource_cpu_utilization_gauge [] (default 0%Q (signal ≫= rsig_cpu_utilization));
      SetTo resource_memory_utilization_gauge [] (default 0%Q (signal ≫= rsig_memory_utilization))].

(** [_update_adaptive_snapshot_metrics] *)
Definition backpressure_writes (snapshot : option AdaptiveBackpressureSnapshot) : list GaugeWrite :=
  match snapshot with
  | None =>
      set0 <$> [ab_configured_max_in_flight_gauge; ab_effective_max_in_flight_gauge; ab_min_in_flight_gauge;
                ab_scale_up_step_gauge; ab_scale_down_step_gauge; ab_cooldown_ms_gauge;
                ab_lag_scale_up_threshold_gauge; ab_low_latency_threshold_ms_gauge;
                ab_high_latency_threshold_ms_gauge; ab_avg_completion_latency_seconds_gauge]
  | Some s =>
      [set_int ab_configured_max_in_flight_gauge (abs_configured_max_in_flight s);
       set_int ab_effective_max_in_flight_gauge (abs_effective_max_in_flight s);
       set_int ab_min_in_flight_gauge (abs_min_in_flight s);
       set_int ab_scale_up_step_gauge (abs_scale_up_step s);
       set_int ab_scale_down_step_gauge (abs_scale_down_step s);
       set_int ab_cooldown_ms_gauge (abs_cooldown_ms s);
       set_int ab_lag_scale_up_threshold_gauge (abs_lag_scale_up_threshold s);
       SetTo ab_low_latency_threshold_ms_gauge [] (abs_low_latency_threshold_ms s);
       SetTo ab_high_latency_threshold_ms_gauge [] (abs_high_latency_threshold_ms s);
       SetTo ab_avg_completion_latency_seconds_gauge [] (default 0%Q (abs_avg_completion_latency_seconds s))]
  end.

Definition decision_writes (snapshot : option AdaptiveBackpressureSnapshot) : list GaugeWrite :=
  let last_decision :=
    match snapshot with
    | None => "disabled"%string
    | Some s => decision_value (abs_last_decision s)
    end in
  (λ decision, SetTo ab_last_decision_gauge [decision] (flag (bool_decide (decision = last_decision))))
    <$> ADAPTIVE_BACKPRESSURE_DECISIONS.

Definition concurrency_writes (snapshot : option AdaptiveConcurrencyRuntimeSnapshot) : list GaugeWrite :=
  match snapshot with
  | None =>
      set0 <$> [ac_configured_max_in_flight_gauge; ac_effective_max_in_flight_gauge; ac_min_in_flight_gauge;
                ac_scale_up_step_gauge; ac_scale_down_step_gauge; ac_cooldown_ms_gauge]
  | Some s =>
      [set_int ac_configured_max_in_flight_gauge (acs_configured_max_in_flight s);
       set_int ac_effective_max_in_flight_gauge (acs_effective_max_in_flight s);
       set_int ac_min_in_flight_gauge (acs_min_in_flight s);
       set_int ac_scale_up_step_gauge (acs_scale_up_step s);
       set_int ac_scale_down_step_gauge (acs_scale_down_step s);
       set_int ac_cooldown_ms_gauge (acs_cooldown_ms s)]
  end.

(** [_update_process_batch_metrics] *)
Definition average_batch_size (m : ProcessBatchMetrics) : Q :=
  let flush_total := pbm_size_flush_count m + pbm_timer_flush_count m + pbm_close_flush_count m
                     + pbm_demand_flush_count m in
  if 0 <? flush_total then (inject_Z (pbm_total_flushed_items m) / inject_Z flush_total)%Q else 0%Q.

Definition no_process_batch_writes : list GaugeWrite :=
  ((λ reason, SetTo batch_flush_count [reason] 0%Q) <$> ["size"; "timer"; "close"; "demand"]%string)
  ++ [SetTo transport_mode_gauge ["worker_pipes"%string] 0%Q]
  ++ ((λ state, SetTo batch_support_state_gauge [state] 0%Q) <$> ["full"; "bounded"]%string)
  ++ (set0 <$> [batch_avg_size_gauge; batch_last_size_gauge; batch_last_wait_seconds_gauge;
                batch_buffered_items_gauge; batch_buffered_age_seconds_gauge; route_batch_count_gauge;
                route_batch_items_gauge; route_batch_avg_size_gauge; route_batch_max_size_gauge;
                ipc_items_per_input_payload_gauge; ipc_items_per_completion_payload_gauge;
                completion_item_payload_count_gauge; completion_batch_payload_count_gauge;
                last_main_to_worker_ipc_seconds_gauge; avg_main_to_worker_ipc_seconds_gauge;
                last_worker_exec_seconds_gauge; avg_worker_exec_seconds_gauge;
                last_worker_to_main_ipc_seconds_gauge; avg_worker_to_main_ipc_seconds_gauge;
                timer_flush_supported_gauge; demand_flush_supported_gauge; recycle_supported_gauge]).

Definition process_batch_writes (metrics : option ProcessBatchMetrics) : list GaugeWrite :=
  match metrics with
  | None => no_process_batch_writes
  | Some m =>
      [SetTo batch_flush_count ["size"%string] (inject_Z (pbm_size_flush_count m));
       SetTo batch_flush_count ["timer"%string] (inject_Z (pbm_timer_flush_count m));
       SetTo batch_flush_count ["close"%string] (inject_Z (pbm_close_flush_count m));
       SetTo batch_flush_count ["demand"%string] (inject_Z (pbm_demand_flush_count m));
       SetTo batch_avg_size_gauge [] (average_batch_size m);
       set_int batch_last_size_gauge (pbm_last_flush_size m);
       SetTo batch_last_wait_seconds_gauge [] (pbm_last_flush_wait_seconds m);
       set_int batch_buffered_items_gauge (pbm_buffered_items m);
       SetTo batch_buffered_age_seconds_gauge [] (pbm_buffered_age_seconds m);
       set_int route_batch_count_gauge (pbm_route_batch_count m);
       set_int route_batch_items_gauge (pbm_route_batch_item_count m);
       SetTo route_batch_avg_size_gauge [] (default 0%Q (pbm_route_batch_size_avg m));
       set_int route_batch_max_size_gauge (default 0 (pbm_route_batch_size_max m));
       SetTo ipc_items_per_input_payload_gauge [] (default 0%Q (pbm_items_per_input_ipc m));
       SetTo ipc_items_per_completion_payload_gauge [] (default 0%Q (pbm_items_per_completion_ipc m));
       set_int completion_item_payload_count_gauge (pbm_completion_item_payload_count m);
       set_int completion_batch_payload_count_gauge (pbm_completion_batch_payload_count m);
       SetTo last_main_to_worker_ipc_seconds_gauge [] (pbm_last_main_to_worker_ipc_seconds m);
       SetTo avg_main_to_worker_ipc_seconds_gauge [] (pbm_avg_main_to_worker_ipc_seconds m);
       SetTo last_worker_exec_seconds_gauge [] (pbm_last_worker_exec_seconds m);
       SetTo avg_worker_exec_seconds_gauge [] (pbm_avg_worker_exec_seconds m);
       SetTo last_worker_to_main_ipc_seconds_gauge [] (pbm_last_worker_to_main_ipc_seconds m);
       SetTo avg_worker_to_main_ipc_seconds_gauge [] (pbm_avg_worker_to_main_ipc_seconds m);
       SetTo transport_mode_gauge ["worker_pipes"%string]
         (flag (bool_decide (pbm_transport_mode m = "worker_pipes"%string)))]
      ++ ((λ state, SetTo batch_support_state_gauge [state] (flag (bool_decide (pbm_support_state m = state))))
            <$> ["full"; "bounded"]%string)
      ++ [SetTo timer_flush_supported_gauge [] (flag (pbm_timer_flush_supported m));
          SetTo demand_flush_supported_gauge [] (flag (pbm_demand_flush_supported m));
          SetTo recycle_supported_gauge [] (flag (pbm_recycle_supported m))]
  end.

Definition system_writes (metrics : SystemMetrics) : list GaugeWrite :=
  [set_int in_flight_gauge (sm_total_in_flight metrics); SetTo backpressure_gauge [] (flag (sm_is_paused metrics))]
  ++ (sm_partitions metrics ≫= partition_writes)
  ++ resource_signal_writes (sm_resource_signal metrics)
  ++ backpressure_writes (sm_adaptive_backpressure metrics)
  ++ decision_writes (sm_adaptive_backpressure metrics)
  ++ concurrency_writes (sm_adaptive_concurrency metrics)
  ++ process_batch_writes (sm_process_batch_metrics metrics).

(** *** Pipeline diagnostics *)

Definition section_supported (d : PipelineDiagnosticsSnapshot) (s : PipelineDiagnosticsSection) : bool :=
  bool_decide (od_get s (pds_section_support d) = Some SUPPORTED).

(** [_update_pipeline_section_support] *)
Definition section_support_writes (d : PipelineDiagnosticsSnapshot) (engine_type : string) : list GaugeWrite :=
  all_sections ≫= λ section,
    let support_state := default NOT_IMPLEMENTED (od_get section (pds_section_support d)) in
    (λ state, SetTo section_support_state_gauge [section_value section; support_state_value state; engine_type]
       (flag (bool_decide (support_state = state)))) <$> all_support_states.

(** [_update_pipeline_stage_counts] *)
Definition stage_writes (d : PipelineDiagnosticsSnapshot) (engine_type : string) : list GaugeWrite :=
  (λ stage, publish (section_supported d STAGES && bool_decide (od_get stage (pds_stage_support d) = Some SUPPORTED))
     stage_messages_gauge [stage_value stage; engine_type]
     (inject_Z (default 0 (pc_count <$> od_get stage (pds_stage_counts d))))) <$> all_stages.

(** [_update_pipeline_blocked_counts] *)
Definition blocked_writes (d : PipelineDiagnosticsSnapshot) (engine_type : string) : list GaugeWrite :=
  (λ reason, publish (section_supported d BLOCKED) blocked_messages_gauge [blocked_reason_value reason; engine_type]
     (inject_Z (default 0 (pc_count <$> od_get reason (pds_blocked_counts d))))) <$> all_blocked_reasons.

(** [_update_pipeline_dispatch_capacity] *)
Definition dispatch_capacity_writes (d : PipelineDiagnosticsSnapshot) (engine_type : string) : list GaugeWrite :=
  (λ reason, publish (section_supported d DISPATCH_CAPACITY
                      && bool_decide (dc_reason (pds_dispatch_capacity d) = Some reason))
     dispatch_capacity_blocked_messages_gauge [capacity_reason_value reason; engine_type]
     (inject_Z (dc_blocked_items (pds_dispatch_capacity d)))) <$> all_capacity_reasons.

(** [_update_pipeline_worker_capacity] *)
Definition worker_values (d : PipelineDiagnosticsSnapshot) : list (string * option Z) :=
  [("total", Some (pw_total (pds_workers d))); ("executing", Some (pw_executing (pds_workers d)));
   ("admitted", pw_admitted (pds_workers d))]%string.

Definition worker_writes (d : PipelineDiagnosticsSnapshot) (engine_type : string) : list GaugeWrite :=
  (λ '(state, value),
     publish (section_supported d WORKERS && bool_decide (pw_support_state (pds_workers d) = SUPPORTED)
              && bool_decide (is_Some value))
       worker_capacity_units_gauge [state; engine_type] (inject_Z (default 0 value))) <$> worker_values d.

(** [_update_pipeline_subqueue_counts] *)
Definition subqueue_item_values (d : PipelineDiagnosticsSnapshot) : list (string * Z) :=
  [("queued", sq_queued_items (pds_subqueues d)); ("eligible", sq_eligible_items (pds_subqueues d));
   ("blocked", sq_blocked_items (pds_subqueues d))]%string.

Definition subqueue_values (d : PipelineDiagnosticsSnapshot) : list (string * Z) :=
  [("total", sq_total (pds_subqueues d)); ("queued", sq_queued (pds_subqueues d));
   ("eligible", sq_eligible_subqueues (pds_subqueues d)); ("blocked", sq_blocked_subqueues (pds_subqueues d))]%string.

Definition subqueue_writes (d : PipelineDiagnosticsSnapshot) (engine_type : string) : list GaugeWrite :=
  let section := section_supported d SUBQUEUES in
  ((λ '(state, n), publish section subqueue_items_gauge [state; engine_type] (inject_Z n)) <$> subqueue_item_values d)
  ++ ((λ '(state, n), publish section subqueues_gauge [state; engine_type] (inject_Z n)) <$> subqueue_values d).

(** [_update_pipeline_settlement_blocker_state] *)
Definition settlement_writes (d : PipelineDiagnosticsSnapshot) (engine_type : string) : list GaugeWrite :=
  (λ reason, publish (section_supported d SETTLEMENT && bool_decide (pst_support_state (pds_settlement d) = SUPPORTED))
     settlement_blocker_state_gauge [blocker_reason_value reason; engine_type]
     (flag (bool_decide (pst_blocker_reason (pds_settlement d) = Some reason)))) <$> all_blocker_reasons.

Definition pipeline_writes (d : PipelineDiagnosticsSnapshot) (engine_type : string) : list GaugeWrite :=
  section_support_writes d engine_type ++ stage_writes d engine_type ++ blocked_writes d engine_type
  ++ dispatch_capacity_writes d engine_type ++ worker_writes d engine_type ++ subqueue_writes d engine_type
  ++ settlement_writes d engine_type.

(** ** The exporter *)

Section exporter.
Context `{PL : PrometheusLib}.

(** [start_http_server] returns a server with its thread, a server alone, or nothing. *)
Inductive ServerReply := ServerAndThread (joinable : bool) | ServerAlone | NoServer.

Inductive ServerCall := CallShutdown | CallServerClose | CallJoin.

Record Exporter := mkExporter {
  ex_gauges : GaugeField → Gauge;
  ex_counters : CounterField → Counter;
  ex_histograms : HistogramField → Histogram;
  ex_seen : CounterField → odict (list string) Z;   (* the [_seen] dictionaries of the poll counters *)
  ex_http_server : bool;                            (* [_http_server] is not [None] *)
  ex_http_thread : bool;
  ex_server_calls : list ServerCall;                (* what [close] called, for the proofs *)
}.

#[export] Instance Exporter_settable : Settable Exporter :=
  λ e, mkExporter (ex_gauges e) (ex_counters e) (ex_histograms e) (ex_seen e) (ex_http_server e) (ex_http_thread e)
         (ex_server_calls e).

(** [__init__]; [server] is the reply of [start_http_server] *)
Definition new_exporter (enabled : bool) (server : ServerReply) : Exporter :=
  let e := mkExporter (λ f, new_gauge (gauge_labelnames f)) (λ f, new_counter (counter_labelnames f))
             (λ f, new_histogram (histogram_labelnames f)) (λ _, []) false false [] in
  if enabled then
    match server with
    | ServerAndThread joinable => e <| ex_http_server := true |> <| ex_http_thread := joinable |>
    | ServerAlone => e <| ex_http_server := true |>
    | NoServer => e
    end
  else e.

Definition run_write (w : GaugeWrite) (e : Exporter) : Exporter :=
  match w with
  | SetTo f labels value => e <| ex_gauges ::= alter (gauge_set labels value) f |>
  | RemoveLabeled f labels => e <| ex_gauges ::= alter (λ g, default g (gauge_remove labels g)) f |>
  end.

Definition run_writes (ws : list GaugeWrite) (e : Exporter) : Exporter := fold_left (λ e w, run_write w e) ws e.

Definition update_from_system_metrics (metrics : SystemMetrics) (e : Exporter) : Exporter :=
  run_writes (system_writes metrics) e.

Definition update_metadata_size (topic_name : string) (size_bytes : Z) (e : Exporter) : Exporter :=
  run_write (SetTo metadata_size_gauge [topic_name] (inject_Z size_bytes)) e.

(** [counter.labels(...).inc(n)] *)
Definition inc (f : CounterField) (labels : list string) (n : Z) (e : Exporter) : bool * Exporter :=
  let '(ok, c) := counter_inc labels n (ex_counters e f) in (ok, e <| ex_counters ::= insert f c |>).

Definition observe (f : HistogramField) (labels : list string) (x : Q) (e : Exporter) : Exporter :=
  e <| ex_histograms ::= alter (histogram_observe labels x) f |>.

(** Statements in sequence: an exception ends them. *)
Definition and_then (r : bool * Exporter) (f : Exporter → bool * Exporter) : bool * Exporter :=
  if r.1 then f r.2 else r.

Definition observe_completion (tp : TopicPartition) (status : CompletionStatus) (duration_seconds : Q) (e : Exporter)
    : bool * Exporter :=
  and_then
    (inc processed_total (partition_labels tp ++ [match status with SUCCESS => "success" | FAILURE => "failure" end%string])
       1 e)
    (λ e1, (true, observe latency_hist (partition_labels tp) duration_seconds e1)).

Definition record_commit_failure (tp : TopicPartition) (reason : string) (e : Exporter) : bool * Exporter :=
  if decide (reason ∈ COMMIT_FAILURE_REASONS) then inc commit_failures_total (partition_labels tp ++ [reason]) 1 e
  else (false, e).

Definition record_dlq_publish_failure (tp : TopicPartition) (e : Exporter) : bool * Exporter :=
  inc dlq_publish_failures_total (partition_labels tp) 1 e.

(** [_validate_pipeline_engine_type] and [_validate_commit_coordinator_reason], before [f] *)
Definition with_engine_type (engine_type : string) (f : Exporter → bool * Exporter) (e : Exporter) : bool * Exporter :=
  if decide (engine_type ∈ PIPELINE_ENGINE_TYPES) then f e else (false, e).

Definition with_coordinator_reason (reason : string) (f : Exporter → bool * Exporter) (e : Exporter) : bool * Exporter :=
  if decide (reason ∈ COMMIT_COORDINATOR_FAILURE_REASONS) then f e else (false, e).

Definition observe_completion_to_commit_latency (engine_type : string) (duration_seconds : Q) : Exporter → bool * Exporter :=
  with_engine_type engine_type (λ e, (true, observe completion_to_commit_latency_hist [engine_type] duration_seconds e)).

Definition set_commit_coordinator_pending_partitions (engine_type : string) (count : Z) : Exporter → bool * Exporter :=
  with_engine_type engine_type
    (λ e, (true, run_write (SetTo coordinator_pending_partitions [engine_type] (inject_Z count)) e)).

Definition record_commit_coordinator_submitted (engine_type : string) (partition_count : Z) : Exporter → bool * Exporter :=
  with_engine_type engine_type (inc coordinator_submitted_total [engine_type] partition_count).

Definition record_commit_coordinator_success (engine_type : string) (partition_count : Z) : Exporter → bool * Exporter :=
  with_engine_type engine_type (inc coordinator_success_total [engine_type] partition_count).

Definition record_commit_coordinator_failure (engine_type reason : string) (partition_count : Z)
    : Exporter → bool * Exporter :=
  with_coordinator_reason reason
    (with_engine_type engine_type (inc coordinator_failures_total [engine_type; reason] partition_count)).

Definition record_commit_coordinator_retry (engine_type reason : string) (partition_count : Z)
    : Exporter → bool * Exporter :=
  with_coordinator_reason reason
    (with_engine_type engine_type (inc coordinator_retries_total [engine_type; reason] partition_count)).

Definition record_commit_coordinator_coalesced (engine_type : string) (count : Z) : Exporter → bool * Exporter :=
  with_engine_type engine_type (inc coordinator_coalesced_total [engine_type] count).

Definition observe_commit_coordinator_settlement_latency (engine_type : string) (duration_seconds : Q)
    : Exporter → bool * Exporter :=
  with_engine_type engine_type (λ e, (true, observe settlement_latency_hist [engine_type] duration_seconds e)).

(** *** Poll counters *)

(** [_positive_counter_delta]: the delta and the dictionary with the new total *)
Definition positive_counter_delta (seen : odict (list string) Z) (key : list string) (current_total : Z)
    : Z * odict (list string) Z :=
  let previous_total := default 0 (od_get key seen) in
  (if current_total <? previous_total then current_total else current_total - previous_total,
   od_set key current_total seen).

(** The delta of one counter, and its increment when the delta is positive; the keys of the
    [_seen] dictionaries are the labels *)
Definition advance_counter (f : CounterField) (key : list string) (current_total : Z) (e : Exporter) : bool * Exporter :=
  let '(delta, seen) := positive_counter_delta (ex_seen e f) key current_total in
  let e1 := e <| ex_seen ::= insert f seen |> in
  if 0 <? delta then inc f key delta e1 else (true, e1).

(** The counters a poll section moves, in the order of the code *)
Definition poll_totals (engine_type : string) (poll : PipelinePollDiagnostics) : list (CounterField * list string * Z) :=
  let broker_kind := pp_broker_kind poll in
  [(poll_records_total, [engine_type; broker_kind], pp_records_total poll);
   (poll_events_total, ["nonempty"%string; engine_type; broker_kind], pp_nonempty_polls_total poll);
   (poll_events_total, ["empty"%string; engine_type; broker_kind], pp_empty_polls_total poll);
   (poll_events_total, ["error"%string; engine_type; broker_kind], pp_error_polls_total poll);
   (completed_offset_skips_total, [engine_type; broker_kind], pp_completed_offset_skips_total poll)].

Definition advance_counters (totals : list (CounterField * list string * Z)) (e : Exporter) : bool * Exporter :=
  fold_left (λ r t, and_then r (advance_counter t.1.1 t.1.2 t.2)) totals (true, e).

Definition poll_published (d : PipelineDiagnosticsSnapshot) : bool :=
  section_supported d POLL && bool_decide (pp_support_state (pds_poll d) = SUPPORTED).

(** [_update_pipeline_poll_counts] *)
Definition update_pipeline_poll_counts (d : PipelineDiagnosticsSnapshot) (engine_type : string) (e : Exporter)
    : bool * Exporter :=
  if negb (poll_published d) then (true, e)
  else if decide (pp_broker_kind (pds_poll d) ∈ PIPELINE_BROKER_KINDS)
       then advance_counters (poll_totals engine_type (pds_poll d)) e
       else (false, e).

Definition update_pipeline_diagnostics (d : PipelineDiagnosticsSnapshot) (engine_type : string) : Exporter → bool * Exporter :=
  with_engine_type engine_type (λ e, update_pipeline_poll_counts d engine_type (run_writes (pipeline_writes d engine_type) e)).

(** [close] *)
Definition close (e : Exporter) : Exporter :=
  if negb (ex_http_server e) then e
  else e <| ex_server_calls ::= λ l, l ++ [CallShutdown; CallServerClose] ++ (if ex_http_thread e then [CallJoin] else []) |>
         <| ex_http_server := false |> <| ex_http_thread := false |>.
End exporter.

(** ** Samples *)

Section samples.
Context `{PL : PrometheusLib}.
Implicit Types (e : Exporter) (w : GaugeWrite) (ws : list GaugeWrite).

(** What a scrape shows *)
Definition sample e (f : GaugeField) (labels : list string) : option Q := gauge_sample labels (ex_gauges e f).
Definition count e (f : CounterField) (labels : list string) : option Z := counter_sample labels (ex_counters e f).

Definition target w : GaugeField * list string :=
  match w with SetTo f ls _ | RemoveLabeled f ls => (f, ls) end.

Definition written w : option Q := match w with SetTo _ _ v => Some v | RemoveLabeled _ _ => None end.

Lemma target_publish c f ls v : target (publish c f ls v) = (f, ls).
Proof. by destruct c. Qed.

Lemma written_publish (c : bool) f ls v : written (publish c f ls v) = if c then Some v else None.
Proof. by destruct c. Qed.

Lemma sample_write w e f ls :
  sample (run_write w e) f ls = if decide (target w = (f, ls)) then written w else sample e f ls.
Proof.
  unfold sample. destruct w as [g k v|g k]; cbn -[alter]; (destruct (decide (g = f)) as [<-|Hne];
    [rewrite fn_lookup_alter|rewrite fn_lookup_alter_ne by done; rewrite decide_False by congruence; done]).
  - rewrite gauge_sample_set. repeat case_decide; naive_solver.
  - destruct (gauge_remove k (ex_gauges e g)) as [g'|] eqn:Hr; cbn.
    + rewrite (gauge_sample_remove _ _ _ _ Hr). repeat case_decide; naive_solver.
    + case_decide as Hk; [|done]. simplify_eq. destruct (gauge_sample ls (ex_gauges e g)) eqn:Hs; [|done].
      destruct (gauge_remove_present ls (ex_gauges e g)) as [? ?]; [by eexists|congruence].
Qed.

Lemma sample_writes_other ws e f ls : (f, ls) ∉ target <$> ws → sample (run_writes ws e) f ls = sample e f ls.
Proof.
  unfold run_writes. revert e. induction ws as [|w ws IH]; intros e; [done|]. rewrite fmap_cons, not_elem_of_cons.
  intros [Hw Hws]. cbn [fold_left]. rewrite IH, sample_write by done. by rewrite decide_False.
Qed.

Lemma sample_writes ws e w :
  NoDup (target <$> ws) → w ∈ ws → sample (run_writes ws e) (target w).1 (target w).2 = written w.
Proof.
  revert e. induction ws as [|w' ws IH]; intros e; [by intros _ ?%elem_of_nil|]. rewrite fmap_cons, NoDup_cons.
  intros [Hni Hnd] [->|Hin]%elem_of_cons; [|by apply IH]. unfold run_writes. cbn [fold_left].
  etransitivity; [apply sample_writes_other; by rewrite <-surjective_pairing|]. rewrite sample_write.
  by rewrite decide_True by (by rewrite <-surjective_pairing).
Qed.

(** A write that is in the list, under its own name *)
Lemma sample_published ws e c f ls v :
  NoDup (target <$> ws) → publish c f ls v ∈ ws →
  sample (run_writes ws e) f ls = if c then Some v else None.
Proof.
  intros Hnd Hin. pose proof (sample_writes ws e _ Hnd Hin) as H. by rewrite target_publish, written_publish in H.
Qed.

Lemma sample_set_to ws e f ls v :
  NoDup (target <$> ws) → SetTo f ls v ∈ ws → sample (run_writes ws e) f ls = Some v.
Proof. intros Hnd Hin. by apply (sample_writes ws e _ Hnd Hin). Qed.

(** *** Counters *)

Lemma count_inc f ls n e f' ls' :
  count (inc f ls n e).2 f' ls'
  = if decide ((f, ls) = (f', ls')) then Some (default 0 (count e f ls) + Z.max 0 n) else count e f' ls'.
Proof.
  unfold inc, count. pose proof (counter_sample_inc ls n (ex_counters e f)) as H.
  destruct (counter_inc ls n (ex_counters e f)) as [ok c]. cbn in *.
  destruct (decide (f' = f)) as [->|Hne].
  - rewrite fn_lookup_insert, H. repeat case_decide; naive_solver.
  - rewrite fn_lookup_insert_ne by done. by rewrite decide_False by congruence.
Qed.

Lemma inc_ok f ls n e : (inc f ls n e).1 = (0 <=? n).
Proof.
  unfold inc. pose proof (counter_inc_ok ls n (ex_counters e f)) as H. by destruct (counter_inc _ _ _).
Qed.

Lemma inc_frame f ls n e :
  ex_gauges (inc f ls n e).2 = ex_gauges e ∧ ex_seen (inc f ls n e).2 = ex_seen e.
Proof. unfold inc. by destruct (counter_inc _ _ _). Qed.

Lemma writes_frame ws e : ex_counters (run_writes ws e) = ex_counters e ∧ ex_seen (run_writes ws e) = ex_seen e.
Proof.
  unfold run_writes. revert e. induction ws as [|w ws IH]; intros e; [done|]. cbn [fold_left].
  destruct (IH (run_write w e)) as [-> ->]. by destruct w.
Qed.

(** *** Poll counters *)

Definition seen_total e (f : CounterField) (key : list string) : Z := default 0 (od_get key (ex_seen e f)).

Definition delta (previous current : Z) : Z := if current <? previous then current else current - previous.

Lemma advance_spec f key n e :
  let '(ok, e') := advance_counter f key n e in
  ok = true ∧ ex_gauges e' = ex_gauges e
  ∧ ∀ f' k', default 0 (count e' f' k') =
        (if decide ((f, key) = (f', k')) then default 0 (count e f key) + Z.max 0 (delta (seen_total e f key) n)
         else default 0 (count e f' k'))
      ∧ seen_total e' f' k' = if decide ((f, key) = (f', k')) then n else seen_total e f' k'.
Proof.
  unfold advance_counter, positive_counter_delta. fold (seen_total e f key). fold (delta (seen_total e f key) n).
  set (e1 := e <| ex_seen ::= _ |>).
  assert (∀ f' k', seen_total e1 f' k' = if decide ((f, key) = (f', k')) then n else seen_total e f' k') as Hs.
  { intros f' k'. unfold seen_total, e1. cbn. destruct (decide (f' = f)) as [->|Hne].
    - rewrite fn_lookup_insert, od_get_set. repeat case_decide; naive_solver.
    - rewrite fn_lookup_insert_ne by done. by rewrite decide_False by congruence. }
  destruct (Z.ltb_spec 0 (delta (seen_total e f key) n)) as [Hd|Hd].
  - pose proof (inc_ok f key (delta (seen_total e f key) n) e1) as H1.
    pose proof (inc_frame f key (delta (seen_total e f key) n) e1) as [H2 H3].
    pose proof (count_inc f key (delta (seen_total e f key) n) e1) as H4.
    destruct (inc f key _ e1) as [ok e']. cbn in *. split; [rewrite H1; apply Z.leb_le; lia|]. split; [done|].
    intros f' k'. rewrite H4. split; [by case_decide|]. unfold seen_total at 1. rewrite H3. apply Hs.
  - split; [done|]. split; [done|]. intros f' k'. split; [|apply Hs].
    change (count e1 f' k') with (count e f' k'). case_decide as H; [|done]. simplify_eq. lia.
Qed.
End samples.

(** ** Counters across restarts of the source *)

(** What a counter gains from successive readings of a total *)
Fixpoint increments (previous : Z) (readings : list Z) : Z :=
  match readings with
  | [] => 0
  | n :: rest => Z.max 0 (delta previous n) + increments n rest
  end.

(** The readings of one life of the source: it counts up from zero. *)
Definition life (readings : list Z) : Prop := StronglySorted Z.le (0 :: readings).

Definition final (readings : list Z) : Z := default 0 (last readings).

Definition lives_total (lives : list (list Z)) : Z := foldr (λ l acc, final l + acc) 0 lives.

(** Every restart is seen in a total that falls, after a life that counted anything. *)
Fixpoint restarts_show (previous : Z) (lives : list (list Z)) : Prop :=
  match lives with
  | [] => True
  | l :: rest => (previous = 0 ∨ ∃ n, head l = Some n ∧ n < previous) ∧ restarts_show (final l) rest
  end.

Lemma increments_app previous l l' :
  increments previous (l ++ l') = increments previous l + increments (default previous (last l)) l'.
Proof.
  revert previous. induction l as [|n l IH]; intros previous; [done|]. cbn [app increments]. rewrite IH, last_cons.
  destruct (last l); cbn; lia.
Qed.

Lemma increments_up previous l :
  StronglySorted Z.le (previous :: l) → 0 ≤ previous → increments previous l = default previous (last l) - previous.
Proof.
  revert previous. induction l as [|n l IH]; intros previous; cbn [increments]; [cbn; lia|].
  intros [Hs Hall]%StronglySorted_inv Hp. apply Forall_cons in Hall as [Hn Hall]. rewrite IH by (done || lia).
  unfold delta. destruct (Z.ltb_spec n previous); [lia|]. rewrite last_cons. destruct (last l); cbn; lia.
Qed.

Lemma life_increments previous l :
  life l → l ≠ [] → 0 ≤ previous →
  0 ≤ increments previous l ≤ final l
  ∧ (previous = 0 ∨ (∃ n, head l = Some n ∧ n < previous) → increments previous l = final l).
Proof.
  unfold life, final. destruct l as [|n l]; [done|]. intros [Hs Hall]%StronglySorted_inv _ Hp.
  apply Forall_cons in Hall as [Hn Hall]. pose proof (increments_up n l Hs Hn) as Hi.
  assert (n ≤ default n (last l)) as Hle.
  { apply StronglySorted_inv in Hs as [_ Hs]. destruct (last l) as [m|] eqn:Hl; [|done]. cbn.
    rewrite Forall_forall in Hs. apply Hs. by apply last_Some_elem_of. }
  cbn [increments head]. rewrite Hi, last_cons. unfold delta.
  assert (default 0 (match last l with Some y => Some y | None => Some n end) = default n (last l)) as ->
    by (by destruct (last l)).
  destruct (Z.ltb_spec n previous); (split; [lia|]).
  - intros _. lia.
  - intros [->|(? & [= <-] & ?)]; lia.
Qed.

Lemma lives_increments previous lives :
  Forall (λ l, life l ∧ l ≠ []) lives → 0 ≤ previous →
  0 ≤ increments previous (concat lives) ≤ lives_total lives
  ∧ (restarts_show previous lives → increments previous (concat lives) = lives_total lives).
Proof.
  intros Hl. revert previous. induction Hl as [|l lives [Hlife Hne] _ IH]; intros previous Hp; [done|].
  destruct (life_increments previous l Hlife Hne Hp) as [H1 H2]. cbn [concat]. rewrite increments_app.
  assert (default previous (last l) = final l) as ->.
  { unfold final. destruct l as [|n l]; [done|]. rewrite last_cons. by destruct (last l). }
  destruct (IH (final l)) as [H3 H4]; [lia|]. unfold lives_total in *. cbn. split; [lia|].
  intros [Hr Hrest]. rewrite H2, H4 by done. lia.
Qed.

Section polls.
Context `{PL : PrometheusLib}.
Implicit Types (e : Exporter) (d : PipelineDiagnosticsSnapshot).

(** The reading of a counter in one update, when the update publishes its poll section *)
Definition poll_reading (f : CounterField) (key : list string) (u : PipelineDiagnosticsSnapshot * string) : option Z :=
  let '(d, engine_type) := u in
  if bool_decide (engine_type ∈ PIPELINE_ENGINE_TYPES) && poll_published d
     && bool_decide (pp_broker_kind (pds_poll d) ∈ PIPELINE_BROKER_KINDS)
  then od_get (f, key) (poll_totals engine_type (pds_poll d)) else None.

(** Successive calls of [update_pipeline_diagnostics], whether or not they raise *)
Definition publish_all (us : list (PipelineDiagnosticsSnapshot * string)) e : Exporter :=
  fold_left (λ e u, (update_pipeline_diagnostics u.1 u.2 e).2) us e.

(** A counter and its dictionary entry after a reading *)
Definition advanced e e' (f : CounterField) (key : list string) (reading : option Z) : Prop :=
  default 0 (count e' f key)
    = default 0 (count e f key) + match reading with Some n => Z.max 0 (delta (seen_total e f key) n) | None => 0 end
  ∧ seen_total e' f key = default (seen_total e f key) reading.

Lemma advance_counters_spec totals e :
  NoDup (od_keys totals) →
  let '(ok, e') := advance_counters totals e in
  ok = true ∧ ex_gauges e' = ex_gauges e ∧ ∀ f key, advanced e e' f key (od_get (f, key) totals).
Proof.
  unfold advance_counters, advanced. revert e. induction totals as [|[[f0 k0] n0] totals IH]; intros e; cbn [fold_left].
  { intros _. split; [done|]. split; [done|]. intros f key. cbn. split; [lia|done]. }
  intros [Hni Hnd]%NoDup_cons. unfold and_then at 2. cbn [fst snd].
  pose proof (advance_spec f0 k0 n0 e) as Ha. destruct (advance_counter f0 k0 n0 e) as [ok1 e1].
  destruct Ha as (-> & Hg & Ha). specialize (IH e1 Hnd).
  destruct (fold_left _ totals (true, e1)) as [ok e']. destruct IH as (-> & Hg' & IH).
  split; [done|]. split; [by rewrite Hg'|]. intros f key. destruct (IH f key) as [H1 H2]. destruct (Ha f key) as [H3 H4].
  rewrite H1, H2, H3, H4. cbn [od_get].
  destruct (decide ((f, key) = (f0, k0))) as [Heq|Hne].
  - rewrite Heq in *. injection Heq as -> ->. rewrite !decide_True by done.
    assert (od_get (f0, k0) totals = None) as -> by (by apply od_get_None). cbn. split; [lia|done].
  - rewrite !decide_False by (intros [=]; congruence). split; [|done]. done.
Qed.

Lemma poll_totals_NoDup engine_type poll : NoDup (od_keys (poll_totals engine_type poll)).
Proof. unfold od_keys, poll_totals. cbn. repeat constructor; set_unfold; naive_solver. Qed.

(** An update moves exactly the counters it reads, and raises only for a label that is not allowed. *)
Lemma update_pipeline_counts d engine_type e :
  let '(ok, e') := update_pipeline_diagnostics d engine_type e in
  (ok = bool_decide (engine_type ∈ PIPELINE_ENGINE_TYPES)
        && (negb (poll_published d) || bool_decide (pp_broker_kind (pds_poll d) ∈ PIPELINE_BROKER_KINDS)))
  ∧ (∀ f key, advanced e e' f key (poll_reading f key (d, engine_type)))
  ∧ (engine_type ∈ PIPELINE_ENGINE_TYPES → ex_gauges e' = ex_gauges (run_writes (pipeline_writes d engine_type) e))
  ∧ (engine_type ∉ PIPELINE_ENGINE_TYPES → e' = e).
Proof.
  unfold update_pipeline_diagnostics, with_engine_type, poll_reading, update_pipeline_poll_counts.
  destruct (decide (engine_type ∈ PIPELINE_ENGINE_TYPES)) as [He|He];
    [rewrite (bool_decide_eq_true_2 (engine_type ∈ _)) by done|rewrite (bool_decide_eq_false_2 (engine_type ∈ _)) by done];
    cbn [andb].
  2:{ split; [done|]. split; [|done]. intros f key. unfold advanced. cbn. lia. }
  pose proof (writes_frame (pipeline_writes d engine_type) e) as [Hc Hs].
  set (e1 := run_writes (pipeline_writes d engine_type) e) in *.
  assert (∀ f key, count e1 f key = count e f key ∧ seen_total e1 f key = seen_total e f key) as Hsame.
  { intros f key. unfold count, seen_total. by rewrite Hc, Hs. }
  destruct (poll_published d); cbn [negb orb andb].
  2:{ split; [done|]. split; [|done]. intros f key. unfold advanced. destruct (Hsame f key) as [-> ->]. cbn. lia. }
  destruct (decide (pp_broker_kind (pds_poll d) ∈ PIPELINE_BROKER_KINDS)) as [Hk|Hk];
    [rewrite bool_decide_eq_true_2 by done|rewrite bool_decide_eq_false_2 by done].
  2:{ split; [done|]. split; [|done]. intros f key. unfold advanced. destruct (Hsame f key) as [-> ->]. cbn. lia. }
  pose proof (advance_counters_spec (poll_totals engine_type (pds_poll d)) e1 (poll_totals_NoDup _ _)) as Ha.
  destruct (advance_counters _ e1) as [ok e']. destruct Ha as (-> & Hg & Ha).
  split; [done|]. split; [|done]. intros f key. specialize (Ha f key). unfold advanced in *.
  by destruct (Hsame f key) as [<- <-].
Qed.

Lemma publish_all_counts us e f key :
  default 0 (count (publish_all us e) f key)
  = default 0 (count e f key) + increments (seen_total e f key) (omap (poll_reading f key) us).
Proof.
  unfold publish_all. revert e. induction us as [|[d engine_type] us IH]; intros e; cbn [fold_left fst snd]; [cbn; lia|].
  rewrite IH. pose proof (update_pipeline_counts d engine_type e) as H.
  destruct (update_pipeline_diagnostics d engine_type e) as [ok e']. destruct H as (_ & H & _). cbn [snd].
  destruct (H f key) as [-> ->]. cbn [omap list_omap]. destruct (poll_reading f key (d, engine_type)); cbn [increments default from_option id]; lia.
Qed.

Lemma new_exporter_empty enabled server f key :
  count (new_exporter enabled server) f key = None ∧ seen_total (new_exporter enabled server) f key = 0.
Proof.
  unfold count, seen_total, new_exporter.
  assert (counter_sample key (new_counter (counter_labelnames f)) = None) as H.
  { rewrite counter_sample_new. rewrite decide_False; [done|]. intros [Hn _]. by destruct f. }
  by destruct enabled, server.
Qed.

(** C38. The poll counters are delta-safe: whatever diagnostics are published, a counter never counts
    more than its source did over all its lives, and counts exactly that when every restart of the
    source shows as a total that falls; in particular a source that never restarts is exported
    exactly. *)
Theorem poll_counters_delta_safe enabled server us f key lives :
  omap (poll_reading f key) us = concat lives → Forall (λ l, life l ∧ l ≠ []) lives →
  let exported := default 0 (count (publish_all us (new_exporter enabled server)) f key) in
  0 ≤ exported ≤ lives_total lives ∧ (restarts_show 0 lives → exported = lives_total lives).
Proof.
  intros Hr Hl exported. unfold exported. rewrite publish_all_counts, Hr.
  destruct (new_exporter_empty enabled server f key) as [-> ->].
  exact (lives_increments 0 lives Hl (Z.le_refl 0)).
Qed.

(** *** Two consumers that share an exporter *)

Lemma alternating_increments a b n :
  0 < b < a → increments b (concat (replicate n [a; b])) = Z.of_nat n * a.
Proof.
  intros H. induction n as [|n IH]; [done|]. change (concat (replicate (S n) [a; b])) with (a :: b :: concat (replicate n [a; b])).
  cbn [increments]. rewrite IH. unfold delta. destruct (Z.ltb_spec a b), (Z.ltb_spec b a); lia.
Qed.

Lemma omap_alternating {A B} (g : A → option B) x y a b n :
  g x = Some a → g y = Some b → omap g (concat (replicate n [x; y])) = concat (replicate n [a; b]).
Proof.
  intros Hx Hy. induction n as [|n IH]; [done|].
  change (concat (replicate (S n) [x; y])) with (x :: y :: concat (replicate n [x; y])).
  change (concat (replicate (S n) [a; b])) with (a :: b :: concat (replicate n [a; b])). rewrite <-IH. cbn. by rewrite Hx, Hy.
Qed.

(** The totals of two sources under the same labels look like restarts to each other: publishing
    them in turn, with nothing new happening, makes the counter grow by the larger total each time. *)
Theorem shared_counter_overcounts enabled server f key u u' a b n :
  poll_reading f key u = Some a → poll_reading f key u' = Some b → 0 < b < a →
  default 0 (count (publish_all (concat (replicate (S n) [u; u'])) (new_exporter enabled server)) f key)
  = a + b + Z.of_nat n * a.
Proof.
  intros Hu Hu' Hab. rewrite publish_all_counts. destruct (new_exporter_empty enabled server f key) as [-> ->].
  rewrite (omap_alternating _ u u' a b) by done.
  change (concat (replicate (S n) [a; b])) with (a :: b :: concat (replicate n [a; b])). cbn [increments].
  rewrite alternating_increments by done. unfold delta. cbn. destruct (Z.ltb_spec a 0), (Z.ltb_spec b a); lia.
Qed.
End polls.

(** ** Three updates of a source that restarts after the second *)

Definition demo_diagnostics (records : Z) : PipelineDiagnosticsSnapshot :=
  {| pds_stage_counts := [(QUEUED, mkPipelineCount 2 None); (DISPATCHED, mkPipelineCount 1 None)];
     pds_blocked_counts := [(ROUTE_LOCK, mkPipelineCount 1 None)];
     pds_dispatch_capacity := mkDispatchCapacity 1 (Some MAX_IN_FLIGHT);
     pds_workers := mkWorkers 4 1 None [] SUPPORTED;
     pds_subqueues := mkSubqueues 1 1 2 1 1 1 1 [2];
     pds_stage_support := [(QUEUED, SUPPORTED); (DISPATCHED, SUPPORTED); (EXECUTING, NOT_IMPLEMENTED)];
     pds_section_support := [(STAGES, SUPPORTED); (BLOCKED, SUPPORTED); (WORKERS, SUPPORTED); (POLL, SUPPORTED)];
     pds_scope := COMBINED;
     pds_settlement := default_settlement;
     pds_poll := mkPoll records 1 0 0 0 "kafka" SUPPORTED |}.

Definition demo_updates : list (PipelineDiagnosticsSnapshot * string) :=
  (λ n, (demo_diagnostics n, "async"%string)) <$> [3; 5; 2].

Lemma poll_counters_delta_safe_witness :
  default 0 (count (publish_all demo_updates (new_exporter true ServerAlone)) poll_records_total ["async"; "kafka"]%string) = 7.
Proof.
  destruct (poll_counters_delta_safe true ServerAlone demo_updates poll_records_total ["async"; "kafka"]%string [[3; 5]; [2]])
    as [_ H].
  - reflexivity.
  - repeat constructor; try discriminate; lia.
  - etransitivity; [apply H|reflexivity]. split; [by left|]. split; [|exact I]. right. exists 2. split; [reflexivity|]. cbn. lia.
Defined.

(** Two consumers with 100 and 10 records, published in turn: after ten rounds the counter shows 1010. *)
Lemma shared_counter_demo :
  default 0 (count (publish_all (concat (replicate 10 [(demo_diagnostics 100, "async"); (demo_diagnostics 10, "async")]))
    (new_exporter true ServerAlone)) poll_records_total ["async"; "kafka"])%string = 1010.
Proof. by rewrite (shared_counter_overcounts _ _ _ _ _ _ 100 10 9). Qed.
