(* ===== verification/MetricsScrape.v ===== *)
(** * What a scrape of the exporter shows

    The gauges after an update, the series that can exist, and how counters move, for the exporter of
    [MetricsExporter]. *)

From stdpp Require Import pretty.
From S2P Require Import Prelude Vendor Dto WorkManager Adaptive MetricsDto Prometheus MetricsExporter.

(** ** The series of an update of the pipeline diagnostics *)

Definition labels2 (xs ys : list string) : list (list string) := xs ≫= λ x, (λ y, [x; y]) <$> ys.
Definition labels3 (xs ys zs : list string) : list (list string) := xs ≫= λ x, (cons x) <$> labels2 ys zs.

Definition WORKER_CAPACITY_STATES : list string := ["total"; "executing"; "admitted"]%string.
Definition SUBQUEUE_ITEM_STATES : list string := ["queued"; "eligible"; "blocked"]%string.
Definition SUBQUEUE_STATES : list string := ["total"; "queued"; "eligible"; "blocked"]%string.
Definition POLL_EVENTS : list string := ["nonempty"; "empty"; "error"]%string.

(** The gauges of the pipeline diagnostics with their series for the given engine types *)
Definition pipeline_series (engines : list string) : list (GaugeField * list (list string)) :=
  [(section_support_state_gauge, labels3 (section_value <$> all_sections) (support_state_value <$> all_support_states) engines);
   (stage_messages_gauge, labels2 (stage_value <$> all_stages) engines);
   (blocked_messages_gauge, labels2 (blocked_reason_value <$> all_blocked_reasons) engines);
   (dispatch_capacity_blocked_messages_gauge, labels2 (capacity_reason_value <$> all_capacity_reasons) engines);
   (worker_capacity_units_gauge, labels2 WORKER_CAPACITY_STATES engines);
   (subqueue_items_gauge, labels2 SUBQUEUE_ITEM_STATES engines);
   (subqueues_gauge, labels2 SUBQUEUE_STATES engines);
   (settlement_blocker_state_gauge, labels2 (blocker_reason_value <$> all_blocker_reasons) engines)].

Definition pipeline_targets (engine_type : string) : list (GaugeField * list string) :=
  pipeline_series [engine_type] ≫= λ '(f, lss), pair f <$> lss.

Lemma pipeline_targets_spec d engine_type : target <$> pipeline_writes d engine_type = pipeline_targets engine_type.
Proof.
  unfold pipeline_writes. rewrite !fmap_app. unfold stage_writes, blocked_writes, dispatch_capacity_writes,
    worker_writes, subqueue_writes, settlement_writes. rewrite !fmap_app, <-!list_fmap_compose.
  unfold worker_values, subqueue_item_values, subqueue_values, all_stages, all_blocked_reasons, all_capacity_reasons,
    all_blocker_reasons, compose. cbn [fmap list_fmap].
  rewrite !target_publish. reflexivity.
Qed.

Lemma pipeline_targets_NoDup engine_type : engine_type ∈ PIPELINE_ENGINE_TYPES → NoDup (pipeline_targets engine_type).
Proof.
  intros [->|[->|H%elem_of_nil]%elem_of_cons]%elem_of_cons; [| |done]; apply (bool_decide_unpack _); by vm_compute.
Qed.

Lemma pipeline_writes_elem d engine_type w :
  w ∈ section_support_writes d engine_type ∨ w ∈ stage_writes d engine_type ∨ w ∈ blocked_writes d engine_type
  ∨ w ∈ dispatch_capacity_writes d engine_type ∨ w ∈ worker_writes d engine_type
  ∨ w ∈ subqueue_writes d engine_type ∨ w ∈ settlement_writes d engine_type →
  w ∈ pipeline_writes d engine_type.
Proof. unfold pipeline_writes. rewrite !elem_of_app. tauto. Qed.

(** The write for one member of an enumeration *)
Ltac write_of x :=
  apply list_elem_of_fmap; exists x; split; [reflexivity|destruct x; repeat constructor].

Section scrape.
Context `{PL : PrometheusLib}.
Implicit Types (e : Exporter) (d : PipelineDiagnosticsSnapshot).

(** A write of the update is what a scrape shows; a series that the update does not write stays. *)
Lemma pipeline_shown d engine_type e c f ls v :
  engine_type ∈ PIPELINE_ENGINE_TYPES → publish c f ls v ∈ pipeline_writes d engine_type →
  sample (update_pipeline_diagnostics d engine_type e).2 f ls = if c then Some v else None.
Proof.
  intros He Hw. pose proof (update_pipeline_counts d engine_type e) as H.
  destruct (update_pipeline_diagnostics d engine_type e) as [ok e']. destruct H as (_ & _ & Hg & _).
  unfold sample. cbn [snd]. rewrite (Hg He). apply sample_published; [|done].
  rewrite pipeline_targets_spec. by apply pipeline_targets_NoDup.
Qed.

Lemma pipeline_frame d engine_type e f ls :
  (f, ls) ∉ pipeline_targets engine_type → sample (update_pipeline_diagnostics d engine_type e).2 f ls = sample e f ls.
Proof.
  intros Hn. pose proof (update_pipeline_counts d engine_type e) as H.
  destruct (update_pipeline_diagnostics d engine_type e) as [ok e']. destruct H as (_ & _ & Hg & Hne). cbn [snd].
  destruct (decide (engine_type ∈ PIPELINE_ENGINE_TYPES)) as [He|He]; [|by rewrite Hne].
  unfold sample. rewrite (Hg He). apply sample_writes_other. by rewrite pipeline_targets_spec.
Qed.

Lemma stage_write d engine_type stage :
  publish (section_supported d STAGES && bool_decide (od_get stage (pds_stage_support d) = Some SUPPORTED))
    stage_messages_gauge [stage_value stage; engine_type]
    (inject_Z (default 0 (pc_count <$> od_get stage (pds_stage_counts d)))) ∈ pipeline_writes d engine_type.
Proof. apply pipeline_writes_elem. right; left. by write_of stage. Qed.

Lemma blocked_write d engine_type reason :
  publish (section_supported d BLOCKED) blocked_messages_gauge [blocked_reason_value reason; engine_type]
    (inject_Z (default 0 (pc_count <$> od_get reason (pds_blocked_counts d)))) ∈ pipeline_writes d engine_type.
Proof. apply pipeline_writes_elem. right; right; left. by write_of reason. Qed.

Lemma subqueue_item_write d engine_type state n :
  (state, n) ∈ subqueue_item_values d →
  publish (section_supported d SUBQUEUES) subqueue_items_gauge [state; engine_type] (inject_Z n)
    ∈ pipeline_writes d engine_type.
Proof.
  intros Hn. apply pipeline_writes_elem. do 5 right; left. apply elem_of_app. left.
  apply list_elem_of_fmap. by exists (state, n).
Qed.

Lemma blocker_write d engine_type reason :
  publish (section_supported d SETTLEMENT && bool_decide (pst_support_state (pds_settlement d) = SUPPORTED))
    settlement_blocker_state_gauge [blocker_reason_value reason; engine_type]
    (flag (bool_decide (pst_blocker_reason (pds_settlement d) = Some reason))) ∈ pipeline_writes d engine_type.
Proof. apply pipeline_writes_elem. do 6 right. by write_of reason. Qed.

(** The pipeline gauges show the published diagnostics and nothing else: for the engine type of
    the update each section has a one-hot support state, a stage, blocked reason, capacity blocker,
    worker state, subqueue state or settlement blocker has a series exactly when it is supported, with
    the reported value - never a zero that nobody measured - and every other series is left as it was.
    This holds also when the poll section makes the call raise. *)
Theorem pipeline_scrape_exact d engine_type e :
  engine_type ∈ PIPELINE_ENGINE_TYPES →
  let e' := (update_pipeline_diagnostics d engine_type e).2 in
  (∀ section state, sample e' section_support_state_gauge [section_value section; support_state_value state; engine_type]
     = Some (flag (bool_decide (default NOT_IMPLEMENTED (od_get section (pds_section_support d)) = state))))
  ∧ (∀ stage, sample e' stage_messages_gauge [stage_value stage; engine_type]
     = if section_supported d STAGES && bool_decide (od_get stage (pds_stage_support d) = Some SUPPORTED)
       then Some (inject_Z (default 0 (pc_count <$> od_get stage (pds_stage_counts d)))) else None)
  ∧ (∀ reason, sample e' blocked_messages_gauge [blocked_reason_value reason; engine_type]
     = if section_supported d BLOCKED
       then Some (inject_Z (default 0 (pc_count <$> od_get reason (pds_blocked_counts d)))) else None)
  ∧ (∀ reason, sample e' dispatch_capacity_blocked_messages_gauge [capacity_reason_value reason; engine_type]
     = if section_supported d DISPATCH_CAPACITY && bool_decide (dc_reason (pds_dispatch_capacity d) = Some reason)
       then Some (inject_Z (dc_blocked_items (pds_dispatch_capacity d))) else None)
  ∧ (∀ state value, (state, value) ∈ worker_values d →
       sample e' worker_capacity_units_gauge [state; engine_type]
       = if section_supported d WORKERS && bool_decide (pw_support_state (pds_workers d) = SUPPORTED)
            && bool_decide (is_Some value)
         then Some (inject_Z (default 0 value)) else None)
  ∧ (∀ state n, (state, n) ∈ subqueue_item_values d → sample e' subqueue_items_gauge [state; engine_type]
       = if section_supported d SUBQUEUES then Some (inject_Z n) else None)
  ∧ (∀ state n, (state, n) ∈ subqueue_values d → sample e' subqueues_gauge [state; engine_type]
       = if section_supported d SUBQUEUES then Some (inject_Z n) else None)
  ∧ (∀ reason, sample e' settlement_blocker_state_gauge [blocker_reason_value reason; engine_type]
     = if section_supported d SETTLEMENT && bool_decide (pst_support_state (pds_settlement d) = SUPPORTED)
       then Some (flag (bool_decide (pst_blocker_reason (pds_settlement d) = Some reason))) else None)
  ∧ (∀ f labels, (f, labels) ∉ pipeline_targets engine_type → sample e' f labels = sample e f labels).
Proof.
  intros He. cbv zeta. split_and!; intros.
  - apply (pipeline_shown _ _ _ true); [done|]. apply pipeline_writes_elem. left. apply list_elem_of_bind.
    exists section. split; [|by destruct section; repeat constructor]. by write_of state.
  - apply pipeline_shown; [done|apply stage_write].
  - apply pipeline_shown; [done|apply blocked_write].
  - apply pipeline_shown; [done|]. apply pipeline_writes_elem. do 3 right; left. by write_of reason.
  - apply pipeline_shown; [done|]. apply pipeline_writes_elem. do 4 right; left.
    apply list_elem_of_fmap. by exists (state, value).
  - apply pipeline_shown; [done|]. by apply subqueue_item_write.
  - apply pipeline_shown; [done|]. apply pipeline_writes_elem. do 5 right; left. apply elem_of_app. right.
    apply list_elem_of_fmap. by exists (state, n).
  - apply pipeline_shown; [done|apply blocker_write].
  - by apply pipeline_frame.
Qed.
End scrape.

(** ** The gauges of the system metrics *)

Lemma partition_labels_inj tp tp' : partition_labels tp = partition_labels tp' → tp = tp'.
Proof. destruct tp, tp'. unfold partition_labels, str_of_int. cbn. intros [= -> H]. apply (inj pretty) in H. by subst. Qed.

Definition partition_gauges : list GaugeField := [lag_gauge; gap_gauge; queued_gauge; blocking_duration_gauge].

Lemma partition_targets p : target <$> partition_writes p = (λ f, (f, partition_labels (pm_tp p))) <$> partition_gauges.
Proof. done. Qed.

Lemma partitions_targets ps f ls :
  (f, ls) ∈ target <$> (ps ≫= partition_writes) ↔
    f ∈ partition_gauges ∧ ∃ p, p ∈ ps ∧ ls = partition_labels (pm_tp p).
Proof.
  rewrite list_elem_of_fmap. setoid_rewrite list_elem_of_bind. split.
  - intros (w & Hw & p & Hwp & Hp). apply (list_elem_of_fmap_2 target) in Hwp. rewrite <-Hw, partition_targets in Hwp.
    apply list_elem_of_fmap in Hwp as (g & [= -> ->] & Hg). split; [done|by exists p].
  - intros [Hf (p & Hp & ->)].
    assert ((f, partition_labels (pm_tp p)) ∈ target <$> partition_writes p) as Hin.
    { rewrite partition_targets. apply list_elem_of_fmap. by exists f. }
    apply list_elem_of_fmap in Hin as (w & Hw & Hin). exists w. split; [done|]. by exists p.
Qed.

Lemma partitions_targets_NoDup ps : NoDup (pm_tp <$> ps) → NoDup (target <$> (ps ≫= partition_writes)).
Proof.
  induction ps as [|p ps IH]; intros Hnd; [constructor|]. rewrite fmap_cons in Hnd. apply NoDup_cons in Hnd as [Hni Hnd].
  change (NoDup (target <$> (partition_writes p ++ (ps ≫= partition_writes)))). rewrite fmap_app, NoDup_app.
  split; [|split; [|by apply IH]].
  - rewrite partition_targets. cbn. repeat constructor; set_unfold; naive_solver.
  - intros [f ls] Hin (_ & p' & Hp' & ->)%partitions_targets. rewrite partition_targets in Hin.
    apply list_elem_of_fmap in Hin as (g & Heq & _). apply (f_equal snd), partition_labels_inj in Heq.
    apply Hni. rewrite <-Heq. by apply list_elem_of_fmap_2.
Qed.

(** The writes that do not depend on partitions *)
Definition fixed_writes (m : SystemMetrics) : list GaugeWrite :=
  [set_int in_flight_gauge (sm_total_in_flight m); SetTo backpressure_gauge [] (flag (sm_is_paused m))]
  ++ resource_signal_writes (sm_resource_signal m) ++ backpressure_writes (sm_adaptive_backpressure m)
  ++ decision_writes (sm_adaptive_backpressure m) ++ concurrency_writes (sm_adaptive_concurrency m)
  ++ process_batch_writes (sm_process_batch_metrics m).

Lemma system_writes_perm m : system_writes m ≡ₚ (sm_partitions m ≫= partition_writes) ++ fixed_writes m.
Proof. unfold system_writes, fixed_writes. rewrite Permutation_app_swap_app. done. Qed.

Definition fixed_targets (m : SystemMetrics) : list (GaugeField * list string) := target <$> fixed_writes m.

(** Evaluate the list of a statement that its symbolic values do not reach, and decide it. *)
Ltac decide_targets P :=
  match goal with |- context C [fixed_targets ?m] =>
    let l := eval vm_compute in (fixed_targets m) in
    let g := context C [l] in change g; apply (bool_decide_unpack (P l)); vm_compute; exact I
  end.

Definition distinct_fixed (l : list (GaugeField * list string)) : Prop :=
  NoDup l ∧ Forall (λ p, p.1 ∉ partition_gauges) l.

#[export] Instance distinct_fixed_dec l : Decision (distinct_fixed l).
Proof. unfold distinct_fixed. apply _. Defined.

Lemma fixed_targets_distinct m : distinct_fixed (fixed_targets m).
Proof. destruct m as [n p ps [b|] sig [ab|] [ac|] k]; decide_targets distinct_fixed. Qed.

Lemma system_targets_NoDup m : NoDup (pm_tp <$> sm_partitions m) → NoDup (target <$> system_writes m).
Proof.
  intros Hnd. rewrite system_writes_perm, fmap_app, NoDup_app. destruct (fixed_targets_distinct m) as [H1 H2].
  split; [by apply partitions_targets_NoDup|]. split; [|done].
  intros [f ls] [Hf _]%partitions_targets Hin. rewrite Forall_forall in H2. by apply (H2 _ Hin).
Qed.

Section system_scrape.
Context `{PL : PrometheusLib}.
Implicit Types (e : Exporter).

(** What a scrape shows of one partition *)
Definition shows_partition e (tp : TopicPartition) (lag gaps queued : Z) (blocked : Q) : Prop :=
  sample e lag_gauge (partition_labels tp) = Some (inject_Z lag)
  ∧ sample e gap_gauge (partition_labels tp) = Some (inject_Z gaps)
  ∧ sample e queued_gauge (partition_labels tp) = Some (inject_Z queued)
  ∧ sample e blocking_duration_gauge (partition_labels tp) = Some blocked.

(** An update shows each partition of the metrics, and leaves the series of the others. *)
Lemma update_shows_partitions m e :
  NoDup (pm_tp <$> sm_partitions m) →
  (∀ p, p ∈ sm_partitions m →
     shows_partition (update_from_system_metrics m e) (pm_tp p) (pm_true_lag p) (pm_gap_count p) (pm_queued_count p)
       (default 0%Q (pm_blocking_duration_sec p)))
  ∧ (∀ f tp, f ∈ partition_gauges → tp ∉ pm_tp <$> sm_partitions m →
       sample (update_from_system_metrics m e) f (partition_labels tp) = sample e f (partition_labels tp)).
Proof.
  intros Hnd. unfold update_from_system_metrics. pose proof (system_targets_NoDup m Hnd) as Hd.
  assert (∀ w p, p ∈ sm_partitions m → w ∈ partition_writes p → w ∈ system_writes m) as Hin.
  { intros w p Hp Hw. rewrite system_writes_perm. apply elem_of_app. left. apply list_elem_of_bind. by exists p. }
  split.
  - intros p Hp. split_and!; apply sample_set_to; try done; apply (Hin _ p Hp); repeat constructor.
  - intros f tp Hf Htp. apply sample_writes_other. rewrite system_writes_perm, fmap_app, elem_of_app, partitions_targets.
    intros [[_ (p & Hp & Heq)]|Hfix].
    + apply Htp. apply partition_labels_inj in Heq. subst. by apply list_elem_of_fmap_2.
    + destruct (fixed_targets_distinct m) as [_ H2]. rewrite Forall_forall in H2. by apply (H2 _ Hfix).
Qed.

(** The whole of an update of the system metrics *)
Lemma update_shows_system m e :
  NoDup (pm_tp <$> sm_partitions m) →
  let e' := update_from_system_metrics m e in
  sample e' in_flight_gauge [] = Some (inject_Z (sm_total_in_flight m))
  ∧ sample e' backpressure_gauge [] = Some (flag (sm_is_paused m))
  ∧ (∀ s, sample e' resource_signal_status_gauge [resource_status_value s]
       = Some (flag (bool_decide (s = default UNAVAILABLE (rsig_status <$> sm_resource_signal m)))))
  ∧ (∀ k, sample e' ab_last_decision_gauge [decision_value k]
       = Some (flag (bool_decide (k = default DISABLED (abs_last_decision <$> sm_adaptive_backpressure m))))).
Proof.
  intros Hnd. cbv zeta. unfold update_from_system_metrics. pose proof (system_targets_NoDup m Hnd) as Hd.
  assert (∀ w, w ∈ fixed_writes m → w ∈ system_writes m) as Hin.
  { intros w Hw. rewrite system_writes_perm. apply elem_of_app. by right. }
  split_and!.
  - apply sample_set_to; [done|]. apply Hin. by left.
  - apply sample_set_to; [done|]. apply Hin. right; by left.
  - intros s. apply sample_set_to; [done|]. apply Hin. unfold fixed_writes. rewrite !elem_of_app. right; left.
    unfold resource_signal_writes. apply elem_of_app. left. apply list_elem_of_fmap. exists (resource_status_value s).
    split; [|destruct s; repeat constructor].
    do 2 f_equal. apply bool_decide_ext. destruct (sm_resource_signal m) as [g|]; cbn; [|by destruct s].
    split; [congruence|by intros ?%(inj _)].
  - intros k. apply sample_set_to; [done|]. apply Hin. unfold fixed_writes. rewrite !elem_of_app. do 3 right; left.
    unfold decision_writes. apply list_elem_of_fmap. exists (decision_value k).
    split; [|destruct k; repeat constructor].
    do 2 f_equal. apply bool_decide_ext. destruct (sm_adaptive_backpressure m) as [g|]; cbn; [|by destruct k].
    split; [congruence|by intros ?%(inj _)].
Qed.
End system_scrape.

(** ** The series that can exist *)

Definition labels1 (xs : list string) : list (list string) := (λ x, [x]) <$> xs.

(** The gauges with labels whose series are bounded *)
Definition bounded_gauges : list (GaugeField * list (list string)) :=
  [(resource_signal_status_gauge, labels1 RESOURCE_SIGNAL_STATUSES);
   (ab_last_decision_gauge, labels1 ADAPTIVE_BACKPRESSURE_DECISIONS);
   (batch_flush_count, labels1 ["size"; "timer"; "close"; "demand"]%string);
   (transport_mode_gauge, labels1 ["worker_pipes"%string]);
   (batch_support_state_gauge, labels1 ["full"; "bounded"]%string);
   (coordinator_pending_partitions, labels1 PIPELINE_ENGINE_TYPES)]
  ++ pipeline_series PIPELINE_ENGINE_TYPES.

(** All the series a gauge can have; [None] for the gauges with a topic label *)
Definition gauge_domain (f : GaugeField) : option (list (list string)) :=
  if decide (f ∈ metadata_size_gauge :: partition_gauges) then None else Some (default [[]] (od_get f bounded_gauges)).

Definition in_gauge_domain (f : GaugeField) (ls : list string) : Prop :=
  match gauge_domain f with
  | Some domain => ls ∈ domain
  | None => (f = metadata_size_gauge ∧ ∃ t, ls = [t]) ∨ ∃ tp, ls = partition_labels tp
  end.

Definition in_counter_domain (f : CounterField) (ls : list string) : Prop :=
  match f with
  | processed_total => ∃ tp s, ls = partition_labels tp ++ [s] ∧ s ∈ ["success"; "failure"]%string
  | commit_failures_total => ∃ tp s, ls = partition_labels tp ++ [s] ∧ s ∈ COMMIT_FAILURE_REASONS
  | dlq_publish_failures_total => ∃ tp, ls = partition_labels tp
  | poll_records_total | completed_offset_skips_total => ls ∈ labels2 PIPELINE_ENGINE_TYPES PIPELINE_BROKER_KINDS
  | poll_events_total => ls ∈ labels3 POLL_EVENTS PIPELINE_ENGINE_TYPES PIPELINE_BROKER_KINDS
  | coordinator_coalesced_total | coordinator_submitted_total | coordinator_success_total =>
      ls ∈ labels1 PIPELINE_ENGINE_TYPES
  | coordinator_failures_total | coordinator_retries_total =>
      ls ∈ labels2 PIPELINE_ENGINE_TYPES COMMIT_COORDINATOR_FAILURE_REASONS
  end.

Definition in_histogram_domain (f : HistogramField) (ls : list string) : Prop :=
  match f with
  | latency_hist => ∃ tp, ls = partition_labels tp
  | _ => ls ∈ labels1 PIPELINE_ENGINE_TYPES
  end.

(** The public operations of the exporter *)
Inductive ExporterOp :=
  | OpSystemMetrics (m : SystemMetrics)
  | OpMetadataSize (topic_name : string) (size_bytes : Z)
  | OpPipeline (d : PipelineDiagnosticsSnapshot) (engine_type : string)
  | OpCompletion (tp : TopicPartition) (status : CompletionStatus) (duration_seconds : Q)
  | OpCommitFailure (tp : TopicPartition) (reason : string)
  | OpDlqPublishFailure (tp : TopicPartition)
  | OpCommitLatency (engine_type : string) (duration_seconds : Q)
  | OpPendingPartitions (engine_type : string) (n : Z)
  | OpSubmitted (engine_type : string) (n : Z)
  | OpSuccess (engine_type : string) (n : Z)
  | OpFailure (engine_type reason : string) (n : Z)
  | OpRetry (engine_type reason : string) (n : Z)
  | OpCoalesced (engine_type : string) (n : Z)
  | OpSettlementLatency (engine_type : string) (duration_seconds : Q)
  | OpClose.

Section series.
Context `{PL : PrometheusLib}.
Implicit Types (e : Exporter) (op : ExporterOp).

Definition exec op : Exporter → bool * Exporter :=
  match op with
  | OpSystemMetrics m => λ e, (true, update_from_system_metrics m e)
  | OpMetadataSize t n => λ e, (true, update_metadata_size t n e)
  | OpPipeline d engine_type => update_pipeline_diagnostics d engine_type
  | OpCompletion tp status x => observe_completion tp status x
  | OpCommitFailure tp reason => record_commit_failure tp reason
  | OpDlqPublishFailure tp => record_dlq_publish_failure tp
  | OpCommitLatency engine_type x => observe_completion_to_commit_latency engine_type x
  | OpPendingPartitions engine_type n => set_commit_coordinator_pending_partitions engine_type n
  | OpSubmitted engine_type n => record_commit_coordinator_submitted engine_type n
  | OpSuccess engine_type n => record_commit_coordinator_success engine_type n
  | OpFailure engine_type reason n => record_commit_coordinator_failure engine_type reason n
  | OpRetry engine_type reason n => record_commit_coordinator_retry engine_type reason n
  | OpCoalesced engine_type n => record_commit_coordinator_coalesced engine_type n
  | OpSettlementLatency engine_type x => observe_commit_coordinator_settlement_latency engine_type x
  | OpClose => λ e, (true, close e)
  end.

Definition exec_all (ops : list ExporterOp) e : Exporter := fold_left (λ e op, (exec op e).2) ops e.

Definition observations e (f : HistogramField) (labels : list string) : option Z :=
  histogram_count labels (ex_histograms e f).

(** Every series is one of those its collector can have. *)
Definition series_bounded e : Prop :=
  (∀ f ls, is_Some (sample e f ls) → in_gauge_domain f ls)
  ∧ (∀ f ls, is_Some (count e f ls) → in_counter_domain f ls)
  ∧ (∀ f ls, is_Some (observations e f ls) → in_histogram_domain f ls).

(** An operation that only adds such series, and lets no counter fall *)
Record extends e e' : Prop := mkExtends {
  xt_gauges f ls : is_Some (sample e' f ls) → in_gauge_domain f ls ∨ is_Some (sample e f ls);
  xt_counters f ls : is_Some (count e' f ls) → in_counter_domain f ls ∨ is_Some (count e f ls);
  xt_histograms f ls : is_Some (observations e' f ls) → in_histogram_domain f ls ∨ is_Some (observations e f ls);
  xt_counts f ls : default 0 (count e f ls) ≤ default 0 (count e' f ls);
}.

Lemma extends_refl e : extends e e.
Proof. split; [by right..|done]. Qed.

Lemma extends_trans e1 e2 e3 : extends e1 e2 → extends e2 e3 → extends e1 e3.
Proof.
  intros [A1 A2 A3 A4] [B1 B2 B3 B4]. split; intros f ls; [naive_solver..|].
  etransitivity; [apply A4|apply B4].
Qed.

Lemma extends_bounded e e' : extends e e' → series_bounded e → series_bounded e'.
Proof. intros [H1 H2 H3 _] (B1 & B2 & B3). split_and!; naive_solver. Qed.

Lemma writes_extend ws e : Forall (λ p, in_gauge_domain p.1 p.2) (target <$> ws) → extends e (run_writes ws e).
Proof.
  intros Hd. rewrite Forall_forall in Hd. split; intros f ls.
  - intros Hs. destruct (decide ((f, ls) ∈ target <$> ws)) as [Hin|Hni]; [left; exact (Hd _ Hin)|right].
    by rewrite sample_writes_other in Hs.
  - unfold count. destruct (writes_frame ws e) as [-> _]. by right.
  - intros Hs. right. revert Hs. unfold observations, run_writes. clear Hd. revert e.
    induction ws as [|w ws IH]; intros e; [done|]. cbn [fold_left]. intros Hs%IH. by destruct w.
  - unfold count. by destruct (writes_frame ws e) as [-> _].
Qed.

Lemma inc_extends f ls n e : in_counter_domain f ls → extends e (inc f ls n e).2.
Proof.
  intros Hd. destruct (inc_frame f ls n e) as [Hg _]. split; intros f' ls'.
  - unfold sample. rewrite Hg. by right.
  - rewrite count_inc. case_decide as H; [simplify_eq; by left|by right].
  - intros Hs. right. revert Hs. unfold observations, inc. by destruct (counter_inc _ _ _).
  - rewrite count_inc. case_decide as H; [simplify_eq; cbn; lia|done].
Qed.

Lemma observe_extends f ls x e : in_histogram_domain f ls → extends e (observe f ls x e).
Proof.
  intros Hd. split; intros f' ls'; [by right..| |done].
  unfold observations, observe. cbn -[alter]. destruct (decide (f = f')) as [<-|Hne].
  - rewrite functions.fn_lookup_alter, histogram_count_observe. case_decide as H; [subst; by left|by right].
  - rewrite functions.fn_lookup_alter_ne by done. by right.
Qed.

Lemma advance_extends f key n e : in_counter_domain f key → extends e (advance_counter f key n e).2.
Proof.
  intros Hd. unfold advance_counter. destruct (positive_counter_delta _ _ _) as [delta seen].
  set (e1 := e <| ex_seen ::= _ |>). assert (extends e e1) as H1 by (split; [by right..|done]).
  destruct (0 <? delta); [|done]. eapply extends_trans; [exact H1|]. by apply inc_extends.
Qed.

Lemma advance_all_extend totals e :
  (∀ t, t ∈ totals → in_counter_domain t.1.1 t.1.2) → extends e (advance_counters totals e).2.
Proof.
  unfold advance_counters. change e with (true, e).2 at 1. generalize (true, e). induction totals as [|t totals IH]; intros r Hd.
  { apply extends_refl. }
  cbn [fold_left]. eapply extends_trans; [|apply IH; intros t' Ht'; apply Hd; by right].
  unfold and_then. destruct r as [[|] e0]; cbn [fst snd]; [|apply extends_refl]. apply advance_extends, Hd. by left.
Qed.

Lemma with_engine_extends engine_type f e :
  (engine_type ∈ PIPELINE_ENGINE_TYPES → extends e (f e).2) → extends e (with_engine_type engine_type f e).2.
Proof. intros H. unfold with_engine_type. case_decide; [by apply H|apply extends_refl]. Qed.

Lemma with_reason_extends reason f e :
  (reason ∈ COMMIT_COORDINATOR_FAILURE_REASONS → extends e (f e).2) → extends e (with_coordinator_reason reason f e).2.
Proof. intros H. unfold with_coordinator_reason. case_decide; [by apply H|apply extends_refl]. Qed.

Lemma labels1_elem x xs : x ∈ xs → [x] ∈ labels1 xs.
Proof. intros H. apply list_elem_of_fmap. by exists x. Qed.

Lemma labels2_elem x y xs ys : x ∈ xs → y ∈ ys → [x; y] ∈ labels2 xs ys.
Proof. intros Hx Hy. apply list_elem_of_bind. exists x. split; [|done]. apply list_elem_of_fmap. by exists y. Qed.

Lemma labels3_elem x y z xs ys zs : x ∈ xs → y ∈ ys → z ∈ zs → [x; y; z] ∈ labels3 xs ys zs.
Proof.
  intros Hx Hy Hz. apply list_elem_of_bind. exists x. split; [|done]. apply list_elem_of_fmap. exists [y; z].
  split; [done|by apply labels2_elem].
Qed.

(** *** Every operation stays within the domains *)

Definition closed_target (p : GaugeField * list string) : Prop :=
  match gauge_domain p.1 with Some domain => p.2 ∈ domain | None => False end.

#[local] Instance closed_target_dec p : Decision (closed_target p).
Proof. unfold closed_target. destruct (gauge_domain p.1); apply _. Defined.

Lemma closed_in_domain l : Forall closed_target l → Forall (λ p, in_gauge_domain p.1 p.2) l.
Proof. intros H. eapply Forall_impl; [exact H|]. intros p. unfold closed_target, in_gauge_domain. by destruct (gauge_domain p.1). Qed.

Lemma system_writes_closed m : Forall (λ p, in_gauge_domain p.1 p.2) (target <$> system_writes m).
Proof.
  rewrite system_writes_perm, fmap_app, Forall_app. split.
  - rewrite Forall_forall. intros [f ls] (Hf & p & _ & ->)%partitions_targets. cbn. unfold in_gauge_domain, gauge_domain.
    rewrite decide_True by (by right). right. by eexists.
  - apply closed_in_domain. change (Forall closed_target (fixed_targets m)).
    destruct m as [n p ps [b|] sig [ab|] [ac|] k]; decide_targets (Forall closed_target).
Qed.

Lemma pipeline_writes_closed d engine_type :
  engine_type ∈ PIPELINE_ENGINE_TYPES → Forall (λ p, in_gauge_domain p.1 p.2) (target <$> pipeline_writes d engine_type).
Proof.
  rewrite pipeline_targets_spec.
  intros [->|[->|He%elem_of_nil]%elem_of_cons]%elem_of_cons; [| |done]; apply closed_in_domain.
  - apply (bool_decide_unpack (Forall closed_target (pipeline_targets "async"))). by vm_compute.
  - apply (bool_decide_unpack (Forall closed_target (pipeline_targets "process"))). by vm_compute.
Qed.

Lemma update_pipeline_extends d engine_type e : extends e (update_pipeline_diagnostics d engine_type e).2.
Proof.
  apply with_engine_extends. intros He. eapply extends_trans; [apply writes_extend; by apply pipeline_writes_closed|].
  unfold update_pipeline_poll_counts. destruct (poll_published d); [|apply extends_refl]. cbn [negb].
  case_decide as Hk; [|apply extends_refl]. apply advance_all_extend. unfold poll_totals.
  assert (∀ s, s ∈ POLL_EVENTS → in_counter_domain poll_events_total [s; engine_type; pp_broker_kind (pds_poll d)]) as Hev
    by (intros s Hs; by apply labels3_elem).
  assert (∀ f, f = poll_records_total ∨ f = completed_offset_skips_total →
    in_counter_domain f [engine_type; pp_broker_kind (pds_poll d)]) as Hrec by (intros f [->| ->]; by apply labels2_elem).
  intros t Ht. repeat (apply elem_of_cons in Ht as [->|Ht]); [..|by apply elem_of_nil in Ht]; cbn [fst snd].
  - apply (Hrec poll_records_total). by left.
  - apply Hev. by repeat constructor.
  - apply Hev. by repeat constructor.
  - apply Hev. by repeat constructor.
  - apply (Hrec completed_offset_skips_total). by right.
Qed.

Lemma exec_extends op e : extends e (exec op e).2.
Proof.
  destruct op; cbn [exec].
  - apply writes_extend, system_writes_closed.
  - apply (writes_extend [SetTo metadata_size_gauge [topic_name] (inject_Z size_bytes)]).
    apply Forall_singleton. left. split; [done|by eexists].
  - apply update_pipeline_extends.
  - unfold observe_completion, and_then. destruct (inc _ _ _ _) as [ok e1] eqn:Hi. cbn [fst snd].
    assert (extends e e1) as H1.
    { change e1 with (ok, e1).2. rewrite <-Hi. apply inc_extends. exists tp. eexists. split; [done|].
      destruct status; by repeat constructor. }
    destruct ok; [|done]. cbn. eapply extends_trans; [exact H1|]. apply observe_extends. by exists tp.
  - unfold record_commit_failure. case_decide; [|apply extends_refl]. apply inc_extends. by exists tp, reason.
  - apply inc_extends. by exists tp.
  - apply with_engine_extends. intros He. apply observe_extends. by apply labels1_elem.
  - apply with_engine_extends. intros He.
    apply (writes_extend [SetTo coordinator_pending_partitions [engine_type] (inject_Z n)]), Forall_singleton.
    change ([engine_type] ∈ labels1 PIPELINE_ENGINE_TYPES). by apply labels1_elem.
  - apply with_engine_extends. intros He. apply inc_extends. by apply labels1_elem.
  - apply with_engine_extends. intros He. apply inc_extends. by apply labels1_elem.
  - apply with_reason_extends. intros Hr. apply with_engine_extends. intros He. apply inc_extends. by apply labels2_elem.
  - apply with_reason_extends. intros Hr. apply with_engine_extends. intros He. apply inc_extends. by apply labels2_elem.
  - apply with_engine_extends. intros He. apply inc_extends. by apply labels1_elem.
  - apply with_engine_extends. intros He. apply observe_extends. by apply labels1_elem.
  - unfold close. destruct (ex_http_server e); [|apply extends_refl]. cbn. split; [by right..|done].
Qed.

Lemma new_exporter_bounded enabled server : series_bounded (new_exporter enabled server).
Proof.
  assert (∃ b1 b2, new_exporter enabled server = mkExporter (λ f, new_gauge (gauge_labelnames f))
    (λ f, new_counter (counter_labelnames f)) (λ f, new_histogram (histogram_labelnames f)) (λ _, []) b1 b2 [])
    as (b1 & b2 & ->) by (destruct enabled; [destruct server|]; by eexists _, _).
  unfold series_bounded, sample, count, observations. cbn. split_and!; intros f ls.
  - rewrite gauge_sample_new. case_decide as H; [|by intros []]. destruct H as [H ->]. intros _.
    unfold in_gauge_domain. destruct f; try discriminate H; vm_compute; left.
  - rewrite counter_sample_new. case_decide as H; [|by intros []]. by destruct f, H.
  - rewrite histogram_count_new. case_decide as H; [|by intros []]. by destruct f, H.
Qed.

(** The exporter has bounded cardinality and monotone counters: whatever calls are made, in
    whatever order and with whatever arguments, the series of every collector stay within the label
    values its enumerations allow - only collectors with a topic label grow, by topic-partition - and
    no call makes a counter fall. *)
Theorem exporter_series_bounded enabled server ops op :
  let e := exec_all ops (new_exporter enabled server) in
  series_bounded e ∧ ∀ f ls, default 0 (count e f ls) ≤ default 0 (count (exec op e).2 f ls).
Proof.
  cbv zeta. split; [|intros f ls; apply (xt_counts _ _ (exec_extends op _))].
  unfold exec_all. pose proof (new_exporter_bounded enabled server) as Hb. revert Hb.
  generalize (new_exporter enabled server). induction ops as [|o ops IH]; intros e Hb; [done|].
  apply IH. exact (extends_bounded _ _ (exec_extends o e) Hb).
Qed.
End series.

(** ** One update, scraped *)

Definition scrape_demo : Exporter := (update_pipeline_diagnostics (demo_diagnostics 3) "async" (new_exporter true ServerAlone)).2.

Lemma pipeline_scrape_exact_witness :
  sample scrape_demo stage_messages_gauge ["queued"; "async"]%string = Some 2%Q
  ∧ sample scrape_demo stage_messages_gauge ["executing"; "async"]%string = None
  ∧ sample scrape_demo worker_capacity_units_gauge ["admitted"; "async"]%string = None
  ∧ sample scrape_demo lag_gauge ["orders"; "0"]%string = None.
Proof.
  assert ("async"%string ∈ PIPELINE_ENGINE_TYPES) as He by left.
  destruct (pipeline_scrape_exact (demo_diagnostics 3) "async" (new_exporter true ServerAlone) He)
    as (_ & H2 & _ & _ & H5 & _ & _ & _ & H9).
  split; [exact (H2 QUEUED)|]. split; [exact (H2 EXECUTING)|]. split.
  - apply (H5 "admitted"%string None). right; right; left.
  - etransitivity; [apply (H9 lag_gauge ["orders"; "0"]%string)|reflexivity].
    apply (bool_decide_unpack ((lag_gauge, ["orders"; "0"]%string) ∉ pipeline_targets "async")). vm_compute. exact I.
Defined.
