(* ===== verification/KafkaOptions.v ===== *)
(** * Kafka settings ([config.py])

    What the code does with settings once they have been read: the validators that normalise raw
    values, the options it gives to librdkafka, the redacted dump, and the drain time-out.  Reading
    the environment and checking declared types is the settings library's. *)

From S2P Require Import Prelude Dto PyText.

(** ** Text *)

Definition lit (s : string) : pystr := Z.of_nat ∘ Ascii.nat_of_ascii <$> String.list_ascii_of_string s.
Definition ch_hash : Z := 35.
Definition ch_dot : Z := 46.

(** [s.split("#", 1)[0]] *)
Definition before_hash (s : pystr) : pystr :=
  match split_once ch_hash s with Some (a, _) => a | None => s end.

(** [k.replace("_", ".")] *)
Definition dotted (k : pystr) : pystr := (λ c, if c =? ch_underscore then ch_dot else c) <$> k.

(** ** Validators *)

(** A value as it is given: text, a list (an item that is not text is [None]), [None], or anything else *)
Inductive RawSetting :=
  | RawText (s : pystr)
  | RawList (items : list (option pystr))
  | RawNone
  | RawOther.

(** [_normalize_optional_security_field] *)
Definition normalize_optional_security_field (secret_field : bool) (v : RawSetting) : RawSetting :=
  match v with
  | RawText s => if decide (strip s = []) then RawNone else if secret_field then v else RawText (strip s)
  | _ => v
  end.

(** [[x.strip() for x in l if x.strip()]] *)
Definition stripped_parts (l : list pystr) : list pystr := filter (λ x, x ≠ []) (strip <$> l).

(** [_parse_bootstrap_servers]; [None] is the [TypeError] *)
Definition parse_bootstrap_servers (v : RawSetting) : option (list pystr) :=
  match v with
  | RawText s => Some (stripped_parts (py_split ch_comma s))
  | RawList items => stripped_parts <$> mapM id items
  | _ => None
  end.

Definition ordering_mode_value (m : OrderingMode) : pystr :=
  lit match m with KEY_HASH => "key_hash" | PARTITION => "partition" | UNORDERED => "unordered" end.

(** [OrderingMode(s)]; [None] is the [ValueError] *)
Definition ordering_mode_of (s : pystr) : option OrderingMode :=
  list_find (λ m, ordering_mode_value m = s) [KEY_HASH; PARTITION; UNORDERED] ≫= λ p, Some p.2.

(** [_normalize_ordering_mode], of a mode or a raw value; [None] is an error *)
Definition normalize_ordering_mode (v : OrderingMode + RawSetting) : option OrderingMode :=
  match v with
  | inl m => Some m
  | inr (RawText s) => ordering_mode_of (strip (before_hash s))
  | inr _ => None
  end.

Inductive ExecutionMode := ASYNC | PROCESS.

Definition execution_mode_value (m : ExecutionMode) : pystr := lit match m with ASYNC => "async" | PROCESS => "process" end.

Definition execution_mode_of (s : pystr) : option ExecutionMode :=
  if decide (execution_mode_value ASYNC = s) then Some ASYNC
  else if decide (execution_mode_value PROCESS = s) then Some PROCESS else None.

(** [_normalize_mode] *)
Definition normalize_mode (v : ExecutionMode + RawSetting) : option ExecutionMode :=
  match v with
  | inl m => Some m
  | inr (RawText s) => execution_mode_of (strip (before_hash s))
  | inr _ => None
  end.

(** ** The settings and what librdkafka gets *)

Inductive SecretStr := Secret (s : pystr).

Record KafkaConfig := mkKafkaConfig {
  bootstrap_servers : list pystr;
  consumer_group : pystr;
  dlq_topic_suffix : pystr;
  dlq_enabled : bool;
  dlq_payload_mode : pystr;
  dlq_flush_timeout_ms : Z;
  auto_offset_reset : pystr;
  enable_auto_commit : bool;
  session_timeout_ms : Z;
  security_protocol : option pystr;
  sasl_mechanisms : option pystr;
  sasl_username : option pystr;
  sasl_password : option SecretStr;
  ssl_ca_location : option pystr;
  ssl_certificate_location : option pystr;
  ssl_key_location : option pystr;
  ssl_key_password : option SecretStr;
}.

(** A value of the dumped model; [Nested] is a dumped sub-model *)
Inductive Value := VText (s : pystr) | VSecret (s : SecretStr) | VInt (n : Z) | VBool (b : bool) | VServers (l : list pystr) | Nested.

Section config.
Implicit Types (c : KafkaConfig).

(** [_bootstrap_servers_csv] *)
Definition bootstrap_servers_csv c : pystr :=
  py_join ch_comma (default [] (parse_bootstrap_servers (RawList (Some <$> bootstrap_servers c)))).

(** The fields in the order of the class *)
Definition fields c : list (pystr * option Value) :=
  [(lit "bootstrap_servers", Some (VServers (bootstrap_servers c)));
   (lit "consumer_group", Some (VText (consumer_group c)));
   (lit "dlq_topic_suffix", Some (VText (dlq_topic_suffix c)));
   (lit "dlq_enabled", Some (VBool (dlq_enabled c)));
   (lit "dlq_payload_mode", Some (VText (dlq_payload_mode c)));
   (lit "dlq_flush_timeout_ms", Some (VInt (dlq_flush_timeout_ms c)));
   (lit "auto_offset_reset", Some (VText (auto_offset_reset c)));
   (lit "enable_auto_commit", Some (VBool (enable_auto_commit c)));
   (lit "session_timeout_ms", Some (VInt (session_timeout_ms c)));
   (lit "security_protocol", VText <$> security_protocol c);
   (lit "sasl_mechanisms", VText <$> sasl_mechanisms c);
   (lit "sasl_username", VText <$> sasl_username c);
   (lit "sasl_password", VSecret <$> sasl_password c);
   (lit "ssl_ca_location", VText <$> ssl_ca_location c);
   (lit "ssl_certificate_location", VText <$> ssl_certificate_location c);
   (lit "ssl_key_location", VText <$> ssl_key_location c);
   (lit "ssl_key_password", VSecret <$> ssl_key_password c);
   (lit "metrics", Some Nested);
   (lit "parallel_consumer", Some Nested)].

Definition with_key (f : pystr * option Value) : option (pystr * Value) := pair f.1 <$> f.2.

(** [model_dump(exclude_none=True)] *)
Definition model_dump c : list (pystr * Value) := omap with_key (fields c).

Definition reveal (v : Value) : Value := match v with VSecret (Secret s) => VText s | _ => v end.

(** [_get_security_config] *)
Definition field_to_config_key : list (pystr * pystr) :=
  [(lit "security_protocol", lit "security.protocol"); (lit "sasl_mechanisms", lit "sasl.mechanisms");
   (lit "sasl_username", lit "sasl.username"); (lit "sasl_password", lit "sasl.password");
   (lit "ssl_ca_location", lit "ssl.ca.location"); (lit "ssl_certificate_location", lit "ssl.certificate.location");
   (lit "ssl_key_location", lit "ssl.key.location"); (lit "ssl_key_password", lit "ssl.key.password")].

(** [getattr(self, name)] *)
Definition field_value c (name : pystr) : option Value := od_get name (fields c) ≫= id.

Definition get_security_config c : odict pystr Value :=
  fold_left (λ conf p, match field_value c p.1 with None => conf | Some v => od_set p.2 (reveal v) conf end)
    field_to_config_key [].

(** [get_producer_config], [get_consumer_config], [get_admin_config] *)
Definition get_producer_config (hostname : pystr) c : odict pystr Value :=
  od_update [(lit "bootstrap.servers", VText (bootstrap_servers_csv c)); (lit "client.id", VText hostname)] (get_security_config c).

Definition get_consumer_config c : odict pystr Value :=
  od_update [(lit "bootstrap.servers", VText (bootstrap_servers_csv c)); (lit "group.id", VText (consumer_group c));
             (lit "auto.offset.reset", VText (auto_offset_reset c)); (lit "enable.auto.commit", VBool (enable_auto_commit c));
             (lit "session.timeout.ms", VInt (session_timeout_ms c))] (get_security_config c).

Definition get_admin_config c : odict pystr Value :=
  od_update [(lit "bootstrap.servers", VText (bootstrap_servers_csv c))] (get_security_config c).

(** [_build_rdkafka_config]; the class ignores extra settings, so that there are none to add *)
Definition excluded (include_secrets : bool) : list pystr :=
  (lit <$> ["bootstrap_servers"; "consumer_group"; "dlq_topic_suffix"; "dlq_payload_mode"; "dlq_enabled";
            "dlq_flush_timeout_ms"; "auto_offset_reset"; "enable_auto_commit"; "session_timeout_ms";
            "rebalance_protocol"; "metrics"; "parallel_consumer"]%string)
  ++ if include_secrets then [] else lit <$> ["sasl_password"; "ssl_key_password"]%string.

Definition add_option (include_secrets : bool) (conf : odict pystr Value) (p : pystr * Value) : odict pystr Value :=
  if decide (p.1 ∈ excluded include_secrets) then conf else od_set (dotted p.1) (reveal p.2) conf.

Definition build_rdkafka_config (include_secrets : bool) c : odict pystr Value :=
  fold_left (add_option include_secrets) (model_dump c) [(lit "bootstrap.servers", VText (bootstrap_servers_csv c))].

Definition dump_to_rdkafka c := build_rdkafka_config false c.
Definition get_rdkafka_config c := build_rdkafka_config true c.
End config.

(** ** Execution settings *)

Inductive ShutdownPolicy := GracefulPolicy | AbortPolicy.

(** The settings the drain time-out depends on; [drain_timeout_given]: whether it is in
    [model_fields_set] *)
Record DrainSettings := mkDrainSettings {
  shutdown_policy : ShutdownPolicy;
  execution_mode : ExecutionMode;
  drain_timeout_given : bool;
  shutdown_drain_timeout_ms : Z;
  async_shutdown_grace_timeout_ms : Z;
  process_shutdown_drain_timeout_ms : Z;
}.

(** [resolve_shutdown_drain_timeout_ms] *)
Definition resolve_shutdown_drain_timeout_ms (x : DrainSettings) : Z :=
  match shutdown_policy x with
  | AbortPolicy => 0
  | GracefulPolicy =>
      if drain_timeout_given x then Z.max 0 (shutdown_drain_timeout_ms x)
      else match execution_mode x with
           | ASYNC => Z.max 0 (async_shutdown_grace_timeout_ms x)
           | PROCESS => Z.max 0 (process_shutdown_drain_timeout_ms x)
           end
  end.

(** [resolve_work_manager_route_batch_size]; [None] is the [ValueError]; an absent integer is a value
    of another type *)
Definition resolve_work_manager_route_batch_size (mode : ExecutionMode) (route_batch_size : option Z) : option Z :=
  match mode with
  | PROCESS =>
      match route_batch_size with
      | Some n => if n <? 1 then None else Some n
      | None => None
      end
  | ASYNC => Some 1
  end.

(** ** librdkafka's options *)

(** Entries whose value may be missing, set in order *)
Definition puts (l : list (pystr * option Value)) (d : odict pystr Value) : odict pystr Value :=
  fold_left (λ acc p, match p.2 with None => acc | Some v => od_set p.1 v acc end) l d.

Lemma puts_cons k o l d :
  puts ((k, o) :: l) d = puts l (match o with None => d | Some v => od_set k v d end).
Proof. done. Qed.

Lemma update_puts l d e :
  NoDup l.*1 → (∀ k, k ∈ l.*1 → k ∉ od_keys e) → od_update d (puts l e) = puts l (od_update d e).
Proof.
  revert d e. induction l as [|[k o] l IH]; intros d e; [done|]. rewrite fmap_cons, !puts_cons. cbn [fst].
  intros [Hk Hnd]%NoDup_cons Hfresh. destruct o as [v|]; [|apply IH; [done|]; intros k' Hk'; apply Hfresh; by right].
  assert (k ∉ od_keys e) as He by (apply Hfresh; by left). rewrite IH; [|done|].
  - rewrite (od_set_fresh e k v (proj2 (od_get_None e k) He)). unfold od_update. by rewrite fold_left_app.
  - intros k' Hk'. rewrite (od_set_fresh e k v (proj2 (od_get_None e k) He)). unfold od_keys. rewrite fmap_app, elem_of_app. cbn.
    intros [H|Heq]; [|by apply list_elem_of_singleton in Heq; subst]. apply (Hfresh k'); [by right|done].
Qed.

Lemma filter_set (P : pystr → Prop) `{∀ k, Decision (P k)} (k : pystr) (v : Value) d :
  od_filter P (od_set k v d) = if decide (P k) then od_set k v (od_filter P d) else od_filter P d.
Proof.
  unfold od_filter. induction d as [|[k' v'] d IH]; cbn [od_set].
  { rewrite filter_cons, filter_nil. cbn. by repeat case_decide. }
  destruct (decide (k = k')) as [->|Hne]; rewrite !filter_cons; cbn [fst].
  - destruct (decide (P k')); [|done]. cbn [od_set]. by rewrite decide_True.
  - destruct (decide (P k')) as [Hk'|Hk']; [|done]. rewrite IH. destruct (decide (P k)); [|done].
    cbn [od_set]. by rewrite decide_False.
Qed.

Lemma filter_puts (P : pystr → Prop) `{∀ k, Decision (P k)} l d :
  od_filter P (puts l d) = puts (filter (λ p, P p.1) l) (od_filter P d).
Proof.
  revert d. induction l as [|[k o] l IH]; intros d; [done|]. rewrite puts_cons, filter_cons, IH. cbn [fst].
  destruct o as [v|]; [rewrite filter_set|]; by case_decide.
Qed.

Lemma fold_add_options b l d :
  fold_left (add_option b) (omap with_key l) d
  = puts ((λ p, (dotted p.1, reveal <$> p.2)) <$> filter (λ p, p.1 ∉ excluded b) l) d.
Proof.
  revert d. induction l as [|[k o] l IH]; intros d; [done|]. rewrite filter_cons. cbn [fst].
  destruct o as [v|]; cbn [omap list_omap with_key fst snd fmap option_fmap option_map].
  - cbn [fold_left]. rewrite IH. unfold add_option. cbn [fst snd]. by repeat case_decide.
  - rewrite IH. by case_decide.
Qed.

(** The security options of a configuration *)
Definition security_options (c : KafkaConfig) : list (pystr * option Value) :=
  (λ p, (p.2, reveal <$> field_value c p.1)) <$> field_to_config_key.

Definition secret_keys : list pystr := lit <$> ["sasl.password"; "ssl.key.password"]%string.

Lemma security_config_puts c : get_security_config c = puts (security_options c) [].
Proof.
  unfold get_security_config, security_options, puts. generalize (@nil (pystr * Value)).
  induction field_to_config_key as [|[k k'] l IH]; intros d; [done|]. rewrite fmap_cons. cbn [fold_left fst snd].
  destruct (field_value c k); cbn; apply IH.
Qed.

Lemma rdkafka_puts b c :
  build_rdkafka_config b c
  = puts (if b then security_options c else filter (λ p, p.1 ∉ secret_keys) (security_options c))
         [(lit "bootstrap.servers", VText (bootstrap_servers_csv c))].
Proof.
  unfold build_rdkafka_config, model_dump. rewrite fold_add_options. f_equal. destruct c. destruct b; vm_compute; reflexivity.
Qed.

(** Replacing the secrets of a configuration *)
Definition with_secrets (p q : option SecretStr) (c : KafkaConfig) : KafkaConfig :=
  mkKafkaConfig (bootstrap_servers c) (consumer_group c) (dlq_topic_suffix c) (dlq_enabled c) (dlq_payload_mode c)
    (dlq_flush_timeout_ms c) (auto_offset_reset c) (enable_auto_commit c) (session_timeout_ms c) (security_protocol c)
    (sasl_mechanisms c) (sasl_username c) p (ssl_ca_location c) (ssl_certificate_location c) (ssl_key_location c) q.

(** C36. The two ways to librdkafka's options agree and leak nothing: the dictionary built from the dumped
    settings is the one built from the security settings, key for key and in order; the dump for
    logs is the same without the two passwords, and is the same whatever the passwords are. *)
Theorem rdkafka_options_agree c p q :
  get_rdkafka_config c = get_admin_config c
  ∧ dump_to_rdkafka c = od_filter (λ k, k ∉ secret_keys) (get_rdkafka_config c)
  ∧ dump_to_rdkafka (with_secrets p q c) = dump_to_rdkafka c.
Proof.
  unfold get_rdkafka_config, dump_to_rdkafka, get_admin_config. rewrite !rdkafka_puts, security_config_puts. split; [|split].
  - rewrite update_puts; [done| |by intros k _ ?%elem_of_nil].
    apply (bool_decide_unpack (NoDup _)). vm_compute. reflexivity.
  - by rewrite filter_puts.
  - by f_equal.
Qed.

(** ** Normalised values *)

Lemma lstrip_idem s : lstrip (lstrip s) = lstrip s.
Proof. induction s as [|x s IH]; [done|]. cbn. destruct (is_space x) eqn:Hx; [done|]. cbn. by rewrite Hx. Qed.

Lemma lstrip_suffix s : ∃ p, s = p ++ lstrip s ∧ Forall (λ x, is_space x = true) p.
Proof.
  induction s as [|x s (p & Hp & Hall)]; [by exists []|]. cbn. destruct (is_space x) eqn:Hx.
  - exists (x :: p). split; [cbn; by f_equal|by constructor].
  - by exists [].
Qed.

(** A text that does not begin with a space keeps its beginning when it is stripped from the right. *)
Lemma lstrip_rev_lstrip s : lstrip (reverse (lstrip (reverse (lstrip s)))) = reverse (lstrip (reverse (lstrip s))).
Proof.
  destruct (lstrip_suffix (reverse (lstrip s))) as (p & Hp & Hall).
  assert (lstrip s = reverse (lstrip (reverse (lstrip s))) ++ reverse p) as Heq.
  { rewrite <-reverse_app, <-Hp. by rewrite reverse_involutive. }
  destruct (reverse (lstrip (reverse (lstrip s)))) as [|x r] eqn:Hr; [done|]. cbn.
  destruct (is_space x) eqn:Hx; [|done]. pose proof (lstrip_idem s) as Hid. rewrite Heq in Hid. cbn in Hid. rewrite Hx in Hid.
  pose proof (f_equal length Hid) as Hlen. destruct (lstrip_suffix (r ++ reverse p)) as (q & Hq & _).
  pose proof (f_equal length Hq) as Hlen2. rewrite (length_app q) in Hlen2. cbn in Hlen. lia.
Qed.

Lemma strip_idem s : strip (strip s) = strip s.
Proof. unfold strip. by rewrite (lstrip_rev_lstrip s), reverse_involutive, lstrip_idem. Qed.

(** Stripping takes characters away. *)
Lemma strip_subset s x : x ∈ strip s → x ∈ s.
Proof.
  unfold strip. rewrite elem_of_reverse. intros Hx.
  destruct (lstrip_suffix (reverse (lstrip s))) as (p & Hp & _), (lstrip_suffix s) as (q & Hq & _).
  rewrite Hq, elem_of_app. right. apply elem_of_reverse. rewrite Hp, elem_of_app. by right.
Qed.

Lemma split_parts sep s : Forall (λ x, sep ∉ x) (py_split sep s).
Proof.
  unfold py_split. assert (sep ∉ @nil Z) as Hc by (intros ?%elem_of_nil; done). revert Hc. generalize (@nil Z).
  induction s as [|x s IH]; intros cur Hc; cbn.
  - constructor; [by rewrite elem_of_reverse|done].
  - destruct (x =? sep) eqn:Hx.
    + constructor; [by rewrite elem_of_reverse|]. apply IH. by intros ?%elem_of_nil.
    + apply IH. intros [Heq|Hin]%elem_of_cons; [lia|done].
Qed.

(** The parts of a server list: not empty, without margins and, when they come from one text, without
    commas *)
Definition clean_part (x : pystr) : Prop := x ≠ [] ∧ strip x = x.

Lemma stripped_parts_clean l : Forall clean_part (stripped_parts l).
Proof.
  apply Forall_forall. intros x [Hne (y & -> & _)%list_elem_of_fmap]%list_elem_of_filter. split; [done|apply strip_idem].
Qed.

Lemma stripped_parts_idem l : Forall clean_part l → stripped_parts l = l.
Proof.
  intros Hl. unfold stripped_parts. induction Hl as [|x l [Hne Hs] _ IH]; [done|].
  rewrite fmap_cons, Hs, filter_cons, decide_True by done. by rewrite IH.
Qed.

Lemma stripped_parts_nosep sep l : Forall (λ x, sep ∉ x) l → Forall (λ x, sep ∉ x) (stripped_parts l).
Proof.
  rewrite !Forall_forall. intros Hl x [_ (y & -> & Hy)%list_elem_of_fmap]%list_elem_of_filter Hin.
  by apply (Hl y Hy), strip_subset.
Qed.

Lemma mapM_some (l : list pystr) : mapM id (Some <$> l) = Some l.
Proof. induction l as [|x l IH]; [done|]. cbn. cbn in IH. by rewrite IH. Qed.

Lemma normalize_idem (secret : bool) v :
  normalize_optional_security_field secret (normalize_optional_security_field secret v) = normalize_optional_security_field secret v.
Proof.
  destruct v as [s| | |]; try done. cbn [normalize_optional_security_field]. destruct (decide (strip s = [])); [done|].
  destruct secret; cbn [normalize_optional_security_field]; [by rewrite decide_False|].
  by rewrite strip_idem, decide_False.
Qed.

(** *** Reading a mode back *)

Lemma lstrip_spaces p s : Forall (λ x, is_space x = true) p → lstrip (p ++ s) = lstrip s.
Proof. induction 1 as [|x p Hx _ IH]; [done|]. cbn. by rewrite Hx. Qed.

Lemma strip_margins p s q :
  Forall (λ x, is_space x = true) p → Forall (λ x, is_space x = true) q → strip s = s → s ≠ [] → strip (p ++ s ++ q) = s.
Proof.
  intros Hp Hq Hs Hne. unfold strip. rewrite lstrip_spaces by done.
  assert (lstrip s = s) as Hl. { rewrite <-Hs. apply lstrip_rev_lstrip. }
  destruct s as [|x s]; [done|]. cbn [app lstrip] in *. destruct (is_space x) eqn:Hx.
  { destruct (lstrip_suffix s) as (r & Hr & _). pose proof (f_equal length Hl) as Hlen.
    pose proof (f_equal length Hr) as Hlen2. rewrite length_app in Hlen2. cbn in Hlen. lia. }
  change (x :: s ++ q) with ((x :: s) ++ q). rewrite reverse_app, lstrip_spaces by (by apply Forall_reverse).
  revert Hs. unfold strip. cbn [lstrip]. by rewrite Hx.
Qed.

Lemma before_hash_comment s comment : ch_hash ∉ s → before_hash (s ++ ch_hash :: comment) = s.
Proof. intros Hs. unfold before_hash. by rewrite split_once_app. Qed.

(** A value written with margins and a comment behind it is read back. *)
Lemma commented_value p s q comment :
  Forall (λ x, is_space x = true) p → Forall (λ x, is_space x = true) q → ch_hash ∉ s → strip s = s → s ≠ [] →
  strip (before_hash (p ++ s ++ q ++ ch_hash :: comment)) = s.
Proof.
  intros Hp Hq Hh Hs Hne. rewrite !app_assoc, before_hash_comment.
  - rewrite <-app_assoc. by apply strip_margins.
  - assert (∀ l, Forall (λ x, is_space x = true) l → ch_hash ∉ l) as Hno.
    { intros l Hl Hin. rewrite Forall_forall in Hl. by specialize (Hl _ Hin). }
    rewrite !elem_of_app. intros [[H|H]|H]; [by apply (Hno p)|done|by apply (Hno q)].
Qed.

(** What the validators return is in normal form and is read back as it is: servers are not empty
    and have no margins, and what comes from a text survives being written as the comma-separated
    list that librdkafka gets; normalising a security field twice changes nothing more; a mode is
    read back from its value, with margins and a comment behind it. *)
Theorem validated_settings_roundtrip s l p q comment m :
  parse_bootstrap_servers (RawText s) = Some l →
  Forall (λ x, is_space x = true) p → Forall (λ x, is_space x = true) q →
  (Forall (λ x, clean_part x ∧ ch_comma ∉ x) l
   ∧ parse_bootstrap_servers (RawText (py_join ch_comma l)) = Some l
   ∧ parse_bootstrap_servers (RawList (Some <$> l)) = Some l)
  ∧ (∀ secret v, normalize_optional_security_field secret (normalize_optional_security_field secret v)
                 = normalize_optional_security_field secret v)
  ∧ normalize_ordering_mode (inr (RawText (p ++ ordering_mode_value m ++ q ++ ch_hash :: comment))) = Some m.
Proof.
  intros [= <-] Hp Hq. split; [split; [|split]|split; [exact normalize_idem|]].
  - apply Forall_and. split; [apply stripped_parts_clean|apply stripped_parts_nosep, split_parts].
  - cbn. f_equal. pose proof (stripped_parts_nosep ch_comma _ (split_parts ch_comma s)) as Hno.
    pose proof (stripped_parts_idem _ (stripped_parts_clean (py_split ch_comma s))) as Hid.
    destruct (stripped_parts (py_split ch_comma s)) as [|x rest] eqn:Hl; [done|]. by rewrite py_split_join.
  - cbn [parse_bootstrap_servers]. rewrite mapM_some. cbn. f_equal. apply stripped_parts_idem, stripped_parts_clean.
  - cbn [normalize_ordering_mode]. rewrite commented_value; [by destruct m| done | done | | |]; destruct m; try (by vm_compute).
    all: apply (bool_decide_unpack (_ ∉ _)); by vm_compute.
Qed.

Lemma validated_settings_roundtrip_witness :
  parse_bootstrap_servers (RawText (lit " a:1, ,b:2 ,")) = Some [lit "a:1"; lit "b:2"]
  ∧ py_join ch_comma [lit "a:1"; lit "b:2"] = lit "a:1,b:2"
  ∧ normalize_ordering_mode (inr (RawText (lit " partition # per partition"))) = Some PARTITION
  ∧ parse_bootstrap_servers (RawText (lit "a:1,b:2")) = Some [lit "a:1"; lit "b:2"].
Proof.
  split; [vm_compute; reflexivity|]. split; [vm_compute; reflexivity|].
  pose proof (validated_settings_roundtrip (lit " a:1, ,b:2 ,") [lit "a:1"; lit "b:2"] [32] [32] (lit " per partition") PARTITION
    ltac:(vm_compute; reflexivity) ltac:(by repeat constructor) ltac:(by repeat constructor)) as [(_ & H1 & _) [_ H2]].
  split; [exact H2|exact H1].
Defined.
