(* ===== verification/BrokerOptions.v ===== *)
(** * The broker's options ([control_plane/broker_poller_config.py])

    The broker accepts settings objects of any shape and turns what it finds into values it can work
    with.  An attribute is absent or has a value of some type; [None] is an exception of the
    conversion. *)

From S2P Require Import Prelude Dto PyText KafkaOptions ExecutionEngine Adaptive.

(** ** Values *)

Inductive PyFloat := Finite (q : Q) | Infinite (negative : bool) | NotANumber.

Inductive Setting :=
  | SBool (b : bool)
  | SInt (n : Z)
  | SFloat (f : PyFloat)
  | SText (s : pystr)
  | SOrdering (m : OrderingMode)
  | SOther.

(** [int(f)]; infinities and NaN raise *)
Definition int_of_float (f : PyFloat) : option Z :=
  match f with Finite q => Some (Z.quot (Qnum q) (Zpos (Qden q))) | _ => None end.

(** [float(n)], without the rounding; integers that round to 2^1024 or more raise *)
Definition float_of_int (n : Z) : option PyFloat :=
  if Z.abs n <? 2 ^ 1024 - 2 ^ 970 then Some (Finite (inject_Z n)) else None.

(** [max(0.0, f / 1000.0)]: a NaN does not replace the zero *)
Definition seconds_of_ms (f : PyFloat) : PyFloat :=
  match f with
  | Finite q => Finite (Qmax0 (q / 1000))
  | Infinite false => Infinite false
  | Infinite true | NotANumber => Finite 0
  end.

(** ** Resolving *)

Definition resolve_ordering_mode (ordering_mode : option Setting) : option OrderingMode :=
  match ordering_mode with
  | Some (SText s) => ordering_mode_of s
  | Some (SOrdering m) => Some m
  | None | Some _ => Some KEY_HASH
  end.

(** The number an attribute holds, with the default for everything that is not a number *)
Definition number_or (default : Z) (v : option Setting) : option Z :=
  match v with
  | Some (SInt n) => Some n
  | Some (SFloat f) => int_of_float f
  | _ => Some default
  end.

Definition resolve_configured_max_in_flight (max_in_flight : option Setting) : option Z :=
  Z.max 1 <$> number_or 1000 max_in_flight.

Definition resolve_commit_debounce_completion_threshold (v : option Setting) : option Z :=
  match v with
  | Some (SInt n) => Some (Z.max 1 n)
  | Some (SFloat f) => Z.max 1 <$> int_of_float f
  | _ => Some 100
  end.

Definition resolve_commit_debounce_interval_seconds (v : option Setting) : option PyFloat :=
  match v with
  | Some (SInt n) => seconds_of_ms <$> float_of_int n
  | Some (SFloat f) => Some (seconds_of_ms f)
  | _ => Some (Finite (1 # 10))
  end.

(** [resolve_shutdown_drain_timeout_seconds], of an execution configuration *)
Definition resolve_shutdown_drain_timeout_seconds (x : DrainSettings) : option PyFloat :=
  seconds_of_ms <$> float_of_int (resolve_shutdown_drain_timeout_ms x).

(** ** Coercing the adaptive settings *)

Definition coerce_bool (v : option Setting) (default : bool) : bool :=
  match v with Some (SBool b) => b | _ => default end.

Definition coerce_int (v : option Setting) (default : Z) : option Z :=
  match v with
  | Some (SInt n) => Some n
  | Some (SFloat f) => int_of_float f
  | _ => Some default
  end.

Definition coerce_float (v : option Setting) (default : Q) : option PyFloat :=
  match v with
  | Some (SInt n) => float_of_int n
  | Some (SFloat f) => Some f
  | _ => Some (Finite default)
  end.

(** How a coercion ends.  A threshold may be infinite; the controllers are modelled for finite ones. *)
Inductive Coerced (A : Type) :=
  | Accepted (config : A)
  | Raised
  | InfiniteThreshold.
Arguments Accepted {A}.
Arguments Raised {A}.
Arguments InfiniteThreshold {A}.

(** A threshold as the settings class takes it ([ge=0.0]) *)
Definition threshold_valid (f : PyFloat) : bool :=
  match f with Finite q => (0 <=q q) | Infinite negative => negb negative | NotANumber => false end.

(** The bounds that the settings classes declare *)
Definition backpressure_valid (c : AdaptiveBackpressureConfig) : bool :=
  (1 <=? abc_min_in_flight c) && (0 <? abc_scale_up_step c) && (0 <? abc_scale_down_step c) && (0 <=? abc_cooldown_ms c)
  && (0 <=? abc_lag_scale_up_threshold c).

Definition concurrency_valid (c : AdaptiveConcurrencyConfig) : bool :=
  (0 <=? acc_min_in_flight c) && (0 <? acc_scale_up_step c) && (0 <? acc_scale_down_step c) && (0 <=? acc_cooldown_ms c).

(** The attributes of a settings object; no object has none *)
Abbreviation Attributes := (string → option Setting).

(** [coerce_adaptive_backpressure_config] *)
Definition coerce_adaptive_backpressure_config (raw : Attributes) : Coerced AdaptiveBackpressureConfig :=
  match coerce_int (raw "min_in_flight"%string) 1, coerce_int (raw "scale_up_step"%string) 16,
        coerce_int (raw "scale_down_step"%string) 16, coerce_int (raw "cooldown_ms"%string) 1000,
        coerce_int (raw "lag_scale_up_threshold"%string) 0,
        coerce_float (raw "low_latency_threshold_ms"%string) 25,
        coerce_float (raw "high_latency_threshold_ms"%string) 100 with
  | Some minimum, Some up, Some down, Some cooldown, Some lag, Some low, Some high =>
      let config := mkBackpressureConfig (coerce_bool (raw "enabled"%string) false) minimum up down cooldown lag in
      if backpressure_valid (config 0 0)%Q && threshold_valid low && threshold_valid high then
        match low, high with
        | Finite l, Finite h => Accepted (config l h)
        | _, _ => InfiniteThreshold
        end
      else Raised
  | _, _, _, _, _, _, _ => Raised
  end.

(** [coerce_adaptive_concurrency_config] *)
Definition coerce_adaptive_concurrency_config (raw : Attributes) : Coerced AdaptiveConcurrencyConfig :=
  match coerce_int (raw "min_in_flight"%string) 0, coerce_int (raw "scale_up_step"%string) 32,
        coerce_int (raw "scale_down_step"%string) 64, coerce_int (raw "cooldown_ms"%string) 1000 with
  | Some minimum, Some up, Some down, Some cooldown =>
      let config := mkConcurrencyConfig (coerce_bool (raw "enabled"%string) false) minimum up down cooldown in
      if concurrency_valid config then Accepted config else Raised
  | _, _, _, _ => Raised
  end.

(** ** What comes out has the type that is asked for *)

Definition is_number (v : option Setting) : bool :=
  match v with Some (SInt _) | Some (SFloat _) => true | _ => false end.

Definition nonnegative (f : PyFloat) : Prop :=
  match f with Finite q => (0 <= q)%Q | Infinite negative => negative = false | NotANumber => False end.

Lemma seconds_nonnegative f : nonnegative (seconds_of_ms f).
Proof. destruct f as [q|[]|]; cbn; [apply Qmax0_nonneg|lra|done|lra]. Qed.

Lemma ordering_mode_of_spec s m : ordering_mode_of s = Some m ↔ ordering_mode_value m = s.
Proof.
  unfold ordering_mode_of. split.
  - intros ([i m'] & Hl & [= <-])%bind_Some. by apply list_find_Some in Hl as (_ & -> & _).
  - intros <-. by destruct m; vm_compute.
Qed.

(** An option that has to be at least one: it is, or its float had no integer *)
Lemma at_least_one (v : option Setting) (d : Z) :
  match Z.max 1 <$> number_or d v with
  | Some n => 1 ≤ n
  | None => ∃ f, v = Some (SFloat f) ∧ int_of_float f = None
  end.
Proof.
  destruct v as [[| |f| | |]|]; cbn; try lia. destruct (int_of_float f) eqn:Hf; cbn; [lia|by exists f].
Qed.

Lemma threshold_number v :
  resolve_commit_debounce_completion_threshold v = Z.max 1 <$> number_or 100 v.
Proof. by destruct v as [[]|]. Qed.

Lemma float_of_int_none n : float_of_int n = None → 2 ^ 1024 - 2 ^ 970 ≤ Z.abs n.
Proof. unfold float_of_int. case_match; [done|]. lia. Qed.

Lemma coerce_int_default v d : is_number v = false → coerce_int v d = Some d.
Proof. by destruct v as [[]|]. Qed.

Lemma coerce_float_default v d : is_number v = false → coerce_float v d = Some (Finite d).
Proof. by destruct v as [[]|]. Qed.

Lemma coerced_backpressure_ok raw c :
  coerce_adaptive_backpressure_config raw = Accepted c →
  backpressure_config_ok c ∧ 0 ≤ abc_lag_scale_up_threshold c
  ∧ (0 <= abc_low_latency_threshold_ms c)%Q ∧ (0 <= abc_high_latency_threshold_ms c)%Q.
Proof.
  unfold coerce_adaptive_backpressure_config. intros H. repeat case_match; try done. injection H as <-.
  match goal with H : _ && _ = true |- _ => apply andb_true_iff in H as [[Hv Hl]%andb_true_iff Hh] end.
  unfold backpressure_valid in Hv. cbn in *. apply Qle_bool_iff in Hl, Hh. unfold backpressure_config_ok. cbn.
  rewrite !andb_true_iff in Hv. split; [lia|]. split; [lia|done].
Qed.

Lemma coerced_concurrency_ok raw c :
  coerce_adaptive_concurrency_config raw = Accepted c → concurrency_config_ok c.
Proof.
  unfold coerce_adaptive_concurrency_config. intros H. repeat case_match; try done. injection H as <-.
  match goal with H : concurrency_valid _ = true |- _ => unfold concurrency_valid in H; rewrite !andb_true_iff in H end.
  unfold concurrency_config_ok. cbn in *. lia.
Qed.

(** An object without numbers gives the defaults. *)
Lemma no_number (raw : Attributes) (ks : list string) :
  (∃ k, is_number (raw k) = true) ∨ Forall (λ k, is_number (raw k) = false) ks.
Proof.
  induction ks as [|k ks [IH|IH]]; [by right|by left|]. destruct (is_number (raw k)) eqn:Hk; [left; by exists k|].
  right. by constructor.
Qed.

Lemma backpressure_default raw :
  (∀ c, coerce_adaptive_backpressure_config raw ≠ Accepted c) → ∃ k, is_number (raw k) = true.
Proof.
  intros Hno. destruct (no_number raw ["min_in_flight"; "scale_up_step"; "scale_down_step"; "cooldown_ms";
    "lag_scale_up_threshold"; "low_latency_threshold_ms"; "high_latency_threshold_ms"]%string) as [H|H]; [done|].
  rewrite !Forall_cons in H. destruct H as (H1 & H2 & H3 & H4 & H5 & H6 & H7 & _). unfold coerce_adaptive_backpressure_config in Hno.
  rewrite !coerce_int_default, !coerce_float_default in Hno by done. by edestruct Hno.
Qed.

Lemma concurrency_default raw :
  (∀ c, coerce_adaptive_concurrency_config raw ≠ Accepted c) → ∃ k, is_number (raw k) = true.
Proof.
  intros Hno. destruct (no_number raw ["min_in_flight"; "scale_up_step"; "scale_down_step"; "cooldown_ms"]%string)
    as [H|H]; [done|].
  rewrite !Forall_cons in H. destruct H as (H1 & H2 & H3 & H4 & _). unfold coerce_adaptive_concurrency_config in Hno.
  rewrite !coerce_int_default in Hno by done. by edestruct Hno.
Qed.


