(* ===== verification/EngineFactory.v ===== *)
(** * The engine factory ([execution_plane/engine_factory.py])

    Chooses the execution engine for a configured mode, after checking that the user's worker function
    is of the kind the mode runs.  What [inspect] and [pickle] say of the function is data. *)

From S2P Require Import Prelude Dto PyText KafkaOptions.

(** [inspect.iscoroutinefunction] of the worker and of its [__call__], and whether [pickle.dumps] takes it *)
Record WorkerFunction := mkWorkerFunction {
  coroutine_function : bool;
  call_coroutine_function : bool;
  picklable : bool;
}.

Inductive FactoryError :=
  | UnknownMode             (* [ExecutionMode(mode)] raises [ValueError] *)
  | NeedsAsyncWorker
  | NeedsSyncWorker
  | NeedsPicklableWorker.

(** The engine that is constructed *)
Inductive EngineKind := AsyncExecutionEngine | ProcessExecutionEngine.

Definition is_async_worker (f : WorkerFunction) : bool :=
  if coroutine_function f then true else call_coroutine_function f.

(** [config.mode] as the enumeration or as its text *)
Definition mode_of (mode : ExecutionMode + pystr) : option ExecutionMode :=
  match mode with inl m => Some m | inr s => execution_mode_of s end.

(** [None] is a normal return *)
Definition ensure_worker_matches_mode (mode : ExecutionMode + pystr) (require_picklable_worker : bool) (f : WorkerFunction)
    : option FactoryError :=
  match mode_of mode with
  | None => Some UnknownMode
  | Some ASYNC => if is_async_worker f then None else Some NeedsAsyncWorker
  | Some PROCESS =>
      if is_async_worker f then Some NeedsSyncWorker
      else if require_picklable_worker && negb (picklable f) then Some NeedsPicklableWorker else None
  end.

Definition create_execution_engine (mode : ExecutionMode + pystr) (require_picklable_worker : bool) (f : WorkerFunction)
    : FactoryError + EngineKind :=
  match mode_of mode with
  | None => inl UnknownMode
  | Some m =>
      match ensure_worker_matches_mode mode require_picklable_worker f with
      | Some error => inl error
      | None => inr match m with ASYNC => AsyncExecutionEngine | PROCESS => ProcessExecutionEngine end
      end
  end.

(** An engine is made exactly when the mode is known and the worker fits it: coroutines run on the async
    engine only, plain functions on the process engine only, picklable ones if that is asked for. *)
Theorem engine_fits_worker mode require_picklable f k :
  create_execution_engine mode require_picklable f = inr k ↔
  match k with
  | AsyncExecutionEngine => mode_of mode = Some ASYNC ∧ is_async_worker f = true
  | ProcessExecutionEngine =>
      mode_of mode = Some PROCESS ∧ is_async_worker f = false ∧ (require_picklable = true → picklable f = true)
  end.
Proof.
  unfold create_execution_engine, ensure_worker_matches_mode.
  destruct (mode_of mode) as [[]|], (is_async_worker f), require_picklable, (picklable f), k; cbn; naive_solver.
Qed.
