(* ===== verification/Dlq.v ===== *)
(** * Dead letters: raw-message cache and publication
    ([DlqCacheSupport] of [control_plane/broker_support.py],
    [control_plane/broker_poller_dlq.py], [control_plane/broker_dlq_publisher.py],
    [utils/validation.py])

    The broker keeps the raw key and value of every message that may still fail, within a
    byte budget, oldest entries evicted first.  A terminal failure is published to the
    dead-letter topic with bounded retries.  The Kafka producer is not part of the
    repository: its replies are an argument. *)

From Stdlib Require Import Ascii.
From S2P Require Import Prelude Dto.

Inductive DLQPayloadMode := FULL | METADATA_ONLY.

#[export] Instance DLQPayloadMode_eq_dec : EqDecision DLQPayloadMode.
Proof. solve_decision. Defined.

(** ** The cache *)

Abbreviation CacheKey := (TopicPartition * Z)%type.
Abbreviation RawMessage := (PyValue * PyValue)%type.

(** [len(chr(c).encode("utf-8"))] of a Unicode scalar value *)
Definition utf8_width (c : Z) : Z :=
  if c <? 128 then 1 else if c <? 2048 then 2 else if c <? 65536 then 3 else 4.

Definition estimate_cached_payload_bytes (payload : PyValue) : Z :=
  match payload with
  | PyNone => 0
  | PyMemoryview len => Z.max 0 len
  | PyBytes b => zlen b
  | PyStr s => fold_right (λ c acc, utf8_width c + acc) 0 s
  | PyInt _ => 0
  end.

Definition get_cached_message_size (m : RawMessage) : Z :=
  estimate_cached_payload_bytes m.1 + estimate_cached_payload_bytes m.2.

(** [_message_cache] and [_message_cache_size_bytes] *)
Record MessageCache := mkCache {
  message_cache : odict CacheKey RawMessage;
  message_cache_size_bytes : Z;
}.

Definition empty_cache : MessageCache := mkCache [] 0.

Definition pop_cached_message (k : CacheKey) (c : MessageCache) : option RawMessage * MessageCache :=
  match od_get k (message_cache c) with
  | None => (None, c)
  | Some m => (Some m, mkCache (od_pop k (message_cache c))
                         (Z.max 0 (message_cache_size_bytes c - get_cached_message_size m)))
  end.

(** The eviction loop: [popitem(last=False)] takes the oldest entry *)
Fixpoint evict (max_bytes entry_size : Z) (entries : odict CacheKey RawMessage) (size_bytes : Z)
    : odict CacheKey RawMessage * Z :=
  match entries with
  | [] => ([], size_bytes)
  | (k, m) :: rest =>
      if (0 <? max_bytes) && (max_bytes <? size_bytes + entry_size)
      then evict max_bytes entry_size rest (Z.max 0 (size_bytes - get_cached_message_size m))
      else (entries, size_bytes)
  end.

Definition cache_message_for_dlq (should_cache : bool) (max_bytes : Z) (k : CacheKey) (m : RawMessage)
    (c : MessageCache) : MessageCache :=
  if negb should_cache then (pop_cached_message k c).2
  else
    let c1 := (pop_cached_message k c).2 in
    let entry_size := get_cached_message_size m in
    if (0 <? max_bytes) && (max_bytes <? entry_size) then c1
    else
      let '(entries, size_bytes) :=
        evict max_bytes entry_size (message_cache c1) (message_cache_size_bytes c1) in
      mkCache (od_set k m entries) (size_bytes + entry_size).

Definition drop_partition_messages (tp : TopicPartition) (c : MessageCache) : MessageCache :=
  fold_left (λ acc k, (pop_cached_message k acc).2)
    (filter (λ k, k.1 = tp) (od_keys (message_cache c))) c.

Definition should_cache_message_payloads (dlq_enabled : bool) (mode : DLQPayloadMode) (max_bytes : Z) : bool :=
  dlq_enabled && bool_decide (mode = FULL) && negb (max_bytes =? 0).

(** ** Publication *)

Definition topic_char (c : ascii) : bool :=
  let n := Z.of_nat (nat_of_ascii c) in
  ((65 <=? n) && (n <=? 90)) || ((97 <=? n) && (n <=? 122)) || ((48 <=? n) && (n <=? 57))
  || (n =? 46) || (n =? 95) || (n =? 45).

(** [^[A-Za-z0-9._-]+$]: the dollar also matches before one final newline *)
Definition newline : ascii := ascii_of_nat 10.

Fixpoint topic_rest (s : string) : bool :=
  match s with
  | EmptyString => true
  | String c EmptyString => topic_char c || bool_decide (c = newline)
  | String c s' => topic_char c && topic_rest s'
  end.

Definition validate_topic_name (value : string) : option string :=
  match value with
  | EmptyString => None
  | String c s' => if topic_char c && topic_rest s' then Some value else None
  end.

(** Header values: encoded text, or the decimal of an integer *)
Inductive HeaderValue := HText (s : string) | HDecimal (n : Z).

Record DlqRecord := mkDlqRecord {
  dlq_topic : string;
  dlq_key : PyValue;
  dlq_value : PyValue;
  dlq_headers : list (string * HeaderValue);
}.

Record DlqConfig := mkDlqConfig {
  dlq_enabled : bool;
  dlq_payload_mode : DLQPayloadMode;
  DLQ_TOPIC_SUFFIX : string;
  max_retries : Z;
  retry_backoff_ms : Z;
  max_retry_backoff_ms : Z;
  retry_jitter_ms : Z;
  exponential_backoff : bool;
}.

(** What the producer answers to one [produce] followed by [flush]: an exception from
    either, or the number of messages [flush] reports as still queued *)
Inductive ProducerReply := ProduceRaises | FlushRaises | Flushed (still_queued : Z).

Inductive DlqAction := Produce (r : DlqRecord) | Sleep (ms : Q).

Definition backoff_ms (cfg : DlqConfig) (retry_attempt : nat) : Z :=
  if exponential_backoff cfg
  then Z.min (retry_backoff_ms cfg * 2 ^ Z.of_nat retry_attempt) (max_retry_backoff_ms cfg)
  else retry_backoff_ms cfg.

(** The loop over the attempts: [left] of them remain, [jitter n] is what [random.uniform]
    returns in attempt [n] *)
Fixpoint publish_loop (cfg : DlqConfig) (r : DlqRecord) (reply : nat → ProducerReply) (jitter : nat → Q)
    (left retry_attempt : nat) : bool * list DlqAction :=
  match left with
  | O => (false, [])
  | S left' =>
      match reply retry_attempt with
      | Flushed _ => (true, [Produce r])
      | _ =>
          match left' with
          | O => (false, [Produce r])
          | _ =>
              let sleep := (inject_Z (backoff_ms cfg retry_attempt) + jitter retry_attempt)%Q in
              let '(ok, actions) := publish_loop cfg r reply jitter left' (S retry_attempt) in
              (ok, Produce r :: Sleep sleep :: actions)
          end
      end
  end.

(** [publish_to_dlq]; [None] is the [ValueError] of an invalid topic name *)
Definition publish_to_dlq (cfg : DlqConfig) (consume_topic : string) (tp : TopicPartition)
    (offset epoch : Z) (key value : PyValue) (error : string) (attempt : Z)
    (reply : nat → ProducerReply) (jitter : nat → Q) : option (bool * list DlqAction) :=
  match validate_topic_name consume_topic, validate_topic_name (DLQ_TOPIC_SUFFIX cfg) with
  | Some source_topic, Some suffix =>
      let headers :=
        [("x-error-reason", HText error); ("x-retry-attempt", HDecimal attempt);
         ("source-topic", HText (topic tp)); ("partition", HDecimal (partition tp));
         ("offset", HDecimal offset); ("epoch", HDecimal epoch)] in
      let full := bool_decide (dlq_payload_mode cfg = FULL) in
      let r := mkDlqRecord (source_topic +:+ suffix) (if full then key else PyNone)
                 (if full then value else PyNone) headers in
      Some (publish_loop cfg r reply jitter (Z.to_nat (max_retries cfg)) 0)
  | _, _ => None
  end.

(** ** The cache's invariant *)

Definition entries_size (entries : odict CacheKey RawMessage) : Z := od_sum get_cached_message_size entries.

(** Keys are unique, the recorded size is the real one and stays within a positive budget. *)
Record cache_inv (max_bytes : Z) (c : MessageCache) : Prop := mkCacheInv {
  ci_nodup : NoDup (od_keys (message_cache c));
  ci_size : message_cache_size_bytes c = entries_size (message_cache c);
  ci_budget : 0 < max_bytes → message_cache_size_bytes c ≤ max_bytes;
}.

Lemma utf8_width_pos c : 1 ≤ utf8_width c ≤ 4.
Proof. unfold utf8_width. repeat case_bool; lia. Qed.

Lemma payload_bytes_nonneg p : 0 ≤ estimate_cached_payload_bytes p.
Proof.
  destruct p; simpl; try lia; [apply zlen_nonneg|].
  induction code_points as [|c s IH]; cbn [fold_right]; [lia|]. pose proof (utf8_width_pos c). lia.
Qed.

Lemma message_size_nonneg m : 0 ≤ get_cached_message_size m.
Proof.
  unfold get_cached_message_size.
  pose proof (payload_bytes_nonneg m.1). pose proof (payload_bytes_nonneg m.2). lia.
Qed.

Lemma entries_size_nonneg l : 0 ≤ entries_size l.
Proof.
  unfold entries_size. induction l as [|[k m] l IH]; simpl; [lia|].
  pose proof (message_size_nonneg m). lia.
Qed.

Lemma entries_size_cons k m l : entries_size ((k, m) :: l) = get_cached_message_size m + entries_size l.
Proof. done. Qed.

Lemma entries_size_app l l' : entries_size (l ++ l') = entries_size l + entries_size l'.
Proof.
  induction l as [|[k m] l IH]; [done|]. rewrite <-app_comm_cons, !entries_size_cons, IH. lia.
Qed.

Lemma entries_size_pop k l :
  NoDup (od_keys l) →
  entries_size (od_pop k l) = entries_size l - default 0 (get_cached_message_size <$> od_get k l).
Proof. apply od_sum_pop. Qed.

Lemma pop_cached_message_spec max k c :
  cache_inv max c →
  cache_inv max (pop_cached_message k c).2
  ∧ message_cache (pop_cached_message k c).2 = od_pop k (message_cache c)
  ∧ (pop_cached_message k c).1 = od_get k (message_cache c).
Proof.
  intros [Hnd Hsz Hb]. unfold pop_cached_message. destruct (od_get k (message_cache c)) as [m|] eqn:E; simpl.
  - pose proof (entries_size_pop k _ Hnd) as Hp. rewrite E in Hp.
    change (default 0 _) with (get_cached_message_size m) in Hp.
    pose proof (message_size_nonneg m).
    pose proof (entries_size_nonneg (od_pop k (message_cache c))).
    split; [|done].
    constructor; cbn [message_cache message_cache_size_bytes]; [by apply NoDup_od_pop|lia|lia].
  - by rewrite od_pop_absent.
Qed.

(** Eviction drops a prefix, no longer than needed to make room for the new entry. *)
Lemma evict_spec max entry entries size :
  size = entries_size entries → 0 ≤ entry → (0 < max → entry ≤ max) →
  ∃ old, entries = old ++ (evict max entry entries size).1
    ∧ (evict max entry entries size).2 = entries_size (evict max entry entries size).1
    ∧ (0 < max → entries_size (evict max entry entries size).1 + entry ≤ max)
    ∧ (∀ old' p, old = old' ++ [p] →
         0 < max ∧ max < entries_size (p :: (evict max entry entries size).1) + entry).
Proof.
  intros Hs He Hfit. revert size Hs. induction entries as [|[k m] rest IH]; intros size Hs.
  - exists []. simpl. split; [done|]. split; [done|]. split; [exact Hfit|].
    intros old' p Hp. by destruct old'.
  - cbn [evict]. destruct ((0 <? max) && (max <? size + entry)) eqn:Hc.
    + apply andb_true_iff in Hc as [H1 H2]. rewrite entries_size_cons in Hs.
      pose proof (entries_size_nonneg rest).
      destruct (IH (Z.max 0 (size - get_cached_message_size m))) as (old & E1 & E2 & E3 & E4); [lia|].
      exists ((k, m) :: old). split; [rewrite E1 at 1; done|]. split; [done|]. split; [done|].
      intros old' p Hp. destruct old' as [|q old'].
      * injection Hp as <- ->. simpl in E1. rewrite <-E1, entries_size_cons. lia.
      * injection Hp as <- ->. by apply (E4 old').
    + exists []. cbn [fst snd app]. split; [done|]. split; [done|]. split.
      * intros. rewrite <-Hs. apply andb_false_iff in Hc. lia.
      * intros old' p Hp. by destruct old'.
Qed.

(** What caching one message does: nothing but forget the old entry when payloads are not
    cached or the message alone exceeds the budget; otherwise the message becomes the newest
    entry and as few of the oldest entries as possible make room for it. *)
Definition cached (should_cache : bool) (max : Z) (k : CacheKey) (m : RawMessage) (c c' : MessageCache) : Prop :=
  let before := od_pop k (message_cache c) in
  if negb should_cache || ((0 <? max) && (max <? get_cached_message_size m))
  then message_cache c' = before
  else ∃ evicted kept, before = evicted ++ kept ∧ message_cache c' = kept ++ [(k, m)]
    ∧ (0 < max → entries_size kept + get_cached_message_size m ≤ max)
    ∧ (∀ evicted' p, evicted = evicted' ++ [p] →
         0 < max ∧ max < entries_size (p :: kept) + get_cached_message_size m).

Lemma cache_message_spec should_cache max k m c :
  cache_inv max c →
  cache_inv max (cache_message_for_dlq should_cache max k m c)
  ∧ cached should_cache max k m c (cache_message_for_dlq should_cache max k m c).
Proof.
  intros Hc. destruct (pop_cached_message_spec max k c Hc) as (Hp & Em & _).
  unfold cache_message_for_dlq, cached. destruct should_cache; cbn [negb orb]; [|done].
  destruct ((0 <? max) && _) eqn:Hbig; [done|].
  destruct Hp as [Hnd Hsz Hb]. rewrite Em in *.
  destruct (evict_spec max (get_cached_message_size m) (od_pop k (message_cache c))
              (message_cache_size_bytes (pop_cached_message k c).2)) as (old & E1 & E2 & E3 & E4);
    [done|apply message_size_nonneg|apply andb_false_iff in Hbig; lia|].
  destruct (evict _ _ _ _) as [kept size]; cbn [fst snd] in *.
  assert (od_get k kept = None) as Hk.
  { apply od_get_None. intros Hin. assert (k ∈ od_keys (od_pop k (message_cache c))) as Hin'.
    { rewrite E1. unfold od_keys in *. rewrite fmap_app. apply elem_of_app. by right. }
    apply elem_of_od_keys in Hin' as [? Hg]. by rewrite od_get_pop_eq in Hg. }
  rewrite (od_set_fresh _ _ _ Hk). split.
  - constructor; cbn [message_cache message_cache_size_bytes].
    + rewrite <-(od_set_fresh kept k m Hk). apply NoDup_od_set.
      rewrite E1 in Hnd. unfold od_keys in *. rewrite fmap_app in Hnd. by apply NoDup_app in Hnd as (_ & _ & ?).
    + rewrite entries_size_app, E2. cbn. lia.
    + intros Hm. specialize (E3 Hm). lia.
  - exists old, kept. done.
Qed.

Lemma drop_keys_spec max ks c :
  cache_inv max c →
  let c' := fold_left (λ acc k, (pop_cached_message k acc).2) ks c in
  cache_inv max c' ∧ ∀ k, od_get k (message_cache c') =
    if decide (k ∈ ks) then None else od_get k (message_cache c).
Proof.
  revert c. induction ks as [|k ks IH]; intros c Hc; cbn [fold_left].
  { split; [done|]. intros k. by rewrite decide_False by (by apply not_elem_of_nil). }
  destruct (pop_cached_message_spec max k c Hc) as (Hp & Em & _).
  destruct (IH _ Hp) as [H1 H2]. split; [done|]. intros k'. rewrite H2, Em, od_get_pop.
  repeat case_decide; try done; set_solver.
Qed.

Lemma drop_partition_spec max tp c :
  cache_inv max c →
  cache_inv max (drop_partition_messages tp c)
  ∧ ∀ k, od_get k (message_cache (drop_partition_messages tp c)) =
      if decide (k.1 = tp) then None else od_get k (message_cache c).
Proof.
  intros Hc. unfold drop_partition_messages.
  destruct (drop_keys_spec max (filter (λ k, k.1 = tp) (od_keys (message_cache c))) c Hc) as [H1 H2].
  split; [done|]. intros k. rewrite H2. destruct (decide (k ∈ _)) as [Hd|Hd].
  - apply list_elem_of_filter in Hd as [Hd _]. by rewrite decide_True.
  - case_decide; [|done]. destruct (od_get k (message_cache c)) eqn:E; [|done]. destruct Hd.
    apply list_elem_of_filter. split; [done|]. apply elem_of_od_keys. eauto.
Qed.

(** The operations of the broker on the cache *)
Inductive CacheOp :=
  | OpCache (should_cache : bool) (k : CacheKey) (m : RawMessage)
  | OpPop (k : CacheKey)
  | OpDropPartition (tp : TopicPartition).

Definition cache_apply (max_bytes : Z) (c : MessageCache) (op : CacheOp) : MessageCache :=
  match op with
  | OpCache should_cache k m => cache_message_for_dlq should_cache max_bytes k m c
  | OpPop k => (pop_cached_message k c).2
  | OpDropPartition tp => drop_partition_messages tp c
  end.

Definition cache_run (max_bytes : Z) (ops : list CacheOp) : MessageCache :=
  fold_left (cache_apply max_bytes) ops empty_cache.

Lemma cache_run_inv max ops : cache_inv max (cache_run max ops).
Proof.
  unfold cache_run. assert (cache_inv max empty_cache) as H0 by (constructor; cbn; [constructor|done|lia]).
  revert H0. generalize empty_cache. induction ops as [|op ops IH]; intros c Hc; cbn [fold_left]; [done|].
  apply IH. destruct op; cbn.
  - by apply cache_message_spec.
  - by apply pop_cached_message_spec.
  - by apply drop_partition_spec.
Qed.

(** Whatever the broker caches, pops and drops, the byte count it keeps is exactly the size
    of the cached messages, no key is cached twice, and a positive budget is never exceeded. *)
Theorem dlq_cache_within_budget max_bytes ops :
  let c := cache_run max_bytes ops in
  message_cache_size_bytes c = entries_size (message_cache c)
  ∧ NoDup (od_keys (message_cache c))
  ∧ (0 < max_bytes → message_cache_size_bytes c ≤ max_bytes).
Proof. intros c. by destruct (cache_run_inv max_bytes ops). Qed.

(** Caching a message in any reachable cache evicts oldest entries first and no more of
    them than needed, makes the message the newest entry, and keeps every other message; a
    message larger than the whole budget, or one that must not be cached, only displaces its
    own old entry. *)
Theorem dlq_cache_evicts_oldest max_bytes ops should_cache k m :
  let c := cache_run max_bytes ops in
  cached should_cache max_bytes k m c (cache_message_for_dlq should_cache max_bytes k m c).
Proof. intros c. apply cache_message_spec, cache_run_inv. Qed.

(** ** Publication *)

(** Attempt [n] reaches the broker without an exception. *)
Definition reply_ok (r : ProducerReply) : bool := match r with Flushed _ => true | _ => false end.

Definition produced (actions : list DlqAction) : list DlqRecord :=
  omap (λ a, match a with Produce r => Some r | Sleep _ => None end) actions.

Definition slept (actions : list DlqAction) : list Q :=
  omap (λ a, match a with Sleep ms => Some ms | Produce _ => None end) actions.

Lemma publish_loop_spec cfg r reply jitter left n :
  let '(ok, actions) := publish_loop cfg r reply jitter left n in
  (ok = true ↔ ∃ i, (n ≤ i < n + left)%nat ∧ reply_ok (reply i) = true)
  ∧ (∃ k, produced actions = replicate k r ∧ (k ≤ left)%nat ∧ (0 < left → 0 < k)%nat
       ∧ length (slept actions) = pred k
       ∧ (∀ i, (i < k - 1)%nat → reply_ok (reply (n + i)%nat) = false)
       ∧ (ok = true → reply_ok (reply (n + k - 1)%nat) = true)
       ∧ (ok = false → k = left)).
Proof.
  revert n. induction left as [|left IH]; intros n; cbn [publish_loop].
  { split; [split; [done|intros (i & ? & _); lia]|]. exists 0%nat. repeat split; try done; lia. }
  destruct (reply_ok (reply n)) eqn:Hr.
  - destruct (reply n) as [| |q] eqn:E; try done. cbn. split; [split; [|done]|].
    + intros _. exists n. split; [lia|]. by rewrite E.
    + exists 1%nat. split; [done|]. split; [lia|]. split; [lia|]. split; [done|]. split; [intros; lia|].
      split; [|done]. intros _. replace (n + 1 - 1)%nat with n by lia. by rewrite E.
  - destruct left as [|left'].
    + assert (match reply n with Flushed _ => (true, [Produce r]) | _ => (false, [Produce r]) end
              = (false, [Produce r])) as -> by (revert Hr; by destruct (reply n)).
      split; [split; [done|]|].
      * intros (i & Hi & Ho). assert (i = n) as -> by lia. congruence.
      * exists 1%nat. repeat split; try done; intros; lia.
    + specialize (IH (S n)). destruct (publish_loop cfg r reply jitter (S left') (S n)) as [ok actions].
      destruct IH as [IH1 (k & K1 & K2 & K3 & K4 & K5 & K6 & K7)].
      set (s := (_ + jitter n)%Q).
      assert (∀ x, match reply n with Flushed _ => (true, [Produce r]) | _ => x end = x) as Hm
        by (intros x; revert Hr; by destruct (reply n)).
      rewrite Hm. split.
      * rewrite IH1. split; intros (i & Hi & Ho); exists i; split; try done; [lia|].
        assert (i ≠ n) by congruence. lia.
      * exists (S k). split; [change (r :: produced actions = r :: replicate k r); by rewrite K1|]. split; [lia|]. split; [lia|].
        split; [change (S (length (slept actions)) = k); rewrite K4; pose proof (K3 ltac:(lia)); lia|]. split; [|split; [|intros Hf; specialize (K7 Hf); lia]].
        -- intros [|i] Hi; [by rewrite Nat.add_0_r|].
           replace (n + S i)%nat with (S n + i)%nat by lia. apply K5. lia.
        -- intros Hok. replace (n + S k - 1)%nat with (S n + k - 1)%nat by lia. auto.
Qed.

(** The configured backoff bounds the exponential one. *)
Lemma backoff_bound cfg n :
  exponential_backoff cfg = true → backoff_ms cfg n ≤ max_retry_backoff_ms cfg.
Proof. unfold backoff_ms. intros ->. lia. Qed.

(** Publication of a terminal failure: every record produced carries the same topic, key
    and headers; the call reports success exactly when one of the [max_retries] attempts went
    through without an exception, stops at the first such attempt, sleeps once between two
    attempts, and reports failure only after all of them. *)
Theorem publish_to_dlq_outcome cfg consume_topic tp offset epoch key value error attempt reply jitter ok actions :
  publish_to_dlq cfg consume_topic tp offset epoch key value error attempt reply jitter = Some (ok, actions) →
  ∃ r k, produced actions = replicate k r
    ∧ dlq_topic r = consume_topic +:+ DLQ_TOPIC_SUFFIX cfg
    ∧ (dlq_payload_mode cfg = FULL → dlq_key r = key ∧ dlq_value r = value)
    ∧ (dlq_payload_mode cfg ≠ FULL → dlq_key r = PyNone ∧ dlq_value r = PyNone)
    ∧ Z.of_nat k ≤ Z.max 0 (max_retries cfg) ∧ length (slept actions) = pred k
    ∧ (ok = true ↔ ∃ i, Z.of_nat i < max_retries cfg ∧ reply_ok (reply i) = true)
    ∧ (ok = true → reply_ok (reply (k - 1)%nat) = true)
    ∧ (∀ i, (i < k - 1)%nat → reply_ok (reply i) = false)
    ∧ (ok = false → Z.of_nat k = Z.max 0 (max_retries cfg)).
Proof.
  unfold publish_to_dlq, validate_topic_name.
  destruct consume_topic as [|c s]; [done|]. destruct (topic_char c && topic_rest s); [|done].
  destruct (DLQ_TOPIC_SUFFIX cfg) as [|c' s']; [done|]. destruct (topic_char c' && topic_rest s'); [|done].
  set (r := mkDlqRecord _ _ _ _). intros [= Hp].
  pose proof (publish_loop_spec cfg r reply jitter (Z.to_nat (max_retries cfg)) 0) as H.
  rewrite Hp in H. destruct H as [H1 (k & K1 & K2 & K3 & K4 & K5 & K6 & K7)].
  exists r, k. split; [done|]. split; [done|].
  split; [intros Hm; unfold r; cbn; by rewrite bool_decide_true|].
  split; [intros Hm; unfold r; cbn; by rewrite bool_decide_false|].
  split; [lia|]. split; [done|]. split; [|split; [done|split; [done|intros Hok; specialize (K7 Hok); lia]]].
  rewrite H1. split; intros (i & Hi & Ho); exists i; (split; [lia|done]).
Qed.

Definition demo_dlq_config (retries : Z) : DlqConfig :=
  mkDlqConfig true FULL ".dlq" retries 1000 30000 200 true.

(** Two failed attempts, then success *)
Definition demo_replies (n : nat) : ProducerReply :=
  match n with 0%nat => ProduceRaises | 1%nat => FlushRaises | _ => Flushed 0 end.

Definition demo_dlq_publish (retries : Z) : option (bool * list DlqAction) :=
  publish_to_dlq (demo_dlq_config retries) "orders" (mkTp "orders" 0) 7 1 (PyBytes [97]) (PyBytes [98])
    "boom" 3 demo_replies (λ _, 0%Q).

Lemma publish_to_dlq_outcome_witness :
  ∃ ok actions r k, demo_dlq_publish 3 = Some (ok, actions) ∧ produced actions = replicate k r
    ∧ dlq_topic r = "orders.dlq" ∧ k = 3%nat ∧ ok = true.
Proof.
  destruct (demo_dlq_publish 3) as [[ok actions]|] eqn:E; [|by vm_compute in E].
  destruct (publish_to_dlq_outcome _ _ _ _ _ _ _ _ _ _ _ _ _ E) as (r & k & H1 & H2 & _).
  exists ok, actions, r, k. split; [reflexivity|]. split; [exact H1|]. split; [exact H2|].
  vm_compute in E. injection E as <- <-.
  assert (k = length (replicate k r)) as -> by (symmetry; apply length_replicate).
  rewrite <-H1. done.
Defined.

(** With a retry limit of 0 (which the settings accept) nothing is ever produced: every
    publication reports failure whatever the producer would do, so the failed message can
    never reach the dead-letter topic. *)
Theorem no_retries_never_publishes cfg consume_topic tp offset epoch key value error attempt reply jitter ok actions :
  max_retries cfg ≤ 0 →
  publish_to_dlq cfg consume_topic tp offset epoch key value error attempt reply jitter = Some (ok, actions) →
  ok = false ∧ actions = [].
Proof.
  intros Hm. unfold publish_to_dlq. replace (Z.to_nat (max_retries cfg)) with 0%nat by lia.
  destruct (validate_topic_name consume_topic); [|done].
  destruct (validate_topic_name (DLQ_TOPIC_SUFFIX cfg)); [|done]. by intros [= <- <-].
Qed.

Lemma no_retries_never_publishes_witness :
  max_retries (demo_dlq_config 0) ≤ 0 ∧ ∃ ok actions, demo_dlq_publish 0 = Some (ok, actions) ∧ ok = false.
Proof.
  split; [vm_compute; discriminate|].
  destruct (demo_dlq_publish 0) as [[ok actions]|] eqn:E; [|by vm_compute in E].
  exists ok, actions. split; [reflexivity|].
  apply (no_retries_never_publishes (demo_dlq_config 0) "orders" (mkTp "orders" 0) 7 1 (PyBytes [97])
    (PyBytes [98]) "boom" 3 demo_replies (λ _, 0%Q) ok actions); [vm_compute; discriminate|exact E].
Defined.

(** A flush that times out with the record still in the producer's queue counts as a
    successful publication: the call returns true after one attempt although the record was
    not delivered. *)
Lemma flush_timeout_counts_as_published still_queued jitter :
  publish_to_dlq (demo_dlq_config 3) "orders" (mkTp "orders" 0) 7 1 (PyBytes [97]) (PyBytes [98])
    "boom" 3 (λ _, Flushed still_queued) jitter
  = Some (true, [Produce (mkDlqRecord "orders.dlq" (PyBytes [97]) (PyBytes [98])
      [("x-error-reason", HText "boom"); ("x-retry-attempt", HDecimal 3);
       ("source-topic", HText "orders"); ("partition", HDecimal 0);
       ("offset", HDecimal 7); ("epoch", HDecimal 1)])]).
Proof. reflexivity. Qed.
