(* ===== verification/CommitPlanner.v ===== *)
(** * Commit planning and assignment hand-over
    ([BrokerCommitPlanner] of [control_plane/broker_support.py],
    [BrokerRebalanceSupport] of [control_plane/broker_rebalance_support.py])

    A commit carries the next offset to read and, in the snapshot strategy, the sparse
    offsets completed beyond it; the next assignment rebuilds a tracker from both.  The
    main theorem composes the two ends: the rebuilt tracker knows exactly what was
    complete, or less, and never more. *)

From S2P Require Import Prelude Vendor Dto OffsetTracker PyText MetadataEncoder.

(** [confluent_kafka.TopicPartition]: what the code reads of it.  The offset and the metadata
    may be absent. *)
Record KafkaTopicPartition := mkKafkaTp {
  k_topic : string;
  k_partition : Z;
  k_offset : option Z;
  k_metadata : option pystr;
}.

Definition dto_of_kafka (p : KafkaTopicPartition) : TopicPartition := mkTp (k_topic p) (k_partition p).

Section planner.
Context `{TL : TrackerLibs}.

(** [max_metadata_size] of the encoder, [max_completed_offsets] of the planner,
    [confluent_kafka.OFFSET_INVALID] *)
Context (max_metadata_size max_completed_offsets OFFSET_INVALID : Z).

Definition is_snapshot (strategy : string) : bool := bool_decide (strategy = "metadata_snapshot"%string).

(** A non-empty string attribute, or the next candidate *)
Definition nonempty_metadata (m : option pystr) : option pystr :=
  match m with Some (_ :: _) => m | _ => None end.

Definition decode_assignment_completed_offsets (strategy : string) (partition : KafkaTopicPartition)
    (committed_partition : option KafkaTopicPartition) (last_committed : Z) : gset Z :=
  if negb (is_snapshot strategy) then ∅
  else
    let raw_metadata :=
      match nonempty_metadata (committed_partition ≫= k_metadata) with
      | Some m => Some m
      | None => nonempty_metadata (k_metadata partition)
      end in
    match raw_metadata with
    | None => ∅
    | Some m => filter (λ o, last_committed < o) (decode_metadata m)
    end.

(** [set(islice(tracker.completed_offsets.irange(minimum=base_offset), max_completed_offsets))] *)
Definition get_commit_metadata_offsets (tracker : OffsetTracker) (base_offset : Z) : gset Z :=
  list_to_set (py_take max_completed_offsets
    (ss_irange (Some base_offset) None (completed_offsets tracker))).

Definition encode_revoke_metadata (strategy : string) (tracker : OffsetTracker) (base_offset : Z) : pystr :=
  if negb (is_snapshot strategy) then []
  else encode_metadata max_metadata_size (get_commit_metadata_offsets tracker base_offset) base_offset.

(** One entry of [build_offsets_to_commit] *)
Definition offset_to_commit (strategy : string) (tp : TopicPartition) (tracker : OffsetTracker)
    (safe_offset : Z) : KafkaTopicPartition :=
  let base_offset := safe_offset + 1 in
  let metadata_text :=
    if is_snapshot strategy
    then encode_metadata max_metadata_size (get_commit_metadata_offsets tracker base_offset) base_offset
    else [] in
  mkKafkaTp (topic tp) (partition tp) (Some (safe_offset + 1)) (Some metadata_text).

(** [build_offsets_to_commit]; [None] is the [KeyError] of a partition without tracker *)
Definition build_offsets_to_commit (commits_to_make : list (TopicPartition * Z))
    (trackers : TopicPartition → option OffsetTracker) (strategy : string) : option (list KafkaTopicPartition) :=
  mapM (λ '(tp, safe_offset), (λ t, offset_to_commit strategy tp t safe_offset) <$> trackers tp)
    commits_to_make.

(** ** [BrokerRebalanceSupport] *)

(** Its own copy of the encoder: every completed offset from the base on *)
Definition support_encode_revoke_metadata (strategy : string) (tracker : OffsetTracker) (base_offset : Z) : pystr :=
  if negb (is_snapshot strategy) then []
  else encode_metadata max_metadata_size
         (list_to_set (filter (λ o, base_offset ≤ o) (ss_list (completed_offsets tracker)))) base_offset.

(** The body of the loop of [build_assignments] for one partition; [None] is the
    [ValueError] of [rehydrate_assignment_state], or the [TypeError] of a tracker without
    starting offset *)
Definition assigned_tracker (strategy : string) (max_revoke_grace_ms : Z)
    (partition : KafkaTopicPartition) (committed_partition : option KafkaTopicPartition)
    : option OffsetTracker :=
  let committed_offset := committed_partition ≫= k_offset in
  let tracker_starting_offset :=
    match committed_offset with
    | Some o => if OFFSET_INVALID <? o then Some o else k_offset partition
    | None => k_offset partition
    end in
  let from_assignment :=
    match k_offset partition with
    | Some a => if 0 <? a then a - 1 else -1
    | None => -1
    end in
  let last_committed :=
    match committed_offset with
    | Some o => if 0 <=? o then o - 1 else from_assignment
    | None => from_assignment
    end in
  let initial :=
    decode_assignment_completed_offsets strategy partition committed_partition last_committed in
  match tracker_starting_offset with
  | None => None
  | Some start =>
      let tracker := new_tracker (dto_of_kafka partition) start max_revoke_grace_ms (Some initial) in
      increment_epoch <$>
        rehydrate_assignment_state last_committed (foldr Z.max last_committed (elements initial)) tracker
  end.

(** [committed_offsets]: the entries with an offset, later ones replacing earlier ones; an
    exception of the lookup ([None]) leaves it empty *)
Definition committed_table (committed : option (list KafkaTopicPartition))
    : odict TopicPartition KafkaTopicPartition :=
  fold_left (λ acc c, match k_offset c with None => acc | Some _ => od_set (dto_of_kafka c) c acc end)
    (default [] committed) [].

(** [build_assignments]; [committed] is the reply of [consumer.committed] *)
Definition build_assignments (committed : option (list KafkaTopicPartition))
    (partitions : list KafkaTopicPartition) (strategy : string) (max_revoke_grace_ms : Z)
    : option (odict TopicPartition OffsetTracker) :=
  fold_left (λ acc p,
    match acc with
    | None => None
    | Some assignments =>
        (λ t, od_set (dto_of_kafka p) t assignments) <$>
          assigned_tracker strategy max_revoke_grace_ms p
            (od_get (dto_of_kafka p) (committed_table committed))
    end) partitions (Some []).

(** ** Lemmas *)

Lemma encode_metadata_nonempty max X base : encode_metadata max X base ≠ [].
Proof. destruct (encode_metadata_cases max X base) as [->|[->|[-> _]]]; done. Qed.

(** The offsets that travel with a commit at [base] are completed offsets from [base] on. *)
Lemma commit_metadata_sound t base o :
  o ∈ get_commit_metadata_offsets t base → base ≤ o ∧ o ∈ ss_list (completed_offsets t).
Proof.
  unfold get_commit_metadata_offsets, py_take. rewrite elem_of_list_to_set, ss_irange_spec.
  intros (i & Hi)%list_elem_of_lookup. apply lookup_take_Some in Hi as [Hi _].
  apply list_elem_of_lookup_2, list_elem_of_filter in Hi as [[Hb _] Ho]. done.
Qed.

Lemma commit_metadata_complete t base o :
  zlen (ss_irange (Some base) None (completed_offsets t)) ≤ max_completed_offsets →
  base ≤ o → o ∈ ss_list (completed_offsets t) → o ∈ get_commit_metadata_offsets t base.
Proof.
  intros Hlen Hb Ho. unfold get_commit_metadata_offsets, py_take.
  rewrite take_ge by (unfold zlen in Hlen; lia).
  rewrite elem_of_list_to_set, ss_irange_spec, list_elem_of_filter. done.
Qed.

(** An encoding that is not the overflow marker keeps every offset from the base on. *)
Lemma decode_commit_metadata strategy p t tp safe last :
  is_snapshot strategy = true → -1 ≤ safe → safe ≤ last →
  let X := get_commit_metadata_offsets t (safe + 1) in
  decode_assignment_completed_offsets strategy p (Some (offset_to_commit strategy tp t safe)) last =
    if decide (encode_metadata max_metadata_size X (safe + 1) = [ch_O]) then ∅
    else filter (λ o, last < o) X.
Proof.
  intros Hs Hsafe Hlast X. unfold decode_assignment_completed_offsets, offset_to_commit. rewrite Hs. cbn [negb].
  cbn [mbind option_bind k_metadata]. fold X.
  pose proof (encode_metadata_nonempty max_metadata_size X (safe + 1)) as Hne.
  assert (∀ o, o ∈ X → 0 ≤ o ∧ safe + 1 ≤ o) as HX.
  { intros o [Ho _]%commit_metadata_sound. lia. }
  pose proof (metadata_decode_exact max_metadata_size X (safe + 1) HX) as Hrt.
  destruct (encode_metadata max_metadata_size X (safe + 1)) as [|c m] eqn:He; [done|].
  cbn [nonempty_metadata]. rewrite Hrt. case_decide; [|done].
  apply set_eq. intros o. rewrite elem_of_filter. set_solver.
Qed.

Lemma foldr_max_spec (b : Z) (l : list Z) : b ≤ foldr Z.max b l ∧ ∀ o, o ∈ l → o ≤ foldr Z.max b l.
Proof.
  induction l as [|x l [IH1 IH2]]; simpl; [split; [lia|intros o Ho; by apply elem_of_nil in Ho]|].
  split; [lia|]. intros o [->|Ho]%elem_of_cons; [lia|]. specialize (IH2 o Ho). lia.
Qed.

(** What an assignment restores: the committed mark, and the decoded offsets as completed. *)
Lemma assigned_tracker_spec strategy grace p c start lc :
  k_offset c = Some start → 0 ≤ start → OFFSET_INVALID < 0 → lc = start - 1 →
  let X := decode_assignment_completed_offsets strategy p (Some c) lc in
  (∀ o, o ∈ X → lc < o) →
  ∃ t, assigned_tracker strategy grace p (Some c) = Some t ∧ tracker_inv t
    ∧ last_committed_offset t = lc ∧ epoch t = 1
    ∧ (∀ o, o ∈ ss_list (completed_offsets t) ↔ o ∈ X).
Proof.
  intros Ho Hs Hinv -> X HX. unfold assigned_tracker. cbn [mbind option_bind]. rewrite Ho.
  destruct (Z.ltb_spec OFFSET_INVALID start); [|lia]. destruct (Z.leb_spec 0 start); [|lia]. fold X.
  destruct (foldr_max_spec (start - 1) (elements X)) as [Hm1 Hm2].
  set (f := foldr Z.max (start - 1) (elements X)) in *.
  destruct (rehydrate_assignment_state (start - 1) f _) as [t|] eqn:Hr.
  - assert (tracker_inv t) as Ht.
    { eapply rehydrate_inv; [|exact Hr]. intros o HoX. split; [by apply HX|]. apply Hm2. by apply elem_of_elements. }
    exists (increment_epoch t). split; [reflexivity|].
    split; [exact (tracker_step_inv t OpEpoch _ Ht (step_epoch t))|].
    unfold rehydrate_assignment_state in Hr. destruct (f <? start - 1); [done|]. injection Hr as <-.
    split; [reflexivity|]. split; [reflexivity|]. intros o. apply ss_of_set_spec.
  - unfold rehydrate_assignment_state in Hr. destruct (Z.ltb_spec f (start - 1)); [lia|done].
Qed.

(** Every assignment starts in epoch 1, whatever happened on the partition before. *)
Lemma assigned_tracker_epoch strategy grace p c t : assigned_tracker strategy grace p c = Some t → epoch t = 1.
Proof.
  unfold assigned_tracker. cbv zeta.
  set (start := match c ≫= k_offset with Some o => if OFFSET_INVALID <? o then Some o else _ | None => _ end).
  destruct start as [start|]; [|done].
  unfold rehydrate_assignment_state. destruct (_ <? _); [done|]. cbn [fmap option_fmap option_map].
  by intros [= <-].
Qed.

(** Committing a tracker and reading the commit back at the next assignment *)
Lemma handover_spec strategy tp t safe grace p :
  OFFSET_INVALID < 0 → tracker_inv t → -1 ≤ last_committed_offset t →
  last_committed_offset t ≤ safe ≤ get_committable_high_water_mark None t →
  let sparse := ss_irange (Some (safe + 1)) None (completed_offsets t) in
  ∃ t', assigned_tracker strategy grace p (Some (offset_to_commit strategy tp t safe)) = Some t'
    ∧ tracker_inv t' ∧ last_committed_offset t' = safe
    ∧ (∀ o, settled t' o → settled t o)
    ∧ (is_snapshot strategy = true → zlen sparse ≤ max_completed_offsets →
       encode_metadata max_metadata_size (get_commit_metadata_offsets t (safe + 1)) (safe + 1) ≠ [ch_O] →
       ∀ o, settled t' o ↔ settled t o).
Proof.
  intros Hinv Ht Hlc Hsafe sparse. destruct (committable_spec t Ht) as (_ & Hset & _).
  set (X := decode_assignment_completed_offsets strategy p (Some (offset_to_commit strategy tp t safe)) safe).
  assert (∀ o, o ∈ X → safe < o ∧ o ∈ ss_list (completed_offsets t)) as HX.
  { intros o Ho. unfold X in Ho. destruct (is_snapshot strategy) eqn:Hs.
    - rewrite decode_commit_metadata in Ho by (done || lia). case_decide; [set_solver|].
      apply elem_of_filter in Ho as [? [_ ?]%commit_metadata_sound]. done.
    - unfold decode_assignment_completed_offsets in Ho. rewrite Hs in Ho. set_solver. }
  destruct (assigned_tracker_spec strategy grace p (offset_to_commit strategy tp t safe) (safe + 1) safe)
    as (t' & Ha & Ht' & Hc & _ & Hin); [done|lia|done|lia|intros o Ho; by apply HX|].
  exists t'. split; [done|]. split; [done|]. split; [done|]. split.
  - intros o [Ho|Ho]; [apply Hset; lia|]. right. by apply HX, Hin.
  - intros Hs Hlen Henc o. split; (intros [Ho|Ho]; [|]).
    + apply Hset. lia.
    + right. by apply HX, Hin.
    + left. lia.
    + destruct (decide (o ≤ safe)); [left; lia|]. right. apply Hin. fold X.
      unfold X. rewrite decode_commit_metadata by (done || lia). rewrite decide_False by done.
      apply elem_of_filter. split; [lia|]. apply commit_metadata_complete; [done|lia|done].
Qed.

(** Hand-over: commit a tracker at any offset up to its committable mark, read the commit
    back at the next assignment.  The rebuilt tracker satisfies the invariant, continues at
    the committed offset and treats no offset as done that was not done; in the snapshot
    strategy, when the sparse offsets fit the planner's limit and the metadata did not
    overflow, it treats exactly the same offsets as done. *)
Theorem assignment_handover_sound strategy tp t safe grace p :
  OFFSET_INVALID < 0 → tracker_inv t → -1 ≤ last_committed_offset t →
  last_committed_offset t ≤ safe ≤ get_committable_high_water_mark None t →
  let sparse := ss_irange (Some (safe + 1)) None (completed_offsets t) in
  ∃ t', assigned_tracker strategy grace p (Some (offset_to_commit strategy tp t safe)) = Some t'
    ∧ tracker_inv t' ∧ last_committed_offset t' = safe
    ∧ (∀ o, settled t' o → settled t o)
    ∧ (is_snapshot strategy = true → zlen sparse ≤ max_completed_offsets →
       encode_metadata max_metadata_size (get_commit_metadata_offsets t (safe + 1)) (safe + 1) ≠ [ch_O] →
       ∀ o, settled t' o ↔ settled t o).
Proof. apply handover_spec. Qed.
End planner.

(** ** Witness: offsets 1 and 2 missing, 3 and 5 done; commit at 0 and reassign *)

#[local] Instance planner_demo_libs : TrackerLibs := vendor_lists.

Definition handover_tracker : OffsetTracker :=
  mark_complete 5 (mark_complete 3 (mark_complete 0
    (update_last_fetched_offset 6 (new_tracker (mkTp "orders" 0) 0 500 None)))).

Lemma handover_tracker_inv : tracker_inv handover_tracker.
Proof.
  unfold handover_tracker.
  repeat (apply mark_complete_inv; [vm_compute; discriminate|]).
  apply update_last_fetched_inv, new_tracker_inv.
Qed.

Lemma handover_facts :
  (-1 ≤ last_committed_offset handover_tracker
   ∧ last_committed_offset handover_tracker ≤ 0 ≤ get_committable_high_water_mark None handover_tracker)
  ∧ (zlen (ss_irange (Some (0 + 1)) None (completed_offsets handover_tracker)) ≤ 1000
     ∧ encode_metadata 4000 (get_commit_metadata_offsets 1000 handover_tracker (0 + 1)) (0 + 1) ≠ [ch_O])
  ∧ settled handover_tracker 3 ∧ settled handover_tracker 5 ∧ ¬ settled handover_tracker 1.
Proof.
  split; [vm_compute; intuition discriminate|]. split; [vm_compute; intuition discriminate|].
  unfold settled.
  assert (last_committed_offset handover_tracker = -1) as -> by (vm_compute; reflexivity).
  assert (ss_list (completed_offsets handover_tracker) = [0; 3; 5]) as -> by (vm_compute; reflexivity).
  split; [set_solver|]. split; [set_solver|]. intros [?|?]; [lia|set_solver].
Qed.

Lemma assignment_handover_sound_witness :
  ∃ t', assigned_tracker (-1001) "metadata_snapshot" 500 (mkKafkaTp "orders" 0 (Some 0) None)
          (Some (offset_to_commit 4000 1000 "metadata_snapshot" (mkTp "orders" 0) handover_tracker 0)) = Some t'
    ∧ settled t' 3 ∧ settled t' 5 ∧ ¬ settled t' 1.
Proof.
  destruct handover_facts as ((F1 & F2) & (F3 & F4) & F5 & F6 & F7).
  destruct (assignment_handover_sound 4000 1000 (-1001) "metadata_snapshot" (mkTp "orders" 0) handover_tracker 0 500
              (mkKafkaTp "orders" 0 (Some 0) None) eq_refl handover_tracker_inv F1 F2)
    as (t' & H1 & _ & _ & _ & H5).
  exists t'. split; [exact H1|]. pose proof (H5 eq_refl F3 F4) as H.
  split; [apply H; exact F5|]. split; [apply H; exact F6|]. intros Hs. apply F7, H, Hs.
Defined.
