(* ===== verification/Broker.v ===== *)
(** * The broker's handlers
    ([control_plane/broker_poller.py] with its helpers [broker_completion_support.py],
    [broker_commit_settlement_support.py], [broker_dispatch_support.py],
    [BrokerCommitCadenceSupport] of [broker_commit_coordinator_support.py] and
    [broker_rebalance_orchestration_support.py])

    The broker shares its offset trackers with the work manager: its dictionary maps
    partitions to locations in the manager's tracker store.  Each handler runs to its end
    before the next one starts, except the Kafka commit, which leaves the event loop: what
    the other tasks do meanwhile is an argument.  The commit cycle here is the direct one, the
    default; [BrokerCoordinator] has the cycle through the commit coordinator. *)

From S2P Require Import Prelude Vendor Runtime Dto OffsetTracker PyText MetadataEncoder PoisonMessage WorkQueueTopology ExecutionEngine WorkManager Dlq CommitPlanner.

Record BrokerConfig := mkBrokerConfig {
  bc_dlq : DlqConfig;
  bc_cache_max_bytes : Z;
  bc_strategy : string;                 (* _rebalance_state_strategy *)
  bc_max_metadata_size : Z;
  bc_max_completed_offsets : Z;
  bc_max_blocking_duration_ms : Z;
  bc_completion_threshold : Z;          (* _commit_debounce_completion_threshold *)
  bc_interval_seconds : Q;              (* _commit_debounce_interval_seconds *)
  bc_ordering_mode : OrderingMode;
}.

(** The result of awaiting [publish_to_dlq]; an exception leaves the handler *)
Inductive PublishOutcome := Published | NotPublished | PublishRaises.

(** [confluent_kafka.Message]: what the dispatcher reads of it *)
Record Message := mkKafkaMessage {
  msg_error : bool;
  msg_topic : option string;
  msg_partition : option Z;
  msg_offset : option Z;
  msg_key : PyValue;
  msg_value : PyValue;
}.

Record CompletionProcessingResult := mkProcessed {
  processed_count : Z;
  completed_partitions : gset TopicPartition;
  completed_counts_by_partition : odict TopicPartition Z;
  completed_offsets_by_partition : odict TopicPartition (list Z);
}.

(** The counters of [BrokerCommitCadenceSupport] *)
Record CadenceStats := mkCadence {
  invocations_total : Z;
  empty_candidate_scans_total : Z;
  commit_calls_total : Z;
  partitions_advanced_total : Z;
  invocations_by_source : odict string Z;
  empty_candidate_scans_by_source : odict string Z;
  commit_calls_by_source : odict string Z;
  partitions_advanced_by_source : odict string Z;
}.

#[export] Instance CadenceStats_settable : Settable CadenceStats :=
  λ c, mkCadence (invocations_total c) (empty_candidate_scans_total c) (commit_calls_total c)
         (partitions_advanced_total c) (invocations_by_source c) (empty_candidate_scans_by_source c)
         (commit_calls_by_source c) (partitions_advanced_by_source c).

(** [d[source] = d.get(source, 0) + n] *)
Definition add_to (source : string) (n : Z) (d : odict string Z) : odict string Z :=
  od_set source (default 0 (od_get source d) + n) d.

Definition record_invocation (source : string) (c : CadenceStats) : CadenceStats :=
  c <| invocations_total ::= λ n, n + 1 |> <| invocations_by_source ::= add_to source 1 |>.

Definition record_empty_candidate_scan (source : string) (c : CadenceStats) : CadenceStats :=
  c <| empty_candidate_scans_total ::= λ n, n + 1 |>
    <| empty_candidate_scans_by_source ::= add_to source 1 |>.

Definition record_commit_success (source : string) (partition_count : Z) (c : CadenceStats) : CadenceStats :=
  c <| commit_calls_total ::= λ n, n + 1 |> <| commit_calls_by_source ::= add_to source 1 |>
    <| partitions_advanced_total ::= λ n, n + partition_count |>
    <| partitions_advanced_by_source ::= add_to source partition_count |>.

Section broker.
Context {E : Type} `{EE : ExecutionEngine E} `{TL : TrackerLibs} `{RT : Runtime}.
Context (cfg : BrokerConfig).

Record Broker := mkBroker {
  wm : WorkManager E;
  trackers : odict TopicPartition loc;                       (* _offset_trackers *)
  cache : MessageCache;                                      (* _message_cache and its size *)
  pending_dlq_events : odict CacheKey CompletionEvent;
  dirty_commit_partitions : gset TopicPartition;
  unsettled_completions : odict TopicPartition Z;
  unsettled_timestamps : odict TopicPartition (odict Z Q);
  completions_since_last_commit : Z;
  last_commit_attempt : Q;
  cadence : CadenceStats;
  completed_offset_skips : list (TopicPartition * Z);        (* the skips recorded *)
  commit_failures : list (TopicPartition * string);          (* the failures recorded *)
  dlq_failures : list TopicPartition;                        (* the publish failures recorded *)
}.

#[export] Instance Broker_settable : Settable Broker :=
  λ b, mkBroker (wm b) (trackers b) (cache b) (pending_dlq_events b) (dirty_commit_partitions b)
         (unsettled_completions b) (unsettled_timestamps b) (completions_since_last_commit b)
         (last_commit_attempt b) (cadence b) (completed_offset_skips b) (commit_failures b) (dlq_failures b).

(** [self._offset_trackers.get(tp)], and a mutation of that object *)
Definition get_tracker (tp : TopicPartition) (b : Broker) : option OffsetTracker :=
  match od_get tp (trackers b) with
  | None => None
  | Some l => tracker_store (wm b) !! l
  end.

Definition update_tracker (tp : TopicPartition) (f : OffsetTracker → OffsetTracker) (b : Broker) : Broker :=
  match od_get tp (trackers b) with
  | None => b
  | Some l => b <| wm ::= λ w, w <| tracker_store ::= alter f l |> |>
  end.

(** ** Completions *)

(** The local variables of [process_completed_events] *)
Record Processing := mkProcessing {
  pr_broker : Broker;
  pr_resolved : list CacheKey;
  pr_completed : odict TopicPartition (list Z);
  pr_publishes : nat;
}.

#[export] Instance Processing_settable : Settable Processing :=
  λ p, mkProcessing (pr_broker p) (pr_resolved p) (pr_completed p) (pr_publishes p).

(** Whether the failure must be published before its offset may be completed *)
Definition needs_dlq (e : CompletionEvent) : bool :=
  bool_decide (ce_status e = FAILURE) && dlq_enabled (bc_dlq cfg) && (max_retries (bc_dlq cfg) <=? ce_attempt e).

(** The end of the loop body: the offset is completed, the ledger and the cache forget it *)
Definition complete_event (e : CompletionEvent) (from_pending : bool) (tracker : OffsetTracker)
    (p : Processing) : Processing :=
  let key := (ce_tp e, ce_offset e) in
  let before := zlen (ss_list (completed_offsets tracker)) in
  let after := zlen (ss_list (completed_offsets (mark_complete (ce_offset e) tracker))) in
  let b1 := update_tracker (ce_tp e) (mark_complete (ce_offset e)) (pr_broker p) in
  let completed :=
    if after =? before then pr_completed p
    else od_set (ce_tp e) (default [] (od_get (ce_tp e) (pr_completed p)) ++ [ce_offset e]) (pr_completed p) in
  let resolved := if from_pending then key :: pr_resolved p else pr_resolved p in
  let b2 := b1 <| pending_dlq_events ::= od_pop key |> <| cache ::= λ c, (pop_cached_message key c).2 |> in
  p <| pr_broker := b2 |> <| pr_resolved := resolved |> <| pr_completed := completed |>.

(** [publish n e key value] is the outcome of the [n]-th publication of this call.  The left
    side of the result is an exception with the state it leaves behind. *)
Definition process_event (publish : nat → CompletionEvent → PyValue → PyValue → PublishOutcome)
    (from_pending : bool) (e : CompletionEvent) (p : Processing) : Processing + Processing :=
  let key := (ce_tp e, ce_offset e) in
  let b := pr_broker p in
  let discard := inr (if from_pending
                      then p <| pr_broker := b <| pending_dlq_events ::= od_pop key |> |> else p) in
  if negb from_pending && (od_has key (pending_dlq_events b) || bool_decide (key ∈ pr_resolved p))
  then inr p
  else
    match get_tracker (ce_tp e) b with
    | None => discard
    | Some tracker =>
        if negb (ce_epoch e =? get_current_epoch tracker) then discard
        else if needs_dlq e then
          let '(k, v) := default (PyNone, PyNone) (od_get key (message_cache (cache b))) in
          let p1 := p <| pr_publishes ::= S |> in
          match publish (pr_publishes p) e k v with
          | PublishRaises => inl p1
          | NotPublished =>
              inr (p1 <| pr_broker := b <| dlq_failures ::= λ l, l ++ [ce_tp e] |>
                                        <| pending_dlq_events ::= od_set key e |> |>)
          | Published => inr (complete_event e from_pending tracker p1)
          end
        else inr (complete_event e from_pending tracker p)
    end.

Fixpoint process_events publish (events : list (CompletionEvent * bool)) (p : Processing)
    : Processing + Processing :=
  match events with
  | [] => inr p
  | (e, from_pending) :: rest =>
      match process_event publish from_pending e p with
      | inl p' => inl p'
      | inr p' => process_events publish rest p'
      end
  end.

Definition processing_result (completed : odict TopicPartition (list Z)) : CompletionProcessingResult :=
  mkProcessed (od_sum zlen completed) (list_to_set (od_keys completed)) (od_map zlen completed) completed.

Definition process_completed_events publish (completed_events : list CompletionEvent) (b : Broker)
    : (Processing + Processing) :=
  process_events publish
    (((λ e, (e, true)) <$> od_values (pending_dlq_events b)) ++ ((λ e, (e, false)) <$> completed_events))
    (mkProcessing b [] [] 0).

(** ** Settlement ledgers *)

(** [timestamp_ledger[offset] = completed_at] for each offset *)
Definition stamp_offsets (completed_at : Q) (offsets : list Z) (ledger : odict Z Q) : odict Z Q :=
  fold_left (λ acc o, od_set o completed_at acc) offsets ledger.

Definition record_processed_completions (result : CompletionProcessingResult)
    (pending_retry_partitions : gset TopicPartition) (now : Q) (b : Broker) : Broker :=
  if processed_count result <=? 0 then b
  else
    b <| dirty_commit_partitions ::= λ s, s ∪ (completed_partitions result ∪ pending_retry_partitions) |>
      <| unsettled_completions ::= λ d,
           fold_left (λ acc p, od_set p.1 (default 0 (od_get p.1 acc) + p.2) acc)
             (completed_counts_by_partition result) d |>
      <| unsettled_timestamps ::= λ d,
           fold_left (λ acc p, od_set p.1 (stamp_offsets now p.2 (default [] (od_get p.1 acc))) acc)
             (completed_offsets_by_partition result) d |>
      <| completions_since_last_commit ::= λ n, n + processed_count result |>.

(** [observe_completion_to_commit_latency], without the latency metric *)
Definition prune_timestamps (tp : TopicPartition) (tracker : option OffsetTracker) (safe_offset : Z) (b : Broker)
    : Broker :=
  match od_get tp (unsettled_timestamps b) with
  | None | Some [] => b
  | Some ledger =>
      let retained := match tracker with None => [] | Some t => ss_list (completed_offsets t) end in
      let kept := od_filter (λ o, o ∈ retained ∧ safe_offset < o) ledger in
      if decide (kept = []) then b <| unsettled_timestamps ::= od_pop tp |>
      else b <| unsettled_timestamps ::= od_set tp kept |>
  end.

Definition clear_committed_partition (b : Broker) (c : TopicPartition * Z) : Broker :=
  let '(tp, safe_offset) := c in
  let tracker := get_tracker tp b in
  let remaining_unsettled := match tracker with None => 0 | Some t => zlen (ss_list (completed_offsets t)) end in
  let b1 := prune_timestamps tp tracker safe_offset b in
  if 0 <? remaining_unsettled then
    b1 <| dirty_commit_partitions ::= λ s, {[tp]} ∪ s |>
       <| unsettled_completions ::= od_set tp remaining_unsettled |>
  else
    b1 <| dirty_commit_partitions ::= λ s, s ∖ {[tp]} |>
       <| unsettled_completions ::= od_pop tp |>
       <| unsettled_timestamps ::= od_pop tp |>.

Definition clear_committed_dirty_partitions (commits : list (TopicPartition * Z)) (b : Broker) : Broker :=
  let b1 := fold_left clear_committed_partition commits b in
  if decide (dirty_commit_partitions b1 = ∅) then b1 <| completions_since_last_commit := 0 |> else b1.

(** [_process_completed_events] *)
Definition handle_completed_events publish (events : list CompletionEvent) (now : Q) (b : Broker)
    : Broker + Broker :=
  let pending_retry_partitions :=
    list_to_set (filter (λ tp, od_has tp (trackers b)) (od_keys (pending_dlq_events b)).*1) in
  match process_completed_events publish events b with
  | inl p => inl (pr_broker p)
  | inr p =>
      inr (record_processed_completions (processing_result (pr_completed p)) pending_retry_partitions now
             (pr_broker p))
  end.

(** ** Commits *)

(** [_get_min_inflight_offset] and [build_commit_candidates] *)
Definition build_commit_candidates (b : Broker) : list (TopicPartition * Z) :=
  omap (λ p,
    match tracker_store (wm b) !! p.2 with
    | None => None
    | Some tracker =>
        let hwm := get_committable_high_water_mark (get_min_in_flight_offset p.1 (wm b)) tracker in
        if last_committed_offset tracker <? hwm then Some (p.1, hwm) else None
    end) (trackers b).

Definition record_commit_failure (commits : list (TopicPartition * Z)) (reason : string) (b : Broker) : Broker :=
  b <| commit_failures ::= λ l, l ++ ((λ c, (c.1, reason)) <$> commits) |>.

(** [tracker.commit_through(safe_offset)] for the partitions still tracked *)
Definition commit_trackers (commits : list (TopicPartition * Z)) (b : Broker) : Broker :=
  fold_left (λ acc c, update_tracker c.1 (commit_through c.2) acc) commits b.

(** The attempts of [_commit_offsets]: [commit_ok n] is whether Kafka accepts attempt [n], and
    [others n] is what the other tasks do while attempt [n] is off the event loop *)
Fixpoint commit_attempts (commit_ok : nat → bool) (others : nat → Broker → Broker)
    (tracked : list (TopicPartition * Z)) (left n : nat) (b : Broker) : bool * Broker :=
  match left with
  | O => (false, b)
  | S left' =>
      let b1 := others n b in
      if commit_ok n then (true, commit_trackers tracked b1)
      else match left' with
           | O => (false, record_commit_failure tracked "kafka_exception" b1)
           | _ => commit_attempts commit_ok others tracked left' (S n) b1
           end
  end.

(** [_commit_offsets]: the offsets sent to Kafka, whether it counts as committed *)
Definition commit_offsets (commit_ok : nat → bool) (others : nat → Broker → Broker)
    (commits : list (TopicPartition * Z)) (b : Broker) : list KafkaTopicPartition * bool * Broker :=
  let tracked := filter (λ c, is_Some (get_tracker c.1 b)) commits in
  if decide (tracked = []) then ([], true, b)
  else
    match build_offsets_to_commit (bc_max_metadata_size cfg) (bc_max_completed_offsets cfg) tracked
            (λ tp, get_tracker tp b) (bc_strategy cfg) with
    | None => ([], false, b)
    | Some offsets =>
        let '(ok, b') := commit_attempts commit_ok others tracked 2 0 b in
        (offsets, ok, b')
    end.

Definition should_attempt_ready_commit (now : Q) (b : Broker) : bool :=
  if decide (dirty_commit_partitions b = ∅) then false
  else if bc_completion_threshold cfg <=? completions_since_last_commit b then true
  else if bc_interval_seconds cfg <=q 0 then true
  else bc_interval_seconds cfg <=q (now - last_commit_attempt b)%Q.

Definition should_force_idle_commit (b : Broker) : bool :=
  if decide (dirty_commit_partitions b = ∅) then false
  else if decide (pending_dlq_events b ≠ []) then false
  else if 0 <? get_total_in_flight_count (wm b) then false
  else get_total_queued_messages (wm b) <=? 0.

(** [_commit_ready_offsets] *)
Definition commit_ready_offsets (force : bool) (source : string) (commit_ok : nat → bool)
    (others : nat → Broker → Broker) (now : Q) (b : Broker) : list KafkaTopicPartition * Broker :=
  let b0 := b <| cadence ::= record_invocation source |> in
  if negb force && negb (should_attempt_ready_commit now b0) then
    ([], b0 <| cadence ::= record_empty_candidate_scan source |>)
  else
    let candidates := build_commit_candidates b0 in
    let commits := if force then candidates
                   else filter (λ c, c.1 ∈ dirty_commit_partitions b0) candidates in
    let '(offsets, b1) :=
      if decide (commits = []) then ([], b0)
      else
        let '(offsets, committed, b') := commit_offsets commit_ok others commits b0 in
        (offsets, if (committed : bool)
                  then clear_committed_dirty_partitions commits
                         (b' <| cadence ::= record_commit_success source (zlen commits) |>)
                  else b') in
    (offsets, b1 <| completions_since_last_commit := 0 |> <| last_commit_attempt := now |>).

(** [_maybe_commit_ready_offsets] *)
Definition maybe_commit_ready_offsets (had_pending_dlq_events : bool) (source : string)
    (commit_ok : nat → bool) (others : nat → Broker → Broker) (now : Q) (b : Broker)
    : list KafkaTopicPartition * Broker :=
  let force := should_force_idle_commit b in
  if had_pending_dlq_events || force || should_attempt_ready_commit now b
  then commit_ready_offsets (force || had_pending_dlq_events) source commit_ok others now b
  else ([], b).

(** ** Dispatch *)

(** [grouped_messages.setdefault(k, []).append(m)] *)
Definition group_message (k : QueueKey) (m : GroupedMessage) (groups : odict QueueKey (list GroupedMessage))
    : odict QueueKey (list GroupedMessage) :=
  od_set k (default [] (od_get k groups) ++ [m]) groups.

(** One message: the flag is [false] when the submission raises *)
Definition dispatch_message (groups : odict QueueKey (list GroupedMessage)) (msg : Message) (b : Broker)
    : bool * odict QueueKey (list GroupedMessage) * Broker :=
  match msg_error msg, msg_topic msg, msg_partition msg, msg_offset msg with
  | false, Some topic, Some partition, Some offset =>
      let tp := mkTp topic partition in
      match get_tracker tp b with
      | None => (true, groups, b)
      | Some tracker =>
          if is_completed_uncommitted offset tracker
          then (true, groups, b <| completed_offset_skips ::= λ l, l ++ [(tp, offset)] |>)
          else
            let dlq := bc_dlq cfg in
            let should_cache :=
              should_cache_message_payloads (dlq_enabled dlq) (dlq_payload_mode dlq) (bc_cache_max_bytes cfg) in
            let b1 := b <| cache ::= cache_message_for_dlq should_cache (bc_cache_max_bytes cfg)
                                       (tp, offset) (msg_key msg, msg_value msg) |> in
            let submit_key := match bc_ordering_mode cfg with
                              | PARTITION => PyInt partition
                              | _ => msg_key msg
                              end in
            let ep := get_current_epoch tracker in
            match bc_ordering_mode cfg with
            | UNORDERED =>
                let '(ok, w) := submit_message tp offset ep submit_key (msg_value msg) (wm b1) in
                (ok, groups, b1 <| wm := w |>)
            | _ =>
                (true, group_message (tp, submit_key) (mkMessage offset ep (msg_value msg) (Some (msg_key msg))) groups,
                 b1)
            end
      end
  | _, _, _, _ => (true, groups, b)
  end.

Fixpoint dispatch_loop (messages : list Message) (groups : odict QueueKey (list GroupedMessage)) (b : Broker)
    : bool * odict QueueKey (list GroupedMessage) * Broker :=
  match messages with
  | [] => (true, groups, b)
  | msg :: rest =>
      let '(ok, groups1, b1) := dispatch_message groups msg b in
      if (ok : bool) then dispatch_loop rest groups1 b1 else (false, groups1, b1)
  end.

Definition dispatch_messages (messages : list Message) (b : Broker) : bool * Broker :=
  let '(ok, groups, b1) := dispatch_loop messages [] b in
  if negb ok then (false, b1)
  else if decide (groups = []) then (true, b1)
  else let '(ok', w) := submit_message_batch groups (wm b1) in (ok', b1 <| wm := w |>).

(** ** Blocking timeouts and the drain step *)

(** [handle_blocking_timeouts]: [time tp] is what [time.time()] returns for the tracker of [tp],
    [error_text] the formatted message.  [None] is fuel. *)
Definition expired_offsets (time : TopicPartition → Q) (b : Broker) : list (TopicPartition * Z * Q * Z) :=
  concat ((λ p,
    match tracker_store (wm b) !! p.2 with
    | None => []
    | Some tracker =>
        omap (λ d, if (d.2 <q ms_to_seconds (bc_max_blocking_duration_ms cfg)) then None
                   else Some (p.1, d.1, d.2, get_current_epoch tracker))
          (get_blocking_offset_durations (time p.1) tracker)
    end) <$> trackers b).

Definition handle_blocking_timeouts (time : TopicPartition → Q) (error_text : Z → Q → string) (b : Broker)
    : option (list CompletionEvent * Broker) :=
  if bc_max_blocking_duration_ms cfg <=? 0 then Some ([], b)
  else
    let '(forced, w) :=
      fold_left (λ '(forced, w) '(tp, offset, duration, ep),
          let '(success, w') := force_fail tp offset ep (error_text offset duration)
                                  (max_retries (bc_dlq cfg)) w in
          (forced || success, w'))
        (expired_offsets time b) (false, wm b) in
    if negb forced then Some ([], b <| wm := w |>)
    else match poll_completed_events true w with
         | None => None
         | Some (events, w') => Some (events, b <| wm := w' |>)
         end.

(** [_drain_completion_events_once]: [None] is fuel; the flag of the left side tells an
    exception of the publication *)
Definition drain_completion_events_once publish (time : TopicPartition → Q) (error_text : Z → Q → string)
    (now : Q) (b : Broker) : option ((Broker + bool * Broker)) :=
  match poll_completed_events true (wm b) with
  | None => None
  | Some (events, w) =>
      match handle_blocking_timeouts time error_text (b <| wm := w |>) with
      | None => None
      | Some (timeout_events, b1) =>
          let completed := events ++ timeout_events in
          if decide (completed = [] ∧ pending_dlq_events b1 = []) then Some (inr (false, b1))
          else
            match handle_completed_events publish completed now b1 with
            | inl b2 => Some (inl b2)
            | inr b2 =>
                match schedule (wm b2) with
                | None => None
                | Some w2 => Some (inr (true, b2 <| wm := w2 |>))
                end
            end
      end
  end.
End broker.

Arguments Broker E {_}.
Arguments Processing E {_}.
