(* ===== verification/BrokerInv.v ===== *)
(** * The broker's trackers

    The broker's dictionary of trackers is well formed when every partition has its own
    live tracker and every tracker satisfies its invariant.  This file holds the lemmas on
    reading and mutating one tracker that the handlers share. *)

From S2P Require Import Prelude Vendor Runtime Dto OffsetTracker PyText MetadataEncoder PoisonMessage WorkQueueTopology ExecutionEngine WorkManager Dlq CommitPlanner Broker.

Section broker_inv.
Context {E : Type} `{EE : ExecutionEngine E} `{TL : TrackerLibs}.
Implicit Types b : Broker E.

Record trackers_wf (b : Broker E) : Prop := mkTrackersWf {
  tw_keys : NoDup (od_keys (trackers b));
  tw_locs : NoDup (od_values (trackers b));
  tw_live tp l : od_get tp (trackers b) = Some l → is_Some (tracker_store (wm b) !! l);
}.

Definition trackers_sound b : Prop := ∀ tp t, get_tracker tp b = Some t → tracker_inv t.

(** Two states with the same trackers *)
Definition same_trackers b b' : Prop :=
  trackers b' = trackers b ∧ tracker_store (wm b') = tracker_store (wm b).

Lemma same_trackers_get b b' tp : same_trackers b b' → get_tracker tp b' = get_tracker tp b.
Proof. intros [E1 E2]. unfold get_tracker. by rewrite E1, E2. Qed.

Lemma same_trackers_wf b b' : same_trackers b b' → trackers_wf b → trackers_wf b'.
Proof. intros [E1 E2] [H1 H2 H3]. by constructor; rewrite ?E1, ?E2. Qed.

Lemma same_trackers_sound b b' : same_trackers b b' → trackers_sound b → trackers_sound b'.
Proof. intros Hs H tp t. rewrite (same_trackers_get _ _ _ Hs). apply H. Qed.

Lemma od_get_loc_inj b tp tp' l :
  trackers_wf b → od_get tp (trackers b) = Some l → od_get tp' (trackers b) = Some l → tp = tp'.
Proof.
  intros Hok H1%od_get_elem H2%od_get_elem.
  apply list_elem_of_lookup in H1 as [i Hi]. apply list_elem_of_lookup in H2 as [j Hj].
  pose proof (tw_locs _ Hok) as Hnd. unfold od_values in Hnd.
  assert (i = j) as ->.
  { apply (NoDup_lookup _ i j l Hnd); rewrite list_lookup_fmap; [rewrite Hi|rewrite Hj]; done. }
  congruence.
Qed.

Lemma get_update_tracker tp tp' f b :
  trackers_wf b →
  get_tracker tp' (update_tracker tp f b) =
    if decide (tp = tp') then f <$> get_tracker tp b else get_tracker tp' b.
Proof.
  intros Hok. unfold update_tracker, get_tracker.
  destruct (od_get tp (trackers b)) as [l|] eqn:Hl.
  - change (trackers (b <| wm ::= _ |>)) with (trackers b).
    change (tracker_store (wm (b <| wm ::= λ w, w <| tracker_store ::= alter f l |> |>)))
      with (alter f l (tracker_store (wm b))).
    case_decide as Heq.
    + subst. rewrite Hl. apply lookup_alter_eq.
    + destruct (od_get tp' (trackers b)) as [l'|] eqn:Hl'; [|done].
      rewrite lookup_alter_ne; [done|]. intros ->. destruct Heq. by eapply od_get_loc_inj.
  - case_decide as Heq; [|done]. subst. by rewrite Hl.
Qed.

Lemma update_tracker_frame tp f b :
  trackers (update_tracker tp f b) = trackers b ∧ cache (update_tracker tp f b) = cache b
  ∧ pending_dlq_events (update_tracker tp f b) = pending_dlq_events b
  ∧ dirty_commit_partitions (update_tracker tp f b) = dirty_commit_partitions b.
Proof. unfold update_tracker. by destruct (od_get tp (trackers b)). Qed.

Lemma update_tracker_wf tp f b : trackers_wf b → trackers_wf (update_tracker tp f b).
Proof.
  intros [H1 H2 H3]. pose proof (update_tracker_frame tp f b) as (E1 & _).
  constructor; rewrite ?E1; try done.
  intros tp' l Hl. unfold update_tracker. destruct (od_get tp (trackers b)) as [l'|]; [|by eapply H3].
  change (tracker_store (wm (b <| wm ::= λ w, w <| tracker_store ::= alter f l' |> |>)))
    with (alter f l' (tracker_store (wm b))).
  rewrite lookup_alter_is_Some. by eapply H3.
Qed.

Lemma update_tracker_sound tp f b :
  trackers_wf b → trackers_sound b → (∀ t, get_tracker tp b = Some t → tracker_inv (f t)) →
  trackers_sound (update_tracker tp f b).
Proof.
  intros Hwf Hs Hf tp' t. rewrite get_update_tracker by done. case_decide; [|apply Hs].
  destruct (get_tracker tp b) as [t0|] eqn:Ht; [|done]. intros [= <-]. auto.
Qed.

Lemma get_tracker_live b tp : trackers_wf b → is_Some (get_tracker tp b) ↔ is_Some (od_get tp (trackers b)).
Proof.
  intros Hok. unfold get_tracker. destruct (od_get tp (trackers b)) as [l|] eqn:Hl; [|done].
  split; [done|]. intros _. by eapply tw_live.
Qed.
End broker_inv.
