(* ===== verification/BrokerCompletion.v ===== *)
(** * Completion processing: nothing invented, nothing lost

    What [process_completed_events] does to the trackers and to the ledger of pending
    dead letters, for any list of events and any outcome of the publications. *)

From S2P Require Import Prelude Vendor Runtime Dto OffsetTracker PyText MetadataEncoder PoisonMessage WorkQueueTopology ExecutionEngine WorkManager Dlq CommitPlanner Broker BrokerInv.

Section completion.
Context {E : Type} `{EE : ExecutionEngine E} `{TL : TrackerLibs}.
Context (cfg : BrokerConfig).
Context (publish : nat → CompletionEvent → PyValue → PyValue → PublishOutcome).
Implicit Types (b : Broker E) (p : Processing E).

Definition event_key (e : CompletionEvent) : CacheKey := (ce_tp e, ce_offset e).

Definition completed_list (t : OffsetTracker) : list Z := ss_list (completed_offsets t).

(** A tracker that only gained completed offsets *)
Definition grown (t0 t : OffsetTracker) : Prop :=
  last_committed_offset t = last_committed_offset t0 ∧ last_fetched_offset t = last_fetched_offset t0
  ∧ epoch t = epoch t0 ∧ ∀ o, o ∈ completed_list t0 → o ∈ completed_list t.

Lemma grown_refl t : grown t t.
Proof. by repeat split. Qed.

Lemma grown_mark o t0 t : grown t0 t → grown t0 (mark_complete o t).
Proof.
  intros (E1 & E2 & E3 & Hsub). destruct (mark_complete_offsets o t) as (M1 & M2 & M3).
  repeat split; [congruence..|]. intros x Hx%Hsub. unfold completed_list in *.
  destruct (decide (last_committed_offset t < o)); [rewrite mark_complete_list by done; by right|].
  rewrite mark_complete_cases. case_bool; [lia|done].
Qed.

(** Marking settles the offset, adds nothing else, and changes the size exactly when it is new. *)
Lemma mark_complete_settles o t : settled (mark_complete o t) o.
Proof.
  unfold settled. destruct (mark_complete_offsets o t) as (-> & _ & _).
  destruct (decide (last_committed_offset t < o)); [right|left; lia].
  apply mark_complete_list; auto.
Qed.

Lemma mark_complete_size o t :
  let same := zlen (completed_list (mark_complete o t)) =? zlen (completed_list t) in
  same = true ∧ (∀ x, x ∈ completed_list (mark_complete o t) ↔ x ∈ completed_list t)
  ∨ same = false ∧ o ∉ completed_list t
    ∧ (∀ x, x ∈ completed_list (mark_complete o t) ↔ x = o ∨ x ∈ completed_list t).
Proof.
  cbv zeta. unfold completed_list. destruct (decide (last_committed_offset t < o)) as [Hlt|Hge].
  - pose proof (mark_complete_list o t Hlt) as Hin.
    assert (length (ss_list (completed_offsets (mark_complete o t))) =
            length (ss_list (ss_add o (completed_offsets t)))) as Hlen.
    { rewrite mark_complete_cases. case_bool; [|lia]. by case_decide. }
    unfold zlen. rewrite Hlen, ss_add_length. case_decide as Hd.
    + left. split; [by apply Z.eqb_eq|]. intros x. rewrite Hin. naive_solver.
    + right. split; [apply Z.eqb_neq; lia|]. done.
  - left. rewrite mark_complete_cases. case_bool; [lia|]. split; [by apply Z.eqb_eq|done].
Qed.

(** What holds after the events of [done], started in [b0] *)
Record processed (b0 : Broker E) (done : list (CompletionEvent * bool)) (p : Processing E) : Prop := mkProcessedInv {
  pi_wf : trackers_wf (pr_broker p);
  pi_dict : trackers (pr_broker p) = trackers b0;
  pi_grown tp t0 : get_tracker tp b0 = Some t0 → ∃ t, get_tracker tp (pr_broker p) = Some t ∧ grown t0 t;
  pi_back tp t : get_tracker tp (pr_broker p) = Some t → is_Some (get_tracker tp b0);
  pi_justified tp t0 t o :
    get_tracker tp b0 = Some t0 → get_tracker tp (pr_broker p) = Some t →
    o ∈ completed_list t → o ∉ completed_list t0 →
    ∃ e fl, (e, fl) ∈ done ∧ event_key e = (tp, o) ∧ ce_epoch e = epoch t0
      ∧ (needs_dlq cfg e = true → ∃ n k v, publish n e k v = Published);
  pi_kept e fl t :
    (e, fl) ∈ done → get_tracker (ce_tp e) (pr_broker p) = Some t → ce_epoch e = epoch t →
    settled t (ce_offset e) ∨ od_has (event_key e) (pending_dlq_events (pr_broker p)) = true;
  pi_resolved tp o t : (tp, o) ∈ pr_resolved p → get_tracker tp (pr_broker p) = Some t → settled t o;
  pi_pending k e : od_get k (pending_dlq_events (pr_broker p)) = Some e → k = event_key e;
  pi_nodup : NoDup (od_keys (pending_dlq_events (pr_broker p)));
  pi_keys : NoDup (od_keys (pr_completed p));
  pi_new tp t0 t :
    get_tracker tp b0 = Some t0 → get_tracker tp (pr_broker p) = Some t →
    NoDup (default [] (od_get tp (pr_completed p))) ∧
    ∀ o, o ∈ default [] (od_get tp (pr_completed p)) ↔ o ∈ completed_list t ∧ o ∉ completed_list t0;
  pi_nonempty tp l : od_get tp (pr_completed p) = Some l → l ≠ [] ∧ is_Some (get_tracker tp b0);
  pi_cache : cache_inv (bc_cache_max_bytes cfg) (cache (pr_broker p));
}.

(** The start of the call *)
Definition ledger_wf b : Prop :=
  NoDup (od_keys (pending_dlq_events b)) ∧ ∀ k e, od_get k (pending_dlq_events b) = Some e → k = event_key e.

Lemma processed_start b :
  trackers_wf b → ledger_wf b → cache_inv (bc_cache_max_bytes cfg) (cache b) →
  processed b [] (mkProcessing b [] [] 0).
Proof.
  intros Hwf [Hnd Hk] Hc. constructor; try done; cbn [pr_broker pr_resolved pr_completed].
  - intros tp t0 Ht. exists t0. split; [done|apply grown_refl].
  - intros tp t0 t o H1 H2. simplify_eq. done.
  - intros e fl t He. by apply elem_of_nil in He.
  - intros tp o t He. by apply elem_of_nil in He.
  - constructor.
  - intros tp t0 t H1 H2. simplify_eq. cbn. split; [constructor|]. intros o. rewrite elem_of_nil. naive_solver.
Qed.

(** More events may have been looked at, as long as each is settled or pending. *)
Lemma processed_more b0 done p e fl :
  processed b0 done p →
  (∀ t, get_tracker (ce_tp e) (pr_broker p) = Some t → ce_epoch e = epoch t →
    settled t (ce_offset e) ∨ od_has (event_key e) (pending_dlq_events (pr_broker p)) = true) →
  processed b0 (done ++ [(e, fl)]) p.
Proof.
  intros [H1 H2 H3 H4 H5 H6 H7 H8 H9 H10 H11 H12 H13] He. constructor; try done.
  - intros tp t0 t o Ha Hb Hc Hd. destruct (H5 tp t0 t o Ha Hb Hc Hd) as (e' & fl' & Hin & Hrest).
    exists e', fl'. split; [set_solver|done].
  - intros e' fl' t [Hin|Hin%list_elem_of_singleton]%elem_of_app; [by eapply H6|]. simplify_eq. apply He.
Qed.

Lemma processed_publish b0 done p n : processed b0 done p → processed b0 done (p <| pr_publishes := n |>).
Proof. by intros []. Qed.

(** Changing only the ledger *)
Lemma processed_ledger b0 done p b' :
  processed b0 done p → same_trackers (pr_broker p) b' → cache b' = cache (pr_broker p) →
  (∀ e fl t, (e, fl) ∈ done → get_tracker (ce_tp e) (pr_broker p) = Some t → ce_epoch e = epoch t →
     settled t (ce_offset e) ∨ od_has (event_key e) (pending_dlq_events b') = true) →
  NoDup (od_keys (pending_dlq_events b')) →
  (∀ k e, od_get k (pending_dlq_events b') = Some e → k = event_key e) →
  processed b0 done (p <| pr_broker := b' |>).
Proof.
  intros [H1 H2 H3 H4 H5 H6 H7 H8 H9 H10 H11 H12 H13] Hs Hc Hk Hnd Hkey.
  pose proof (λ tp, same_trackers_get _ _ tp Hs) as Hg.
  constructor; cbn [pr_broker pr_resolved pr_completed set_field Processing_settable].
  - by eapply same_trackers_wf.
  - destruct Hs as [-> _]. done.
  - intros tp t0. rewrite Hg. apply H3.
  - intros tp t. rewrite Hg. apply H4.
  - intros tp t0 t o. rewrite Hg. apply H5.
  - intros e fl t. rewrite Hg. apply Hk.
  - intros tp o t. rewrite Hg. apply H7.
  - done.
  - done.
  - done.
  - intros tp t0 t. rewrite Hg. apply H11.
  - done.
  - by rewrite Hc.
Qed.

(** ** Completing one event *)

Lemma complete_event_tracker e fp t p tp' :
  trackers_wf (pr_broker p) → get_tracker (ce_tp e) (pr_broker p) = Some t →
  get_tracker tp' (pr_broker (complete_event e fp t p)) =
    if decide (ce_tp e = tp') then Some (mark_complete (ce_offset e) t) else get_tracker tp' (pr_broker p).
Proof.
  intros Hwf Ht. unfold complete_event.
  set (b1 := update_tracker (ce_tp e) (mark_complete (ce_offset e)) (pr_broker p)).
  rewrite (same_trackers_get b1) by done. unfold b1. rewrite get_update_tracker by done.
  case_decide; [|done]. by rewrite Ht.
Qed.

Lemma complete_event_frame e fp t p :
  let b' := pr_broker (complete_event e fp t p) in
  trackers b' = trackers (pr_broker p)
  ∧ pending_dlq_events b' = od_pop (event_key e) (pending_dlq_events (pr_broker p))
  ∧ cache b' = (pop_cached_message (event_key e) (cache (pr_broker p))).2
  ∧ pr_resolved (complete_event e fp t p) = (if fp then [event_key e] else []) ++ pr_resolved p.
Proof.
  destruct (update_tracker_frame (ce_tp e) (mark_complete (ce_offset e)) (pr_broker p)) as (E1 & E2 & E3 & _).
  unfold complete_event. cbn [pr_broker set_field Processing_settable trackers pending_dlq_events cache
    Broker_settable pr_resolved]. rewrite E1, E2, E3. repeat split. by destruct fp.
Qed.

(** The per-partition lists of new offsets *)
Lemma complete_event_new e fp t p tp' :
  default [] (od_get tp' (pr_completed (complete_event e fp t p))) =
    default [] (od_get tp' (pr_completed p)) ++
    (if decide (ce_tp e = tp') then
       if zlen (completed_list (mark_complete (ce_offset e) t)) =? zlen (completed_list t)
       then [] else [ce_offset e]
     else []).
Proof.
  unfold complete_event, completed_list. cbn [pr_completed set_field Processing_settable].
  destruct (_ =? _); [by case_decide; rewrite app_nil_r|].
  rewrite od_get_set. case_decide; [by subst|by rewrite app_nil_r].
Qed.

Lemma processed_complete b0 done p e fp t :
  processed b0 done p → get_tracker (ce_tp e) (pr_broker p) = Some t → ce_epoch e = epoch t →
  (needs_dlq cfg e = true → ∃ n k v, publish n e k v = Published) →
  processed b0 (done ++ [(e, fp)]) (complete_event e fp t p).
Proof.
  intros Hp Ht Hep Hpub. pose proof (pi_wf _ _ _ Hp) as Hwf.
  pose proof (λ tp', complete_event_tracker e fp t p tp' Hwf Ht) as Hg.
  destruct (complete_event_frame e fp t p) as (Et & El & Ec & Er).
  destruct (mark_complete_offsets (ce_offset e) t) as (M1 & M2 & M3).
  assert (∀ x, settled t x → settled (mark_complete (ce_offset e) t) x) as Hmono.
  { intros x [?|Hx]; [left; lia|]. right. by apply (grown_mark (ce_offset e) t t (grown_refl t)). }
  destruct Hp as [H1 H2 H3 H4 H5 H6 H7 H8 H9 H10 H11 H12 H13].
  constructor.
  - apply (same_trackers_wf (update_tracker (ce_tp e) (mark_complete (ce_offset e)) (pr_broker p))); [done|].
    by apply update_tracker_wf.
  - congruence.
  - intros tp t0 H0. destruct (H3 tp t0 H0) as (t1 & Ht1 & Hgr). rewrite Hg. case_decide; [|eauto].
    subst. exists (mark_complete (ce_offset e) t). split; [done|]. simplify_eq. by apply grown_mark.
  - intros tp t1. rewrite Hg. case_decide; [subst|apply H4]. intros _. by eapply H4.
  - intros tp t0 t1 o H0 Ht1 Ho Hno. rewrite Hg in Ht1.
    assert (∀ t2, get_tracker tp (pr_broker p) = Some t2 → o ∈ completed_list t2 →
      ∃ e' fl, (e', fl) ∈ done ++ [(e, fp)] ∧ event_key e' = (tp, o) ∧ ce_epoch e' = epoch t0
        ∧ (needs_dlq cfg e' = true → ∃ n k v, publish n e' k v = Published)) as Hold.
    { intros t2 Ht2 Ho2. destruct (H5 tp t0 t2 o H0 Ht2 Ho2 Hno) as (e' & fl & Hin & Hrest).
      exists e', fl. split; [|done]. apply elem_of_app. by left. }
    case_decide as Hd; [|by eapply Hold]. subst tp. injection Ht1 as <-.
    destruct (mark_complete_size (ce_offset e) t) as [[_ Hx]|(_ & _ & Hx)]; rewrite Hx in Ho.
    + by eapply Hold.
    + destruct Ho as [->|Ho]; [|by eapply Hold]. exists e, fp. split; [apply elem_of_app; right; by left|].
      split; [done|]. split; [|done]. destruct (H3 _ _ H0) as (t2 & Ht2 & (_ & _ & Ee & _)). congruence.
  - intros e' fl t1 Hin. rewrite Hg, El, od_has_pop.
    destruct (decide (event_key e = event_key e')) as [Heq|Hne].
    { injection Heq as Ht' Ho'. rewrite decide_True by done. intros [= <-] _. left. rewrite <-Ho'.
      apply mark_complete_settles. }
    rewrite bool_decide_false by done. cbn [negb andb].
    apply elem_of_app in Hin as [Hin|Hin%list_elem_of_singleton]; [|by simplify_eq].
    case_decide as Hd; [|by eapply H6]. intros [= <-] He'. rewrite M3 in He'.
    destruct (H6 e' fl t Hin) as [?|?]; [congruence|done|left; auto|by right].
  - intros tp o t1. rewrite Er, Hg. intros Hin.
    destruct (decide (ce_tp e = tp)) as [Hd|Hd].
    + intros [= <-]. apply elem_of_app in Hin as [Hin|Hin].
      * destruct fp; [|by apply elem_of_nil in Hin]. apply list_elem_of_singleton in Hin.
        injection Hin as _ ->. apply mark_complete_settles.
      * apply Hmono. eapply H7; [done|]. congruence.
    + apply elem_of_app in Hin as [Hin|Hin]; [|by eapply H7].
      destruct fp; [|by apply elem_of_nil in Hin]. apply list_elem_of_singleton in Hin.
      injection Hin as Hin _. congruence.
  - intros k e'. rewrite El, od_get_pop. case_decide; [done|]. apply H8.
  - rewrite El. by apply NoDup_od_pop.
  - unfold complete_event. cbn [pr_completed set_field Processing_settable].
    destruct (_ =? _); [done|]. by apply NoDup_od_set.
  - intros tp t0 t1 H0. rewrite Hg, complete_event_new. case_decide as Hd; [|rewrite app_nil_r; by apply H11].
    subst tp. intros [= <-]. destruct (H11 _ _ _ H0 Ht) as [Hnd Hin].
    destruct (mark_complete_size (ce_offset e) t) as [[-> Hx]|(-> & Hno & Hx)].
    + rewrite app_nil_r. split; [done|]. intros o. by rewrite Hin, Hx.
    + destruct (H3 _ _ H0) as (t2 & Ht2 & (_ & _ & _ & Hsub)). simplify_eq.
      split.
      * apply NoDup_app. split; [done|]. split; [|apply NoDup_singleton].
        intros x Hx1%Hin ->%list_elem_of_singleton. naive_solver.
      * intros o. rewrite elem_of_app, list_elem_of_singleton, Hin, Hx. naive_solver.
  - intros tp l. unfold complete_event. cbn [pr_completed set_field Processing_settable].
    destruct (_ =? _); [apply H12|]. rewrite od_get_set. case_decide as Hd; [|apply H12].
    intros [= <-]. subst tp. split; [by destruct (default [] _)|]. by eapply H4.
  - rewrite Ec. by apply pop_cached_message_spec.
Qed.

(** ** One event, all events *)

Definition either (r : Processing E + Processing E) : Processing E := match r with inl p | inr p => p end.

(** Events of the ledger come first, each with its own key. *)
Definition fresh_key (done : list (CompletionEvent * bool)) (e : CompletionEvent) : Prop :=
  ∀ e' fl, (e', fl) ∈ done → event_key e' ≠ event_key e.

Lemma processed_discard b0 done p e fp :
  processed b0 done p → (fp = true → fresh_key done e) →
  (∀ t, get_tracker (ce_tp e) (pr_broker p) = Some t → ce_epoch e ≠ epoch t) →
  processed b0 (done ++ [(e, fp)])
    (if fp then p <| pr_broker := (pr_broker p) <| pending_dlq_events ::= od_pop (event_key e) |> |> else p).
Proof.
  intros Hp Hfresh Hno. destruct fp.
  - apply processed_more; [|intros t Ht He; by destruct (Hno t)]. pose proof Hp as [H1 H2 H3 H4 H5 H6 H7 H8 H9 _ _ _ _].
    apply processed_ledger; try done.
    + intros e' fl t Hin Ht Hep. cbn [pending_dlq_events set_field Broker_settable]. rewrite od_has_pop.
      rewrite bool_decide_false by (intros Heq; by eapply Hfresh). cbn [negb andb]. by eapply H6.
    + by apply NoDup_od_pop.
    + intros k e'. cbn [pending_dlq_events set_field Broker_settable]. rewrite od_get_pop.
      case_decide; [done|apply H8].
  - apply processed_more; [done|]. intros t Ht He. by destruct (Hno t).
Qed.

Lemma processed_retain b0 done p e fp n :
  processed b0 done p →
  processed b0 (done ++ [(e, fp)])
    (p <| pr_publishes := n |>
       <| pr_broker := (pr_broker p) <| dlq_failures ::= λ l, l ++ [ce_tp e] |>
                                   <| pending_dlq_events ::= od_set (event_key e) e |> |>).
Proof.
  intros Hp. pose proof Hp as [H1 H2 H3 H4 H5 H6 H7 H8 H9 _ _ _ _].
  apply processed_more.
  - apply (processed_ledger _ _ (p <| pr_publishes := n |>)); try done.
    + by apply processed_publish.
    + intros e' fl t Hin Ht Hep. cbn [pending_dlq_events set_field Broker_settable]. rewrite od_has_set.
      destruct (H6 e' fl t Hin Ht Hep) as [?|Hh]; [by left|]. right.
      cbn [pr_broker pending_dlq_events dlq_failures set_field Processing_settable Broker_settable] in *.
      rewrite Hh. apply orb_true_r.
    + by apply NoDup_od_set.
    + intros k e'. cbn [pending_dlq_events set_field Broker_settable]. rewrite od_get_set.
      case_decide; [by intros [= <-]|apply H8].
  - intros t _ _. right. cbn [pr_broker pending_dlq_events set_field Processing_settable Broker_settable].
    rewrite od_has_set, bool_decide_true by done. done.
Qed.

Lemma process_event_processed b0 done p e fp :
  processed b0 done p → (fp = true → fresh_key done e) →
  match process_event cfg publish fp e p with
  | inr p' => processed b0 (done ++ [(e, fp)]) p'
  | inl p' => processed b0 done p'
  end.
Proof.
  intros Hp Hfresh. unfold process_event. fold (event_key e).
  destruct (negb fp && _) eqn:Hdup.
  { apply processed_more; [done|]. intros t Ht _.
    apply andb_true_iff in Hdup as [_ [Hd|Hd%bool_decide_eq_true]%orb_true_iff]; [by right|].
    left. by apply (pi_resolved _ _ _ Hp (ce_tp e)). }
  destruct (get_tracker (ce_tp e) (pr_broker p)) as [t|] eqn:Ht.
  2: { apply processed_discard; [done..|]. intros t Ht'. congruence. }
  unfold get_current_epoch. destruct (Z.eqb_spec (ce_epoch e) (epoch t)) as [Hep|Hep]; cbn [negb].
  2: { apply processed_discard; [done..|]. intros t' Ht'. congruence. }
  destruct (needs_dlq cfg e) eqn:Hn; [|apply processed_complete; try done; congruence].
  destruct (default _ _) as [k v]. destruct (publish (pr_publishes p) e k v) eqn:Hpub.
  - apply processed_complete; try done; [by apply processed_publish|eauto].
  - by apply (processed_retain b0 done p e fp (S (pr_publishes p))).
  - by apply processed_publish.
Qed.

Lemma process_events_processed b0 events done p :
  processed b0 done p →
  (∀ l1 e l2, events = l1 ++ (e, true) :: l2 → fresh_key (done ++ l1) e) →
  match process_events cfg publish events p with
  | inr p' => processed b0 (done ++ events) p'
  | inl p' => ∃ seen, seen `prefix_of` events ∧ processed b0 (done ++ seen) p'
  end.
Proof.
  revert done p. induction events as [|[e fp] rest IH]; intros done p Hp Hf; cbn [process_events].
  { by rewrite app_nil_r. }
  pose proof (process_event_processed b0 done p e fp Hp) as Hstep.
  assert (fp = true → fresh_key done e) as Hfr.
  { intros ->. specialize (Hf [] e rest eq_refl). by rewrite app_nil_r in Hf. }
  specialize (Hstep Hfr). destruct (process_event cfg publish fp e p) as [p1|p1].
  { exists []. split; [apply prefix_nil|]. by rewrite app_nil_r. }
  specialize (IH (done ++ [(e, fp)]) p1 Hstep).
  assert (∀ l1 e' l2, rest = l1 ++ (e', true) :: l2 → fresh_key ((done ++ [(e, fp)]) ++ l1) e') as Hf'.
  { intros l1 e' l2 ->. rewrite <-app_assoc. by apply (Hf ((e, fp) :: l1) e' l2). }
  specialize (IH Hf'). destruct (process_events cfg publish rest p1) as [p2|p2].
  - destruct IH as (seen & Hpre & Hs). exists ((e, fp) :: seen). split; [by apply prefix_cons|].
    by rewrite <-app_assoc in Hs.
  - by rewrite <-app_assoc in IH.
Qed.

(** A call raises only when a publication raises. *)
Lemma process_event_returns fp e p :
  (∀ n k v, publish n e k v ≠ PublishRaises) → process_event cfg publish fp e p = inr (either (process_event cfg publish fp e p)).
Proof.
  intros Hp. unfold process_event. destruct (negb fp && _); [done|].
  destruct (get_tracker _ _) as [t|]; [|done]. destruct (negb _); [done|]. destruct (needs_dlq cfg e); [|done].
  destruct (default _ _) as [k v]. specialize (Hp (pr_publishes p) k v). by destruct (publish _ _ _ _).
Qed.

Lemma process_events_returns events p :
  (∀ n e k v, publish n e k v ≠ PublishRaises) →
  process_events cfg publish events p = inr (either (process_events cfg publish events p)).
Proof.
  intros Hp. revert p. induction events as [|[e fp] rest IH]; intros p; cbn [process_events]; [done|].
  rewrite (process_event_returns fp e p) by auto. apply IH.
Qed.

(** The ledger's events have distinct keys. *)
Lemma ledger_fresh b fresh l1 e l2 :
  ledger_wf b →
  ((λ e, (e, true)) <$> od_values (pending_dlq_events b)) ++ ((λ e, (e, false)) <$> fresh) = l1 ++ (e, true) :: l2 →
  fresh_key l1 e.
Proof.
  intros [Hnd Hk] Heq e' fl Hin Hkey.
  set (L := (λ e, (e, true)) <$> od_values (pending_dlq_events b)) in *.
  assert (NoDup (event_key <$> od_values (pending_dlq_events b))) as Hnd'.
  { replace (event_key <$> od_values (pending_dlq_events b)) with (od_keys (pending_dlq_events b)); [done|].
    unfold od_keys, od_values. rewrite <-list_fmap_compose. apply list_fmap_ext.
    intros i [k e0] Hi. cbn. apply Hk. apply od_elem_get; [done|]. by eapply list_elem_of_lookup_2. }
  assert (∃ l2', L = l1 ++ (e, true) :: l2') as [l2' HL].
  { apply app_eq_inv in Heq as [(k & HL & Hk2)|(k & HL & Hk2)].
    - destruct k as [|x k]; [|injection Hk2 as <- _; by exists k].
      exfalso. destruct fresh; [done|]. by simplify_eq/=.
    - exfalso. destruct fresh as [|f fresh]; [by destruct k|].
      assert ((e, true) ∈ (λ e, (e, false)) <$> f :: fresh) as Hbad by (rewrite Hk2; set_solver).
      apply list_elem_of_fmap in Hbad as (? & ? & _). done. }
  apply list_elem_of_split in Hin as (m1 & m2 & ->).
  assert (event_key <$> od_values (pending_dlq_events b) = (event_key ∘ fst) <$> L) as Hmap.
  { unfold L. rewrite <-list_fmap_compose. done. }
  rewrite Hmap, HL, !fmap_app, !fmap_cons, <-app_assoc in Hnd'. cbn in Hnd'.
  apply NoDup_app in Hnd' as (_ & _ & Hnd'). apply NoDup_cons in Hnd' as [Hn _].
  apply Hn. rewrite elem_of_app, elem_of_cons. right. by left.
Qed.

(** ** Properties *)

Definition completion_ready b : Prop :=
  trackers_wf b ∧ ledger_wf b ∧ cache_inv (bc_cache_max_bytes cfg) (cache b).

Lemma process_completed_events_processed b events :
  completion_ready b →
  match process_completed_events cfg publish events b with
  | inr p => processed b (((λ e, (e, true)) <$> od_values (pending_dlq_events b))
                          ++ ((λ e, (e, false)) <$> events)) p
  | inl p => ∃ seen, seen `prefix_of` (((λ e, (e, true)) <$> od_values (pending_dlq_events b))
                          ++ ((λ e, (e, false)) <$> events)) ∧ processed b seen p
  end.
Proof.
  intros (Hwf & Hl & Hc).
  apply (process_events_processed b _ [] _ (processed_start b Hwf Hl Hc)).
  intros l1 e l2 Heq. by eapply ledger_fresh.
Qed.

Lemma elem_of_both e fl (pending fresh : list CompletionEvent) :
  (e, fl) ∈ ((λ e, (e, true)) <$> pending) ++ ((λ e, (e, false)) <$> fresh) → e ∈ pending ∨ e ∈ fresh.
Proof.
  intros [(x & [= <- _] & ?)%list_elem_of_fmap|(x & [= <- _] & ?)%list_elem_of_fmap]%elem_of_app;
    [by left|by right].
Qed.

(** Nothing is completed without cause: after any call, even one that ends in an exception,
    every offset that became complete was reported by an event of this call or of the pending
    ledger, on that partition and in the tracker's epoch, and a terminal failure only counts
    once its publication to the dead-letter topic succeeded.  Committed and fetched marks and
    epochs do not move. *)
Theorem completed_offsets_justified b events tp t0 :
  completion_ready b → get_tracker tp b = Some t0 →
  ∃ t, get_tracker tp (pr_broker (either (process_completed_events cfg publish events b))) = Some t
    ∧ grown t0 t
    ∧ ∀ o, o ∈ completed_list t → o ∉ completed_list t0 →
      ∃ e, (e ∈ od_values (pending_dlq_events b) ∨ e ∈ events)
        ∧ ce_tp e = tp ∧ ce_offset e = o ∧ ce_epoch e = epoch t0
        ∧ (needs_dlq cfg e = true → ∃ n k v, publish n e k v = Published).
Proof.
  intros Hr Ht. pose proof (process_completed_events_processed b events Hr) as H.
  destruct (process_completed_events cfg publish events b) as [p|p]; cbn [either].
  - destruct H as (seen & Hpre & Hp). destruct (pi_grown _ _ _ Hp tp t0 Ht) as (t & Hg & Hgr).
    exists t. split; [done|]. split; [done|]. intros o Ho Hno.
    destruct (pi_justified _ _ _ Hp tp t0 t o Ht Hg Ho Hno) as (e & fl & Hin & [= <- <-] & Hrest).
    exists e. split; [|done]. apply (elem_of_both e fl). destruct Hpre as [k ->]. apply elem_of_app. by left.
  - destruct (pi_grown _ _ _ H tp t0 Ht) as (t & Hg & Hgr).
    exists t. split; [done|]. split; [done|]. intros o Ho Hno.
    destruct (pi_justified _ _ _ H tp t0 t o Ht Hg Ho Hno) as (e & fl & Hin & [= <- <-] & Hrest).
    exists e. split; [|done]. by apply (elem_of_both e fl).
Qed.

(** C10. No completion is lost: when the call returns, every event it was given and every event
    of the pending ledger that belongs to a tracked partition in its current epoch is either
    settled in the tracker or kept in the ledger for another publication, and the ledger and
    the cache stay well formed. *)
Theorem no_completion_lost b events p :
  completion_ready b → process_completed_events cfg publish events b = inr p →
  completion_ready (pr_broker p)
  ∧ ∀ e t0, (e ∈ od_values (pending_dlq_events b) ∨ e ∈ events) →
      get_tracker (ce_tp e) b = Some t0 → ce_epoch e = epoch t0 →
      ∃ t, get_tracker (ce_tp e) (pr_broker p) = Some t
        ∧ (settled t (ce_offset e) ∨ od_has (event_key e) (pending_dlq_events (pr_broker p)) = true).
Proof.
  intros Hr Hp. pose proof (process_completed_events_processed b events Hr) as H. rewrite Hp in H.
  split.
  { pose proof H as [H1 _ _ _ _ _ _ H8 H9 _ _ _ H13]. done. }
  intros e t0 He Ht Hep. destruct (pi_grown _ _ _ H _ _ Ht) as (t & Hg & (_ & _ & Ee & _)).
  exists t. split; [done|].
  assert (∃ fl, (e, fl) ∈ ((λ e, (e, true)) <$> od_values (pending_dlq_events b)) ++ ((λ e, (e, false)) <$> events))
    as [fl Hin].
  { destruct He as [He|He]; [exists true|exists false]; apply elem_of_app; [left|right];
      apply list_elem_of_fmap; by exists e. }
  apply (pi_kept _ _ _ H e fl t Hin Hg). congruence.
Qed.

(** The result of the call is exact: the offsets it reports for a partition are, without
    repetition, those that were not complete before and are now, the count it reports for the
    partition is by how much the completed set grew, and the total is their sum. *)
Theorem completion_counts_exact b events p :
  completion_ready b → process_completed_events cfg publish events b = inr p →
  let r := processing_result (pr_completed p) in
  processed_count r = od_sum id (completed_counts_by_partition r)
  ∧ ∀ tp t0, get_tracker tp b = Some t0 → ∃ t, get_tracker tp (pr_broker p) = Some t
    ∧ zlen (completed_list t)
        = zlen (completed_list t0) + default 0 (od_get tp (completed_counts_by_partition r))
    ∧ (∀ o, o ∈ default [] (od_get tp (completed_offsets_by_partition r))
              ↔ o ∈ completed_list t ∧ o ∉ completed_list t0)
    ∧ (tp ∈ completed_partitions r ↔ zlen (completed_list t) ≠ zlen (completed_list t0)).
Proof.
  intros Hr Hp r. pose proof (process_completed_events_processed b events Hr) as H. rewrite Hp in H.
  assert (∀ tp, od_get tp (od_map zlen (pr_completed p)) = zlen <$> od_get tp (pr_completed p)) as Hmap.
  { intros tp. unfold od_map. generalize (pr_completed p) as d.
    induction d as [|[k l] d IH]; [done|]. cbn [fmap list_fmap od_get fst snd]. by case_decide. }
  split.
  { unfold r, processing_result. cbn [processed_count completed_counts_by_partition].
    generalize (pr_completed p) as d. induction d as [|[k l] d IH]; [done|].
    unfold od_sum, od_map in *. cbn [fold_right fmap list_fmap fst snd]. rewrite IH. done. }
  intros tp t0 Ht. destruct (pi_grown _ _ _ H _ _ Ht) as (t & Hg & (_ & _ & _ & Hsub)).
  destruct (pi_new _ _ _ H tp t0 t Ht Hg) as [Hnd Hin].
  set (new := default [] (od_get tp (pr_completed p))) in *.
  assert (zlen (completed_list t) = zlen (completed_list t0) + zlen new) as Hlen.
  { rewrite <-zlen_app. unfold zlen. f_equal. apply Permutation_length, NoDup_Permutation.
    - apply ss_list_NoDup.
    - apply NoDup_app. split; [apply ss_list_NoDup|]. split; [|done]. intros x Hx Hx'%Hin. naive_solver.
    - intros x. rewrite elem_of_app, Hin. destruct (decide (x ∈ completed_list t0)); naive_solver. }
  exists t. split; [done|]. cbn [r processing_result completed_counts_by_partition
    completed_offsets_by_partition completed_partitions]. rewrite Hmap.
  assert (default 0 (zlen <$> od_get tp (pr_completed p)) = zlen new) as Hd.
  { unfold new. by destruct (od_get tp (pr_completed p)). }
  split; [by rewrite Hd|]. split; [done|].
  rewrite elem_of_list_to_set, elem_of_od_keys, Hlen. split.
  - intros [l Hl]. destruct (pi_nonempty _ _ _ H tp l Hl) as [Hl0 _].
    assert (new = l) as -> by (unfold new; by rewrite Hl).
    destruct l as [|x l]; [done|]. rewrite zlen_cons. pose proof (zlen_nonneg l). lia.
  - intros Hz. destruct (od_get tp (pr_completed p)) eqn:Hn; [done|].
    assert (zlen new = 0) by (unfold new; done). lia.
Qed.

(** The epoch does not tell one assignment of a partition from the next: every assignment
    starts in epoch 1, so a success reported for work of an earlier assignment passes the stale
    check and settles its offset in the tracker of the later one. *)
Theorem epoch_does_not_fence_reassignment oi strategy grace kp1 kp2 c1 c2 told tnew b e p :
  assigned_tracker oi strategy grace kp1 c1 = Some told →
  assigned_tracker oi strategy grace kp2 c2 = Some tnew →
  completion_ready b → pending_dlq_events b = [] → get_tracker (ce_tp e) b = Some tnew →
  ce_epoch e = epoch told → ce_status e = SUCCESS →
  process_completed_events cfg publish [e] b = inr p →
  ∃ t, get_tracker (ce_tp e) (pr_broker p) = Some t ∧ settled t (ce_offset e).
Proof.
  intros H1%assigned_tracker_epoch H2%assigned_tracker_epoch (Hwf & _ & _) Hnil Ht He Hs.
  unfold process_completed_events. rewrite Hnil. cbn [od_values fmap list_fmap app process_events].
  unfold process_event. cbn [pr_broker]. rewrite Hnil, Ht. cbn [negb andb orb od_has od_get pr_resolved].
  rewrite bool_decide_false by apply not_elem_of_nil.
  unfold get_current_epoch. rewrite He, H1, H2. cbn [Z.eqb Pos.eqb negb].
  unfold needs_dlq. rewrite Hs. cbn [andb]. rewrite bool_decide_false by done. cbn [andb].
  intros [= <-]. exists (mark_complete (ce_offset e) tnew). split; [|apply mark_complete_settles].
  rewrite complete_event_tracker by done. by rewrite decide_True.
Qed.
End completion.

(** ** A concrete broker *)

#[local] Instance completion_demo_libs : TrackerLibs := vendor_lists.

Definition broker_demo_tp : TopicPartition := mkTp "orders" 0.

Definition broker_demo_config : BrokerConfig :=
  mkBrokerConfig (demo_dlq_config 3) 1000 "metadata_snapshot" 4000 1000 0 100 (1 # 10) KEY_HASH.

(** An idle work manager over the tracker store [store] *)
Definition broker_demo_manager (store : gmap loc OffsetTracker) : WorkManager DemoEngine :=
  mkWM (mkDemoEngine 10 [] [] false) store [(broker_demo_tp, 0%nat)] new_topology [] [] [] [] 0 None [] 10 0
    false None KEY_HASH 500 ∅ ∅ ∅ ∅ ∅ [] 100 0 {[broker_demo_tp]} None 4 0 0.

Definition broker_demo_tracker : OffsetTracker :=
  increment_epoch (update_last_fetched_offset 5 (new_tracker broker_demo_tp 0 500 None)).

Definition broker_with (t : OffsetTracker) : Broker DemoEngine :=
  mkBroker (broker_demo_manager {[0%nat := t]}) [(broker_demo_tp, 0%nat)] empty_cache [] ∅ [] [] 0 0
    (mkCadence 0 0 0 0 [] [] [] []) [] [] [].

Lemma broker_with_wf t : trackers_wf (broker_with t).
Proof.
  constructor; [apply NoDup_singleton..|]. intros tp l Hl. cbn in Hl. case_decide; [|done]. injection Hl as <-.
  cbn. rewrite lookup_singleton_eq. done.
Qed.

Lemma broker_with_ready t : completion_ready broker_demo_config (broker_with t).
Proof.
  split; [apply broker_with_wf|]. split.
  - split; [apply NoDup_nil; exact I|]. intros k e Hk. by cbn in Hk.
  - constructor; [apply NoDup_nil; exact I|done|]. cbn. lia.
Qed.

Lemma broker_with_tracker t : get_tracker broker_demo_tp (broker_with t) = Some t.
Proof. unfold get_tracker. cbn. apply lookup_singleton_eq. Qed.

(** Offset 0 succeeded; offset 1 failed for good and its publication fails. *)
Definition demo_event (o : Z) (s : CompletionStatus) : CompletionEvent :=
  mkCompletion "id" broker_demo_tp o 1 s None 3.
Definition demo_publish (n : nat) (e : CompletionEvent) (k v : PyValue) : PublishOutcome :=
  if ce_offset e =? 1 then NotPublished else Published.
Definition demo_events : list CompletionEvent := [demo_event 0 SUCCESS; demo_event 1 FAILURE].

Definition demo_processed : Processing DemoEngine :=
  either (process_completed_events broker_demo_config demo_publish demo_events (broker_with broker_demo_tracker)).

Example demo_processed_values :
  completed_list <$> get_tracker broker_demo_tp (pr_broker demo_processed) = Some [0]
  ∧ od_keys (pending_dlq_events (pr_broker demo_processed)) = [(broker_demo_tp, 1)].
Proof. by vm_compute. Qed.

Lemma demo_processed_inr :
  process_completed_events broker_demo_config demo_publish demo_events (broker_with broker_demo_tracker)
  = inr demo_processed.
Proof. apply process_events_returns. intros n e k v. unfold demo_publish. by destruct (_ =? _). Qed.

Lemma completed_offsets_justified_witness :
  ∃ t, get_tracker broker_demo_tp (pr_broker demo_processed) = Some t ∧ grown broker_demo_tracker t.
Proof.
  destruct (completed_offsets_justified broker_demo_config demo_publish (broker_with broker_demo_tracker)
    demo_events broker_demo_tp broker_demo_tracker (broker_with_ready _) (broker_with_tracker _))
    as (t & H1 & H2 & _).
  exists t. split; [exact H1|exact H2].
Defined.

Lemma no_completion_lost_witness :
  ∃ t, get_tracker broker_demo_tp (pr_broker demo_processed) = Some t
    ∧ (settled t 1 ∨ od_has (broker_demo_tp, 1) (pending_dlq_events (pr_broker demo_processed)) = true).
Proof.
  destruct (no_completion_lost broker_demo_config demo_publish (broker_with broker_demo_tracker)
    demo_events demo_processed (broker_with_ready _) demo_processed_inr) as [_ H].
  apply (H (demo_event 1 FAILURE) broker_demo_tracker); [right; right; left|apply broker_with_tracker|reflexivity].
Defined.

Lemma completion_counts_exact_witness :
  ∃ t, get_tracker broker_demo_tp (pr_broker demo_processed) = Some t
    ∧ zlen (completed_list t) = zlen (completed_list broker_demo_tracker) + 1.
Proof.
  destruct (completion_counts_exact broker_demo_config demo_publish (broker_with broker_demo_tracker)
    demo_events demo_processed (broker_with_ready _) demo_processed_inr) as [_ H].
  destruct (H broker_demo_tp broker_demo_tracker (broker_with_tracker _)) as (t & H1 & H2 & _).
  exists t. split; [exact H1|exact H2].
Defined.

Definition demo_assigned (c : Z) : option OffsetTracker :=
  assigned_tracker (-1001) "metadata_snapshot" 500 (mkKafkaTp "orders" 0 (Some c) None) None.

Lemma demo_assigned_marks : last_committed_offset <$> demo_assigned 0 = Some (-1)
  ∧ last_committed_offset <$> demo_assigned 5 = Some 4.
Proof. split; vm_compute; reflexivity. Qed.

(** Offset 7 was in flight when the partition was revoked; the next assignment starts at 5. *)
Lemma epoch_does_not_fence_reassignment_witness :
  ∃ told tnew p t, demo_assigned 0 = Some told ∧ demo_assigned 5 = Some tnew
    ∧ process_completed_events broker_demo_config demo_publish [demo_event 7 SUCCESS] (broker_with tnew) = inr p
    ∧ get_tracker broker_demo_tp (pr_broker p) = Some t ∧ settled t 7.
Proof.
  destruct demo_assigned_marks as [M0 M5].
  destruct (demo_assigned 0) as [told|] eqn:E0; [|discriminate M0].
  destruct (demo_assigned 5) as [tnew|] eqn:E5; [|discriminate M5].
  destruct (process_completed_events broker_demo_config demo_publish [demo_event 7 SUCCESS] (broker_with tnew))
    as [p|p] eqn:Ep.
  { exfalso. unfold process_completed_events in Ep. rewrite process_events_returns in Ep; [done|].
    intros n e k v. unfold demo_publish. by destruct (_ =? _). }
  destruct (epoch_does_not_fence_reassignment broker_demo_config demo_publish _ _ _ _ _ _ _ told tnew
    (broker_with tnew) (demo_event 7 SUCCESS) p E0 E5 (broker_with_ready _) eq_refl (broker_with_tracker _))
    as (t & H1 & H2); [|reflexivity|exact Ep|].
  { symmetry. apply (assigned_tracker_epoch _ _ _ _ _ _ E0). }
  exists told, tnew, p, t. split; [reflexivity|]. split; [reflexivity|]. split; [exact Ep|]. split; [exact H1|exact H2].
Defined.
