(* ===== verification/BrokerCommit.v ===== *)
(** * The commit cycle

    From the trackers to Kafka and back: which offsets [_commit_ready_offsets] sends, and
    what a successful and a failed commit leave behind. *)

From S2P Require Import Prelude Vendor Runtime Dto OffsetTracker PyText MetadataEncoder PoisonMessage WorkQueueTopology ExecutionEngine WorkManager Dlq CommitPlanner Broker BrokerInv BrokerCompletion.

Section commit.
Context {E : Type} `{EE : ExecutionEngine E} `{TL : TrackerLibs}.
Context (cfg : BrokerConfig).
Implicit Types b : Broker E.

(** Work that was handed to the engine and is not back *)
Definition dispatched (w : WorkManager E) (id : string) (item : WorkItem) : Prop :=
  is_Some (od_get id (dispatch_timestamps w)) ∧ od_get id (in_flight_work_items w) = Some item.

Lemma min_step_le acc y z : min_step acc y = Some z → z ≤ y ∧ (∀ x, acc = Some x → z ≤ x).
Proof. unfold min_step. destruct acc as [x|]; [case_bool|]; intros [= <-]; split; intros; simplify_eq; lia. Qed.

(** The fold of [get_min_in_flight_offset] is below every offset it passed. *)
Lemma min_fold_spec tp (items : odict string WorkItem) ids acc :
  let r := fold_left (λ acc id, match od_get id items with
             | None => acc
             | Some item => if decide (wi_tp item = tp) then min_step acc (wi_offset item) else acc
             end) ids acc in
  (∀ x, acc = Some x → ∃ z, r = Some z ∧ z ≤ x)
  ∧ (∀ id item, id ∈ ids → od_get id items = Some item → wi_tp item = tp →
       ∃ z, r = Some z ∧ z ≤ wi_offset item).
Proof.
  revert acc. induction ids as [|id ids IH]; intros acc; cbn [fold_left].
  { split; [intros x ->; exists x; split; [done|lia]|]. intros id item Hin. by apply elem_of_nil in Hin. }
  set (acc' := match od_get id items with Some _ => _ | None => _ end).
  destruct (IH acc') as [IH1 IH2].
  assert (∀ x, acc = Some x → ∃ z, acc' = Some z ∧ z ≤ x) as Hstep.
  { intros x ->. unfold acc'. destruct (od_get id items) as [i|]; [|exists x; split; [done|lia]].
    case_decide; [|exists x; split; [done|lia]]. destruct (min_step (Some x) (wi_offset i)) as [z|] eqn:Hm.
    - apply min_step_le in Hm as [_ Hm]. exists z. split; [done|]. by apply Hm.
    - cbn in Hm. by destruct (_ <? _). }
  split.
  - intros x Hx. destruct (Hstep x Hx) as (y & Hy & ?). destruct (IH1 y Hy) as (z & ? & ?).
    exists z. split; [done|lia].
  - intros id' item [->|Hin]%elem_of_cons Hi Htp; [|by eapply IH2].
    assert (∃ y, acc' = Some y ∧ y ≤ wi_offset item) as (y & Hy & ?).
    { unfold acc'. rewrite Hi, decide_True by done.
      destruct (min_step acc (wi_offset item)) as [y|] eqn:Hm;
        [apply min_step_le in Hm as [? _]; by exists y|].
      unfold min_step in Hm. destruct acc; [by destruct (_ <? _)|done]. }
    destruct (IH1 y Hy) as (z & ? & ?). exists z. split; [done|lia].
Qed.

Lemma min_in_flight_spec tp w id item :
  dispatched w id item → wi_tp item = tp → ∃ z, get_min_in_flight_offset tp w = Some z ∧ z ≤ wi_offset item.
Proof.
  intros [Hid Hi] Htp. unfold get_min_in_flight_offset.
  destruct (min_fold_spec tp (in_flight_work_items w) (od_keys (dispatch_timestamps w)) None) as [_ H].
  eapply H; [by apply elem_of_od_keys|done..].
Qed.

(** ** Candidates *)

(** What may be committed for one partition *)
Definition safe_commit b (tp : TopicPartition) (t : OffsetTracker) (hwm : Z) : Prop :=
  last_committed_offset t < hwm ≤ get_committable_high_water_mark None t
  ∧ (∀ o, o ≤ hwm → settled t o)
  ∧ ∀ id item, dispatched (wm b) id item → wi_tp item = tp → hwm < wi_offset item.

Lemma build_commit_candidates_spec b tp hwm :
  trackers_wf b → trackers_sound b →
  (tp, hwm) ∈ build_commit_candidates b → ∃ t, get_tracker tp b = Some t ∧ safe_commit b tp t hwm.
Proof.
  intros Hwf Hs Hin. unfold build_commit_candidates in Hin.
  apply list_elem_of_omap in Hin as ([tp' l] & Hin & Heq). cbn [fst snd] in Heq.
  destruct (tracker_store (wm b) !! l) as [t|] eqn:Ht; [|done].
  destruct (Z.ltb_spec (last_committed_offset t)
    (get_committable_high_water_mark (get_min_in_flight_offset tp' (wm b)) t)) as [Hlt|]; [|done].
  injection Heq as -> <-.
  assert (get_tracker tp b = Some t) as Hg.
  { unfold get_tracker. rewrite (od_elem_get _ tp l); [done|apply tw_keys, Hwf|done]. }
  destruct (committable_spec t (Hs _ _ Hg)) as (_ & Hset & _).
  exists t. split; [done|].
  assert (get_committable_high_water_mark (get_min_in_flight_offset tp (wm b)) t
          ≤ get_committable_high_water_mark None t) as Hle.
  { unfold get_committable_high_water_mark. destruct (get_min_in_flight_offset tp (wm b)); [|lia]. case_bool; lia. }
  split; [lia|]. split; [intros o Ho; apply Hset; lia|].
  intros id item Hd Htp. destruct (min_in_flight_spec tp (wm b) id item Hd Htp) as (z & Hz & Hzle).
  rewrite Hz in *. unfold get_committable_high_water_mark in *. case_bool; lia.
Qed.

Lemma build_commit_candidates_keys b : trackers_wf b → NoDup (od_keys (build_commit_candidates b)).
Proof.
  intros Hwf. pose proof (tw_keys _ Hwf) as Hnd. unfold build_commit_candidates, od_keys in *.
  revert Hnd. generalize (trackers b) as d. induction d as [|[tp l] d IH]; [done|].
  rewrite fmap_cons, NoDup_cons. intros [Hn Hd]. cbn [omap list_omap fst snd].
  set (x := match tracker_store (wm b) !! l with Some _ => _ | None => _ end).
  destruct x as [[tp' h]|] eqn:Hx; [|by apply IH].
  assert (tp' = tp) as ->.
  { unfold x in Hx. destruct (tracker_store (wm b) !! l); [|done]. destruct (_ <? _); [|done]. by injection Hx. }
  rewrite fmap_cons, NoDup_cons. split; [|by apply IH].
  intros (y & Hy & Hin)%list_elem_of_fmap. apply Hn. destruct y as [tp2 h2]. cbn in Hy. subst tp2.
  apply list_elem_of_omap in Hin as ([tp3 l3] & Hin & Heq). cbn in Heq.
  destruct (tracker_store (wm b) !! l3); [|done]. destruct (_ <? _); [|done]. injection Heq as -> _.
  apply list_elem_of_fmap. by exists (tp, l3).
Qed.

(** The commits of a cycle: all candidates when forced, the dirty ones otherwise *)
Definition cycle_commits (force : bool) b : list (TopicPartition * Z) :=
  if force then build_commit_candidates b
  else filter (λ c, c.1 ∈ dirty_commit_partitions b) (build_commit_candidates b).

Lemma cycle_commits_spec force b tp hwm :
  trackers_wf b → trackers_sound b → (tp, hwm) ∈ cycle_commits force b →
  ∃ t, get_tracker tp b = Some t ∧ safe_commit b tp t hwm.
Proof.
  intros Hwf Hs Hin. apply build_commit_candidates_spec; [done..|].
  unfold cycle_commits in Hin. destruct force; [done|]. by apply list_elem_of_filter in Hin as [_ ?].
Qed.

Lemma cycle_commits_keys force b : trackers_wf b → NoDup (od_keys (cycle_commits force b)).
Proof.
  intros Hwf. pose proof (build_commit_candidates_keys b Hwf) as H. unfold cycle_commits.
  destruct force; [done|]. unfold od_keys in *. eapply sublist_NoDup; [done|].
  apply fmap_sublist, sublist_filter.
Qed.

Lemma cycle_commits_tracked force b :
  trackers_wf b → trackers_sound b →
  filter (λ c, is_Some (get_tracker c.1 b)) (cycle_commits force b) = cycle_commits force b.
Proof.
  intros Hwf Hs. apply list_filter_all. intros [tp h] Hin. cbn.
  destruct (cycle_commits_spec force b tp h Hwf Hs Hin) as (t & -> & _). done.
Qed.

(** ** Settling the trackers *)

Lemma commit_trackers_frame commits b :
  trackers (commit_trackers commits b) = trackers b
  ∧ dirty_commit_partitions (commit_trackers commits b) = dirty_commit_partitions b.
Proof.
  unfold commit_trackers. revert b. induction commits as [|c commits IH]; intros b; [done|]. cbn [fold_left].
  destruct (update_tracker_frame c.1 (commit_through c.2) b) as (E1 & _ & _ & E4).
  destruct (IH (update_tracker c.1 (commit_through c.2) b)) as [-> ->]. done.
Qed.

Lemma commit_trackers_wf commits b : trackers_wf b → trackers_wf (commit_trackers commits b).
Proof.
  unfold commit_trackers. revert b. induction commits as [|c commits IH]; intros b Hb; [done|].
  apply IH. by apply update_tracker_wf.
Qed.

Lemma commit_trackers_get commits b tp :
  trackers_wf b → NoDup (od_keys commits) →
  get_tracker tp (commit_trackers commits b) =
    match od_get tp commits with
    | Some h => commit_through h <$> get_tracker tp b
    | None => get_tracker tp b
    end.
Proof.
  unfold commit_trackers. revert b. induction commits as [|[tp' h] commits IH]; intros b Hb Hnd; [done|].
  unfold od_keys in Hnd. rewrite fmap_cons, NoDup_cons in Hnd. destruct Hnd as [Hn Hnd].
  cbn [fold_left fst snd]. rewrite IH; [|by apply update_tracker_wf|done].
  rewrite get_update_tracker by done. cbn [od_get]. apply od_get_None in Hn. cbn [fst] in Hn.
  destruct (decide (tp' = tp)) as [->|Hne].
  - rewrite Hn, decide_True by done. done.
  - rewrite decide_False by congruence. done.
Qed.

(** ** Clearing the ledgers *)

Lemma prune_timestamps_frame tp t safe b :
  same_trackers b (prune_timestamps tp t safe b)
  ∧ dirty_commit_partitions (prune_timestamps tp t safe b) = dirty_commit_partitions b
  ∧ unsettled_completions (prune_timestamps tp t safe b) = unsettled_completions b.
Proof.
  unfold prune_timestamps. destruct (od_get tp (unsettled_timestamps b)) as [[|]|]; [done| |done].
  by case_decide.
Qed.

Lemma clear_partition_spec b tp h t :
  get_tracker tp b = Some t →
  same_trackers b (clear_committed_partition b (tp, h))
  ∧ ∀ tp', tp' ∈ dirty_commit_partitions (clear_committed_partition b (tp, h)) ↔
      if decide (tp' = tp) then ss_list (completed_offsets t) ≠ []
      else tp' ∈ dirty_commit_partitions b.
Proof.
  intros Ht. unfold clear_committed_partition. rewrite Ht.
  destruct (prune_timestamps_frame tp (Some t) h b) as ([E1 E2] & E3 & _).
  pose proof (zlen_nonneg (ss_list (completed_offsets t))).
  destruct (Z.ltb_spec 0 (zlen (ss_list (completed_offsets t)))) as [Hlt|Hle].
  - split; [by split|]. intros tp'. cbn [dirty_commit_partitions set_field Broker_settable].
    rewrite elem_of_union, elem_of_singleton, E3. case_decide as Hd; [|naive_solver].
    split; [|auto]. intros _ Hnil. rewrite Hnil in Hlt. unfold zlen in Hlt. cbn in Hlt. lia.
  - assert (ss_list (completed_offsets t) = []) as Hnil by (apply zlen_nil_iff; lia).
    split; [by split|]. intros tp'. cbn [dirty_commit_partitions set_field Broker_settable].
    rewrite elem_of_difference, elem_of_singleton, E3. case_decide; [|naive_solver]. naive_solver.
Qed.

Lemma clear_partitions_spec commits b :
  (∀ c, c ∈ commits → is_Some (get_tracker c.1 b)) →
  let b' := fold_left clear_committed_partition commits b in
  same_trackers b b'
  ∧ ∀ tp t, get_tracker tp b = Some t →
      tp ∈ dirty_commit_partitions b' ↔
        if decide (tp ∈ od_keys commits) then ss_list (completed_offsets t) ≠ []
        else tp ∈ dirty_commit_partitions b.
Proof.
  revert b. induction commits as [|[tp h] commits IH]; intros b Hc; cbn [fold_left].
  { split; [done|]. intros tp t _. rewrite decide_False; [done|]. by apply not_elem_of_nil. }
  destruct (Hc (tp, h)) as [t Ht]; [by left|]. cbn [fst] in Ht.
  destruct (clear_partition_spec b tp h t Ht) as [Hs1 Hd1].
  pose proof (λ x, same_trackers_get _ _ x Hs1) as Hg.
  destruct (IH (clear_committed_partition b (tp, h))) as [Hs2 Hd2].
  { intros c Hin. rewrite Hg. apply Hc. by right. }
  split; [destruct Hs1, Hs2; split; congruence|].
  intros tp' t' Ht'. rewrite (Hd2 tp' t') by (by rewrite Hg). unfold od_keys. rewrite fmap_cons.
  destruct (decide (tp' ∈ commits.*1)) as [Hin|Hnin].
  - rewrite decide_True by (by right). done.
  - rewrite Hd1. destruct (decide (tp' = tp)) as [->|Hne].
    + rewrite (decide_True (P := tp ∈ _)) by left. simplify_eq. done.
    + rewrite decide_False; [done|]. rewrite elem_of_cons. naive_solver.
Qed.

Lemma clear_committed_spec commits b :
  (∀ c, c ∈ commits → is_Some (get_tracker c.1 b)) →
  same_trackers b (clear_committed_dirty_partitions commits b)
  ∧ ∀ tp t, get_tracker tp b = Some t →
      tp ∈ dirty_commit_partitions (clear_committed_dirty_partitions commits b) ↔
        if decide (tp ∈ od_keys commits) then ss_list (completed_offsets t) ≠ []
        else tp ∈ dirty_commit_partitions b.
Proof.
  intros Hc. destruct (clear_partitions_spec commits b Hc) as [Hs Hd].
  unfold clear_committed_dirty_partitions. by case_decide.
Qed.

(** ** The cycle *)

Lemma build_offsets_spec max maxc commits (get : TopicPartition → option OffsetTracker) strategy ks :
  build_offsets_to_commit max maxc commits get strategy = Some ks →
  ∀ k, k ∈ ks → ∃ tp h t, (tp, h) ∈ commits ∧ get tp = Some t ∧ k = offset_to_commit max maxc strategy tp t h.
Proof.
  unfold build_offsets_to_commit. revert ks. induction commits as [|[tp h] commits IH]; intros ks; cbn [mapM].
  { intros [= <-] k Hk. by apply elem_of_nil in Hk. }
  cbn [mret option_ret mbind option_bind]. destruct (get tp) as [t|] eqn:Ht; [|done]. cbn [fmap option_fmap option_map].
  destruct (mapM _ commits) as [ks'|] eqn:Hm; [|done]. intros [= <-] k [->|Hk]%elem_of_cons.
  - exists tp, h, t. split; [left|done].
  - destruct (IH ks' eq_refl k Hk) as (tp' & h' & t' & Hin & Hrest). exists tp', h', t'. split; [by right|done].
Qed.

Lemma build_offsets_some max maxc commits (get : TopicPartition → option OffsetTracker) strategy :
  (∀ c, c ∈ commits → is_Some (get c.1)) → is_Some (build_offsets_to_commit max maxc commits get strategy).
Proof.
  intros H. apply mapM_is_Some_2, Forall_forall. intros [tp h] Hin. destruct (H _ Hin) as [t Ht].
  cbn in Ht. cbn. rewrite Ht. done.
Qed.

(** C9. What is sent to Kafka is safe, whatever runs while the commit is under way: every entry is
    the next offset after a mark above the old one, everything up to the mark is settled in that
    partition's tracker, and no work item of the partition that is still with the engine has an
    offset at or below it. *)
Theorem commit_cycle_safe force source commit_ok others now b offsets b' k :
  trackers_wf b → trackers_sound b →
  commit_ready_offsets cfg force source commit_ok others now b = (offsets, b') → k ∈ offsets →
  ∃ tp t hwm, get_tracker tp b = Some t
    ∧ k = offset_to_commit (bc_max_metadata_size cfg) (bc_max_completed_offsets cfg) (bc_strategy cfg) tp t hwm
    ∧ k_offset k = Some (hwm + 1) ∧ safe_commit b tp t hwm.
Proof.
  intros Hwf Hs Hc Hk. unfold commit_ready_offsets in Hc.
  set (b0 := b <| cadence ::= record_invocation source |>) in Hc.
  destruct (negb force && _); [by injection Hc as <- _; apply elem_of_nil in Hk|].
  change (if force then build_commit_candidates b0 else _) with (cycle_commits force b) in Hc.
  case_decide; [by injection Hc as <- _; apply elem_of_nil in Hk|].
  unfold commit_offsets in Hc.
  assert (filter (λ c, is_Some (get_tracker c.1 b0)) (cycle_commits force b) = cycle_commits force b) as Hf
    by exact (cycle_commits_tracked force b Hwf Hs).
  rewrite Hf in Hc. rewrite decide_False in Hc by done.
  destruct (build_offsets_to_commit _ _ _ _ _) as [ks|] eqn:Hb; [|by injection Hc as <- _; apply elem_of_nil in Hk].
  destruct (commit_attempts _ _ _ _ _ _) as [ok b1]. injection Hc as <- _.
  destruct (build_offsets_spec _ _ _ _ _ _ Hb k Hk) as (tp & h & t & Hin & Ht & ->).
  destruct (cycle_commits_spec force b tp h Hwf Hs Hin) as (t' & Ht' & Hsafe).
  change (get_tracker tp b0) with (get_tracker tp b) in Ht. simplify_eq. by exists tp, t, h.
Qed.

(** The trackers after an undisturbed cycle in which Kafka accepted the commit or not *)
Definition cycle_ok (commit_ok : nat → bool) : bool := commit_ok 0%nat || commit_ok 1%nat.

Lemma commit_attempts_quiet commit_ok tracked b :
  commit_attempts commit_ok (λ _ b, b) tracked 2 0 b =
    if cycle_ok commit_ok then (true, commit_trackers tracked b)
    else (false, record_commit_failure tracked "kafka_exception" b).
Proof. unfold cycle_ok. cbn. destruct (commit_ok 0%nat); [done|]. by destruct (commit_ok 1%nat). Qed.


Lemma candidates_tracked b c : trackers_wf b → c ∈ build_commit_candidates b → is_Some (get_tracker c.1 b).
Proof.
  intros Hwf ([tp l] & Hin & He)%list_elem_of_omap. cbn [fst snd] in He.
  destruct (tracker_store (wm b) !! l) as [t|] eqn:Ht; [|done]. case_match; [|done]. injection He as <-. cbn.
  unfold get_tracker. rewrite (od_elem_get _ tp l); [by exists t|apply tw_keys, Hwf|done].
Qed.

(** The candidate of a tracked partition *)
Lemma candidate_of b tp t :
  trackers_wf b → get_tracker tp b = Some t →
  let hwm := get_committable_high_water_mark (get_min_in_flight_offset tp (wm b)) t in
  od_get tp (build_commit_candidates b) = if last_committed_offset t <? hwm then Some hwm else None.
Proof.
  intros Hwf Ht hwm. unfold get_tracker in Ht. destruct (od_get tp (trackers b)) as [l|] eqn:Hl; [|done].
  assert (∀ h, (tp, h) ∈ build_commit_candidates b ↔ last_committed_offset t < hwm ∧ h = hwm) as Hin.
  { intros h. unfold build_commit_candidates. rewrite list_elem_of_omap. split.
    - intros ([tp' l'] & Hin & He). cbn [fst snd] in He.
      assert (tp' = tp) as ->.
      { destruct (tracker_store (wm b) !! l'); [|done]. case_match; [|done]. by injection He as -> _. }
      apply od_elem_get in Hin; [|apply tw_keys, Hwf]. rewrite Hl in Hin. injection Hin as <-. rewrite Ht in He.
      fold hwm in He. destruct (Z.ltb_spec (last_committed_offset t) hwm); [|done]. by injection He as <-.
    - intros [Hlt ->]. exists (tp, l). split; [by apply od_get_elem|]. cbn [fst snd]. rewrite Ht. fold hwm.
      by rewrite (proj2 (Z.ltb_lt _ _) Hlt). }
  destruct (od_get tp (build_commit_candidates b)) as [h|] eqn:Hg.
  - apply od_get_elem, Hin in Hg as [Hlt ->]. by rewrite (proj2 (Z.ltb_lt _ _) Hlt).
  - destruct (Z.ltb_spec (last_committed_offset t) hwm) as [Hlt|]; [|done]. exfalso.
    assert ((tp, hwm) ∈ build_commit_candidates b) as H1 by by apply Hin.
    apply od_elem_get in H1; [congruence|by apply build_commit_candidates_keys].
Qed.

(** C24. The effect of an undisturbed cycle that sends commits: when one of the two attempts is
    accepted, each committed tracker's mark is the committed one, its settled offsets are the
    same, and the partition stays dirty exactly when completed offsets remain above the mark;
    when both fail, no tracker and no dirty partition changes and every partition's failure is
    recorded. *)
Theorem commit_cycle_effect force source commit_ok now b offsets b' :
  trackers_wf b → trackers_sound b → cycle_commits force b ≠ [] →
  force = true ∨ should_attempt_ready_commit cfg now b = true →
  commit_ready_offsets cfg force source commit_ok (λ _ b, b) now b = (offsets, b') →
  if cycle_ok commit_ok then
    ∀ tp t, get_tracker tp b = Some t → ∃ t', get_tracker tp b' = Some t' ∧ tracker_inv t'
      ∧ (∀ o, settled t' o ↔ settled t o)
      ∧ last_committed_offset t' = default (last_committed_offset t) (od_get tp (cycle_commits force b))
      ∧ (tp ∈ od_keys (cycle_commits force b) →
           tp ∈ dirty_commit_partitions b' ↔ ss_list (completed_offsets t') ≠ [])
  else
    (∀ tp, get_tracker tp b' = get_tracker tp b)
    ∧ dirty_commit_partitions b' = dirty_commit_partitions b
    ∧ commit_failures b' = commit_failures b ++ ((λ c, (c.1, "kafka_exception"%string)) <$> cycle_commits force b).
Proof.
  intros Hwf Hs Hne Hgate Hc. unfold commit_ready_offsets in Hc.
  set (b0 := b <| cadence ::= record_invocation source |>) in Hc.
  change (should_attempt_ready_commit cfg now b0) with (should_attempt_ready_commit cfg now b) in Hc.
  replace (negb force && negb (should_attempt_ready_commit cfg now b)) with false in Hc
    by (destruct Hgate as [-> | ->]; [done|by rewrite andb_false_r]).
  change (if force then build_commit_candidates b0 else _) with (cycle_commits force b) in Hc.
  rewrite decide_False in Hc by done. unfold commit_offsets in Hc.
 
  assert (filter (λ c, is_Some (get_tracker c.1 b0)) (cycle_commits force b) = cycle_commits force b) as Hf
    by exact (cycle_commits_tracked force b Hwf Hs).
  rewrite Hf in Hc. rewrite decide_False in Hc by done.
  pose proof (cycle_commits_spec force b) as Hspec. pose proof (cycle_commits_keys force b Hwf) as Hnd.
  set (commits := cycle_commits force b) in *.
  assert (∀ c, c ∈ commits → is_Some (get_tracker c.1 b)) as Htr.
  { intros [tp h] Hin. destruct (Hspec tp h Hwf Hs Hin) as (t & Ht & _). cbn. eauto. }
  destruct (build_offsets_some (bc_max_metadata_size cfg) (bc_max_completed_offsets cfg) commits
    (λ tp, get_tracker tp b0) (bc_strategy cfg) Htr) as [ks Hks].
  rewrite Hks, commit_attempts_quiet in Hc. destruct (cycle_ok commit_ok); injection Hc as _ <-; [|done].
  set (b1 := commit_trackers commits b0).
  set (b2 := b1 <| cadence ::= record_commit_success source (zlen commits) |>).
  assert (∀ tp, get_tracker tp b2 = match od_get tp commits with
            | Some h => commit_through h <$> get_tracker tp b | None => get_tracker tp b end) as Hget.
  { intros tp. change (get_tracker tp b2) with (get_tracker tp b1).
    apply (commit_trackers_get commits b0); [|done]. by apply (same_trackers_wf b). }
  destruct (clear_committed_spec commits b2) as [Hsame Hdirty].
  { intros c Hin. rewrite Hget. destruct (Htr c Hin) as [t ->]. by destruct (od_get c.1 commits). }
  intros tp t Ht. specialize (Hget tp). rewrite Ht in Hget.
  assert (∃ t', get_tracker tp b2 = Some t' ∧ tracker_inv t' ∧ (∀ o, settled t' o ↔ settled t o)
    ∧ last_committed_offset t' = default (last_committed_offset t) (od_get tp commits)) as (t' & Hg & Hi & Hst & Hlc).
  { destruct (od_get tp commits) as [h|] eqn:Hh; [|exists t; split; [done|]; split; [by eapply Hs|done]].
    destruct (Hspec tp h Hwf Hs (od_get_elem _ _ _ Hh)) as (t0 & Ht0 & (Hh1 & _)). simplify_eq.
    pose proof (committable_spec t (Hs _ _ Ht)) as (? & _).
    exists (commit_through h t). split; [done|].
    split; [apply commit_through_inv; [lia|exact (Hs _ _ Ht)]|].
    split; [apply (commit_through_settled h t (Hs _ _ Ht)); lia|].
    destruct (commit_through_spec h t (Hs _ _ Ht)) as (E1 & _); [lia|]. exact E1. }
  exists t'. rewrite (same_trackers_get b2) by done. split; [done|]. split; [done|]. split; [done|]. split; [done|].
  intros Hin. specialize (Hdirty tp t' Hg). rewrite decide_True in Hdirty by done. done.
Qed.
End commit.

(** ** Witnesses: offset 0 is done, offsets 1 to 5 are not *)

#[local] Instance commit_demo_libs : TrackerLibs := vendor_lists.

Definition commit_demo_tracker : OffsetTracker := mark_complete 0 broker_demo_tracker.
Definition commit_demo_broker : Broker DemoEngine := broker_with commit_demo_tracker.

Lemma commit_demo_sound : trackers_sound commit_demo_broker.
Proof.
  intros tp t Ht. unfold get_tracker in Ht. cbn in Ht. case_decide; [|done].
  rewrite lookup_singleton_eq in Ht. injection Ht as <-.
  apply mark_complete_inv; [vm_compute; discriminate|].
  refine (tracker_step_inv _ OpEpoch _ _ (step_epoch _)). apply update_last_fetched_inv, new_tracker_inv.
Qed.

Lemma commit_demo_commits : cycle_commits true commit_demo_broker = [(broker_demo_tp, 0)].
Proof. vm_compute. reflexivity. Qed.

Definition commit_demo_run (ok : bool) : list KafkaTopicPartition * Broker DemoEngine :=
  commit_ready_offsets broker_demo_config true "consumer_loop" (λ _, ok) (λ _ b, b) 1 commit_demo_broker.

Lemma commit_demo_sent : k_offset <$> (commit_demo_run true).1 = [Some 1].
Proof. vm_compute. reflexivity. Qed.

Lemma commit_cycle_safe_witness :
  ∃ k t hwm, k ∈ (commit_demo_run true).1 ∧ k_offset k = Some (hwm + 1)
    ∧ safe_commit commit_demo_broker broker_demo_tp t hwm.
Proof.
  pose proof commit_demo_sent as Hk. destruct (commit_demo_run true) as [ks b'] eqn:Er. cbn [fst] in *.
  destruct ks as [|k ks]; [discriminate Hk|].
  destruct (commit_cycle_safe broker_demo_config true "consumer_loop" (λ _, true) (λ _ b, b) 1
    commit_demo_broker (k :: ks) b' k (broker_with_wf _) commit_demo_sound Er (list_elem_of_here _ _))
    as (tp & t & hwm & Ht & Ek & Ho & Hs).
  assert (tp = broker_demo_tp) as ->.
  { unfold get_tracker in Ht. cbn in Ht. by destruct (decide (tp = broker_demo_tp)). }
  exists k, t, hwm. split; [left|]. split; [exact Ho|exact Hs].
Defined.

Lemma commit_cycle_effect_witness :
  ∃ t', get_tracker broker_demo_tp (commit_demo_run true).2 = Some t' ∧ last_committed_offset t' = 0.
Proof.
  destruct (commit_demo_run true) as [ks b'] eqn:Er. cbn [snd].
  assert (cycle_commits true commit_demo_broker ≠ []) as Hne by (rewrite commit_demo_commits; discriminate).
  pose proof (commit_cycle_effect broker_demo_config true "consumer_loop" (λ _, true) 1 commit_demo_broker ks b'
    (broker_with_wf _) commit_demo_sound Hne (or_introl eq_refl) Er) as H.
  cbn [cycle_ok orb] in H. destruct (H broker_demo_tp commit_demo_tracker (broker_with_tracker _))
    as (t' & H1 & _ & _ & H4 & _).
  exists t'. split; [exact H1|]. rewrite H4, commit_demo_commits. reflexivity.
Defined.
