(* ===== verification/CommitCoordinator.v ===== *)
(** * The commit coordinator ([control_plane/commit_coordinator.py])

    A background worker that commits the newest candidate of each partition.  Every
    method of the class is a function on the state; the worker's coroutine is cut at its
    [await]s into the states [LoopHead], [Committing] and [Notifying], so that a run
    interleaves it with the other methods.  Kafka and the two callbacks enter as the
    outcomes they may have. *)

From S2P Require Import Prelude Dto.

Record CommitCandidate := mkCandidate {
  cc_tp : TopicPartition;
  cc_safe_offset : Z;
  cc_assignment_epoch : Z;
  cc_lease_id : Z;
  cc_enqueued_at : Q;
}.

Record CommitSettlement := mkSettlement {
  cs_tp : TopicPartition;
  cs_safe_offset : Z;
  cs_assignment_epoch : Z;
  cs_lease_id : Z;
  cs_success : bool;
  cs_reason : option string;
}.

Abbreviation Lease := (TopicPartition * Z * Z)%type.

Definition lease_of (c : CommitCandidate) : Lease := (cc_tp c, cc_assignment_epoch c, cc_lease_id c).

(** How the broker answers a batch *)
Inductive CommitOutcome := CommitOk | KafkaFailure | BatchAborted | WorkerCrash.

(** Where the worker's coroutine is *)
Inductive WorkerState :=
  | NoWorker
  | LoopHead
  | Committing (batch : list CommitCandidate)
  | Notifying (outcome : CommitOutcome) (batch : list CommitCandidate) (settlements : list CommitSettlement).

Record CommitCoordinator := mkCoordinator {
  queue_max_partitions : Z;
  pending : odict TopicPartition CommitCandidate;
  in_flight : odict TopicPartition CommitCandidate;
  cancelled_leases : gset Lease;
  stopped_partitions : gset TopicPartition;
  latest_settled_offsets : odict TopicPartition Z;
  lease_counter : Z;
  worker : WorkerState;
  accepting : bool;
  healthy : bool;
  coalesced_count : Z;
  submitted_count : Z;
  success_count : Z;
  failure_count : Z;
  retry_count : Z;
  metrics : list (string * option string * Z);   (* the [record_metrics] calls *)
}.

#[export] Instance CommitCoordinator_settable : Settable CommitCoordinator :=
  λ c, mkCoordinator (queue_max_partitions c) (pending c) (in_flight c) (cancelled_leases c)
         (stopped_partitions c) (latest_settled_offsets c) (lease_counter c) (worker c) (accepting c)
         (healthy c) (coalesced_count c) (submitted_count c) (success_count c) (failure_count c)
         (retry_count c) (metrics c).

Definition new_coordinator (max_partitions : Z) : CommitCoordinator :=
  mkCoordinator max_partitions [] [] ∅ ∅ [] 0 NoWorker true true 0 0 0 0 0 [].

Definition record_metric (event : string) (reason : option string) (count : Z) (c : CommitCoordinator)
    : CommitCoordinator :=
  c <| metrics ::= λ l, l ++ [(event, reason, count)] |>.

(** ** Leases *)

Definition live_candidates (c : CommitCoordinator) : list CommitCandidate :=
  od_values (pending c) ++ od_values (in_flight c).

Definition prune_cancelled_leases (c : CommitCoordinator) : CommitCoordinator :=
  c <| cancelled_leases ::= λ s, s ∩ list_to_set (lease_of <$> live_candidates c) |>.

Definition is_active_lease (tp : TopicPartition) (epoch lease_id : Z) (c : CommitCoordinator) : bool :=
  if decide ((tp, epoch, lease_id) ∈ cancelled_leases c) then false
  else existsb (λ o, match o with
                     | None => false
                     | Some x => (cc_assignment_epoch x =? epoch) && (cc_lease_id x =? lease_id)
                     end) [od_get tp (pending c); od_get tp (in_flight c)].

Definition active (c : CommitCoordinator) (x : CommitCandidate) : bool :=
  is_active_lease (cc_tp x) (cc_assignment_epoch x) (cc_lease_id x) c.

(** ** Methods *)

Definition ensure_worker (c : CommitCoordinator) : CommitCoordinator :=
  match worker c with NoWorker => c <| worker := LoopHead |> | _ => c end.

(** One iteration of the loop of [enqueue]: [None] when the queue is full, otherwise the state,
    and whether the candidate was added and replaced another.  [now] is [time.monotonic()]. *)
Definition enqueue_one (now : Q) (x : CommitCandidate) (c : CommitCoordinator)
    : option (CommitCoordinator * bool * Z) :=
  let tp := cc_tp x in
  if decide (tp ∈ stopped_partitions c) then Some (c, false, 0)
  else if cc_safe_offset x <=? default (-1) (od_get tp (latest_settled_offsets c)) then Some (c, false, 0)
  else
    let current := od_get tp (pending c) in
    let skip := match current, od_get tp (in_flight c) with
                | Some cur, _ => cc_safe_offset x <=? cc_safe_offset cur
                | None, Some fl => cc_safe_offset x <=? cc_safe_offset fl
                | None, None => false
                end in
    if skip then Some (c, false, 0)
    else
      let projected_size :=
        zlen (pending c) + zlen (in_flight c) + (if od_has tp (in_flight c) then 0 else 1) in
      if match current with None => queue_max_partitions c <? projected_size | Some _ => false end then None
      else
        let c1 := match current with
                  | None => c
                  | Some cur => c <| cancelled_leases ::= λ s, {[lease_of cur]} ∪ s |>
                  end in
        let id := lease_counter c1 + 1 in
        let c2 := c1 <| lease_counter := id |>
                     <| pending ::= od_set tp (mkCandidate tp (cc_safe_offset x) (cc_assignment_epoch x) id now) |> in
        Some (prune_cancelled_leases c2, true, match current with None => 0 | Some _ => 1 end).

Fixpoint enqueue_loop (now : Q) (xs : list CommitCandidate) (changed : bool) (coalesced : Z)
    (c : CommitCoordinator) : option (CommitCoordinator * bool * Z) :=
  match xs with
  | [] => Some (c, changed, coalesced)
  | x :: rest =>
      match enqueue_one now x c with
      | None => None
      | Some (c1, ch, k) => enqueue_loop now rest (changed || ch) (coalesced + k) c1
      end
  end.

Definition enqueue (now : Q) (candidates : list CommitCandidate) (c : CommitCoordinator)
    : bool * CommitCoordinator :=
  if negb (accepting c) || negb (healthy c) then (false, c)
  else
    match enqueue_loop now candidates false 0 c with
    | None => (false, record_metric "failure" (Some "queue_full"%string) 1 (c <| failure_count ::= λ n, n + 1 |>))
    | Some (c1, changed, coalesced) =>
        if negb changed then (true, c1)
        else
          let c2 := if coalesced =? 0 then c1
                    else record_metric "coalesced" None coalesced (c1 <| coalesced_count ::= λ n, n + coalesced |>) in
          (true, ensure_worker c2)
    end.

Definition stop_accepting (c : CommitCoordinator) : CommitCoordinator := c <| accepting := false |>.

Definition stop_partition (c : CommitCoordinator) (tp : TopicPartition) : CommitCoordinator :=
  let c1 := c <| stopped_partitions ::= λ s, {[tp]} ∪ s |> in
  match od_get tp (pending c1) with
  | None => c1
  | Some x => c1 <| pending ::= od_pop tp |> <| cancelled_leases ::= λ s, {[lease_of x]} ∪ s |>
  end.

Definition stop_accepting_partitions (tps : list TopicPartition) (c : CommitCoordinator) : CommitCoordinator :=
  prune_cancelled_leases (fold_left stop_partition tps c).

Definition start_accepting_partitions (tps : list TopicPartition) (c : CommitCoordinator) : CommitCoordinator :=
  c <| stopped_partitions ::= λ s, s ∖ list_to_set tps |>.

Definition cancel_partition (c : CommitCoordinator) (tp : TopicPartition) : CommitCoordinator :=
  let c1 := match od_get tp (pending c) with
            | None => c
            | Some x => c <| pending ::= od_pop tp |> <| cancelled_leases ::= λ s, {[lease_of x]} ∪ s |>
            end in
  match od_get tp (in_flight c1) with
  | None => c1
  | Some x => c1 <| in_flight ::= od_pop tp |> <| cancelled_leases ::= λ s, {[lease_of x]} ∪ s |>
  end.

Definition cancel_leases (tps : list TopicPartition) (c : CommitCoordinator) : CommitCoordinator :=
  prune_cancelled_leases (fold_left cancel_partition tps c).

(** [remaining_candidates]; [None] is "all partitions" *)
Definition remaining_candidates (tps : option (list TopicPartition)) (c : CommitCoordinator)
    : odict TopicPartition CommitCandidate :=
  let remaining :=
    fold_left (λ acc x,
      match od_get (cc_tp x) acc with
      | None => od_set (cc_tp x) x acc
      | Some cur => if cc_safe_offset cur <? cc_safe_offset x then od_set (cc_tp x) x acc else acc
      end) (od_values (in_flight c) ++ od_values (pending c)) [] in
  match tps with
  | None => remaining
  | Some allowed => od_filter (λ tp, tp ∈ allowed) remaining
  end.

(** The queue depth of [stats] *)
Definition queue_depth (c : CommitCoordinator) : Z :=
  zlen (pending c)
  + zlen (filter (λ x, default (-1) (od_get (cc_tp x) (latest_settled_offsets c)) < cc_safe_offset x)
            (od_values (in_flight c))).

(** ** The worker *)

Definition settlement_of (success : bool) (reason : option string) (x : CommitCandidate) : CommitSettlement :=
  mkSettlement (cc_tp x) (cc_safe_offset x) (cc_assignment_epoch x) (cc_lease_id x) success reason.

(** The settlements of the batch members whose lease is still active *)
Definition active_settlements (success : bool) (reason : option string) (batch : list CommitCandidate)
    (c : CommitCoordinator) : list CommitSettlement :=
  settlement_of success reason <$> filter (λ x, active c x = true) batch.

(** The top of the [while]: take a batch and start the commit, or end the task *)
Definition worker_begin (c : CommitCoordinator) : CommitCoordinator :=
  if decide (pending c = []) then c <| worker := NoWorker |>
  else if negb (healthy c) then c <| worker := NoWorker |>
  else
    let batch := od_values (pending c) in
    record_metric "submitted" None (zlen batch)
      (c <| pending := [] |>
         <| in_flight := fold_left (λ acc x, od_set (cc_tp x) x acc) batch [] |>
         <| submitted_count ::= λ n, n + zlen batch |>
         <| worker := Committing batch |>).

Definition reason_of (o : CommitOutcome) : option string :=
  match o with
  | CommitOk => None
  | KafkaFailure => Some "kafka_exception"%string
  | BatchAborted => Some "stale_lease"%string
  | WorkerCrash => Some "worker_crash"%string
  end.

(** The loop that records the settled offsets *)
Definition settle_all (ss : list CommitSettlement) (d : odict TopicPartition Z) : odict TopicPartition Z :=
  fold_left (λ acc s, od_set (cs_tp s) (cs_safe_offset s) acc) ss d.

(** The retry loop: the candidates still active become pending again *)
Definition retry_all (batch : list CommitCandidate) (c : CommitCoordinator) : CommitCoordinator :=
  fold_left (λ acc x, if active acc x then acc <| pending ::= od_set (cc_tp x) x |> else acc) batch c.

(** The commit came back: up to the call of the callback *)
Definition worker_commit_done (o : CommitOutcome) (batch : list CommitCandidate) (c : CommitCoordinator)
    : CommitCoordinator :=
  match o with
  | CommitOk =>
      let settlements := active_settlements true None batch c in
      c <| success_count ::= λ n, n + zlen settlements |>
        <| latest_settled_offsets ::= settle_all settlements |>
        <| worker := Notifying CommitOk batch settlements |>
  | KafkaFailure =>
      let settlements := active_settlements false (reason_of o) batch c in
      record_metric "retry" (reason_of o) (zlen batch)
        (c <| retry_count ::= λ n, n + zlen batch |> <| worker := Notifying o batch settlements |>)
  | BatchAborted =>
      c <| worker := Notifying o batch (active_settlements false (reason_of o) batch c) |>
  | WorkerCrash =>
      let c1 := c <| healthy := false |> <| accepting := false |> <| failure_count ::= λ n, n + zlen batch |> in
      c1 <| worker := Notifying o batch (active_settlements false (reason_of o) batch c1) |>
  end.

(** A callback that raised: fail closed *)
Definition callback_crashed (settlements : list CommitSettlement) (c : CommitCoordinator) : CommitCoordinator :=
  record_metric "failure" (Some "worker_crash"%string) (zlen settlements)
    (c <| healthy := false |> <| accepting := false |> <| failure_count ::= λ n, n + zlen settlements |>).

(** The callback returned ([callback_ok]) or raised; it is only called for settlements *)
Definition worker_notified (callback_ok : bool) (o : CommitOutcome) (batch : list CommitCandidate)
    (settlements : list CommitSettlement) (c : CommitCoordinator) : CommitCoordinator :=
  let called_ok := callback_ok || bool_decide (settlements = []) in
  let c1 := if called_ok then c else callback_crashed settlements c in
  match o with
  | CommitOk =>
      let c2 := prune_cancelled_leases (c1 <| in_flight := [] |>) in
      (if callback_ok && negb (bool_decide (settlements = []))
       then record_metric "success" None (zlen settlements) c2 else c2) <| worker := LoopHead |>
  | KafkaFailure =>
      let c2 := retry_all batch c1 in
      (prune_cancelled_leases (c2 <| in_flight := [] |>)) <| worker := LoopHead |>
  | BatchAborted | WorkerCrash =>
      let c2 := c1 <| cancelled_leases ::= λ s, s ∪ list_to_set (lease_of <$> batch) |> <| in_flight := [] |> in
      (record_metric "failure" (reason_of o) (zlen batch) (prune_cancelled_leases c2))
        <| worker := match o with WorkerCrash => NoWorker | _ => LoopHead end |>
  end.

(** ** Runs *)

Inductive CoordOp :=
  | OpEnqueue (now : Q) (xs : list CommitCandidate) | OpStopAccepting
  | OpStop (tps : list TopicPartition) | OpStart (tps : list TopicPartition)
  | OpCancel (tps : list TopicPartition)
  | OpBegin | OpCommitDone (o : CommitOutcome) | OpNotified (callback_ok : bool).

Inductive coord_step (c : CommitCoordinator) : CoordOp → CommitCoordinator → Prop :=
  | co_enqueue now xs : coord_step c (OpEnqueue now xs) (enqueue now xs c).2
  | co_stop_accepting : coord_step c OpStopAccepting (stop_accepting c)
  | co_stop tps : coord_step c (OpStop tps) (stop_accepting_partitions tps c)
  | co_start tps : coord_step c (OpStart tps) (start_accepting_partitions tps c)
  | co_cancel tps : coord_step c (OpCancel tps) (cancel_leases tps c)
  | co_begin : worker c = LoopHead → coord_step c OpBegin (worker_begin c)
  | co_commit_done o batch :
      worker c = Committing batch → coord_step c (OpCommitDone o) (worker_commit_done o batch c)
  | co_notified ok o batch ss :
      worker c = Notifying o batch ss → coord_step c (OpNotified ok) (worker_notified ok o batch ss c).
