(* ===== verification/CommitCoordinatorInv.v ===== *)
(** * The commit coordinator's invariant and properties

    Every step of [CommitCoordinator.coord_step] keeps [coord_inv]; the settled offsets only
    grow, by accepted commits; a cancelled lease never settles.  Two lemmas record what the
    code does that its users may not expect: a retry drops a newer candidate, and the memory of
    settled offsets outlives an assignment. *)

From S2P Require Import Prelude Dto CommitCoordinator.

(** ** Invariant *)

(** The highest offset known to be committed *)
Definition latest (c : CommitCoordinator) (tp : TopicPartition) : Z :=
  default (-1) (od_get tp (latest_settled_offsets c)).

(** A table of candidates by partition *)
Definition table_ok (d : odict TopicPartition CommitCandidate) : Prop :=
  NoDup (od_keys d) ∧ ∀ tp x, od_get tp d = Some x → cc_tp x = tp.

Definition used_partitions (c : CommitCoordinator) : gset TopicPartition :=
  list_to_set (od_keys (pending c)) ∪ list_to_set (od_keys (in_flight c)).

(** The batch under way: the candidates in flight belong to it, and everything pending has a
    newer lease *)
Record batch_ok (p f : odict TopicPartition CommitCandidate) (counter : Z) (batch : list CommitCandidate)
    : Prop := mkBatchOk {
  bo_tps : NoDup (cc_tp <$> batch);
  bo_in tp y : od_get tp f = Some y → y ∈ batch;
  bo_newer x tp y : x ∈ batch → od_get tp p = Some y → cc_lease_id x < cc_lease_id y;
  bo_counter x : x ∈ batch → cc_lease_id x ≤ counter;
}.

Definition worker_ok (c : CommitCoordinator) : Prop :=
  match worker c with
  | Committing batch => batch_ok (pending c) (in_flight c) (lease_counter c) batch
      ∧ ∀ tp y, od_get tp (in_flight c) = Some y → latest c tp < cc_safe_offset y
  | Notifying o batch _ => batch_ok (pending c) (in_flight c) (lease_counter c) batch
      ∧ ∀ tp y, od_get tp (in_flight c) = Some y →
          if o is CommitOk then latest c tp ≤ cc_safe_offset y else latest c tp < cc_safe_offset y
  | _ => in_flight c = []
  end.

Record coord_core (c : CommitCoordinator) : Prop := mkCoordCore {
  co_pending : table_ok (pending c);
  co_in_flight : table_ok (in_flight c);
  co_ids tp x : od_get tp (pending c) = Some x → cc_lease_id x ≤ lease_counter c;
  co_above tp x : od_get tp (pending c) = Some x → latest c tp < cc_safe_offset x;
  co_order tp x y :
    od_get tp (pending c) = Some x → od_get tp (in_flight c) = Some y → cc_safe_offset y < cc_safe_offset x;
  co_bound : Z.of_nat (size (used_partitions c)) ≤ queue_max_partitions c;
  co_worker : worker_ok c;
}.

(** Between two steps no cancelled lease is remembered: pruning always empties the set. *)
Definition coord_inv (c : CommitCoordinator) : Prop := coord_core c ∧ cancelled_leases c = ∅.

(** No live candidate has a cancelled lease *)
Definition cancelled_dead (c : CommitCoordinator) : Prop :=
  ∀ x, x ∈ live_candidates c → lease_of x ∉ cancelled_leases c.

Lemma table_ok_nil : table_ok [].
Proof. split; [apply NoDup_nil; exact I|done]. Qed.

Lemma table_ok_set x d : table_ok d → table_ok (od_set (cc_tp x) x d).
Proof.
  intros [Hnd Ht]. split; [by apply NoDup_od_set|]. intros tp y. rewrite od_get_set.
  case_decide; [by intros [= <-]|apply Ht].
Qed.

Lemma table_ok_pop tp d : table_ok d → table_ok (od_pop tp d).
Proof.
  intros [Hnd Ht]. split; [by apply NoDup_od_pop|]. intros tp' y. rewrite od_get_pop. case_decide; [done|apply Ht].
Qed.

#[local] Hint Resolve table_ok_nil table_ok_set table_ok_pop : py.

(** Rebuilding a table from its values gives the table back. *)
Lemma table_rebuild d : table_ok d → fold_left (λ acc x, od_set (cc_tp x) x acc) (od_values d) [] = d.
Proof.
  intros [Hnd Ht].
  assert (∀ acc, NoDup (od_keys (acc ++ d)) →
    fold_left (λ acc x, od_set (cc_tp x) x acc) (od_values d) acc = acc ++ d) as H.
  { clear Hnd. induction d as [|[tp x] d IH]; intros acc Hnd; [by rewrite app_nil_r|].
    unfold od_values in *. rewrite fmap_cons. cbn [fold_left snd].
    assert (cc_tp x = tp) as Hx by (apply Ht; cbn; by rewrite decide_True).
    rewrite Hx, od_set_fresh.
    - rewrite IH; [by rewrite <-app_assoc| |by rewrite <-app_assoc].
      intros tp' x' Hg. apply Ht. cbn. case_decide; [|done]. subst tp'. exfalso.
      unfold od_keys in Hnd. rewrite fmap_app, fmap_cons in Hnd.
      apply NoDup_app in Hnd as (_ & _ & Hnd). apply NoDup_cons in Hnd as [Hn _].
      apply Hn. change (d.*1) with (od_keys d). apply elem_of_od_keys. eauto.
    - apply od_get_None. intros Hin. unfold od_keys in *. rewrite fmap_app, fmap_cons in Hnd.
      apply NoDup_app in Hnd as (_ & Hd & _). apply (Hd tp Hin). by left. }
  by apply (H []).
Qed.

Lemma table_values d x : table_ok d → x ∈ od_values d ↔ od_get (cc_tp x) d = Some x.
Proof.
  intros [Hnd Ht]. split.
  - intros ([tp y] & -> & Hin)%list_elem_of_fmap. cbn.
    apply od_elem_get in Hin; [|done]. by rewrite (Ht _ _ Hin).
  - intros H%od_get_elem. apply list_elem_of_fmap. by exists (cc_tp x, x).
Qed.

Lemma table_tps d : table_ok d → cc_tp <$> od_values d = od_keys d.
Proof.
  intros [Hnd Ht]. unfold od_values, od_keys. rewrite <-list_fmap_compose. apply list_fmap_ext.
  intros i [tp x] Hi. cbn. apply Ht. apply od_elem_get; [done|]. by eapply list_elem_of_lookup_2.
Qed.

(** With no cancelled lease, a batch member is active exactly while it is in flight. *)
Lemma active_in_flight c batch x :
  coord_inv c → batch_ok (pending c) (in_flight c) (lease_counter c) batch → x ∈ batch →
  active c x = true ↔ od_get (cc_tp x) (in_flight c) = Some x.
Proof.
  intros [Hc Hcan] Hb Hx. unfold active, is_active_lease. rewrite Hcan.
  rewrite decide_False by set_solver. cbn [existsb]. rewrite orb_false_r, orb_true_iff. split.
  - intros [H|H].
    + destruct (od_get (cc_tp x) (pending c)) as [y|] eqn:Hy; [|done].
      apply andb_true_iff in H as [_ H]. pose proof (bo_newer _ _ _ _ Hb x _ _ Hx Hy). lia.
    + destruct (od_get (cc_tp x) (in_flight c)) as [y|] eqn:Hy; [|done]. f_equal.
      pose proof (bo_in _ _ _ _ Hb _ _ Hy) as Hin.
      apply (proj2 (co_in_flight _ Hc)) in Hy as Htp.
      destruct (proj1 (list_elem_of_lookup _ _) Hin) as [i Hi].
      destruct (proj1 (list_elem_of_lookup _ _) Hx) as [j Hj].
      assert (i = j) as ->; [|congruence].
      apply (NoDup_lookup _ i j (cc_tp x) (bo_tps _ _ _ _ Hb)); rewrite list_lookup_fmap;
        [rewrite Hi; cbn; by rewrite Htp|by rewrite Hj].
  - intros ->. right. by rewrite !Z.eqb_refl.
Qed.

(** *** The tables' candidates *)

Lemma live_cases c x :
  coord_core c → x ∈ live_candidates c ↔
  od_get (cc_tp x) (pending c) = Some x ∨ od_get (cc_tp x) (in_flight c) = Some x.
Proof.
  intros Hc. unfold live_candidates. rewrite elem_of_app.
  by rewrite (table_values _ _ (co_pending _ Hc)), (table_values _ _ (co_in_flight _ Hc)).
Qed.

Lemma in_flight_older c tp tp' x y :
  coord_core c → od_get tp (pending c) = Some x → od_get tp' (in_flight c) = Some y →
  cc_lease_id y < cc_lease_id x.
Proof.
  intros Hc Hx Hy. pose proof (co_worker _ Hc) as Hw. unfold worker_ok in Hw.
  destruct (worker c); [by rewrite Hw in Hy|by rewrite Hw in Hy| |]; destruct Hw as [Hb _];
    exact (bo_newer _ _ _ _ Hb _ _ _ (bo_in _ _ _ _ Hb _ _ Hy) Hx).
Qed.

Lemma in_flight_below_counter c tp y :
  coord_core c → od_get tp (in_flight c) = Some y → cc_lease_id y ≤ lease_counter c.
Proof.
  intros Hc Hy. pose proof (co_worker _ Hc) as Hw. unfold worker_ok in Hw.
  destruct (worker c); [by rewrite Hw in Hy|by rewrite Hw in Hy| |]; destruct Hw as [Hb _];
    exact (bo_counter _ _ _ _ Hb _ (bo_in _ _ _ _ Hb _ _ Hy)).
Qed.

Lemma elem_of_used c tp :
  tp ∈ used_partitions c ↔ is_Some (od_get tp (pending c)) ∨ is_Some (od_get tp (in_flight c)).
Proof. unfold used_partitions. by rewrite elem_of_union, !elem_of_list_to_set, !elem_of_od_keys. Qed.

Lemma used_subset_bound c c' :
  used_partitions c' ⊆ used_partitions c → queue_max_partitions c' = queue_max_partitions c →
  coord_core c → Z.of_nat (size (used_partitions c')) ≤ queue_max_partitions c'.
Proof. intros Hsub -> Hc. pose proof (co_bound _ Hc). pose proof (subseteq_size _ _ Hsub). lia. Qed.

(** *** Pruning *)

Lemma prune_core c : coord_core c → coord_core (prune_cancelled_leases c).
Proof. by intros []; constructor. Qed.

Lemma prune_inv c : coord_core c → cancelled_dead c → coord_inv (prune_cancelled_leases c).
Proof.
  intros Hc Hd. split; [by apply prune_core|]. cbn. apply set_eq. intros l. split; [|set_solver].
  rewrite elem_of_intersection, elem_of_list_to_set, list_elem_of_fmap.
  intros [Hl (x & -> & Hx)]. by destruct (Hd x Hx).
Qed.

(** *** Dropping candidates *)

Definition dropped_from (d' d : odict TopicPartition CommitCandidate) : Prop :=
  table_ok d' ∧ ∀ tp x, od_get tp d' = Some x → od_get tp d = Some x.

Lemma dropped_refl d : table_ok d → dropped_from d d.
Proof. by split. Qed.

Lemma dropped_pop tp d : table_ok d → dropped_from (od_pop tp d) d.
Proof. intros Hd. split; [by apply table_ok_pop|]. intros tp' x. rewrite od_get_pop. by case_decide. Qed.

Lemma dropped_of_nil d : dropped_from d [] → d = [].
Proof.
  intros [_ H]. destruct d as [|[tp x] d]; [done|].
  assert (od_get tp ((tp, x) :: d) = Some x) as Hg by (cbn; by rewrite decide_True).
  by apply H in Hg.
Qed.

#[local] Hint Resolve dropped_refl dropped_pop : py.

Lemma dropped_batch p f p' f' n batch :
  dropped_from p' p → dropped_from f' f → batch_ok p f n batch → batch_ok p' f' n batch.
Proof.
  intros [_ Hp] [_ Hf] []. constructor; [done|eauto| |done].
  intros x tp y Hx Hy. eauto.
Qed.

Lemma dropped_core c p f k :
  coord_core c → dropped_from p (pending c) → dropped_from f (in_flight c) →
  coord_core (c <| pending := p |> <| in_flight := f |> <| cancelled_leases := k |>).
Proof.
  intros Hc Hp Hf. constructor.
  - apply Hp.
  - apply Hf.
  - intros tp x Hx. eapply (co_ids c); [done|]. by apply Hp.
  - intros tp x Hx. eapply (co_above c); [done|]. by apply Hp.
  - intros tp x y Hx Hy. eapply (co_order c); [done|by apply Hp|by apply Hf].
  - apply (used_subset_bound c); [|done|done]. intros tp. rewrite !elem_of_used. cbn.
    intros [[x Hx]|[x Hx]]; [left; exists x; by apply Hp|right; exists x; by apply Hf].
  - pose proof (co_worker _ Hc) as Hw. unfold worker_ok in *. cbn.
    destruct (worker c); [rewrite Hw in Hf; by apply dropped_of_nil|rewrite Hw in Hf; by apply dropped_of_nil| |];
      destruct Hw as [Hb Hl]; (split; [by eapply dropped_batch|]); intros tp y Hy; apply Hl; by apply Hf.
Qed.

(** The other fields do not matter. *)
Lemma coord_core_frame c c' :
  queue_max_partitions c' = queue_max_partitions c → pending c' = pending c → in_flight c' = in_flight c →
  latest_settled_offsets c' = latest_settled_offsets c → lease_counter c' = lease_counter c →
  worker c' = worker c → coord_core c → coord_core c'.
Proof. destruct c, c'; cbn; intros -> -> -> -> -> -> []; by constructor. Qed.

Lemma inv_frame c c' :
  queue_max_partitions c' = queue_max_partitions c → pending c' = pending c → in_flight c' = in_flight c →
  latest_settled_offsets c' = latest_settled_offsets c → lease_counter c' = lease_counter c →
  worker c' = worker c → cancelled_leases c' = cancelled_leases c → coord_inv c → coord_inv c'.
Proof. intros ?????? Hk [? ?]. split; [by apply (coord_core_frame c)|by rewrite Hk]. Qed.

Definition live_ok (c : CommitCoordinator) : Prop := coord_core c ∧ cancelled_dead c.

Lemma live_ok_of_inv c : coord_inv c → live_ok c.
Proof. intros [Hc Hk]. split; [done|]. intros x _. rewrite Hk. set_solver. Qed.

Lemma pop_pending_ok c tp x :
  live_ok c → od_get tp (pending c) = Some x →
  live_ok (c <| pending ::= od_pop tp |> <| cancelled_leases ::= λ s, {[lease_of x]} ∪ s |>).
Proof.
  intros [Hc Hd] Hx. set (c' := _ <| cancelled_leases ::= _ |>).
  assert (coord_core c') as Hc'.
  { apply (dropped_core c (od_pop tp (pending c)) (in_flight c)); [done| |];
      destruct Hc; eauto with py. }
  split; [done|]. intros y Hy. apply live_cases in Hy; [|done]. cbn in Hy. cbn.
  apply not_elem_of_union. split; [|].
  - rewrite elem_of_singleton. intros [= Ht _ Hl]. destruct Hy as [Hy|Hy].
    + rewrite od_get_pop in Hy. case_decide as Hne; [done|]. apply Hne.
      by rewrite Ht, (proj2 (co_pending _ Hc) _ _ Hx).
    + pose proof (in_flight_older c _ _ _ _ Hc Hx Hy). lia.
  - apply Hd, live_cases; [done|]. destruct Hy as [Hy|Hy]; [left|by right].
    rewrite od_get_pop in Hy. by case_decide.
Qed.

Lemma pop_in_flight_ok c tp x :
  live_ok c → od_get tp (pending c) = None → od_get tp (in_flight c) = Some x →
  live_ok (c <| in_flight ::= od_pop tp |> <| cancelled_leases ::= λ s, {[lease_of x]} ∪ s |>).
Proof.
  intros [Hc Hd] Hn Hx. set (c' := _ <| cancelled_leases ::= _ |>).
  assert (coord_core c') as Hc'.
  { apply (dropped_core c (pending c) (od_pop tp (in_flight c))); [done| |];
      destruct Hc; eauto with py. }
  split; [done|]. intros y Hy. apply live_cases in Hy; [|done]. cbn in Hy. cbn.
  rewrite od_get_pop in Hy. apply (proj2 (co_in_flight _ Hc)) in Hx as Htx.
  apply not_elem_of_union. split; [|].
  - rewrite elem_of_singleton. intros [= Ht _ _]. destruct Hy as [Hy|Hy]; [congruence|].
    case_decide; congruence.
  - apply Hd, live_cases; [done|]. destruct Hy as [Hy|Hy]; [by left|right]. by case_decide.
Qed.

(** ** The steps keep the invariant *)

Lemma stop_partition_ok c tp : live_ok c → live_ok (stop_partition c tp).
Proof.
  intros Hl. unfold stop_partition.
  assert (live_ok (c <| stopped_partitions ::= λ s, {[tp]} ∪ s |>)) as Hl'.
  { destruct Hl as [Hc Hd]. split; [by apply (coord_core_frame c)|exact Hd]. }
  case_match eqn:Hg; [by apply pop_pending_ok|done].
Qed.

Lemma cancel_partition_ok c tp : live_ok c → live_ok (cancel_partition c tp).
Proof.
  intros Hl. unfold cancel_partition. destruct (od_get tp (pending c)) as [x|] eqn:Hg; cbn.
  - pose proof (pop_pending_ok c tp x Hl Hg). destruct (od_get tp (in_flight c)) as [y|] eqn:Hf; [|done].
    apply pop_in_flight_ok; [done|apply od_get_pop_eq|done].
  - destruct (od_get tp (in_flight c)) as [y|] eqn:Hf; [by apply pop_in_flight_ok|done].
Qed.

Lemma stop_inv c tps : coord_inv c → coord_inv (stop_accepting_partitions tps c).
Proof.
  intros Hc%live_ok_of_inv. unfold stop_accepting_partitions.
  destruct (fold_left_inv live_ok stop_partition tps c stop_partition_ok Hc). by apply prune_inv.
Qed.

Lemma cancel_inv c tps : coord_inv c → coord_inv (cancel_leases tps c).
Proof.
  intros Hc%live_ok_of_inv. unfold cancel_leases.
  destruct (fold_left_inv live_ok cancel_partition tps c cancel_partition_ok Hc). by apply prune_inv.
Qed.

(** *** Enqueueing *)

(** A newly leased candidate that is above everything known about its partition *)
Lemma set_pending_core c x k :
  coord_core c → cc_lease_id x = lease_counter c + 1 → latest c (cc_tp x) < cc_safe_offset x →
  (∀ y, od_get (cc_tp x) (in_flight c) = Some y → cc_safe_offset y < cc_safe_offset x) →
  Z.of_nat (size ({[cc_tp x]} ∪ used_partitions c)) ≤ queue_max_partitions c →
  coord_core (c <| cancelled_leases := k |> <| lease_counter := lease_counter c + 1 |>
                <| pending ::= od_set (cc_tp x) x |>).
Proof.
  intros Hc Hid Hab Hord Hsize. constructor; cbn.
  - apply table_ok_set, Hc.
  - apply Hc.
  - intros tp y. rewrite od_get_set. case_decide; [intros [= <-]; lia|].
    intros Hy%(co_ids _ Hc). lia.
  - intros tp y. rewrite od_get_set. case_decide; [intros [= <-]; by subst|]. apply (co_above _ Hc).
  - intros tp y z. rewrite od_get_set. case_decide; [intros [= <-]; subst; apply Hord|]. apply (co_order _ Hc).
  - etransitivity; [|exact Hsize]. apply Nat2Z.inj_le, subseteq_size. intros tp.
    rewrite elem_of_union, elem_of_singleton, !elem_of_used. cbn. rewrite od_get_set.
    case_decide; [by left|by right].
  - pose proof (co_worker _ Hc) as Hw. unfold worker_ok in *. cbn. destruct (worker c) as [| | |]; [done|done| |];
      destruct Hw as [Hb Hl]; (split; [|exact Hl]); destruct Hb as [H1 H2 H3 H4]; constructor; try done;
      intros z; intros; [|by etransitivity; [eapply H4|lia]| |by etransitivity; [eapply H4|lia]];
      match goal with H : od_get _ (od_set _ _ _) = _ |- _ => rewrite od_get_set in H end;
      (case_decide; simplify_eq; [|by eapply H3]); pose proof (H4 _ H); lia.
Qed.

Lemma used_with_new c tp :
  coord_core c → od_get tp (pending c) = None →
  Z.of_nat (size ({[tp]} ∪ used_partitions c))
  ≤ zlen (pending c) + zlen (in_flight c) + (if od_has tp (in_flight c) then 0 else 1).
Proof.
  intros Hc Hn. unfold used_partitions.
  set (p := list_to_set (od_keys (pending c)) : gset TopicPartition).
  set (f := list_to_set (od_keys (in_flight c)) : gset TopicPartition).
  assert (size p = length (pending c) ∧ size f = length (in_flight c)) as [Hp Hf].
  { unfold p, f. rewrite !size_list_to_set; [|apply Hc|apply Hc]. unfold od_keys. by rewrite !length_fmap. }
  unfold zlen. rewrite <-Hp, <-Hf. destruct (od_has tp (in_flight c)) eqn:Ht.
  - apply od_has_spec, elem_of_od_keys in Ht.
    assert ({[tp]} ∪ (p ∪ f) = p ∪ f) as -> by (unfold f; set_solver).
    pose proof (size_union_alt p f). pose proof (subseteq_size (f ∖ p) f ltac:(set_solver)). lia.
  - pose proof (size_union_alt {[tp]} (p ∪ f)) as H1. pose proof (size_union_alt p f) as H2.
    pose proof (subseteq_size (f ∖ p) f ltac:(set_solver)).
    pose proof (subseteq_size ((p ∪ f) ∖ {[tp]}) (p ∪ f) ltac:(set_solver)).
    rewrite size_singleton in H1. lia.
Qed.

Lemma enqueue_one_inv now x c c' ch k :
  coord_inv c → enqueue_one now x c = Some (c', ch, k) →
  coord_inv c' ∧ latest_settled_offsets c' = latest_settled_offsets c.
Proof.
  intros [Hc Hk]. unfold enqueue_one. case_decide; [by intros [= <- _ _]|].
  destruct (Z.leb_spec (cc_safe_offset x) (default (-1) (od_get (cc_tp x) (latest_settled_offsets c)))) as [|Hab];
    [by intros [= <- _ _]|].
  destruct (od_get (cc_tp x) (pending c)) as [cur|] eqn:Hcur; cbn zeta.
  - destruct (Z.leb_spec (cc_safe_offset x) (cc_safe_offset cur)) as [|Hgt]; [by intros [= <- _ _]|].
    intros [= <- _ _]. split; [|done].
    assert (coord_core (c <| cancelled_leases := {[lease_of cur]} ∪ cancelled_leases c |>
       <| lease_counter := lease_counter c + 1 |>
       <| pending ::= od_set (cc_tp x) (mkCandidate (cc_tp x) (cc_safe_offset x) (cc_assignment_epoch x) (lease_counter c + 1) now) |>)) as Hc'.
    { apply (set_pending_core c (mkCandidate (cc_tp x) _ _ _ _)); cbn; [done|done|done| |].
      - intros y Hy. pose proof (co_order _ Hc _ _ _ Hcur Hy). lia.
      - assert ({[cc_tp x]} ∪ used_partitions c = used_partitions c) as ->; [|apply Hc].
        assert (cc_tp x ∈ used_partitions c) by (apply elem_of_used; eauto). set_solver. }
    apply prune_inv; [done|]. intros y Hy. apply (live_cases _ _ Hc') in Hy. cbn in Hy |- *.
    rewrite Hk, union_empty_r_L, elem_of_singleton. intros [= Ht _ Hl].
    rewrite od_get_set in Hy. destruct Hy as [Hy|Hy].
    + pose proof (co_ids _ Hc _ _ Hcur). case_decide as Hd; [injection Hy as <-; cbn in Hl; lia|].
      apply Hd. by rewrite Ht, (proj2 (co_pending _ Hc) _ _ Hcur).
    + pose proof (in_flight_older _ _ _ _ _ Hc Hcur Hy). lia.
  - match goal with |- context [if ?b then Some (c, false, 0) else _] => destruct b eqn:Hskip end;
      [by intros [= <- _ _]|].
    match goal with |- context [?a <? ?b] => destruct (Z.ltb_spec a b) as [|Hroom] end; [done|].
    intros [= <- _ _]. split; [|done]. apply prune_inv.
    + apply (set_pending_core c (mkCandidate (cc_tp x) _ _ _ _)); cbn; [done|done|done| |].
      * intros y Hy. rewrite Hy in Hskip. apply Z.leb_gt in Hskip. lia.
      * etransitivity; [by apply used_with_new|exact Hroom].
    + intros y _. cbn. rewrite Hk. set_solver.
Qed.

Lemma enqueue_loop_inv now xs ch k c c' ch' k' :
  coord_inv c → enqueue_loop now xs ch k c = Some (c', ch', k') →
  coord_inv c' ∧ latest_settled_offsets c' = latest_settled_offsets c.
Proof.
  revert ch k c. induction xs as [|x xs IH]; intros ch k c Hc; cbn; [by intros [= <- _ _]|].
  destruct (enqueue_one now x c) as [[[c1 ch1] k1]|] eqn:He; [|done].
  apply enqueue_one_inv in He as [Hc1 <-]; [|done]. by apply IH.
Qed.

Lemma ensure_worker_inv c : coord_inv c → coord_inv (ensure_worker c).
Proof.
  intros [Hc Hk]. unfold ensure_worker. destruct (worker c) eqn:Hw; try by split.
  split; [|exact Hk]. pose proof (co_worker _ Hc) as Hwo. unfold worker_ok in Hwo. rewrite Hw in Hwo.
  destruct Hc; by constructor.
Qed.

Lemma enqueue_inv now xs c :
  coord_inv c →
  coord_inv (enqueue now xs c).2 ∧ latest_settled_offsets (enqueue now xs c).2 = latest_settled_offsets c.
Proof.
  intros Hc. unfold enqueue. destruct (_ || _); [done|].
  destruct (enqueue_loop _ _ _ _ _) as [[[c1 ch] k]|] eqn:He; cbn; [|by split; [apply (inv_frame c)|]].
  apply enqueue_loop_inv in He as [Hc1 Hl]; [|done]. rewrite <-Hl.
  destruct ch; cbn; [|done]. destruct (k =? 0); cbn.
  - split; [by apply ensure_worker_inv|unfold ensure_worker; by destruct (worker c1)].
  - split; [apply ensure_worker_inv; by apply (inv_frame c1)|].
    unfold ensure_worker; cbn; by destruct (worker c1).
Qed.

(** *** The worker *)

Lemma clear_in_flight_core c w :
  (w = NoWorker ∨ w = LoopHead) → coord_core c → coord_core (c <| in_flight := [] |> <| worker := w |>).
Proof.
  intros Hw [H1 H2 H3 H4 H5 H6 H7]. constructor; cbn; auto with py; [| |by destruct Hw; subst].
  - done.
  - etransitivity; [|exact H6]. apply Nat2Z.inj_le, subseteq_size. unfold used_partitions. cbn. set_solver.
Qed.

Lemma worker_begin_inv c : worker c = LoopHead → coord_inv c → coord_inv (worker_begin c).
Proof.
  intros Hw [Hc Hk]. pose proof (co_worker _ Hc) as Hf. unfold worker_ok in Hf. rewrite Hw in Hf.
  assert (coord_inv (c <| worker := NoWorker |>)) as Hstop
    by (split; [destruct Hc; by constructor|exact Hk]).
  unfold worker_begin. case_decide as Hp; [done|]. destruct (negb (healthy c)); [done|]. cbn zeta.
  rewrite (table_rebuild _ (co_pending _ Hc)). split; [|exact Hk].
  assert (NoDup (cc_tp <$> od_values (pending c))) as Hnd by (rewrite table_tps; apply Hc).
  constructor; cbn; [apply table_ok_nil|apply Hc|done|done|done| |].
  - etransitivity; [|apply (co_bound _ Hc)]. unfold used_partitions. cbn. rewrite Hf. cbn.
    apply Nat2Z.inj_le, subseteq_size. set_solver.
  - split; [|apply (co_above _ Hc)]. constructor; [done| |done|].
    + intros tp y Hy. apply table_values; [apply Hc|]. by rewrite (proj2 (co_pending _ Hc) _ _ Hy).
    + intros y Hy. apply table_values in Hy; [|apply Hc]. by eapply co_ids.
Qed.

Lemma settle_all_spec ss d tp :
  NoDup (cs_tp <$> ss) →
  (∀ s, s ∈ ss → cs_tp s = tp → od_get tp (settle_all ss d) = Some (cs_safe_offset s))
  ∧ ((∀ s, s ∈ ss → cs_tp s ≠ tp) → od_get tp (settle_all ss d) = od_get tp d).
Proof.
  revert d. induction ss as [|s ss IH]; intros d; rewrite ?fmap_cons.
  { intros _. split; [intros ? []%elem_of_nil|done]. }
  intros [Hn Hnd]%NoDup_cons. destruct (IH (od_set (cs_tp s) (cs_safe_offset s) d) Hnd) as [IH1 IH2].
  unfold settle_all in *. cbn [fold_left]. split.
  - intros s' [->|Hin]%elem_of_cons Ht; [|by apply IH1]. rewrite IH2, <-Ht; [apply od_get_set_eq|].
    intros s'' Hs'' Heq. apply Hn, list_elem_of_fmap. exists s''. split; [congruence|done].
  - intros Hne. rewrite IH2; [|intros s' Hs'; apply Hne; by right].
    apply od_get_set_ne, Hne. by left.
Qed.

Lemma elem_of_active_settlements ok r batch c s :
  s ∈ active_settlements ok r batch c ↔ ∃ x, s = settlement_of ok r x ∧ active c x = true ∧ x ∈ batch.
Proof.
  unfold active_settlements. rewrite list_elem_of_fmap. setoid_rewrite list_elem_of_filter. done.
Qed.

Lemma NoDup_active_settlements ok r batch c :
  NoDup (cc_tp <$> batch) → NoDup (cs_tp <$> active_settlements ok r batch c).
Proof.
  unfold active_settlements. rewrite <-list_fmap_compose. intros H.
  eapply sublist_NoDup; [exact H|]. apply (fmap_sublist cc_tp), sublist_filter.
Qed.

(** A successful commit settles exactly the candidates still in flight. *)
Lemma commit_ok_latest c batch tp :
  coord_inv c → worker c = Committing batch →
  latest (worker_commit_done CommitOk batch c) tp
  = match od_get tp (in_flight c) with Some y => cc_safe_offset y | None => latest c tp end.
Proof.
  intros Hc Hw. unfold latest. cbn.
  pose proof (co_worker _ (proj1 Hc)) as Hwo. unfold worker_ok in Hwo. rewrite Hw in Hwo. destruct Hwo as [Hb _].
  destruct (settle_all_spec (active_settlements true None batch c) (latest_settled_offsets c) tp) as [H1 H2];
    [apply NoDup_active_settlements, Hb|].
  destruct (od_get tp (in_flight c)) as [y|] eqn:Hy.
  - pose proof (proj2 (co_in_flight _ (proj1 Hc)) _ _ Hy) as <-. rewrite (H1 (settlement_of true None y)); [done| |done].
    apply elem_of_active_settlements. exists y. pose proof (bo_in _ _ _ _ Hb _ _ Hy).
    split; [done|]. split; [|done]. by eapply active_in_flight.
  - rewrite H2; [done|]. intros s (x & -> & Ha & Hx)%elem_of_active_settlements Ht. cbn in Ht.
    apply (active_in_flight c batch x Hc Hb Hx) in Ha. congruence.
Qed.

(** What the worker knows while it waits *)
Lemma waiting_batch c batch :
  coord_inv c → worker c = Committing batch ∨ (∃ o ss, worker c = Notifying o batch ss) →
  batch_ok (pending c) (in_flight c) (lease_counter c) batch.
Proof.
  intros [Hc _] Hw. pose proof (co_worker _ Hc) as Hwo. unfold worker_ok in Hwo.
  destruct Hw as [Hw|(o & ss & Hw)]; rewrite Hw in Hwo; apply Hwo.
Qed.

Lemma commit_done_inv o batch c :
  worker c = Committing batch → coord_inv c → coord_inv (worker_commit_done o batch c).
Proof.
  intros Hw Hc. pose proof (waiting_batch c batch Hc (or_introl Hw)) as Hb.
  pose proof Hc as [Hcore Hk]. pose proof (co_worker _ Hcore) as Hwo. unfold worker_ok in Hwo. rewrite Hw in Hwo.
  destruct o; [|split; [|exact Hk]; destruct Hcore; by constructor..].
  pose proof (commit_ok_latest c batch) as Hl. split; [|exact Hk]. destruct Hcore. constructor; try done.
  - intros tp x Hx. rewrite (Hl tp Hc Hw). change (pending _) with (pending c) in Hx.
    destruct (od_get tp (in_flight c)) as [y|] eqn:Hy; [by eapply co_order0|by apply co_above0].
  - split; [exact Hb|]. intros tp y Hy. change (in_flight _) with (in_flight c) in Hy.
    rewrite (Hl tp Hc Hw), Hy. done.
Qed.

Lemma active_pending_ext c p x :
  od_get (cc_tp x) p = od_get (cc_tp x) (pending c) → active (c <| pending := p |>) x = active c x.
Proof. intros H. unfold active, is_active_lease. cbn. by rewrite H. Qed.

Lemma retry_all_spec c l p :
  NoDup (cc_tp <$> l) → table_ok p →
  (∀ x, x ∈ l → od_get (cc_tp x) p = od_get (cc_tp x) (pending c)) →
  ∃ p', retry_all l (c <| pending := p |>) = c <| pending := p' |> ∧ table_ok p' ∧
    (∀ x, x ∈ l → active c x = true → od_get (cc_tp x) p' = Some x) ∧
    (∀ tp, od_get tp p' = od_get tp p ∨ ∃ x, x ∈ l ∧ cc_tp x = tp ∧ active c x = true ∧ od_get tp p' = Some x).
Proof.
  revert p. induction l as [|x l IH]; intros p; rewrite ?fmap_cons.
  { intros _ Hp _. exists p. split; [done|]. split; [done|]. split; [by intros ? ?%elem_of_nil|by left]. }
  intros [Hn Hnd]%NoDup_cons Hp Hsame. unfold retry_all in *. cbn [fold_left].
  rewrite (active_pending_ext c p x) by (apply Hsame; by left).
  assert (∀ y, y ∈ l → cc_tp x ≠ cc_tp y) as Hne.
  { intros y Hy Heq. apply Hn, list_elem_of_fmap. by exists y. }
  set (p1 := if active c x then od_set (cc_tp x) x p else p).
  assert ((if active c x then (c <| pending := p |>) <| pending ::= od_set (cc_tp x) x |> else c <| pending := p |>)
          = c <| pending := p1 |>) as -> by (unfold p1; by destruct (active c x)).
  destruct (IH p1) as (p' & Heq & Hp' & H1 & H2); [done| | |].
  { unfold p1. destruct (active c x); auto with py. }
  { intros y Hy. rewrite <-(Hsame y) by (by right). unfold p1. destruct (active c x); [|done].
    apply od_get_set_ne. by apply Hne. }
  exists p'. split; [done|]. split; [done|]. split.
  - intros y [->|Hy]%elem_of_cons Ha; [|by apply H1].
    destruct (H2 (cc_tp x)) as [->|(z & Hz & Ht & _)]; [|by destruct (Hne z Hz)].
    unfold p1. rewrite Ha. apply od_get_set_eq.
  - intros tp. destruct (H2 tp) as [Hold|(z & Hz & Ht)]; [|right; exists z; split; [by right|done]].
    rewrite Hold. unfold p1. destruct (active c x) eqn:Ha; [|by left]. rewrite od_get_set.
    case_decide; [|by left]. right. exists x. by split; [left|].
Qed.

Lemma table_pending_self c : c <| pending := pending c |> = c.
Proof. by destruct c. Qed.

(** After a failed commit, each partition's candidate is the one that was in flight, whatever was
    pending. *)
Lemma retry_all_pending c batch :
  coord_inv c → batch_ok (pending c) (in_flight c) (lease_counter c) batch →
  ∃ p', retry_all batch c = c <| pending := p' |> ∧ table_ok p' ∧
    ∀ tp, od_get tp p' = match od_get tp (in_flight c) with Some y => Some y | None => od_get tp (pending c) end.
Proof.
  intros Hc Hb. destruct (retry_all_spec c batch (pending c)) as (p' & Heq & Hp' & H1 & H2);
    [apply Hb|apply Hc|done|]. rewrite table_pending_self in Heq.
  exists p'. split; [done|]. split; [done|]. intros tp. destruct (od_get tp (in_flight c)) as [y|] eqn:Hy.
  - pose proof (proj2 (co_in_flight _ (proj1 Hc)) _ _ Hy) as <-. pose proof (bo_in _ _ _ _ Hb _ _ Hy) as Hin.
    apply H1; [done|]. by apply (active_in_flight c batch).
  - destruct (H2 tp) as [->|(x & Hx & <- & Ha & _)]; [done|].
    apply (active_in_flight c batch) in Ha; [congruence|done..].
Qed.

Lemma callback_result_inv (b : bool) ss c :
  coord_inv c → coord_inv (if b then c else callback_crashed ss c).
Proof. intros Hc. destruct b; [done|by apply (inv_frame c)]. Qed.

Lemma retried_inv c batch :
  coord_inv c → batch_ok (pending c) (in_flight c) (lease_counter c) batch →
  (∀ tp y, od_get tp (in_flight c) = Some y → latest c tp < cc_safe_offset y) →
  coord_inv ((prune_cancelled_leases ((retry_all batch c) <| in_flight := [] |>)) <| worker := LoopHead |>).
Proof.
  intros Hc Hb Hl. destruct (retry_all_pending c batch Hc Hb) as (p & -> & Hp & Hget).
  destruct Hc as [Hc Hk]. split; [|cbn; rewrite Hk; set_solver].
  constructor; cbn; auto with py; [| |done|].
  - intros tp x. rewrite Hget. destruct (od_get tp (in_flight c)) as [y|] eqn:Hy; [|apply (co_ids _ Hc)].
    intros [= <-]. by apply (in_flight_below_counter c tp).
  - intros tp x. rewrite Hget. destruct (od_get tp (in_flight c)) as [y|] eqn:Hy; [|apply (co_above _ Hc)].
    intros [= <-]. by apply Hl.
  - etransitivity; [|apply (co_bound _ Hc)]. apply Nat2Z.inj_le, subseteq_size. intros tp.
    rewrite !elem_of_used. cbn. rewrite Hget. destruct (od_get tp (in_flight c)); [by right; eauto|].
    intros [H|[? [=]]]; by left.
Qed.

Lemma abandoned_inv c batch w :
  (w = NoWorker ∨ w = LoopHead) →
  coord_inv c → batch_ok (pending c) (in_flight c) (lease_counter c) batch →
  coord_inv ((prune_cancelled_leases
    (c <| cancelled_leases ::= λ s, s ∪ list_to_set (lease_of <$> batch) |> <| in_flight := [] |>)) <| worker := w |>).
Proof.
  intros Hw [Hc Hk] Hb. pose proof (clear_in_flight_core c w Hw Hc) as Hcl.
  assert (coord_inv (prune_cancelled_leases ((c <| cancelled_leases ::= λ s, s ∪ list_to_set (lease_of <$> batch) |>
    <| in_flight := [] |>) <| worker := w |>))) as H; [|exact H].
  apply prune_inv; [by apply (coord_core_frame (c <| in_flight := [] |> <| worker := w |>))|].
  intros y Hy. unfold live_candidates in Hy. cbn in Hy |- *. rewrite app_nil_r in Hy.
  apply table_values in Hy; [|apply Hc].
  rewrite Hk, union_empty_l_L, elem_of_list_to_set, list_elem_of_fmap.
  intros (x & Heq & Hx). pose proof (bo_newer _ _ _ _ Hb _ _ _ Hx Hy). injection Heq. lia.
Qed.

Lemma notified_inv ok o batch ss c :
  worker c = Notifying o batch ss → coord_inv c → coord_inv (worker_notified ok o batch ss c).
Proof.
  intros Hw Hc0. unfold worker_notified. set (b := ok || _). set (c1 := if b then c else callback_crashed ss c).
  assert (coord_inv c1) as Hc by by apply callback_result_inv.
  assert (worker c1 = Notifying o batch ss) as Hw1 by (unfold c1; by destruct b). clearbody c1. clear Hc0 Hw c b.
  pose proof (waiting_batch c1 batch Hc ltac:(eauto)) as Hb.
  pose proof (co_worker _ (proj1 Hc)) as Hwo. unfold worker_ok in Hwo. rewrite Hw1 in Hwo. destruct Hwo as [_ Hl].
  destruct o; cbn zeta.
  - destruct Hc as [Hc Hk]. pose proof (clear_in_flight_core c1 LoopHead (or_intror eq_refl) Hc) as Hcl.
    destruct (ok && _); (split; [by apply (coord_core_frame (c1 <| in_flight := [] |> <| worker := LoopHead |>))|]);
      cbn; rewrite Hk; set_solver.
  - by apply retried_inv.
  - eapply inv_frame; [..|apply (abandoned_inv c1 batch LoopHead); eauto]; done.
  - eapply inv_frame; [..|apply (abandoned_inv c1 batch NoWorker); eauto]; done.
Qed.

Lemma coord_step_inv c op c' : coord_inv c → coord_step c op c' → coord_inv c'.
Proof.
  intros Hc Hs. destruct Hs.
  - by apply enqueue_inv.
  - by apply (inv_frame c).
  - by apply stop_inv.
  - by apply (inv_frame c).
  - by apply cancel_inv.
  - by apply worker_begin_inv.
  - by apply commit_done_inv.
  - by apply notified_inv.
Qed.

Lemma new_coordinator_inv n : 0 ≤ n → coord_inv (new_coordinator n).
Proof. intros Hn. split; [|done]. constructor; cbn; auto with py; done. Qed.

(** ** Where leases come from *)

(** The leases of [tp] the coordinator holds, or has not given out yet *)
Definition known_lease (c : CommitCoordinator) (tp : TopicPartition) (id : Z) : Prop :=
  (∃ x, od_get tp (pending c) = Some x ∧ cc_lease_id x = id)
  ∨ (∃ x, od_get tp (in_flight c) = Some x ∧ cc_lease_id x = id)
  ∨ lease_counter c < id.

Record leases_from (c c' : CommitCoordinator) : Prop := mkLeasesFrom {
  lf_known tp id : known_lease c' tp id → known_lease c tp id;
  lf_settled o b ss s : worker c' = Notifying o b ss → s ∈ ss →
    worker c = Notifying o b ss ∨ known_lease c (cs_tp s) (cs_lease_id s);
}.

#[local] Instance leases_from_preorder : PreOrder leases_from.
Proof.
  split.
  - intros c. constructor; eauto.
  - intros c1 c2 c3 [A1 A2] [B1 B2]. constructor; [eauto|]. intros o b ss s Hw Hs.
    destruct (B2 o b ss s Hw Hs) as [H|H]; eauto.
Qed.

Lemma leases_from_tables c c' :
  (∀ tp x, od_get tp (pending c') = Some x → known_lease c tp (cc_lease_id x)) →
  (∀ tp x, od_get tp (in_flight c') = Some x → known_lease c tp (cc_lease_id x)) →
  lease_counter c ≤ lease_counter c' →
  (worker c' = worker c ∨ ∀ o b ss, worker c' ≠ Notifying o b ss) → leases_from c c'.
Proof.
  intros Hp Hf Hn Hw. constructor.
  - intros tp id [(x & Hx & <-)|[(x & Hx & <-)|H]]; [eauto|eauto|right; right; lia].
  - intros o b ss s Hs _. left. destruct Hw as [<-|Hw]; [done|by destruct (Hw o b ss)].
Qed.

Lemma known_pending c tp x : od_get tp (pending c) = Some x → known_lease c tp (cc_lease_id x).
Proof. left. eauto. Qed.

Lemma known_in_flight c tp x : od_get tp (in_flight c) = Some x → known_lease c tp (cc_lease_id x).
Proof. right. left. eauto. Qed.

#[local] Hint Resolve known_pending known_in_flight : py.

Lemma popped_known (tp tp' : TopicPartition) (d : odict TopicPartition CommitCandidate) x :
  od_get tp' (od_pop tp d) = Some x → od_get tp' d = Some x.
Proof. rewrite od_get_pop. by case_decide. Qed.

#[local] Hint Resolve popped_known : py.

Lemma stop_partition_leases c tp : leases_from c (stop_partition c tp).
Proof. unfold stop_partition. case_match; apply leases_from_tables; cbn; eauto with py; reflexivity. Qed.

Lemma cancel_partition_leases c tp : leases_from c (cancel_partition c tp).
Proof. unfold cancel_partition. repeat case_match; apply leases_from_tables; cbn; eauto with py; reflexivity. Qed.

Lemma prune_leases c : leases_from c (prune_cancelled_leases c).
Proof. apply leases_from_tables; cbn; eauto with py; reflexivity. Qed.

Lemma fold_leases {A} (f : CommitCoordinator → A → CommitCoordinator) l c :
  (∀ c x, leases_from c (f c x)) → leases_from c (fold_left f l c).
Proof.
  intros Hf. apply (fold_left_inv (leases_from c)); [|reflexivity].
  intros c' x H. by etransitivity.
Qed.

Lemma enqueue_one_leases now x c c' ch k :
  enqueue_one now x c = Some (c', ch, k) → leases_from c c'.
Proof.
  unfold enqueue_one. intros H. repeat case_match; simplify_eq; try reflexivity;
    (apply leases_from_tables; cbn; [|eauto with py|lia|by left]);
    intros tp y; rewrite od_get_set;
    (destruct (decide (cc_tp x = tp)); [intros [= <-]; right; right; cbn; lia|eauto with py]).
Qed.

Lemma enqueue_loop_leases now xs ch k c c' ch' k' :
  enqueue_loop now xs ch k c = Some (c', ch', k') → leases_from c c'.
Proof.
  revert ch k c. induction xs as [|x xs IH]; intros ch k c; cbn; [by intros [= <- _ _]|].
  destruct (enqueue_one now x c) as [[[c1 ch1] k1]|] eqn:He; [|done].
  intros H%IH. apply enqueue_one_leases in He. by etransitivity.
Qed.

Lemma ensure_worker_leases c : leases_from c (ensure_worker c).
Proof.
  unfold ensure_worker. destruct (worker c) eqn:Hw; try reflexivity.
  apply leases_from_tables; cbn; eauto with py; try lia; by right.
Qed.

Lemma enqueue_leases now xs c : leases_from c (enqueue now xs c).2.
Proof.
  unfold enqueue. destruct (_ || _); [reflexivity|].
  destruct (enqueue_loop _ _ _ _ _) as [[[c1 ch] k]|] eqn:He; cbn.
  - apply enqueue_loop_leases in He. destruct ch; cbn; [|done]. etransitivity; [exact He|].
    etransitivity; [|apply ensure_worker_leases]. destruct (k =? 0); [reflexivity|].
    apply leases_from_tables; cbn; eauto with py; reflexivity.
  - apply leases_from_tables; cbn; eauto with py; reflexivity.
Qed.

Lemma commit_done_leases o batch c :
  coord_inv c → worker c = Committing batch → leases_from c (worker_commit_done o batch c).
Proof.
  intros Hc Hw. pose proof (waiting_batch c batch Hc (or_introl Hw)) as Hb.
  assert (∀ ok r s, s ∈ active_settlements ok r batch c → known_lease c (cs_tp s) (cs_lease_id s)) as Hs.
  { intros ok r s (x & -> & Ha & Hx)%elem_of_active_settlements.
    apply (active_in_flight c batch x Hc Hb Hx) in Ha. by apply known_in_flight. }
  assert (∀ tp id, known_lease (worker_commit_done o batch c) tp id → known_lease c tp id) as Hk
    by (by destruct o).
  constructor; [done|]. intros o' b ss s Hw' Hin. right.
  destruct o; cbn in Hw'; injection Hw' as <- <- <-; eauto.
Qed.

Lemma notified_leases ok o batch ss c :
  coord_inv c → worker c = Notifying o batch ss → leases_from c (worker_notified ok o batch ss c).
Proof.
  intros Hc0 Hw0. unfold worker_notified. set (b := ok || _).
  transitivity (if b then c else callback_crashed ss c).
  { destruct b; [reflexivity|]. apply leases_from_tables; cbn; eauto with py; reflexivity. }
  pose proof (callback_result_inv b ss c Hc0) as Hc.
  assert (worker (if b then c else callback_crashed ss c) = Notifying o batch ss) as Hw by by destruct b.
  set (c1 := if b then c else callback_crashed ss c) in *. clearbody c1.
  destruct o.
  - destruct (ok && _); apply leases_from_tables; cbn; eauto with py; try done; lia.
  - destruct (retry_all_pending c1 batch Hc (waiting_batch c1 batch Hc ltac:(eauto))) as (p & -> & _ & Hget).
    apply leases_from_tables; cbn; [|done|lia|by right]. intros tp x. rewrite Hget.
    destruct (od_get tp (in_flight c1)) eqn:Hy; [intros [= <-]|]; eauto with py.
  - apply leases_from_tables; cbn; eauto with py; try done; lia.
  - apply leases_from_tables; cbn; eauto with py; try done; lia.
Qed.

Lemma worker_begin_leases c : coord_inv c → leases_from c (worker_begin c).
Proof.
  intros [Hc _]. unfold worker_begin. case_decide.
  { apply leases_from_tables; cbn; eauto with py; try lia; by right. }
  destruct (negb _). { apply leases_from_tables; cbn; eauto with py; try lia; by right. }
  cbn zeta. rewrite (table_rebuild _ (co_pending _ Hc)).
  apply leases_from_tables; cbn; eauto with py; try done; lia.
Qed.

Lemma coord_step_leases c op c' : coord_inv c → coord_step c op c' → leases_from c c'.
Proof.
  intros Hc Hs. destruct Hs.
  - apply enqueue_leases.
  - apply leases_from_tables; cbn; eauto with py; reflexivity.
  - etransitivity; [|apply prune_leases]. apply fold_leases, stop_partition_leases.
  - apply leases_from_tables; cbn; eauto with py; reflexivity.
  - etransitivity; [|apply prune_leases]. apply fold_leases, cancel_partition_leases.
  - by apply worker_begin_leases.
  - by apply commit_done_leases.
  - by apply notified_leases.
Qed.

Lemma coord_run_leases c ops c' : coord_inv c → steps coord_step c ops c' → coord_inv c' ∧ leases_from c c'.
Proof.
  intros Hc Hs. induction Hs as [|c op c1 ops c2 H1 _ IH]; [by split; [|reflexivity]|].
  pose proof (coord_step_inv _ _ _ Hc H1) as Hc1. pose proof (coord_step_leases _ _ _ Hc H1).
  destruct (IH Hc1). split; [done|by etransitivity].
Qed.

Lemma coord_step_max c op c' : coord_step c op c' → queue_max_partitions c' = queue_max_partitions c.
Proof.
  assert (∀ now xs ch k c c' ch' k', enqueue_loop now xs ch k c = Some (c', ch', k') →
    queue_max_partitions c' = queue_max_partitions c) as Hq.
  { intros now xs. induction xs as [|x xs IH]; intros ch k c0 c0' ch' k'; cbn; [by intros [= <- _ _]|].
    destruct (enqueue_one now x c0) as [[[c1 ch1] k1]|] eqn:He; [|done]. intros ->%IH.
    unfold enqueue_one in He. repeat case_match; by simplify_eq. }
  intros Hs. destruct Hs; try done.
  - unfold enqueue. destruct (_ || _); [done|].
    destruct (enqueue_loop _ _ _ _ _) as [[[c1 ch] k]|] eqn:He; cbn; [|done]. rewrite <-(Hq _ _ _ _ _ _ _ _ He).
    destruct ch; cbn; [|done]. unfold ensure_worker. by destruct (k =? 0); cbn; destruct (worker c1).
  - apply (fold_left_inv (λ s, queue_max_partitions s = queue_max_partitions c)); [|done].
    intros s tp Hs. unfold stop_partition. by case_match.
  - apply (fold_left_inv (λ s, queue_max_partitions s = queue_max_partitions c)); [|done].
    intros s tp Hs. unfold cancel_partition. by repeat case_match.
  - unfold worker_begin. case_decide; [done|]. by destruct (negb _).
  - by destruct o.
  - unfold worker_notified. set (b := ok || _). destruct o; cbn;
      [by destruct (ok && _), b| |by destruct b|by destruct b].
    apply (fold_left_inv (λ s, queue_max_partitions s = queue_max_partitions c)); [|by destruct b].
    intros s x Hx. by destruct (active s x).
Qed.

(** Which offsets are known to be committed only changes when a commit comes back. *)
Lemma coord_step_latest c op c' :
  coord_step c op c' → op ≠ OpCommitDone CommitOk →
  coord_inv c → latest_settled_offsets c' = latest_settled_offsets c.
Proof.
  intros Hs Hop Hc. destruct Hs; try done.
  - by apply enqueue_inv.
  - apply (fold_left_inv (λ s, latest_settled_offsets s = latest_settled_offsets c)); [|done].
    intros s tp Hs. unfold stop_partition. by case_match.
  - apply (fold_left_inv (λ s, latest_settled_offsets s = latest_settled_offsets c)); [|done].
    intros s tp Hs. unfold cancel_partition. by repeat case_match.
  - unfold worker_begin. case_decide; [done|]. by destruct (negb _).
  - by destruct o.
  - unfold worker_notified. set (b := ok || _). destruct o; cbn;
      [by destruct (ok && _), b| |by destruct b|by destruct b].
    apply (fold_left_inv (λ s, latest_settled_offsets s = latest_settled_offsets c)); [|by destruct b].
    intros s x Hx. by destruct (active s x).
Qed.

Lemma coord_run_inv n ops c :
  0 ≤ n → steps coord_step (new_coordinator n) ops c → coord_inv c ∧ queue_max_partitions c = n.
Proof.
  intros Hn. apply (steps_invariant coord_step (λ c, coord_inv c ∧ queue_max_partitions c = n)).
  - intros s e s' [Hi Hm] Hs. split; [by eapply coord_step_inv|]. by rewrite (coord_step_max _ _ _ Hs).
  - split; [by apply new_coordinator_inv|done].
Qed.

#[local] Arguments od_pop : simpl never.

Lemma cancelled_gone tps c tp :
  tp ∈ tps → od_get tp (pending (fold_left cancel_partition tps c)) = None
           ∧ od_get tp (in_flight (fold_left cancel_partition tps c)) = None.
Proof.
  set (gone := λ s, od_get tp (pending s) = None ∧ od_get tp (in_flight s) = None).
  assert (∀ s tp', gone s → gone (cancel_partition s tp')) as Hkeep.
  { intros s tp' [H1 H2]. unfold cancel_partition, gone.
    destruct (od_get tp' (pending s)); cbn; destruct (od_get tp' (in_flight s)); cbn;
      rewrite ?(od_get_pop (pending _)), ?(od_get_pop (in_flight _)), ?H1, ?H2; by destruct (decide (tp' = tp)). }
  assert (∀ s, gone (cancel_partition s tp)) as Hgone.
  { intros s. unfold cancel_partition, gone.
    destruct (od_get tp (pending s)) eqn:H1; cbn; destruct (od_get tp (in_flight s)) eqn:H2; cbn;
      by rewrite ?od_get_pop_eq. }
  change (tp ∈ tps → gone (fold_left cancel_partition tps c)).
  revert c. induction tps as [|tp' tps IH]; intros c; [by intros ?%elem_of_nil|].
  cbn. intros [->|Hin]%elem_of_cons; [|by apply IH]. by apply (fold_left_inv gone).
Qed.

Lemma cancel_leases_counter tps c : lease_counter (cancel_leases tps c) = lease_counter c.
Proof.
  apply (fold_left_inv (λ s, lease_counter s = lease_counter c)); [|done].
  intros s tp Hs. unfold cancel_partition. by repeat case_match.
Qed.

Lemma cancel_leases_worker tps c : worker (cancel_leases tps c) = worker c.
Proof.
  apply (fold_left_inv (λ s, worker s = worker c)); [|done].
  intros s tp Hs. unfold cancel_partition. by repeat case_match.
Qed.

(** ** Properties *)

(** C18. In every run of the coordinator - enqueues, stops, restarts and cancellations in any order,
    interleaved with the worker's commits, their failures and the callbacks' failures - the work it
    holds stays within [queue_max_partitions] partitions, no cancelled lease is kept, and a pending
    candidate is always above the offset its partition last settled and above (in offset and in
    lease) the candidate of the partition that is being committed. *)
Theorem coordinator_invariant n ops c :
  0 ≤ n → steps coord_step (new_coordinator n) ops c →
  Z.of_nat (size (used_partitions c)) ≤ n ∧ cancelled_leases c = ∅
  ∧ ∀ tp x, od_get tp (pending c) = Some x →
      cc_tp x = tp ∧ latest c tp < cc_safe_offset x
      ∧ ∀ y, od_get tp (in_flight c) = Some y →
          cc_safe_offset y < cc_safe_offset x ∧ cc_lease_id y < cc_lease_id x.
Proof.
  intros Hn Hs. destruct (coord_run_inv n ops c Hn Hs) as [[Hc Hk] Hm]. rewrite <-Hm.
  split; [apply Hc|]. split; [done|]. intros tp x Hx.
  split; [by apply (co_pending _ Hc)|]. split; [by apply (co_above _ Hc)|].
  intros y Hy. split; [by eapply (co_order _ Hc)|by eapply in_flight_older].
Qed.

(** The offset a partition is known to have committed never goes back, and it moves only when
    the broker accepts a batch: then it becomes the offset of the member of that batch that is still
    in flight for the partition. *)
Theorem settled_offset_moves_by_commits n ops c op c' tp :
  0 ≤ n → steps coord_step (new_coordinator n) ops c → coord_step c op c' →
  latest c tp ≤ latest c' tp
  ∧ (latest c' tp ≠ latest c tp →
      op = OpCommitDone CommitOk
      ∧ ∃ batch x, worker c = Committing batch ∧ x ∈ batch ∧ od_get tp (in_flight c) = Some x
                   ∧ latest c' tp = cc_safe_offset x).
Proof.
  intros Hn Hs Hstep. destruct (coord_run_inv n ops c Hn Hs) as [Hc _].
  assert (op = OpCommitDone CommitOk ∨ op ≠ OpCommitDone CommitOk) as [->|Hop].
  { destruct op as [| | | | | |[]|]; auto. }
  2: { unfold latest. rewrite (coord_step_latest _ _ _ Hstep Hop Hc). done. }
  inversion Hstep as [| | | | | |o batch Hw|]; subst. rewrite (commit_ok_latest c batch tp Hc Hw).
  pose proof (waiting_batch c batch Hc (or_introl Hw)) as Hb.
  pose proof (co_worker _ (proj1 Hc)) as Hwo. unfold worker_ok in Hwo. rewrite Hw in Hwo. destruct Hwo as [_ Hl].
  destruct (od_get tp (in_flight c)) as [y|] eqn:Hy; [|done].
  pose proof (Hl tp y Hy). split; [lia|]. intros _. split; [done|]. exists batch, y.
  by pose proof (bo_in _ _ _ _ Hb _ _ Hy).
Qed.

(** C19. Cancelling a partition's leases fences them: unless a callback was already running, no
    settlement delivered later - whatever is enqueued, committed or retried in between - carries a
    lease of the partition given out before the cancellation. *)
Theorem cancel_fences_leases n ops c tps ops' c' o batch ss s :
  0 ≤ n → steps coord_step (new_coordinator n) ops c →
  (∀ o b l, worker c ≠ Notifying o b l) →
  steps coord_step (cancel_leases tps c) ops' c' →
  worker c' = Notifying o batch ss → s ∈ ss → cs_tp s ∈ tps →
  lease_counter c < cs_lease_id s.
Proof.
  intros Hn Hs Hnot Hs' Hw Hin Htp. destruct (coord_run_inv n ops c Hn Hs) as [Hc _].
  pose proof (cancel_inv c tps Hc) as Hc1.
  destruct (coord_run_leases _ _ _ Hc1 Hs') as [_ [_ Hlf]].
  destruct (Hlf o batch ss s Hw Hin) as [H|H].
  { rewrite cancel_leases_worker in H. by destruct (Hnot o batch ss). }
  destruct (cancelled_gone tps c _ Htp) as [Hp Hf]. destruct H as [(x & Hx & _)|[(x & Hx & _)|H]].
  - unfold cancel_leases in Hx. cbn in Hx. congruence.
  - unfold cancel_leases in Hx. cbn in Hx. congruence.
  - by rewrite cancel_leases_counter in H.
Qed.

(** A failed commit puts the batch back over whatever was enqueued meanwhile: the newer candidate
    of the partition is dropped, and with it the progress it stood for, until somebody enqueues it
    again. *)
Lemma retry_drops_newer_candidate n ops c batch ss tp x y :
  0 ≤ n → steps coord_step (new_coordinator n) ops c →
  worker c = Notifying KafkaFailure batch ss →
  od_get tp (in_flight c) = Some y → od_get tp (pending c) = Some x →
  cc_safe_offset y < cc_safe_offset x
  ∧ od_get tp (pending (worker_notified true KafkaFailure batch ss c)) = Some y
  ∧ in_flight (worker_notified true KafkaFailure batch ss c) = [].
Proof.
  intros Hn Hs Hw Hy Hx. destruct (coord_run_inv n ops c Hn Hs) as [Hc _].
  split; [by eapply (co_order _ (proj1 Hc))|]. split; [|done].
  destruct (retry_all_pending c batch Hc (waiting_batch c batch Hc ltac:(eauto))) as (p & Heq & _ & Hget).
  unfold worker_notified. cbn -[retry_all]. rewrite Heq. cbn. by rewrite Hget, Hy.
Qed.

(** The memory of settled offsets outlives an assignment: a candidate of the new assignment that
    is not above it is accepted and forgotten. *)
Lemma settled_memory_survives_reassignment now tp x c :
  accepting c = true → healthy c = true → cc_tp x = tp → cc_safe_offset x ≤ latest c tp →
  let c1 := start_accepting_partitions [tp] (stop_accepting_partitions [tp] c) in
  enqueue now [x] c1 = (true, c1).
Proof.
  intros Ha Hh Ht Hle c1. unfold enqueue.
  assert (accepting c1 = true ∧ healthy c1 = true ∧ latest c1 tp = latest c tp
          ∧ tp ∉ stopped_partitions c1) as (-> & -> & Hl & Hst).
  { unfold c1, start_accepting_partitions, stop_accepting_partitions. cbn [fold_left]. unfold stop_partition.
    case_match; cbn; (repeat (split; [done|])); set_solver. }
  cbn [negb orb enqueue_loop]. unfold enqueue_one. rewrite Ht, decide_False by done. fold (latest c1 tp). rewrite Hl.
  by rewrite (proj2 (Z.leb_le _ _) Hle).
Qed.

(** ** Witness run

    Offset 4 of a partition is being committed while 9 is enqueued; the first attempt fails and
    the second succeeds.  Runs are computed with [exec], which agrees with the relation. *)

Definition enabled (op : CoordOp) (c : CommitCoordinator) : bool :=
  match op, worker c with
  | OpBegin, LoopHead | OpCommitDone _, Committing _ | OpNotified _, Notifying _ _ _ => true
  | (OpBegin | OpCommitDone _ | OpNotified _), _ => false
  | _, _ => true
  end.

Definition exec (c : CommitCoordinator) (op : CoordOp) : CommitCoordinator :=
  match op, worker c with
  | OpEnqueue now xs, _ => (enqueue now xs c).2
  | OpStopAccepting, _ => stop_accepting c
  | OpStop tps, _ => stop_accepting_partitions tps c
  | OpStart tps, _ => start_accepting_partitions tps c
  | OpCancel tps, _ => cancel_leases tps c
  | OpBegin, _ => worker_begin c
  | OpCommitDone o, Committing batch => worker_commit_done o batch c
  | OpNotified ok, Notifying o batch ss => worker_notified ok o batch ss c
  | _, _ => c
  end.

Fixpoint all_enabled (ops : list CoordOp) (c : CommitCoordinator) : bool :=
  match ops with [] => true | op :: rest => enabled op c && all_enabled rest (exec c op) end.

Lemma exec_step op c : enabled op c = true → coord_step c op (exec c op).
Proof. destruct op; cbn; try (by constructor); destruct (worker c) eqn:Hw; try done; by constructor. Qed.

Lemma exec_run ops c : all_enabled ops c = true → steps coord_step c ops (fold_left exec ops c).
Proof.
  revert c. induction ops as [|op ops IH]; intros c; cbn; [constructor|].
  intros [H1 H2]%andb_true_iff. econstructor; [by apply exec_step|by apply IH].
Qed.

Definition demo_tp : TopicPartition := mkTp "orders" 0.
Definition demo_candidate (offset : Z) : CommitCandidate := mkCandidate demo_tp offset 1 0 0%Q.

Definition demo_committing : list CoordOp :=
  [OpEnqueue 1%Q [demo_candidate 4]; OpBegin; OpEnqueue 2%Q [demo_candidate 9]].

Definition demo_state (ops : list CoordOp) : CommitCoordinator := fold_left exec ops (new_coordinator 2).

Lemma demo_run : steps coord_step (new_coordinator 2) demo_committing (demo_state demo_committing).
Proof. apply exec_run. vm_compute. reflexivity. Qed.

Lemma coordinator_invariant_witness :
  cc_safe_offset <$> od_get demo_tp (pending (demo_state demo_committing)) = Some 9
  ∧ cc_safe_offset <$> od_get demo_tp (in_flight (demo_state demo_committing)) = Some 4
  ∧ Z.of_nat (size (used_partitions (demo_state demo_committing))) ≤ 2.
Proof.
  split; [vm_compute; reflexivity|]. split; [vm_compute; reflexivity|].
  exact (proj1 (coordinator_invariant 2 demo_committing (demo_state demo_committing) ltac:(lia) demo_run)).
Defined.

Lemma settled_offset_moves_by_commits_witness :
  latest (demo_state demo_committing) demo_tp = -1
  ∧ latest (exec (demo_state demo_committing) (OpCommitDone CommitOk)) demo_tp = 4
  ∧ -1 ≤ latest (exec (demo_state demo_committing) (OpCommitDone CommitOk)) demo_tp.
Proof.
  split; [vm_compute; reflexivity|]. split; [vm_compute; reflexivity|].
  exact (proj1 (settled_offset_moves_by_commits 2 demo_committing (demo_state demo_committing)
    (OpCommitDone CommitOk) (exec (demo_state demo_committing) (OpCommitDone CommitOk)) demo_tp
    ltac:(lia) demo_run (exec_step (OpCommitDone CommitOk) (demo_state demo_committing) ltac:(vm_compute; reflexivity)))).
Defined.

(** The leases of the partition are cancelled during the commit; offset 9 is enqueued again. *)
Definition demo_after_cancel : list CoordOp :=
  [OpCommitDone CommitOk; OpNotified true; OpEnqueue 3%Q [demo_candidate 9]; OpBegin; OpCommitDone CommitOk].

Definition demo_cancelled : CommitCoordinator := cancel_leases [demo_tp] (demo_state demo_committing).

Definition demo_settlement : CommitSettlement := mkSettlement demo_tp 9 1 3 true None.

Lemma demo_cancelled_run : steps coord_step demo_cancelled demo_after_cancel (fold_left exec demo_after_cancel demo_cancelled).
Proof. apply exec_run. vm_compute. reflexivity. Qed.

Lemma demo_cancelled_worker :
  worker (fold_left exec demo_after_cancel demo_cancelled)
  = Notifying CommitOk [mkCandidate demo_tp 9 1 3 3%Q] [demo_settlement].
Proof. vm_compute. reflexivity. Qed.

Lemma demo_not_notifying o b l : worker (demo_state demo_committing) ≠ Notifying o b l.
Proof. vm_compute. discriminate. Qed.

Lemma cancel_fences_leases_witness :
  lease_counter (demo_state demo_committing) = 2 ∧ 2 < cs_lease_id demo_settlement.
Proof.
  split; [vm_compute; reflexivity|].
  exact (cancel_fences_leases 2 demo_committing (demo_state demo_committing) [demo_tp] demo_after_cancel
    (fold_left exec demo_after_cancel demo_cancelled) CommitOk _ _ demo_settlement ltac:(lia) demo_run
    demo_not_notifying demo_cancelled_run demo_cancelled_worker
    (list_elem_of_here _ _) (list_elem_of_here _ _)).
Defined.
