(* ===== verification/CoordinatorMetrics.v ===== *)
(** * Metrics of the commit coordinator ([control_plane/commit_coordinator_metrics.py])

    The sink turns the [record_metrics] calls of the coordinator into counters of the exporter.  The
    exporter, the engine type and the pending depth are read anew at every call; a call may raise what
    the exporter raises, and the coordinator's worker has no handler for that. *)

From S2P Require Import Prelude Dto MetricsDto Prometheus MetricsExporter CommitCoordinator CommitCoordinatorInv.

Abbreviation Metric := (string * option string * Z)%type.

Section sink.
Context `{PL : PrometheusLib} (engine_type : string).
Implicit Types (x : option Exporter) (e : Exporter).

(** An exporter's method, when there is an exporter: whether it returned, and the exporter *)
Definition call_exporter (f : Exporter → bool * Exporter) x : bool * option Exporter :=
  match x with
  | None => (true, None)
  | Some e => let '(ok, e') := f e in (ok, Some e')
  end.

Definition then_call (r : bool * option Exporter) (f : option Exporter → bool * option Exporter) : bool * option Exporter :=
  if r.1 then f r.2 else r.

Definition record_pending_depth (depth : option Z) x : bool * option Exporter :=
  match depth with
  | None => (true, x)
  | Some d => call_exporter (set_commit_coordinator_pending_partitions engine_type d) x
  end.

Definition record_submitted (n : Z) : option Exporter → bool * option Exporter :=
  call_exporter (record_commit_coordinator_submitted engine_type n).

Definition record_success (n : Z) (latency : option Q) x : bool * option Exporter :=
  then_call (call_exporter (record_commit_coordinator_success engine_type n) x)
    (λ x1, match latency with
           | None => (true, x1)
           | Some l => call_exporter (observe_commit_coordinator_settlement_latency engine_type l) x1
           end).

Definition record_failure (reason : string) (n : Z) : option Exporter → bool * option Exporter :=
  call_exporter (record_commit_coordinator_failure engine_type reason n).

Definition record_retry (reason : string) (n : Z) : option Exporter → bool * option Exporter :=
  call_exporter (record_commit_coordinator_retry engine_type reason n).

Definition record_coalesced (n : Z) : option Exporter → bool * option Exporter :=
  call_exporter (record_commit_coordinator_coalesced engine_type n).

(** [depth] is what [get_pending_depth] returns at the time of the call *)
Definition record_event (event : string) (reason : option string) (n : Z) (latency : option Q) (depth : option Z) x
    : bool * option Exporter :=
  then_call (record_pending_depth depth x)
    (λ x1,
      if decide (event = "submitted"%string) then record_submitted n x1
      else if decide (event = "success"%string) then record_success n latency x1
      else match reason with
           | Some r =>
               if decide (event = "failure"%string) then record_failure r n x1
               else if decide (event = "retry"%string) then record_retry r n x1
               else if decide (event = "coalesced"%string) then record_coalesced n x1 else (true, x1)
           | None => if decide (event = "coalesced"%string) then record_coalesced n x1 else (true, x1)
           end).

(** A [record_metrics] call with what its latency and the depth were *)
Record SinkCall := mkSinkCall { call_metric : Metric; call_latency : option Q; call_depth : option Z }.

Definition record_call (r : bool * option Exporter) (k : SinkCall) : bool * option Exporter :=
  then_call r (record_event (call_metric k).1.1 (call_metric k).1.2 (call_metric k).2 (call_latency k) (call_depth k)).

Definition record_calls (calls : list SinkCall) x : bool * option Exporter := fold_left record_call calls (true, x).

End sink.

(** ** What the coordinator records *)

(** The sum of the counts recorded for an event and a reason *)
Definition log_total (key : string * option string) (l : list Metric) : Z :=
  foldr (λ m acc, (if decide (m.1 = key) then m.2 else 0) + acc) 0 l.

Lemma log_total_app key l1 l2 : log_total key (l1 ++ l2) = log_total key l1 + log_total key l2.
Proof. unfold log_total. induction l1 as [|m l IH]; cbn; lia. Qed.

#[local] Arguments log_total : simpl never.

Definition emitted_keys : list (string * option string) :=
  [("submitted", None); ("success", None); ("coalesced", None); ("retry", Some "kafka_exception");
   ("failure", Some "queue_full"); ("failure", Some "stale_lease"); ("failure", Some "worker_crash")]%string.

Definition metric_ok (m : Metric) : Prop := 0 ≤ m.2 ∧ m.1 ∈ emitted_keys.

(** What the worker counted and has not recorded yet *)
Definition unreported (c : CommitCoordinator) : Z :=
  match worker c with Notifying WorkerCrash batch _ => zlen batch | _ => 0 end.

Definition unsettled (c : CommitCoordinator) : Z :=
  match worker c with Notifying CommitOk _ ss => zlen ss | _ => 0 end.

Abbreviation failure_total l := (log_total ("failure", Some "queue_full")%string l + log_total ("failure", Some "worker_crash")%string l).

(** The records agree with the counts of [stats], up to [u] failures and [v] successes that are counted
    and not recorded yet *)
Record metrics_core (u v : Z) (c : CommitCoordinator) : Prop := mkMetricsCore {
  mi_ok : Forall metric_ok (metrics c);
  mi_submitted : log_total ("submitted", None)%string (metrics c) = submitted_count c;
  mi_coalesced : log_total ("coalesced", None)%string (metrics c) = coalesced_count c;
  mi_retry : log_total ("retry", Some "kafka_exception")%string (metrics c) = retry_count c;
  mi_failure : failure_total (metrics c) + u = failure_count c;
  mi_success : log_total ("success", None)%string (metrics c) + v ≤ success_count c;
}.

Definition metrics_inv (c : CommitCoordinator) : Prop := metrics_core (unreported c) (unsettled c) c.

(** What the invariant looks at *)
Definition counters (c : CommitCoordinator) :=
  (metrics c, submitted_count c, coalesced_count c, retry_count c, failure_count c, success_count c).

Definition quiet (c c' : CommitCoordinator) : Prop := counters c' = counters c ∧ worker c' = worker c.

#[local] Instance quiet_preorder : PreOrder quiet.
Proof. split; [done|]. intros c1 c2 c3 [H1 H2] [H3 H4]. split; congruence. Qed.

Lemma fold_quiet {A} (f : CommitCoordinator → A → CommitCoordinator) l c :
  (∀ c x, quiet c (f c x)) → quiet c (fold_left f l c).
Proof. intros Hf. revert c. induction l as [|x l IH]; intros c; cbn; [done|]. etransitivity; [apply Hf|apply IH]. Qed.

Lemma stop_partition_quiet c tp : quiet c (stop_partition c tp).
Proof. unfold stop_partition. by destruct (od_get tp _). Qed.

Lemma cancel_partition_quiet c tp : quiet c (cancel_partition c tp).
Proof.
  unfold cancel_partition. destruct (od_get tp (pending c)); cbn; by destruct (od_get tp _).
Qed.

Lemma retry_quiet batch c : quiet c (retry_all batch c).
Proof. apply fold_quiet. intros c' x. by destruct (active c' x). Qed.

Lemma enqueue_one_quiet now x c c' ch k : enqueue_one now x c = Some (c', ch, k) → quiet c c' ∧ 0 ≤ k.
Proof.
  unfold enqueue_one. intros H. repeat case_decide; simplify_eq; try done.
  repeat (case_match; simplify_eq; try done).
Qed.

Lemma enqueue_loop_quiet now xs ch k c c' ch' k' :
  0 ≤ k → enqueue_loop now xs ch k c = Some (c', ch', k') → quiet c c' ∧ 0 ≤ k'.
Proof.
  revert ch k c. induction xs as [|x xs IH]; intros ch k c Hk; cbn [enqueue_loop]; [by intros [= <- <- <-]|].
  destruct (enqueue_one now x c) as [[[c1 ch1] k1]|] eqn:H1; [|done].
  apply enqueue_one_quiet in H1 as [H1 H2]. intros [H3 H4]%IH; [|lia]. split; [by etransitivity|done].
Qed.

(** ** The invariant *)

Lemma core_counters u v c c' : counters c' = counters c → metrics_core u v c → metrics_core u v c'.
Proof.
  intros Hc [H1 H2 H3 H4 H5 H6]. unfold counters in Hc. injection Hc as E1 E2 E3 E4 E5 E6.
  constructor; rewrite E1; try done; congruence.
Qed.

Lemma core_less u v v' c : metrics_core u v c → v' ≤ v → metrics_core u v' c.
Proof. intros [] ?. constructor; try done. lia. Qed.

Lemma quiet_inv c c' : quiet c c' → metrics_inv c → metrics_inv c'.
Proof. intros [Hc Hw]. unfold metrics_inv, unreported, unsettled. rewrite Hw. by apply core_counters. Qed.

Lemma log_total_snoc key l m : log_total key (l ++ [m]) = log_total key l + (if decide (m.1 = key) then m.2 else 0).
Proof. rewrite log_total_app. unfold log_total. cbn. lia. Qed.

Lemma emitted (m : Metric) : 0 ≤ m.2 → bool_decide (m.1 ∈ emitted_keys) = true → metric_ok m.
Proof. intros. split; [done|by eapply bool_decide_eq_true]. Qed.

(** One more record, and what it adds to the sums *)
Ltac record_solve :=
  first [apply Forall_app; split; [assumption|apply Forall_singleton, emitted; [cbn; first [lia|apply zlen_nonneg]|by vm_compute]]
        |rewrite ?log_total_snoc; cbn; repeat case_decide; simplify_eq; lia].

Lemma new_coordinator_metrics n : metrics_inv (new_coordinator n).
Proof. by constructor. Qed.

Lemma enqueue_metrics now xs c : metrics_inv c → metrics_inv (enqueue now xs c).2.
Proof.
  intros Hc. unfold enqueue. destruct (negb (accepting c) || negb (healthy c)); [done|].
  destruct (enqueue_loop now xs false 0 c) as [[[c1 changed] coalesced]|] eqn:Hl; cbn.
  2: { unfold metrics_inv, unreported, unsettled in *. destruct Hc. unfold record_metric. constructor; cbn; record_solve. }
  apply enqueue_loop_quiet in Hl as [Hq Hk]; [|lia]. apply (quiet_inv _ _ Hq) in Hc.
  destruct changed; cbn; [|done].
  set (c2 := if coalesced =? 0 then c1 else _). assert (metrics_inv c2) as H2.
  { subst c2. destruct (coalesced =? 0); [done|].
    unfold metrics_inv, unreported, unsettled in *. destruct Hc. unfold record_metric. constructor; cbn; record_solve. }
  unfold ensure_worker. destruct (worker c2) eqn:Hw; try done.
  unfold metrics_inv, unreported, unsettled in *. rewrite Hw in H2. by apply (core_counters 0 0 c2).
Qed.

Lemma begin_metrics c : worker c = LoopHead → metrics_inv c → metrics_inv (worker_begin c).
Proof.
  unfold metrics_inv, unreported, unsettled. intros -> Hc. unfold worker_begin.
  case_decide; [by apply (core_counters 0 0 c)|]. destruct (negb (healthy c)); [by apply (core_counters 0 0 c)|].
  destruct Hc. unfold record_metric. constructor; cbn; record_solve.
Qed.

Lemma commit_done_metrics o batch c : worker c = Committing batch → metrics_inv c → metrics_inv (worker_commit_done o batch c).
Proof.
  unfold metrics_inv, unreported, unsettled. intros -> []. destruct o; unfold worker_commit_done, record_metric;
    constructor; cbn; try assumption; record_solve.
Qed.

Lemma crashed_metrics u v ss c : metrics_core u v c → metrics_core u v (callback_crashed ss c).
Proof. intros []. unfold callback_crashed, record_metric. constructor; cbn; record_solve. Qed.

Lemma notified_metrics ok o batch ss c :
  worker c = Notifying o batch ss → metrics_inv c → metrics_inv (worker_notified ok o batch ss c).
Proof.
  unfold metrics_inv, unreported, unsettled. intros ->. unfold worker_notified. intros Hc.
  set (c1 := if ok || _ then c else _).
  assert (metrics_core (match o with WorkerCrash => zlen batch | _ => 0 end) (match o with CommitOk => zlen ss | _ => 0 end) c1) as H1.
  { subst c1. destruct (ok || _); destruct o; try done; by apply crashed_metrics. }
  destruct o; cbn [worker set_field].
  - destruct (ok && _).
    + destruct H1. unfold record_metric. constructor; cbn; record_solve.
    + apply (core_less 0 (zlen ss)); [|apply zlen_nonneg]. by apply (core_counters 0 (zlen ss) c1).
  - apply (core_counters 0 0 c1); [|done]. apply (retry_quiet batch c1).
  - destruct H1. unfold record_metric. constructor; cbn; record_solve.
  - destruct H1. unfold record_metric. constructor; cbn; record_solve.
Qed.

Lemma coord_step_metrics c op c' : metrics_inv c → coord_step c op c' → metrics_inv c'.
Proof.
  intros Hc H. destruct H; [by apply enqueue_metrics|by apply (quiet_inv c)| |by apply (quiet_inv c)| |by apply begin_metrics
    |by apply commit_done_metrics|by apply notified_metrics].
  - eapply quiet_inv; [|exact Hc]. etransitivity; [apply (fold_quiet stop_partition tps), stop_partition_quiet|by split].
  - eapply quiet_inv; [|exact Hc]. etransitivity; [apply (fold_quiet cancel_partition tps), cancel_partition_quiet|by split].
Qed.

Lemma coord_run_metrics n ops c : steps coord_step (new_coordinator n) ops c → metrics_inv c.
Proof.
  intros H. eapply steps_invariant; [|apply new_coordinator_metrics|exact H]. intros s ev s'. apply coord_step_metrics.
Qed.

(** ** What the exporter shows *)

(** The counter an event goes to *)
Definition counter_of (engine_type : string) (key : string * option string) : option (CounterField * list string) :=
  if decide (key.1 = "submitted"%string) then Some (coordinator_submitted_total, [engine_type])
  else if decide (key.1 = "success"%string) then Some (coordinator_success_total, [engine_type])
  else if decide (key.1 = "coalesced"%string) then Some (coordinator_coalesced_total, [engine_type])
  else match key.2 with
       | Some r => if decide (key.1 = "failure"%string) then Some (coordinator_failures_total, [engine_type; r])
                   else Some (coordinator_retries_total, [engine_type; r])
       | None => None
       end.

Section shown.
Context `{PL : PrometheusLib} (engine_type : string) (known : engine_type ∈ PIPELINE_ENGINE_TYPES).
Implicit Types (e : Exporter) (k : SinkCall).

(** What a counter shows, 0 before its first increment *)
Definition shown e (target : CounterField * list string) : Z := default 0 (count e target.1 target.2).

(** The increments of a call *)
Definition added (m : Metric) (target : CounterField * list string) : Z :=
  if decide (counter_of engine_type m.1 = Some target) then m.2 else 0.

(** A call returned and added [n] to [target], and nothing else *)
Definition adds (m : Metric) e (r : bool * option Exporter) : Prop :=
  ∃ e', r = (true, Some e') ∧ ∀ target, shown e' target = shown e target + added m target.

Lemma shown_inc f ls n e target :
  0 ≤ n → shown (inc f ls n e).2 target = shown e target + (if decide ((f, ls) = target) then n else 0).
Proof.
  intros Hn. unfold shown. rewrite count_inc. destruct target as [f' ls']. cbn. case_decide as H; [|lia].
  simplify_eq. cbn. lia.
Qed.

Lemma inc_returns f ls n e : 0 ≤ n → inc f ls n e = (true, (inc f ls n e).2).
Proof. intros Hn. pose proof (inc_ok f ls n e) as H. destruct (inc f ls n e). cbn in *. rewrite H. f_equal. by apply Z.leb_le. Qed.

Lemma gauge_keeps_shown w e target : shown (run_write w e) target = shown e target.
Proof. unfold shown, count. by destruct w. Qed.

Lemma observe_keeps_shown f ls x e target : shown (observe f ls x e) target = shown e target.
Proof. done. Qed.

Lemma inc_adds f ls m e e1 e2 :
  0 ≤ m.2 → counter_of engine_type m.1 = Some (f, ls) → (∀ t, shown e1 t = shown e t) →
  (∀ t, shown e2 t = shown (inc f ls m.2 e1).2 t) → adds m e (true, Some e2).
Proof.
  intros Hn Hc H1 H2. exists e2. split; [done|]. intros t. rewrite H2, shown_inc, H1 by done. unfold added. rewrite Hc.
  repeat case_decide; simplify_eq; done.
Qed.

(** The guards of a call of the coordinator hold *)
Ltac pass_guards :=
  cbn [then_call call_exporter fst snd];
  repeat first [rewrite decide_True by done|rewrite decide_False by done|rewrite decide_True by (by apply (bool_decide_unpack _))
               |rewrite inc_returns by done; cbn [then_call call_exporter fst snd]].

Lemma record_event_adds m latency depth e :
  metric_ok m → adds m e (record_event engine_type m.1.1 m.1.2 m.2 latency depth (Some e)).
Proof.
  intros [Hn Hm]. unfold record_event.
  assert (∃ e1, record_pending_depth engine_type depth (Some e) = (true, Some e1) ∧ ∀ t, shown e1 t = shown e t) as (e1 & -> & H1).
  { unfold record_pending_depth, set_commit_coordinator_pending_partitions, with_engine_type. destruct depth as [d|]; [|by exists e].
    cbn [call_exporter]. rewrite decide_True by done. eexists. split; [done|]. intros t. apply gauge_keeps_shown. }
  destruct m as [[ev r] n]. cbn in Hn, Hm |- *.
  unfold record_submitted, record_success, record_failure, record_retry, record_coalesced, record_commit_coordinator_submitted,
    record_commit_coordinator_success, record_commit_coordinator_failure, record_commit_coordinator_retry,
    record_commit_coordinator_coalesced, observe_commit_coordinator_settlement_latency, with_engine_type, with_coordinator_reason.
  unfold emitted_keys in Hm. rewrite !elem_of_cons in Hm.
  destruct Hm as [[= -> ->]|[[= -> ->]|[[= -> ->]|[[= -> ->]|[[= -> ->]|[[= -> ->]|[[= -> ->]|H%elem_of_nil]]]]]]]; [..|done];
    pass_guards; try destruct latency; pass_guards; (eapply inc_adds; [done|reflexivity|exact H1|]);
    intros t; rewrite ?observe_keeps_shown; done.
Qed.

(** Recording everything that was emitted: no call raises, and each counter shows the sum of its records. *)
Lemma record_calls_add calls e :
  Forall (λ k, metric_ok (call_metric k)) calls →
  ∃ e', record_calls engine_type calls (Some e) = (true, Some e')
    ∧ ∀ t, shown e' t = shown e t + foldr (λ k acc, added (call_metric k) t + acc) 0 calls.
Proof.
  unfold record_calls. revert e. induction calls as [|k calls IH]; intros e Hk; cbn [fold_left].
  { exists e. split; [done|]. intros t. cbn. lia. }
  apply Forall_cons in Hk as [Hk Hcalls]. destruct (record_event_adds (call_metric k) (call_latency k) (call_depth k) e Hk)
    as (e1 & H1 & H2).
  assert (record_call engine_type (true, Some e) k = (true, Some e1)) as -> by exact H1.
  destruct (IH e1 Hcalls) as (e2 & H3 & H4). exists e2. split; [done|]. intros t. rewrite H4, H2. cbn. lia.
Qed.

Lemma added_total (key : string * option string) t calls :
  counter_of engine_type key = Some t → Forall (λ k, metric_ok (call_metric k)) calls → key ∈ emitted_keys →
  foldr (λ k acc, added (call_metric k) t + acc) 0 calls = log_total key (call_metric <$> calls).
Proof.
  intros Ht Hk Hkey. induction Hk as [|k calls [Hn Hm] _ IH]; [done|]. cbn. rewrite IH. unfold log_total. cbn. f_equal.
  unfold added. destruct (decide ((call_metric k).1 = key)) as [->|Hne]; [by rewrite decide_True|]. rewrite decide_False; [done|].
  intros Heq. rewrite <-Ht in Heq. apply Hne. clear -Heq Hm Hkey. destruct (call_metric k) as [[ev r] n]. destruct key as [ev' r'].
  cbn in *. unfold emitted_keys in *. rewrite !elem_of_cons, elem_of_nil in Hm, Hkey.
  destruct Hm as [[= -> ->]|[[= -> ->]|[[= -> ->]|[[= -> ->]|[[= -> ->]|[[= -> ->]|[[= -> ->]|[]]]]]]]];
  destruct Hkey as [[= -> ->]|[[= -> ->]|[[= -> ->]|[[= -> ->]|[[= -> ->]|[[= -> ->]|[[= -> ->]|[]]]]]]]]; try done; discriminate Heq.
Qed.

Lemma shown_new enabled server f ls : counter_labelnames f ≠ [] → shown (new_exporter enabled server) (f, ls) = 0.
Proof.
  intros Hf. unfold shown, count. cbn [fst snd].
  assert (ex_counters (new_exporter enabled server) f = new_counter (counter_labelnames f)) as ->.
  { unfold new_exporter. destruct enabled, server; done. }
  cbn. rewrite counter_sample_new, decide_False; [done|]. by intros [? _].
Qed.

(** Feeding every record of a run to a fresh exporter never raises, and what the exporter then shows
    is what [stats] counts: submissions, replaced candidates and retries exactly; of the failures
    those of a full queue and of a crashed worker, up to the batch of a crash whose callback is still
    running; and never more successes than counted.  Aborted batches are failures for the exporter
    only. *)
Theorem coordinator_metrics_exported max_partitions ops c calls enabled server :
  steps coord_step (new_coordinator max_partitions) ops c → call_metric <$> calls = metrics c →
  ∃ e, record_calls engine_type calls (Some (new_exporter enabled server)) = (true, Some e)
    ∧ shown e (coordinator_submitted_total, [engine_type]) = submitted_count c
    ∧ shown e (coordinator_coalesced_total, [engine_type]) = coalesced_count c
    ∧ shown e (coordinator_retries_total, [engine_type; "kafka_exception"%string]) = retry_count c
    ∧ shown e (coordinator_failures_total, [engine_type; "queue_full"%string])
      + shown e (coordinator_failures_total, [engine_type; "worker_crash"%string]) + unreported c = failure_count c
    ∧ shown e (coordinator_success_total, [engine_type]) ≤ success_count c.
Proof.
  intros Hrun Hcalls. destruct (coord_run_metrics _ _ _ Hrun) as [H1 H2 H3 H4 H5 H6].
  assert (Forall (λ k, metric_ok (call_metric k)) calls) as Hok by (rewrite <-Hcalls in H1; exact (proj1 (Forall_fmap _ _ _) H1)).
  destruct (record_calls_add calls (new_exporter enabled server) Hok) as (e & Hr & Hs). exists e. split; [done|].
  assert (∀ key f ls, counter_of engine_type key = Some (f, ls) → bool_decide (key ∈ emitted_keys) = true →
    counter_labelnames f ≠ [] → shown e (f, ls) = log_total key (metrics c)) as Hsum.
  { intros key f ls Hc Hk Hf. rewrite Hs, shown_new, <-Hcalls by done. apply added_total; [done|done|].
    by apply bool_decide_eq_true in Hk. }
  rewrite (Hsum ("submitted", None)%string), (Hsum ("coalesced", None)%string), (Hsum ("retry", Some "kafka_exception")%string),
    (Hsum ("failure", Some "queue_full")%string), (Hsum ("failure", Some "worker_crash")%string),
    (Hsum ("success", None)%string) by done.
  assert (0 ≤ unsettled c) by (unfold unsettled; destruct (worker c) as [| | |[] ? ?]; try done; apply zlen_nonneg).
  split_and!; try done. lia.
Qed.
End shown.

(** ** A run *)

(** A batch is aborted: the exporter shows a failure that [stats] does not count. *)
Definition aborted_demo_ops : list CoordOp := [OpEnqueue 0 [demo_candidate 5]; OpBegin; OpCommitDone BatchAborted; OpNotified true].
Definition aborted_demo : CommitCoordinator := demo_state aborted_demo_ops.

Lemma aborted_demo_run : steps coord_step (new_coordinator 2) aborted_demo_ops aborted_demo.
Proof. apply exec_run. by vm_compute. Qed.

Definition aborted_demo_calls : list SinkCall := (λ m, mkSinkCall m None (Some 0)) <$> metrics aborted_demo.

Lemma coordinator_metrics_exported_witness :
  ∃ e, record_calls "async" aborted_demo_calls (Some (new_exporter false NoServer)) = (true, Some e)
    ∧ shown e (coordinator_submitted_total, ["async"%string]) = 1.
Proof.
  destruct (coordinator_metrics_exported "async" ltac:(by apply (bool_decide_unpack _)) 2 aborted_demo_ops aborted_demo
    aborted_demo_calls false NoServer aborted_demo_run eq_refl) as (e & H1 & H2 & _).
  by exists e.
Defined.

Lemma aborted_batch_missing_from_stats :
  let r := record_calls "async" aborted_demo_calls (Some (new_exporter false NoServer)) in
  failure_count aborted_demo = 0
  ∧ (λ e, shown e (coordinator_failures_total, ["async"; "stale_lease"]%string)) <$> r.2 = Some 1.
Proof. by vm_compute. Qed.
