(* ===== verification/BrokerDispatch.v ===== *)
(** * Dispatching consumed messages

    In the ordered modes the broker groups a consumed batch by queue key and submits the
    groups to the work manager.  The theorem composes the two components: the queue of every
    key grows by exactly the accepted messages of that key, in the order they were
    consumed. *)

From S2P Require Import Prelude Vendor Runtime Dto OffsetTracker PyText MetadataEncoder PoisonMessage WorkQueueTopology ExecutionEngine WorkManager WorkManagerInv WorkManagerOps WorkManagerSchedule WorkManagerSteps WorkManagerSystem Dlq CommitPlanner Broker BrokerInv BrokerCompletion.

(** ** What a queue holds of a message *)

Record Arrival := mkArrival {
  ar_key : QueueKey;
  ar_offset : Z;
  ar_epoch : Z;
  ar_payload : PyValue;
  ar_poison_key : option PyValue;
}.

Definition arrival_of_item (w : WorkItem) : Arrival :=
  mkArrival (item_key w) (wi_offset w) (wi_epoch w) (wi_payload w) (wi_poison_key w).

Definition arrival_of_message (k : QueueKey) (m : GroupedMessage) : Arrival :=
  mkArrival k (gm_offset m) (gm_epoch m) (gm_payload m)
    (Some (match gm_poison_key m with None => k.2 | Some pk => pk end)).

Section submit.
Context {E : Type} `{EE : ExecutionEngine E} `{EL : !ExecutionEngineLaws E} `{TL : TrackerLibs} `{RT : Runtime}.
Implicit Types (wm : WorkManager E) (w : WorkItem).

Lemma make_work_items_arrivals tp key ms maxes wm :
  arrival_of_item <$> (make_work_items tp key ms maxes wm).1.1 = arrival_of_message (tp, key) <$> ms.
Proof.
  revert maxes wm. induction ms as [|m ms IH]; intros maxes wm; cbn [make_work_items]; [done|].
  match goal with |- context [make_work_items tp key ms ?mx ?w1] =>
    specialize (IH mx w1); destruct (make_work_items tp key ms mx w1) as [[items maxes2] wm2] end.
  cbn [fst] in *. rewrite !fmap_cons, IH. done.
Qed.

Lemma make_work_items_topology tp key ms maxes wm :
  queue_topology (make_work_items tp key ms maxes wm).2 = queue_topology wm.
Proof.
  revert maxes wm. induction ms as [|m ms IH]; intros maxes wm; cbn [make_work_items]; [done|].
  match goal with |- context [make_work_items tp key ms ?mx ?w1] =>
    specialize (IH mx w1); destruct (make_work_items tp key ms mx w1) as [[items maxes2] wm2] end.
  exact IH.
Qed.

(** Submitting groups appends each group to its queue, and fails only for a partition that is
    not assigned. *)
Lemma submit_groups_arrivals groups maxes wm :
  wm_inv wm → NoDup (od_keys groups) →
  (∀ k, k ∈ od_keys groups → assigned (queue_topology wm) k.1 = true) →
  ∃ maxes' wm', submit_groups groups maxes wm = (true, maxes', wm') ∧
    ∀ k, arrival_of_item <$> queue_of (queue_topology wm') k =
         (arrival_of_item <$> queue_of (queue_topology wm) k)
         ++ (arrival_of_message k <$> default [] (od_get k groups)).
Proof.
  revert maxes wm. induction groups as [|[[tp key] ms] groups IH]; intros maxes wm Hinv; unfold od_keys;
    rewrite ?fmap_cons; cbn [submit_groups].
  { intros _ _. exists maxes, wm. split; [done|]. intros k. cbn. by rewrite app_nil_r. }
  intros [Hn Hnd]%NoDup_cons Ha.
  assert (assigned (queue_topology wm) tp = true) as Htp by (apply (Ha (tp, key)); left).
  fold (assigned (queue_topology wm) tp). rewrite Htp. cbn [negb].
  pose proof (submit_group_spec tp key ms maxes wm Hinv Htp) as Hg.
  pose proof (make_work_items_arrivals tp key ms maxes wm) as Hv.
  pose proof (make_work_items_topology tp key ms maxes wm) as Ht.
  destruct (make_work_items tp key ms maxes wm) as [[items maxes1] wm1]. cbn [fst snd] in Hv, Ht.
  destruct Hg as (topo & Et & Hinv2 & _). rewrite Et.
  set (wm2 := wm1 <| queue_topology := topo |> <| total_queued_messages ::= _ |>) in *.
  rewrite Ht in Et. destruct (enqueue_batch_spec ∅ (tp, key) items (queue_topology wm) topo) as [_ Hq];
    [set_solver|apply Hinv|done|].
  destruct (IH maxes1 wm2 Hinv2 Hnd) as (maxes' & wm' & Hs & Hk).
  { intros k Hk. change (queue_topology wm2) with topo.
    rewrite (proj2 (enqueue_batch_assigned (tp, key) items _ topo k.1 Et)). apply Ha. by right. }
  exists maxes', wm'. split; [done|]. intros k. rewrite Hk. change (queue_topology wm2) with topo. rewrite Hq.
  cbn [od_get]. apply od_get_None in Hn. cbn [fst] in Hn.
  destruct (decide ((tp, key) = k)) as [<-|Hne].
  - rewrite Hn, decide_True by done. cbn. by rewrite app_nil_r, fmap_app, Hv.
  - by rewrite (decide_False (P := k = (tp, key))) by congruence.
Qed.

Lemma submit_batch_arrivals groups wm :
  wm_inv wm → NoDup (od_keys groups) →
  (∀ k, k ∈ od_keys groups → assigned (queue_topology wm) k.1 = true) →
  (submit_message_batch groups wm).1 = true
  ∧ ∀ k, arrival_of_item <$> queue_of (queue_topology (submit_message_batch groups wm).2) k =
         (arrival_of_item <$> queue_of (queue_topology wm) k)
         ++ (arrival_of_message k <$> default [] (od_get k groups)).
Proof.
  intros Hinv Hnd Ha. destruct (submit_groups_arrivals groups [] wm Hinv Hnd Ha) as (maxes & wm1 & Hs & Hk).
  unfold submit_message_batch. rewrite Hs. cbn [negb]. case_decide; [done|]. cbn [fst snd]. split; [done|].
  destruct (fetch_trackers_same maxes wm1) as (store & -> & _). exact Hk.
Qed.
End submit.

Section dispatch.
Context {E : Type} `{EE : ExecutionEngine E} `{EL : !ExecutionEngineLaws E} `{TL : TrackerLibs} `{RT : Runtime}.
Context (cfg : BrokerConfig).
Implicit Types b : Broker E.

(** ** Reference: which messages are accepted, and as what *)

Definition submit_key_of (msg : Message) (partition : Z) : PyValue :=
  match bc_ordering_mode cfg with PARTITION => PyInt partition | _ => msg_key msg end.

Definition accepted b (msg : Message) : option (QueueKey * GroupedMessage) :=
  match msg_error msg, msg_topic msg, msg_partition msg, msg_offset msg with
  | false, Some topic, Some partition, Some offset =>
      match get_tracker (mkTp topic partition) b with
      | None => None
      | Some t =>
          if is_completed_uncommitted offset t then None
          else Some ((mkTp topic partition, submit_key_of msg partition),
                     mkMessage offset (epoch t) (msg_value msg) (Some (msg_key msg)))
      end
  | _, _, _, _ => None
  end.

(** The accepted messages of one key, in the order they were consumed *)
Definition arrivals_for b (k : QueueKey) (messages : list Message) : list Arrival :=
  (λ p, arrival_of_message k p.2) <$> filter (λ p, p.1 = k) (omap (accepted b) messages).

Definition regroup (l : list (QueueKey * GroupedMessage)) (groups : odict QueueKey (list GroupedMessage))
    : odict QueueKey (list GroupedMessage) :=
  fold_left (λ g p, group_message p.1 p.2 g) l groups.

Lemma regroup_get l groups k :
  default [] (od_get k (regroup l groups)) = default [] (od_get k groups) ++ (filter (λ p, p.1 = k) l).*2.
Proof.
  revert groups. induction l as [|[k' m] l IH]; intros groups; [by rewrite app_nil_r|].
  unfold regroup in *. cbn [fold_left fst snd]. rewrite IH. unfold group_message. rewrite od_get_set, filter_cons.
  cbn [fst]. destruct (decide (k' = k)) as [->|]; [|done]. cbn. by rewrite <-app_assoc.
Qed.

Lemma regroup_keys l groups k :
  k ∈ od_keys (regroup l groups) → k ∈ od_keys groups ∨ ∃ m, (k, m) ∈ l.
Proof.
  revert groups. induction l as [|[k' m] l IH]; intros groups; [by left|].
  intros [Hk|(m' & Hm)]%IH; [|right; exists m'; by right].
  apply elem_of_od_keys in Hk. unfold group_message in Hk. cbn in Hk. rewrite od_get_set in Hk.
  case_decide; [right; exists m; subst; left|left; by apply elem_of_od_keys].
Qed.

Lemma regroup_NoDup l groups : NoDup (od_keys groups) → NoDup (od_keys (regroup l groups)).
Proof.
  revert groups. induction l as [|p l IH]; intros groups Hnd; [done|]. apply IH. by apply NoDup_od_set.
Qed.

(** The loop of [dispatch_messages] computes these groups and leaves the work manager alone. *)
Lemma dispatch_message_ordered groups msg b :
  bc_ordering_mode cfg ≠ UNORDERED →
  ∃ b', dispatch_message cfg groups msg b =
          (true, match accepted b msg with None => groups | Some (k, m) => group_message k m groups end, b')
    ∧ wm b' = wm b ∧ trackers b' = trackers b.
Proof.
  intros Hmode. unfold dispatch_message, accepted, submit_key_of.
  destruct (msg_error msg); [by exists b|].
  destruct (msg_topic msg) as [topic|]; [|by exists b].
  destruct (msg_partition msg) as [part|]; [|by exists b].
  destruct (msg_offset msg) as [offset|]; [|by exists b].
  destruct (get_tracker _ b) as [t|]; [|by exists b].
  destruct (is_completed_uncommitted offset t); [by eexists|].
  destruct (bc_ordering_mode cfg); [by eexists|by eexists|done].
Qed.

Lemma accepted_same b b' msg :
  wm b' = wm b → trackers b' = trackers b → accepted b' msg = accepted b msg.
Proof. intros H1 H2. unfold accepted, get_tracker. by rewrite H1, H2. Qed.

Lemma dispatch_loop_ordered messages groups b :
  bc_ordering_mode cfg ≠ UNORDERED →
  ∃ b', dispatch_loop cfg messages groups b = (true, regroup (omap (accepted b) messages) groups, b')
    ∧ wm b' = wm b ∧ trackers b' = trackers b.
Proof.
  intros Hmode. revert groups b. induction messages as [|msg messages IH]; intros groups b; cbn [dispatch_loop];
    [by exists b|].
  destruct (dispatch_message_ordered groups msg b Hmode) as (b1 & -> & Hw & Ht).
  destruct (IH (match accepted b msg with None => groups | Some (k, m) => group_message k m groups end) b1)
    as (b' & -> & Hw' & Ht').
  exists b'. split; [|split; congruence].
  assert (omap (accepted b1) messages = omap (accepted b) messages) as ->.
  { apply list_omap_ext. apply Forall2_same_length_lookup. split; [done|]. intros i x y Hx Hy. simplify_eq.
    by apply accepted_same. }
  cbn [omap list_omap]. by destruct (accepted b msg) as [[k m]|].
Qed.

Lemma accepted_tracked b msg k m : accepted b msg = Some (k, m) → is_Some (get_tracker k.1 b).
Proof. unfold accepted. repeat case_match; naive_solver. Qed.

(** C15. Dispatch keeps the order of consumption: in the ordered modes, handing a consumed batch to
    the work manager succeeds and appends to the queue of each key exactly the accepted messages of
    that key - those of tracked partitions that are not already complete - in the order they were
    consumed, with the epoch of the current assignment. *)
Theorem dispatch_appends_in_order messages b :
  bc_ordering_mode cfg ≠ UNORDERED → reachable (wm b) →
  (∀ tp, is_Some (get_tracker tp b) → assigned (queue_topology (wm b)) tp = true) →
  ∃ b', dispatch_messages cfg messages b = (true, b')
    ∧ ∀ k, arrival_of_item <$> queue_of (queue_topology (wm b')) k =
           (arrival_of_item <$> queue_of (queue_topology (wm b)) k) ++ arrivals_for b k messages.
Proof.
  intros Hmode [Hinv _]%reachable_good Hasg. unfold dispatch_messages.
  destruct (dispatch_loop_ordered messages [] b Hmode) as (b1 & -> & Hw & Ht). cbn [negb].
  set (groups := regroup (omap (accepted b) messages) []).
  assert (∀ k, arrivals_for b k messages = arrival_of_message k <$> default [] (od_get k groups)) as Harr.
  { intros k. unfold groups. rewrite regroup_get. unfold arrivals_for. cbn [od_get default app].
    by rewrite <-list_fmap_compose. }
  case_decide as Hg.
  { exists b1. split; [done|]. intros k. rewrite Hw, Harr, Hg. cbn. by rewrite app_nil_r. }
  destruct (submit_batch_arrivals groups (wm b)) as [Hok Hq]; [done|by apply regroup_NoDup, NoDup_nil| |].
  { intros k [Hk|(m & Hm)]%regroup_keys; [by apply elem_of_nil in Hk|].
    apply list_elem_of_omap in Hm as (msg & _ & Hacc). by eapply Hasg, accepted_tracked. }
  rewrite Hw. destruct (submit_message_batch groups (wm b)) as [ok w]. cbn [fst snd] in Hok, Hq. subst ok.
  eexists. split; [done|]. intros k. rewrite Harr. exact (Hq k).
Qed.
End dispatch.

(** ** Witness: offsets 1, 2 and 3 of two keys, of which 2 is already complete *)

#[local] Instance dispatch_demo_libs : TrackerLibs := vendor_lists.

Definition dispatch_demo_message (o : Z) (key : PyValue) : Message :=
  mkKafkaMessage false (Some "orders"%string) (Some 0) (Some o) key (PyInt o).

Definition dispatch_demo_batch : list Message :=
  [dispatch_demo_message 1 wm_demo_a; dispatch_demo_message 2 wm_demo_a; dispatch_demo_message 3 wm_demo_b;
   mkKafkaMessage true None None None PyNone PyNone; dispatch_demo_message 4 wm_demo_a].

(** A broker over a work manager that was assigned the partition *)
Definition dispatch_demo_broker : Broker DemoEngine :=
  (mkBroker wm_demo_1 (offset_trackers wm_demo_1) empty_cache [] ∅ [] [] 0 0 (mkCadence 0 0 0 0 [] [] [] []) [] [] [])
    <| wm ::= λ w, w <| tracker_store ::= fmap (λ t, mark_complete 2 (update_last_fetched_offset 2 t)) |> |>.

Lemma dispatch_demo_reachable : reachable (wm dispatch_demo_broker).
Proof.
  exists wm_demo_engine, 5, None, KEY_HASH, 100, 500, None, 4, ∅, wm_demo_0, [(); ()].
  split; [intros w Hw; by apply elem_of_nil in Hw|]. split; [done|]. split; [done|].
  apply steps_cons with wm_demo_1.
  - apply wm_assign.
    + apply NoDup_singleton.
    + intros tp v Hin%list_elem_of_singleton. by simplify_eq.
  - eapply steps_cons; [|apply steps_nil]. apply (wm_broker _ wm_demo_1). by rewrite dom_fmap_L.
Qed.

Lemma dispatch_demo_assigned tp :
  is_Some (get_tracker tp dispatch_demo_broker) → assigned (queue_topology (wm dispatch_demo_broker)) tp = true.
Proof.
  intros [t Ht]. unfold get_tracker in Ht. destruct (od_get tp (trackers dispatch_demo_broker)) as [l|] eqn:Hl; [|done].
  assert (trackers dispatch_demo_broker = [(wm_demo_tp, default 0%nat (od_get wm_demo_tp (offset_trackers wm_demo_1)))])
    as Htr by (vm_compute; reflexivity).
  rewrite Htr in Hl. cbn in Hl. case_decide; [|done]. subst. vm_compute. reflexivity.
Qed.

Lemma dispatch_demo_arrivals :
  ar_offset <$> arrivals_for broker_demo_config dispatch_demo_broker (wm_demo_tp, wm_demo_a) dispatch_demo_batch = [1; 4].
Proof. vm_compute. reflexivity. Qed.

Lemma dispatch_appends_in_order_witness :
  ∃ b', dispatch_messages broker_demo_config dispatch_demo_batch dispatch_demo_broker = (true, b')
    ∧ ar_offset <$> (arrival_of_item <$> queue_of (queue_topology (wm b')) (wm_demo_tp, wm_demo_a)) = [1; 4].
Proof.
  destruct (dispatch_appends_in_order broker_demo_config dispatch_demo_batch dispatch_demo_broker
    ltac:(discriminate) dispatch_demo_reachable dispatch_demo_assigned) as (b' & H1 & H2).
  exists b'. split; [exact H1|]. rewrite (H2 (wm_demo_tp, wm_demo_a)), fmap_app, dispatch_demo_arrivals.
  reflexivity.
Defined.
