(* ===== verification/BrokerRebalance.v ===== *)
(** * Rebalances
    ([control_plane/broker_rebalance_orchestration_support.py])

    Assignment and revocation of partitions: the synchronous bodies that run on the event
    loop and the commit of the revoked partitions' offsets in between.  The bridge that carries
    a Kafka callback to the event loop is modelled in [RebalanceBridge]; here it either runs
    a body or gives up before it starts.  The optional commit coordinator travels beside the
    broker. *)

From S2P Require Import Prelude Vendor Runtime Dto OffsetTracker PyText MetadataEncoder PoisonMessage WorkQueueTopology ExecutionEngine WorkManager WorkManagerInv WorkManagerOps WorkManagerSchedule WorkManagerSteps WorkManagerSystem Dlq CommitPlanner Broker BrokerInv BrokerCompletion BrokerCommit BrokerDispatch CommitCoordinator.

Record RevokePreparation := mkPreparation {
  revoked_tps : list TopicPartition;
  offsets_to_commit : list KafkaTopicPartition;
}.

Section rebalance.
Context {E : Type} `{EE : ExecutionEngine E} `{TL : TrackerLibs} `{RT : Runtime}.
Context (cfg : BrokerConfig).
Implicit Types (b : Broker E) (coordinator : option CommitCoordinator).

(** ** Assignment *)

(** The trackers built for the assignment are new objects: each gets a location of its own. *)
Fixpoint allocate (assignments : odict TopicPartition OffsetTracker) (store : gmap loc OffsetTracker)
    : odict TopicPartition loc * gmap loc OffsetTracker :=
  match assignments with
  | [] => ([], store)
  | (tp, tracker) :: rest =>
      let l := fresh (dom store) in
      let '(locs, store') := allocate rest (<[l := tracker]> store) in
      ((tp, l) :: locs, store')
  end.

Definition assign_sync (assignments : odict TopicPartition OffsetTracker) coordinator b
    : option CommitCoordinator * Broker E :=
  let coordinator' := start_accepting_partitions (od_keys assignments) <$> coordinator in
  let '(locs, store) := allocate assignments (tracker_store (wm b)) in
  (coordinator',
   b <| trackers ::= λ d, od_update d locs |>
     <| wm ::= λ w, on_assign (od_map SharedTracker locs) (w <| tracker_store := store |>) |>).

(** ** Revocation *)

(** The mark to commit for one revoked partition: its own, or the coordinator's candidate of the
    same assignment *)
Definition revoke_mark (candidates : odict TopicPartition CommitCandidate) (tp : TopicPartition)
    (tracker : OffsetTracker) : Z :=
  match od_get tp candidates with
  | Some c => if cc_assignment_epoch c =? get_current_epoch tracker
              then Z.max (last_committed_offset tracker) (cc_safe_offset c)
              else last_committed_offset tracker
  | None => last_committed_offset tracker
  end.

Definition revoke_entry (candidates : odict TopicPartition CommitCandidate) (tp : TopicPartition)
    (tracker : OffsetTracker) : option KafkaTopicPartition :=
  let safe_offset := revoke_mark candidates tp tracker in
  if safe_offset <? 0 then None
  else Some (mkKafkaTp (topic tp) (partition tp) (Some (safe_offset + 1))
               (Some (encode_revoke_metadata (bc_max_metadata_size cfg) (bc_max_completed_offsets cfg)
                        (bc_strategy cfg) tracker (safe_offset + 1)))).

(** One iteration of the loop of [prepare_revoke_sync] *)
Definition prepare_partition (candidates : odict TopicPartition CommitCandidate)
    (acc : list KafkaTopicPartition * Broker E) (p : KafkaTopicPartition)
    : list KafkaTopicPartition * Broker E :=
  let '(offsets, b) := acc in
  let tp := dto_of_kafka p in
  let b1 := b <| cache ::= drop_partition_messages tp |> in
  match get_tracker tp b1 with
  | None => (offsets, b1)
  | Some tracker =>
      let tracker' := advance_high_water_mark tracker in
      (offsets ++ option_list (revoke_entry candidates tp tracker'),
       update_tracker tp advance_high_water_mark b1)
  end.

Definition prepare_revoke_sync (partitions : list KafkaTopicPartition) coordinator b
    : RevokePreparation * option CommitCoordinator * Broker E :=
  let tps := dto_of_kafka <$> partitions in
  let candidates := match coordinator with None => [] | Some c => remaining_candidates (Some tps) c end in
  let coordinator' := stop_accepting_partitions tps <$> coordinator in
  let '(offsets, b1) :=
    fold_left (prepare_partition candidates) partitions ([], b <| wm ::= on_revoke tps |>) in
  (mkPreparation tps offsets, coordinator', b1).

(** [commit_ok n] is whether Kafka accepts the commit of the [n]-th entry *)
Fixpoint commit_prepared_revoke_offsets (commit_ok : nat → bool) (offsets : list KafkaTopicPartition) (n : nat)
    : list TopicPartition :=
  match offsets with
  | [] => []
  | offset :: rest =>
      (if commit_ok n then [] else [dto_of_kafka offset]) ++ commit_prepared_revoke_offsets commit_ok rest (S n)
  end.

Definition cleanup_partition (b : Broker E) (tp : TopicPartition) : Broker E :=
  b <| dirty_commit_partitions ::= λ s, s ∖ {[tp]} |>
    <| trackers ::= od_pop tp |>
    <| unsettled_completions ::= od_pop tp |>
    <| unsettled_timestamps ::= od_pop tp |>
    <| pending_dlq_events ::= od_filter (λ k, k.1 ≠ tp) |>.

Definition cleanup_revoke_sync (tps failed_tps : list TopicPartition) (b : Broker E) : Broker E :=
  fold_left cleanup_partition tps
    (b <| commit_failures ::= λ l, l ++ ((λ tp, (tp, "kafka_exception"%string)) <$> failed_tps) |>).

Definition record_commit_failure_for_rebalance_bridge (partitions : list KafkaTopicPartition) (b : Broker E)
    : Broker E :=
  b <| commit_failures ::= λ l, l ++ ((λ p, (dto_of_kafka p, "rebalance_bridge_failed"%string)) <$> partitions) |>.

(** [handle_revoke_callback]: [prepared] and [cleaned] tell whether the bridge ran the two bodies
    or gave up before they started; the result is [false] when it raises *)
Definition handle_revoke_callback (prepared cleaned : bool) (commit_ok : nat → bool)
    (partitions : list KafkaTopicPartition) coordinator b
    : bool * list KafkaTopicPartition * option CommitCoordinator * Broker E :=
  if negb prepared then (false, [], coordinator, record_commit_failure_for_rebalance_bridge partitions b)
  else
    let '(preparation, coordinator', b1) := prepare_revoke_sync partitions coordinator b in
    let failed := commit_prepared_revoke_offsets commit_ok (offsets_to_commit preparation) 0 in
    if negb cleaned
    then (false, offsets_to_commit preparation, coordinator', record_commit_failure_for_rebalance_bridge partitions b1)
    else (true, offsets_to_commit preparation, coordinator', cleanup_revoke_sync (revoked_tps preparation) failed b1).

(** ** Frame of the work manager's handlers *)

Lemma on_revoke_store tps (w : WorkManager E) : tracker_store (on_revoke tps w) = tracker_store w.
Proof.
  unfold on_revoke.
  assert (tracker_store (fold_left revoke_partition tps w) = tracker_store w) as H1.
  { apply (fold_left_inv (λ s, tracker_store s = tracker_store w)); [|done]. intros s tp <-.
    unfold revoke_partition. destruct (revoke tp (queue_topology s)). cbn. by destruct (poison_message_circuit s). }
  case_decide; [done|]. cbn zeta. set (w1 := fold_left revoke_partition tps w) in *. clearbody w1.
  match goal with |- context [fold_left ?f ?l w1] => set (w2 := fold_left f l w1) end.
  assert (tracker_store w2 = tracker_store w1) as H2.
  { unfold w2. apply (fold_left_inv (λ s, tracker_store s = tracker_store w1)); [|done]. intros s id <-.
    unfold release_in_flight_item. repeat case_match; try done; unfold release_ordering_lock; cbn;
      repeat case_match; done. }
  clearbody w2. rewrite <-H1, <-H2. by destruct (ordering_mode w2).
Qed.

Lemma on_assign_shared_store (locs : odict TopicPartition loc) (w : WorkManager E) :
  tracker_store (on_assign (od_map SharedTracker locs) w) = tracker_store w.
Proof.
  unfold on_assign. cbn. revert w. induction locs as [|[tp l] locs IH]; intros w; [done|].
  unfold od_map in *. rewrite fmap_cons. cbn [fold_left fst snd]. by rewrite IH.
Qed.

(** ** Preparing a revocation *)

Lemma advance_facts t :
  tracker_inv t →
  let m := get_committable_high_water_mark None t in
  let t' := advance_high_water_mark t in
  tracker_inv t' ∧ last_committed_offset t' = m ∧ epoch t' = epoch t ∧ (∀ o, settled t' o ↔ settled t o)
  ∧ get_committable_high_water_mark None t' = m.
Proof.
  intros Ht m t'. destruct (committable_spec t Ht) as (Hb & Hset & Hn). fold m in Hb, Hset, Hn.
  assert (tracker_inv t') as Ht' by (apply commit_through_inv; [lia|done]).
  assert (∀ o, settled t' o ↔ settled t o) as Hs by (apply commit_through_settled; [done|reflexivity]).
  assert (last_committed_offset t' = m ∧ epoch t' = epoch t) as [Hl He].
  { destruct (decide (last_committed_offset t < m)) as [Hlt|].
    - by destruct (commit_through_spec m t Ht Hlt) as (? & _ & ? & _).
    - unfold t', advance_high_water_mark. fold m. rewrite commit_through_le by lia. split; [lia|done]. }
  repeat (split; [done|]). destruct (committable_spec t' Ht') as (Hb' & Hset' & _).
  destruct (decide (get_committable_high_water_mark None t' = m)); [done|]. exfalso. apply Hn, Hs, Hset'. lia.
Qed.

Lemma wm_store_self (w : WorkManager E) : w = w <| tracker_store := tracker_store w |>.
Proof. by destruct w. Qed.

(** What [prepare_revoke_sync] leaves of the broker *)
Record prepared_from (tps : list TopicPartition) b b' : Prop := mkPreparedFrom {
  pf_wf : trackers_wf b';
  pf_trackers : trackers b' = trackers b;
  pf_get tp : get_tracker tp b' =
    if decide (tp ∈ tps) then advance_high_water_mark <$> get_tracker tp b else get_tracker tp b;
  pf_cache : cache b' = fold_left (λ c tp, drop_partition_messages tp c) tps (cache b);
  pf_dirty : dirty_commit_partitions b' = dirty_commit_partitions b;
  pf_pending : pending_dlq_events b' = pending_dlq_events b;
  pf_unsettled : unsettled_completions b' = unsettled_completions b;
  pf_stamps : unsettled_timestamps b' = unsettled_timestamps b;
  pf_failures : commit_failures b' = commit_failures b;
  pf_wm : ∃ store, wm b' = (wm b) <| tracker_store := store |>;
}.

Lemma prepared_refl b : trackers_wf b → prepared_from [] b b.
Proof.
  intros Hwf. constructor; try done.
  exists (tracker_store (wm b)). apply wm_store_self.
Qed.

Lemma prepare_partition_frame cands offsets b p :
  trackers_wf b →
  let '(offsets', b') := prepare_partition cands (offsets, b) p in
  prepared_from [dto_of_kafka p] b b' ∧
  offsets' = offsets ++ option_list (get_tracker (dto_of_kafka p) b ≫= λ t,
                          revoke_entry cands (dto_of_kafka p) (advance_high_water_mark t)).
Proof.
  intros Hwf. unfold prepare_partition. set (tp := dto_of_kafka p).
  set (b1 := b <| cache ::= drop_partition_messages tp |>).
  assert (trackers_wf b1) as Hwf1 by by apply (same_trackers_wf b).
  change (get_tracker tp b) with (get_tracker tp b1).
  destruct (get_tracker tp b1) as [t|] eqn:Ht; cbn [mbind option_bind].
  - split; [|done]. destruct (update_tracker_frame tp advance_high_water_mark b1) as (F1 & F2 & F3 & F4).
    constructor; try done; [by apply update_tracker_wf| |..].
    + intros tp'. rewrite get_update_tracker by done. change (get_tracker tp' b) with (get_tracker tp' b1).
      change (get_tracker tp b) with (get_tracker tp b1) in *.
      destruct (decide (tp = tp')) as [<-|]; [by rewrite decide_True by left|].
      rewrite decide_False; [done|]. rewrite list_elem_of_singleton. congruence.
    + unfold update_tracker. by destruct (od_get tp (trackers b1)).
    + unfold update_tracker. by destruct (od_get tp (trackers b1)).
    + unfold update_tracker. by destruct (od_get tp (trackers b1)).
    + unfold update_tracker. destruct (od_get tp (trackers b1)); [by eexists|].
      exists (tracker_store (wm b)). apply wm_store_self.
  - split; [|cbn; by rewrite app_nil_r]. constructor; try done.
    + intros tp'. change (get_tracker tp' b1) with (get_tracker tp' b). case_decide as Hd; [|done].
      apply list_elem_of_singleton in Hd as ->. change (get_tracker tp b) with (get_tracker tp b1). by rewrite Ht.
    + exists (tracker_store (wm b)). apply wm_store_self.
Qed.

Lemma prepared_trans tp tps b b1 b2 :
  tp ∉ tps → prepared_from [tp] b b1 → prepared_from tps b1 b2 → prepared_from (tp :: tps) b b2.
Proof.
  intros Hn [] []. constructor; try congruence.
  - intros tp'. rewrite pf_get1, pf_get0. destruct (decide (tp' = tp)) as [->|Hne].
    + by rewrite (decide_False (P := tp ∈ tps)), !decide_True by (done || left).
    + rewrite (decide_False (P := tp' ∈ [tp])) by (rewrite list_elem_of_singleton; done).
      destruct (decide (tp' ∈ tps)); [by rewrite decide_True by (by right)|].
      rewrite decide_False; [done|]. rewrite elem_of_cons. naive_solver.
  - rewrite pf_cache1, pf_cache0. done.
  - destruct pf_wm0 as [s0 H0], pf_wm1 as [s1 H1]. exists s1. rewrite H1, H0. done.
Qed.

Lemma prepare_loop_spec cands partitions offsets b :
  trackers_wf b → NoDup (dto_of_kafka <$> partitions) →
  let '(offsets', b') := fold_left (prepare_partition cands) partitions (offsets, b) in
  prepared_from (dto_of_kafka <$> partitions) b b' ∧
  offsets' = offsets ++ omap (λ p, get_tracker (dto_of_kafka p) b ≫= λ t,
                          revoke_entry cands (dto_of_kafka p) (advance_high_water_mark t)) partitions.
Proof.
  revert offsets b. induction partitions as [|p ps IH]; intros offsets b Hwf; rewrite ?fmap_cons.
  { intros _. cbn. rewrite app_nil_r. split; [by apply prepared_refl|done]. }
  intros [Hn Hnd]%NoDup_cons. cbn [fold_left].
  pose proof (prepare_partition_frame cands offsets b p Hwf) as Hp.
  destruct (prepare_partition cands (offsets, b) p) as [o1 b1]. destruct Hp as [Hp ->].
  specialize (IH (offsets ++ option_list (get_tracker (dto_of_kafka p) b ≫= λ t,
     revoke_entry cands (dto_of_kafka p) (advance_high_water_mark t))) b1 (pf_wf _ _ _ Hp) Hnd).
  destruct (fold_left _ ps _) as [o2 b2]. destruct IH as [Hr ->].
  split; [by eapply prepared_trans|]. rewrite <-app_assoc. f_equal. cbn [omap list_omap].
  assert (∀ q, q ∈ ps → get_tracker (dto_of_kafka q) b1 = get_tracker (dto_of_kafka q) b) as Hsame.
  { intros q Hq. rewrite (pf_get _ _ _ Hp), decide_False; [done|]. rewrite list_elem_of_singleton.
    intros Heq. apply Hn, list_elem_of_fmap. by exists q. }
  replace (omap _ ps) with (omap (λ p0, get_tracker (dto_of_kafka p0) b ≫= λ t,
    revoke_entry cands (dto_of_kafka p0) (advance_high_water_mark t)) ps).
  { by destruct (get_tracker (dto_of_kafka p) b ≫= _). }
  apply list_omap_ext, Forall2_same_length_lookup. split; [done|]. intros i x y Hx Hy. simplify_eq.
  rewrite Hsame; [done|]. by eapply list_elem_of_lookup_2.
Qed.

(** ** What is committed for a revoked partition *)

(** The coordinator's candidates of the current assignment stand for settled offsets *)
Definition coordinator_honest coordinator b : Prop :=
  ∀ c x t, coordinator = Some c → x ∈ live_candidates c → get_tracker (cc_tp x) b = Some t →
    cc_assignment_epoch x = epoch t → ∀ o, o ≤ cc_safe_offset x → settled t o.

Lemma remaining_live tps c tp x :
  od_get tp (remaining_candidates tps c) = Some x → x ∈ live_candidates c ∧ cc_tp x = tp.
Proof.
  unfold remaining_candidates.
  set (f := λ (acc : odict TopicPartition CommitCandidate) x, _).
  set (l := od_values (in_flight c) ++ od_values (pending c)).
  assert (∀ xs acc, (∀ tp y, od_get tp acc = Some y → y ∈ l ∧ cc_tp y = tp) → (∀ y, y ∈ xs → y ∈ l) →
    ∀ tp y, od_get tp (fold_left f xs acc) = Some y → y ∈ l ∧ cc_tp y = tp) as Hf.
  { induction xs as [|z xs IH]; intros acc Hacc Hxs; [done|]. apply IH; [|intros y Hy; apply Hxs; by right].
    assert (∀ tp y, od_get tp (od_set (cc_tp z) z acc) = Some y → y ∈ l ∧ cc_tp y = tp) as Hset.
    { intros tp' y. rewrite od_get_set. case_decide; [intros [= <-]; split; [apply Hxs; by left|done]|apply Hacc]. }
    unfold f. destruct (od_get (cc_tp z) acc); [|done]. by destruct (_ <? _). }
  intros Hx. assert (od_get tp (fold_left f l []) = Some x) as Hg.
  { destruct tps; [|done]. rewrite od_get_filter in Hx. by case_decide. }
  apply Hf in Hg as [Hl Ht]; [|done|done]. split; [|done].
  unfold live_candidates. unfold l in Hl. rewrite elem_of_app in *. tauto.
Qed.

(** The candidates never raise the mark above the partition's own. *)
Lemma revoke_mark_own tps coordinator b tp t :
  tracker_inv t → get_tracker tp b = Some t → coordinator_honest coordinator b →
  revoke_mark (match coordinator with None => [] | Some c => remaining_candidates (Some tps) c end) tp
    (advance_high_water_mark t) = get_committable_high_water_mark None t.
Proof.
  intros Ht Hg Hh. destruct (advance_facts t Ht) as (_ & Hl & He & _). unfold revoke_mark, get_current_epoch.
  rewrite Hl, He. set (m := get_committable_high_water_mark None t).
  destruct (committable_spec t Ht) as (_ & _ & Hn). fold m in Hn.
  destruct coordinator as [c|]; [|done].
  destruct (od_get tp (remaining_candidates (Some tps) c)) as [x|] eqn:Hx; [|done].
  apply remaining_live in Hx as [Hlive Htp]. destruct (Z.eqb_spec (cc_assignment_epoch x) (epoch t)) as [Hep|]; [|done].
  destruct (decide (cc_safe_offset x ≤ m)); [lia|]. exfalso. apply Hn.
  apply (Hh c x t eq_refl Hlive); [by rewrite Htp|done|lia].
Qed.

Lemma revoke_entry_spec cands tp t :
  0 ≤ revoke_mark cands tp t →
  revoke_entry cands tp t = Some (offset_to_commit (bc_max_metadata_size cfg) (bc_max_completed_offsets cfg)
                                    (bc_strategy cfg) tp t (revoke_mark cands tp t)).
Proof.
  intros Hm. unfold revoke_entry. destruct (Z.ltb_spec (revoke_mark cands tp t) 0); [lia|].
  unfold offset_to_commit, encode_revoke_metadata. by destruct (is_snapshot (bc_strategy cfg)).
Qed.

Lemma dto_of_offset max maxc strategy tp t safe : dto_of_kafka (offset_to_commit max maxc strategy tp t safe) = tp.
Proof. by destruct tp. Qed.

Lemma on_revoke_trackers tps b :
  trackers_wf b → trackers_wf (b <| wm ::= on_revoke tps |>)
  ∧ ∀ tp, get_tracker tp (b <| wm ::= on_revoke tps |>) = get_tracker tp b.
Proof.
  intros Hwf. assert (same_trackers b (b <| wm ::= on_revoke tps |>)) as Hs
    by (split; [done|apply on_revoke_store]).
  split; [by apply (same_trackers_wf b)|]. intros tp. by apply same_trackers_get.
Qed.

Lemma prepare_revoke_spec partitions coordinator b :
  trackers_wf b → NoDup (dto_of_kafka <$> partitions) →
  let tps := dto_of_kafka <$> partitions in
  let cands := match coordinator with None => [] | Some c => remaining_candidates (Some tps) c end in
  let '(prep, coordinator', b') := prepare_revoke_sync partitions coordinator b in
  revoked_tps prep = tps ∧ coordinator' = (stop_accepting_partitions tps <$> coordinator)
  ∧ offsets_to_commit prep = omap (λ p, get_tracker (dto_of_kafka p) b ≫= λ t,
                               revoke_entry cands (dto_of_kafka p) (advance_high_water_mark t)) partitions
  ∧ prepared_from tps (b <| wm ::= on_revoke tps |>) b'.
Proof.
  intros Hwf Hnd tps cands. unfold prepare_revoke_sync. fold tps cands.
  destruct (on_revoke_trackers tps b Hwf) as [Hwf0 Hg].
  pose proof (prepare_loop_spec cands partitions [] (b <| wm ::= on_revoke tps |>) Hwf0 Hnd) as Hl.
  destruct (fold_left _ partitions _) as [offsets b1]. destruct Hl as [Hp ->].
  split; [done|]. split; [done|]. split; [|done]. cbn [app].
  apply list_omap_ext, Forall2_same_length_lookup. split; [done|]. intros i x y Hx Hy. simplify_eq. by rewrite Hg.
Qed.


(** ** What is left of a revoked partition *)

Lemma drop_partitions_spec max tps c :
  cache_inv max c →
  let c' := fold_left (λ c tp, drop_partition_messages tp c) tps c in
  cache_inv max c' ∧
  ∀ k, od_get k (message_cache c') = if decide (k.1 ∈ tps) then None else od_get k (message_cache c).
Proof.
  revert c. induction tps as [|tp tps IH]; intros c Hc; [done|]. cbn [fold_left].
  destruct (drop_partition_spec max tp c Hc) as [H1 H2]. destruct (IH _ H1) as [H3 H4].
  split; [done|]. intros k. rewrite H4, H2. destruct (decide (k.1 ∈ tps)); [by rewrite decide_True by (by right)|].
  destruct (decide (k.1 = tp)); [by rewrite decide_True by (rewrite elem_of_cons; by left)|].
  rewrite decide_False; [done|]. rewrite elem_of_cons. naive_solver.
Qed.

(** Nothing of one partition in the broker's tables *)
Definition nothing_of (tp : TopicPartition) b : Prop :=
  od_get tp (trackers b) = None ∧ tp ∉ dirty_commit_partitions b ∧ od_get tp (unsettled_completions b) = None
  ∧ od_get tp (unsettled_timestamps b) = None ∧ ∀ o, od_get (tp, o) (pending_dlq_events b) = None.

(** Everything the broker's tables hold of one partition is the same *)
Definition same_of (tp : TopicPartition) b b' : Prop :=
  od_get tp (trackers b') = od_get tp (trackers b)
  ∧ (tp ∈ dirty_commit_partitions b' ↔ tp ∈ dirty_commit_partitions b)
  ∧ od_get tp (unsettled_completions b') = od_get tp (unsettled_completions b)
  ∧ od_get tp (unsettled_timestamps b') = od_get tp (unsettled_timestamps b)
  ∧ ∀ o, od_get (tp, o) (pending_dlq_events b') = od_get (tp, o) (pending_dlq_events b).

Lemma cleanup_partition_gone b tp : nothing_of tp (cleanup_partition b tp).
Proof.
  unfold nothing_of, cleanup_partition. cbn -[od_pop od_filter]. rewrite !od_get_pop_eq.
  repeat (split; [done || set_solver|]). intros o. rewrite od_get_filter. by rewrite decide_False by (cbn; tauto).
Qed.

Lemma cleanup_partition_keeps b tp tp' : nothing_of tp' b → nothing_of tp' (cleanup_partition b tp).
Proof.
  intros (H1 & H2 & H3 & H4 & H5). unfold nothing_of, cleanup_partition. cbn -[od_pop od_filter].
  rewrite !od_get_pop, H1, H3, H4. repeat (split; [(by destruct (decide (tp = tp'))) || set_solver|]).
  intros o. rewrite od_get_filter, H5. by case_decide.
Qed.

Lemma cleanup_partition_other b tp tp' : tp ≠ tp' → same_of tp' b (cleanup_partition b tp).
Proof.
  intros Hne. unfold same_of, cleanup_partition. cbn -[od_pop od_filter].
  rewrite !(od_get_pop_ne _ tp tp') by done. repeat (split; [done || set_solver|]).
  intros o. rewrite od_get_filter. by rewrite decide_True by (cbn; congruence).
Qed.

Lemma cleanup_partitions_spec tps b :
  let b' := fold_left cleanup_partition tps b in
  (∀ tp, tp ∈ tps → nothing_of tp b') ∧ (∀ tp, tp ∉ tps → same_of tp b b')
  ∧ wm b' = wm b ∧ cache b' = cache b ∧ commit_failures b' = commit_failures b.
Proof.
  revert b. induction tps as [|tp tps IH]; intros b; cbn [fold_left].
  { split; [intros tp Htp; by apply elem_of_nil in Htp|]. by split. }
  destruct (IH (cleanup_partition b tp)) as (H1 & H2 & H3). split; [|split; [|exact H3]].
  - intros tp' [->|Hin]%elem_of_cons; [|by apply H1].
    apply (fold_left_inv (nothing_of tp)); [|apply cleanup_partition_gone].
    intros s x. apply cleanup_partition_keeps.
  - intros tp' Hn. apply not_elem_of_cons in Hn as [Hne Hn].
    destruct (cleanup_partition_other b tp tp') as (A1 & A2 & A3 & A4 & A5); [done|].
    destruct (H2 tp' Hn) as (B1 & B2 & B3 & B4 & B5).
    split; [congruence|]. split; [tauto|]. split; [congruence|]. split; [congruence|]. intros o. by rewrite B5.
Qed.

Lemma prepared_same tps tp b b' : prepared_from tps b b' → same_of tp b b'.
Proof. intros []. unfold same_of. rewrite pf_trackers0, pf_dirty0, pf_unsettled0, pf_stamps0, pf_pending0. done. Qed.

Lemma failed_commits commit_ok offsets n i k :
  offsets !! i = Some k → commit_ok (n + i)%nat = false →
  dto_of_kafka k ∈ commit_prepared_revoke_offsets commit_ok offsets n.
Proof.
  revert n i. induction offsets as [|k' offsets IH]; intros n i; [done|]. cbn [commit_prepared_revoke_offsets].
  destruct i as [|i]; cbn.
  - rewrite Nat.add_0_r. intros [= ->] ->. by left.
  - intros Hk Hf. apply elem_of_app. right. apply (IH (S n) i Hk). by rewrite <-plus_n_Sm in Hf.
Qed.
End rebalance.

Section revoked.
Context {E : Type} `{EE : ExecutionEngine E} `{EL : !ExecutionEngineLaws E} `{TL : TrackerLibs} `{RT : Runtime}.
Context (cfg : BrokerConfig).
Implicit Types (b : Broker E) (coordinator : option CommitCoordinator).

(** A completed revocation forgets the partition and only it: no tracker, dirty mark, unsettled
    completion, retained DLQ event, cached message, queue or locked key of a revoked partition is
    left, everything the broker holds of the other partitions is as before, and each revoke commit
    that Kafka refused is recorded as a failure. *)
Theorem revoke_forgets_broker_state commit_ok max partitions coordinator b sent coordinator' b' :
  trackers_wf b → NoDup (dto_of_kafka <$> partitions) → cache_inv max (cache b) → reachable (wm b) →
  handle_revoke_callback cfg true true commit_ok partitions coordinator b = (true, sent, coordinator', b') →
  let tps := dto_of_kafka <$> partitions in
  (∀ tp, tp ∈ tps → nothing_of tp b' ∧ get_tracker tp b' = None
     ∧ (∀ o, od_get (tp, o) (message_cache (cache b')) = None)
     ∧ (∀ key, queue_of (queue_topology (wm b')) (tp, key) = [] ∧ is_queue_eligible (wm b') (tp, key) = true))
  ∧ (∀ tp, tp ∉ tps → same_of tp b b' ∧ get_tracker tp b' = get_tracker tp b
     ∧ (∀ o, od_get (tp, o) (message_cache (cache b')) = od_get (tp, o) (message_cache (cache b)))
     ∧ (∀ key, queue_of (queue_topology (wm b')) (tp, key) = queue_of (queue_topology (wm b)) (tp, key)))
  ∧ ∀ i k, sent !! i = Some k → commit_ok i = false →
      (dto_of_kafka k, "kafka_exception"%string) ∈ commit_failures b'.
Proof.
  intros Hwf Hnd Hcache Hr Hh tps. unfold handle_revoke_callback in Hh. cbn [negb] in Hh.
  pose proof (prepare_revoke_spec cfg partitions coordinator b Hwf Hnd) as Hp.
  destruct (prepare_revoke_sync cfg partitions coordinator b) as [[prep c1] b1].
  destruct Hp as (Etps & _ & _ & Hp). fold tps in Etps, Hp. rewrite Etps in Hh. injection Hh as <- _ <-.
  unfold cleanup_revoke_sync.
  set (failed := commit_prepared_revoke_offsets commit_ok (offsets_to_commit prep) 0).
  set (b2 := b1 <| commit_failures ::= _ |>).
  destruct (cleanup_partitions_spec tps b2) as (Hgone & Hkeep & Hwm & Hca & Hfail).
  set (b3 := fold_left cleanup_partition tps b2) in *. clearbody b3.
  destruct (pf_wm _ _ _ Hp) as [store Hstore]. cbn in Hstore.
  change (wm b2) with (wm b1) in Hwm. change (cache b2) with (cache b1) in Hca.
  rewrite (pf_cache _ _ _ Hp) in Hca. cbn in Hca.
  destruct (drop_partitions_spec max tps (cache b) Hcache) as [_ Hdrop].
  pose proof (revoke_forgets tps (wm b) Hr) as (Hq & _ & _ & Helig & _).
  assert (queue_topology (wm b3) = queue_topology (on_revoke tps (wm b))) as Htop by by rewrite Hwm, Hstore.
  split; [|split].
  - intros tp Htp. pose proof (Hgone tp Htp) as Hg. split; [done|]. split; [|split].
    + unfold get_tracker. by rewrite (proj1 Hg).
    + intros o. rewrite Hca, Hdrop. by rewrite decide_True.
    + intros key. rewrite Htop, Hq. rewrite decide_True by done. split; [done|].
      rewrite Hwm, Hstore. exact (Helig (tp, key) Htp).
  - intros tp Htp. pose proof (Hkeep tp Htp) as Hk. pose proof (prepared_same _ tp _ _ Hp) as Hs.
    assert (same_of tp b b3) as Hsame.
    { destruct Hk as (A1 & A2 & A3 & A4 & A5), Hs as (B1 & B2 & B3 & B4 & B5).
      split; [exact (eq_trans A1 B1)|]. split; [exact (iff_trans A2 B2)|]. split; [exact (eq_trans A3 B3)|].
      split; [exact (eq_trans A4 B4)|]. intros o. exact (eq_trans (A5 o) (B5 o)). }
    split; [done|]. split; [|split].
    + transitivity (get_tracker tp b1); [|rewrite (pf_get _ _ _ Hp), decide_False by done; by apply on_revoke_trackers].
      unfold get_tracker. rewrite (proj1 Hk), Hwm. done.
    + intros o. rewrite Hca, Hdrop. by rewrite decide_False.
    + intros key. rewrite Htop, Hq. by rewrite decide_False.
  - intros i k Hk Hno. rewrite Hfail. cbn. apply elem_of_app. right. apply list_elem_of_fmap.
    exists (dto_of_kafka k). split; [done|]. by apply (failed_commits commit_ok _ 0 i).
Qed.

(** ** What an assignment installs *)

Lemma elem_of_od_set_values {K V} `{EqDecision K} (k : K) (v x : V) d :
  x ∈ od_values (od_set k v d) → x = v ∨ x ∈ od_values d.
Proof.
  unfold od_values. induction d as [|[k' v'] d IH]; cbn; [intros Hx%list_elem_of_singleton; by left|].
  case_decide; rewrite ?fmap_cons, !elem_of_cons; naive_solver.
Qed.

Lemma NoDup_od_set_values {K V} `{EqDecision K} (k : K) (v : V) d :
  v ∉ od_values d → NoDup (od_values d) → NoDup (od_values (od_set k v d)).
Proof.
  induction d as [|[k' v'] d IH]; intros Hn Hnd; cbn; [apply NoDup_singleton|].
  unfold od_values in Hn, Hnd. rewrite fmap_cons in Hn, Hnd. apply not_elem_of_cons in Hn as [Hne Hn].
  apply NoDup_cons in Hnd as [Hn' Hnd]. cbn [snd] in *.
  case_decide; unfold od_values; rewrite fmap_cons; apply NoDup_cons; cbn [snd]; [done|].
  split; [|by apply IH]. intros [->|?]%elem_of_od_set_values; done.
Qed.

(** Allocation gives every tracker a location of its own, outside the old store. *)
Record allocated (assignments : odict TopicPartition OffsetTracker) (store : gmap loc OffsetTracker)
    (locs : odict TopicPartition loc) (store' : gmap loc OffsetTracker) : Prop := mkAllocated {
  al_keys : od_keys locs = od_keys assignments;
  al_fresh l : l ∈ od_values locs → store !! l = None;
  al_nodup : NoDup (od_values locs);
  al_old l t : store !! l = Some t → store' !! l = Some t;
  al_new tp : od_get tp locs ≫= (store' !!.) = od_get tp assignments;
  al_has l : l ∈ od_values locs → is_Some (store' !! l);
}.

Lemma allocate_spec assignments store :
  allocated assignments store (allocate assignments store).1 (allocate assignments store).2.
Proof.
  revert store. induction assignments as [|[tp t] rest IH]; intros store; cbn [allocate].
  { constructor; try done; [intros l Hl; by apply elem_of_nil in Hl|apply NoDup_nil; exact I|
      intros l Hl; by apply elem_of_nil in Hl]. }
  set (l := fresh (dom store)). specialize (IH (<[l:=t]> store)).
  assert (store !! l = None) as Hl by (apply not_elem_of_dom, is_fresh).
  destruct (allocate rest (<[l:=t]> store)) as [locs store']. cbn [fst snd] in *. destruct IH as [K F N O W H].
  assert (store' !! l = Some t) as Hnew by (apply O, lookup_insert_eq).
  constructor.
  - unfold od_keys in *. by rewrite !fmap_cons, K.
  - intros l' [->|Hin]%elem_of_cons; [done|]. apply F in Hin.
    destruct (decide (l = l')) as [<-|]; [done|]. by rewrite lookup_insert_ne in Hin.
  - apply NoDup_cons. split; [|done]. intros Hin%F. by rewrite lookup_insert_eq in Hin.
  - intros l' t' Ht. apply O. rewrite lookup_insert_ne; [done|]. intros <-. congruence.
  - intros tp'. cbn. case_decide; [done|apply W].
  - intros l' [->|Hin]%elem_of_cons; [by exists t|by apply H].
Qed.

Lemma update_locs_wf (d locs : odict TopicPartition loc) :
  NoDup (od_keys d) → NoDup (od_values d) → NoDup (od_values locs) →
  (∀ l, l ∈ od_values locs → l ∉ od_values d) →
  NoDup (od_keys (od_update d locs)) ∧ NoDup (od_values (od_update d locs)).
Proof.
  unfold od_update. revert d. induction locs as [|[tp l] locs IH]; intros d Hk Hv; [done|].
  unfold od_values at 1. rewrite fmap_cons. intros [Hn Hnd]%NoDup_cons Hnew. cbn [fold_left fst snd] in *.
  assert (l ∉ od_values d) as Hl by (apply Hnew; left).
  apply IH; [by apply NoDup_od_set|by apply NoDup_od_set_values|done|].
  intros l' Hl' [->|Hin]%elem_of_od_set_values; [done|]. by apply (Hnew l'); [right|].
Qed.

Lemma od_map_keys {K V W} (f : V → W) (d : odict K V) : od_keys (od_map f d) = od_keys d.
Proof. unfold od_keys, od_map. rewrite <-list_fmap_compose. done. Qed.

Lemma on_assign_assigned (assignments : odict TopicPartition AssignedTracker) (w : WorkManager E) tp :
  tp ∈ od_keys assignments ∨ assigned (queue_topology w) tp = true →
  assigned (queue_topology (on_assign assignments w)) tp = true.
Proof.
  unfold on_assign. cbn. revert w. induction assignments as [|[tp' v] rest IH]; intros w.
  { intros [H|H]; [by apply elem_of_nil in H|done]. }
  unfold od_keys. rewrite fmap_cons, elem_of_cons. cbn [fold_left fst snd]. intros H. apply IH.
  assert (∀ x, assigned (queue_topology (assign_tracker tp' v w)) x
               = bool_decide (tp' = x) || assigned (queue_topology w) x) as Ha.
  { intros x. unfold assigned, assign_tracker. destruct v; cbn; apply od_has_set. }
  rewrite Ha. destruct H as [[->|H]|H]; [right; by rewrite bool_decide_true|by left|right; rewrite H; apply orb_true_r].
Qed.

(** The trackers after an assignment *)
Lemma assign_sync_trackers assignments coordinator b :
  trackers_wf b → NoDup (od_keys assignments) →
  let b' := (assign_sync assignments coordinator b).2 in
  trackers_wf b'
  ∧ ∀ tp, get_tracker tp b' = match od_get tp assignments with Some t => Some t | None => get_tracker tp b end.
Proof.
  intros Hwf Hnd b'. unfold b', assign_sync. pose proof (allocate_spec assignments (tracker_store (wm b))) as Hal.
  destruct (allocate assignments (tracker_store (wm b))) as [locs store]. cbn [fst snd] in *.
  destruct Hal as [K F N O W H].
  assert (∀ tp l, od_get tp (trackers b) = Some l → l ∉ od_values locs) as Hold.
  { intros tp l Hl Hin%F. destruct (tw_live _ Hwf tp l Hl) as [t Ht]. congruence. }
  destruct (update_locs_wf (trackers b) locs) as [U1 U2]; [apply Hwf|apply Hwf|done| |].
  { intros l Hl Hin. unfold od_values in Hin. apply list_elem_of_fmap in Hin as ([tp l'] & -> & Hin).
    apply od_elem_get in Hin; [|apply Hwf]. by apply (Hold tp l'). }
  assert (∀ tp, od_get tp (od_update (trackers b) locs)
                = match od_get tp locs with Some l => Some l | None => od_get tp (trackers b) end) as Hget.
  { intros tp. apply od_get_update. by rewrite K. }
  assert (∀ tp, od_get tp locs = None ↔ od_get tp assignments = None) as Hnone.
  { intros tp. by rewrite !od_get_None, K. }
  set (b1 := b <| trackers ::= _ |> <| wm ::= _ |>).
  assert (trackers b1 = od_update (trackers b) locs) as E1 by done.
  assert (tracker_store (wm b1) = store) as E2 by apply on_assign_shared_store.
  split.
  - constructor; rewrite E1; [done|done|]. intros tp l. rewrite E2, Hget.
    destruct (od_get tp locs) as [l'|] eqn:Hl.
    + intros [= <-]. apply H. apply od_get_elem in Hl. unfold od_values. apply list_elem_of_fmap. by exists (tp, l').
    + intros Hl'. destruct (tw_live _ Hwf tp l Hl') as [t Ht]. exists t. by apply O.
  - intros tp. unfold get_tracker. rewrite E1, E2, Hget. specialize (W tp). destruct (od_get tp locs) as [l|] eqn:Hl.
    + cbn in W. rewrite <-W. destruct (store !! l); [done|]. by apply eq_sym, Hnone in W; rewrite W in Hl.
    + rewrite (proj1 (Hnone tp) Hl). destruct (od_get tp (trackers b)) as [l|] eqn:Hl'; [|done].
      destruct (tw_live _ Hwf tp l Hl') as [t Ht]. by rewrite Ht, (O _ _ Ht).
Qed.

(** An assignment installs its trackers and touches no other: afterwards the broker's tracker of
    every assigned partition is the one that was built for it, the other partitions keep theirs, no
    two partitions share a tracker, and the work manager has queues for every assigned partition
    with the same tracker behind them. *)
Theorem assign_installs_trackers assignments coordinator b :
  trackers_wf b → NoDup (od_keys assignments) →
  let b' := (assign_sync assignments coordinator b).2 in
  trackers_wf b'
  ∧ (∀ tp, get_tracker tp b' = match od_get tp assignments with Some t => Some t | None => get_tracker tp b end)
  ∧ (∀ tp, tp ∈ od_keys assignments ∨ assigned (queue_topology (wm b)) tp = true →
       assigned (queue_topology (wm b')) tp = true)
  ∧ ∀ c, coordinator = Some c →
      ∃ c', (assign_sync assignments coordinator b).1 = Some c'
        ∧ ∀ tp, tp ∈ od_keys assignments → tp ∉ stopped_partitions c'.
Proof.
  intros Hwf Hnd b'. destruct (assign_sync_trackers assignments coordinator b Hwf Hnd) as [H1 H2].
  split; [exact H1|]. split; [exact H2|]. unfold b', assign_sync.
  pose proof (al_keys _ _ _ _ (allocate_spec assignments (tracker_store (wm b)))) as K.
  destruct (allocate assignments (tracker_store (wm b))) as [locs store]. cbn [fst snd] in *. split.
  - intros tp Htp. cbn. apply on_assign_assigned. rewrite od_map_keys, K. done.
  - intros c ->. eexists. split; [done|]. intros tp Htp. cbn. set_solver.
Qed.
End revoked.

(** ** Witnesses *)

#[local] Instance rebalance_demo_libs : TrackerLibs := vendor_lists.

Definition rebalance_demo_partitions : list KafkaTopicPartition := [mkKafkaTp "orders" 0 None None].

(** The coordinator is about to commit offset 0, the only one done. *)
Definition rebalance_demo_coordinator : CommitCoordinator :=
  (enqueue 1 [mkCandidate broker_demo_tp 0 1 0 0] (new_coordinator 4)).2.

Lemma rebalance_demo_live :
  live_candidates rebalance_demo_coordinator = [mkCandidate broker_demo_tp 0 1 1 1%Q].
Proof. vm_compute. reflexivity. Qed.

Lemma rebalance_demo_honest : coordinator_honest (Some rebalance_demo_coordinator) commit_demo_broker.
Proof.
  intros c x t [= <-] Hx Ht _ o Ho. rewrite rebalance_demo_live in Hx. apply list_elem_of_singleton in Hx as ->.
  cbn [cc_tp cc_safe_offset] in *. change commit_demo_broker with (broker_with commit_demo_tracker) in Ht.
  rewrite broker_with_tracker in Ht. injection Ht as <-.
  destruct (decide (o = 0)) as [->|]; [apply mark_complete_settles|].
  left. assert (last_committed_offset commit_demo_tracker = -1) as -> by (vm_compute; reflexivity). lia.
Qed.

Lemma rebalance_demo_NoDup : NoDup (dto_of_kafka <$> rebalance_demo_partitions).
Proof. apply NoDup_singleton. Qed.

Lemma rebalance_demo_mark : get_committable_high_water_mark None commit_demo_tracker = 0.
Proof. vm_compute. reflexivity. Qed.


Lemma dispatch_demo_store : is_Some (tracker_store (wm dispatch_demo_broker) !! fresh (dom (∅ : gmap loc OffsetTracker))).
Proof.
  change (tracker_store (wm dispatch_demo_broker)) with
    ((λ t, mark_complete 2 (update_last_fetched_offset 2 t)) <$>
       <[fresh (dom (∅ : gmap loc OffsetTracker)) := new_tracker wm_demo_tp 0 500 None]> (∅ : gmap loc OffsetTracker)).
  rewrite lookup_fmap, lookup_insert_eq. eauto.
Qed.

Lemma dispatch_demo_trackers :
  trackers dispatch_demo_broker = [(wm_demo_tp, fresh (dom (∅ : gmap loc OffsetTracker)))].
Proof. reflexivity. Qed.

Lemma dispatch_demo_wf : trackers_wf dispatch_demo_broker.
Proof.
  constructor; rewrite dispatch_demo_trackers; [apply NoDup_singleton..|]. intros tp l Hl.
  cbn [od_get] in Hl. case_decide; [|done]. injection Hl as <-. apply dispatch_demo_store.
Qed.

Lemma dispatch_demo_tracked : is_Some (get_tracker wm_demo_tp dispatch_demo_broker).
Proof. apply (get_tracker_live _ _ dispatch_demo_wf). rewrite dispatch_demo_trackers. cbn. eauto. Qed.

Lemma dispatch_demo_cache : cache_inv 1000 (cache dispatch_demo_broker).
Proof. constructor; [apply NoDup_nil; exact I|done|]. cbn. lia. Qed.

(** When the bridge runs both bodies, the callback returns. *)
Lemma handle_revoke_returns {E} `{EE : ExecutionEngine E} cfg commit_ok partitions coordinator (b : Broker E) :
  ∃ sent c' b', handle_revoke_callback cfg true true commit_ok partitions coordinator b = (true, sent, c', b').
Proof.
  unfold handle_revoke_callback. cbn [negb]. destruct (prepare_revoke_sync cfg partitions coordinator b) as [[p c1] b1].
  eauto.
Qed.

Lemma revoke_forgets_broker_state_witness :
  ∃ sent c' b', handle_revoke_callback broker_demo_config true true (λ _, true) rebalance_demo_partitions None
                  dispatch_demo_broker = (true, sent, c', b')
    ∧ is_Some (get_tracker wm_demo_tp dispatch_demo_broker) ∧ get_tracker wm_demo_tp b' = None.
Proof.
  destruct (handle_revoke_returns broker_demo_config (λ _, true) rebalance_demo_partitions None dispatch_demo_broker)
    as (sent & c' & b' & Hh).
  destruct (revoke_forgets_broker_state broker_demo_config (λ _, true) 1000 rebalance_demo_partitions None
    dispatch_demo_broker sent c' b' dispatch_demo_wf rebalance_demo_NoDup dispatch_demo_cache dispatch_demo_reachable Hh)
    as [H _].
  exists sent, c', b'. split; [exact Hh|]. split; [exact dispatch_demo_tracked|].
  exact (proj1 (proj2 (H wm_demo_tp (list_elem_of_here _ _)))).
Defined.

Lemma assign_installs_trackers_witness :
  let b' := (assign_sync [(mkTp "orders" 1, commit_demo_tracker)] None commit_demo_broker).2 in
  get_tracker (mkTp "orders" 1) b' = Some commit_demo_tracker
  ∧ get_tracker broker_demo_tp b' = get_tracker broker_demo_tp commit_demo_broker.
Proof.
  destruct (assign_installs_trackers [(mkTp "orders" 1, commit_demo_tracker)] None commit_demo_broker
    (broker_with_wf _) (NoDup_singleton _)) as (_ & H & _).
  split; [exact (H (mkTp "orders" 1))|exact (H broker_demo_tp)].
Defined.
