(* ===== verification/BrokerSafety.v ===== *)
(** * What a broker's settled offsets stand for

    An offset that a tracker of the broker treats as settled is one of three things: it lies
    before a position the partition was started at, or a completion of it was reported and, if
    it had to, published as a dead letter.  This file proves that every handler of the broker
    keeps that so; [BrokerSystem] composes them.  The facts are kept in a ghost record that the
    handlers do not see and that only grows, so that they survive rebalances. *)

From S2P Require Import Prelude Vendor Runtime Dto OffsetTracker PyText MetadataEncoder PoisonMessage WorkQueueTopology ExecutionEngine WorkManager WorkManagerTrackers Dlq CommitPlanner Broker BrokerInv BrokerCompletion BrokerCommit CommitCoordinator BrokerRebalance.

(** ** Trackers: what safety needs of them

    Less than [tracker_inv], because a commit may end on a tracker of a later assignment than
    the one it began on, whose fetched offset it need not respect. *)
Section tracker.
Context `{TL : TrackerLibs}.
Implicit Types t : OffsetTracker.

Definition above t : Prop :=
  -1 ≤ last_committed_offset t ∧ ∀ o, o ∈ ss_list (completed_offsets t) → last_committed_offset t < o.

Lemma above_committable t :
  above t →
  last_committed_offset t ≤ get_committable_high_water_mark None t
  ∧ ∀ o, o ≤ get_committable_high_water_mark None t → settled t o.
Proof.
  intros [_ Ht]. destruct (contiguous_from_spec (last_committed_offset t) (ss_list (completed_offsets t)))
    as (H1 & H2 & _); [apply ss_list_sorted|done|].
  split; [exact H1|]. intros o Ho. destruct (decide (o ≤ last_committed_offset t)); [by left|].
  right. apply H2. unfold get_committable_high_water_mark in Ho. lia.
Qed.

Lemma above_commit_through c t :
  above t →
  above (commit_through c t)
  ∧ (∀ o, settled (commit_through c t) o → o ≤ c ∨ settled t o)
  ∧ last_committed_offset (commit_through c t) = Z.max c (last_committed_offset t)
  ∧ ∀ o, o ∈ ss_list (completed_offsets (commit_through c t)) → o ∈ ss_list (completed_offsets t).
Proof.
  intros [H1 H2]. unfold commit_through. destruct (Z.leb_spec c (last_committed_offset t)) as [Hle|Hlt].
  { split; [done|]. split; [by right|]. split; [lia|done]. }
  assert (∀ o, o ∈ ss_list (fold_left (λ acc o, ss_remove o acc)
      (ss_irange (Some (last_committed_offset t + 1)) (Some c) (completed_offsets t)) (completed_offsets t))
    → c < o ∧ o ∈ ss_list (completed_offsets t)) as Hin.
  { intros o. rewrite ss_irange_spec, ss_remove_all;
      [|apply NoDup_filter, ss_list_NoDup|by intros y [_ ?]%list_elem_of_filter].
    rewrite list_elem_of_filter. unfold in_irange. intros [Hn Hx]. split; [|done].
    destruct (decide (c < o)); [done|]. destruct Hn. split; [|done]. pose proof (H2 o Hx). lia. }
  split; [split; cbn; [lia|intros o Ho%Hin; lia]|]. split.
  - intros o [Ho|Ho]; [left; exact Ho|]. right. right. by apply Hin.
  - split; [cbn; lia|]. intros o Ho. by apply Hin.
Qed.

Lemma above_advance t :
  above t → above (advance_high_water_mark t) ∧ (∀ o, settled (advance_high_water_mark t) o → settled t o).
Proof.
  intros Ht. destruct (above_committable t Ht) as [H1 H2].
  destruct (above_commit_through (get_committable_high_water_mark None t) t Ht) as (H3 & H4 & _).
  split; [done|]. intros o Ho. destruct (H4 o Ho); [by apply H2|done].
Qed.

Lemma above_same t t' :
  last_committed_offset t' = last_committed_offset t → completed_offsets t' = completed_offsets t → above t → above t'.
Proof. unfold above. by intros -> ->. Qed.

(** A tracker that only gained completed offsets above its mark *)
Lemma above_mark_complete o t : above t → above (mark_complete o t).
Proof.
  intros [H1 H2]. destruct (mark_complete_offsets o t) as (M1 & _ & _). split; rewrite M1; [done|].
  intros x. destruct (decide (last_committed_offset t < o)).
  - rewrite mark_complete_list by done. intros [->|?]; [done|by apply H2].
  - rewrite mark_complete_cases. case_bool; [lia|apply H2].
Qed.
End tracker.

(** ** The facts *)

Record Facts := mkFacts {
  started_at : list (TopicPartition * Z);       (* positions somebody else gave a partition *)
  reported : list CompletionEvent;              (* completions the work manager reported *)
  publications : list (nat → CompletionEvent → PyValue → PyValue → PublishOutcome);
}.

#[export] Instance Facts_settable : Settable Facts := λ g, mkFacts (started_at g) (reported g) (publications g).

Definition facts_le (g g' : Facts) : Prop :=
  started_at g ⊆ started_at g' ∧ reported g ⊆ reported g' ∧ publications g ⊆ publications g'.

#[export] Instance facts_le_preorder : PreOrder facts_le.
Proof. split; [done|]. intros g1 g2 g3 (? & ? & ?) (? & ? & ?). split; [|split]; by etrans. Qed.

Section safety.
Context {E : Type} `{EE : ExecutionEngine E} `{TL : TrackerLibs} `{RT : Runtime}.
Context (cfg : BrokerConfig).
Implicit Types (b : Broker E) (g : Facts).

(** The failure, if it was terminal, was published. *)
Definition cleared g (e : CompletionEvent) : Prop :=
  needs_dlq cfg e = true → ∃ publish n k v, publish ∈ publications g ∧ publish n e k v = Published.

Definition processed_offset g (tp : TopicPartition) (o : Z) : Prop :=
  ∃ e, e ∈ reported g ∧ ce_tp e = tp ∧ ce_offset e = o ∧ cleared g e.

Definition justified g (tp : TopicPartition) (o : Z) : Prop :=
  o < 0 ∨ (∃ a, (tp, a) ∈ started_at g ∧ o < a) ∨ processed_offset g tp o.

Lemma justified_mono g g' tp o : facts_le g g' → justified g tp o → justified g' tp o.
Proof.
  intros (H1 & H2 & H3) [?|[(a & ? & ?)|(e & ? & ? & ? & Hc)]]; [by left|right; left; exists a; auto|].
  right; right. exists e. split; [auto|]. split; [done|]. split; [done|].
  intros Hn. destruct (Hc Hn) as (p & n & k & v & ? & ?). exists p, n, k, v. auto.
Qed.

Definition tracker_ok g (tp : TopicPartition) (t : OffsetTracker) : Prop :=
  above t ∧ ∀ o, settled t o → justified g tp o.

(** Everything a handler of the broker preserves *)
Record broker_ok g b : Prop := mkBrokerOk {
  bo_ready : completion_ready cfg b;
  bo_shared : all_shared (wm b);
  bo_trackers tp t : get_tracker tp b = Some t → tracker_ok g tp t;
  bo_pending k e : od_get k (pending_dlq_events b) = Some e → e ∈ reported g;
}.

Lemma tracker_ok_mono g g' tp t : facts_le g g' → tracker_ok g tp t → tracker_ok g' tp t.
Proof. intros Hg [H1 H2]. split; [done|]. intros o Ho. by apply (justified_mono g), H2. Qed.

Lemma broker_ok_mono g g' b : facts_le g g' → broker_ok g b → broker_ok g' b.
Proof.
  intros Hg [H1 H2 H3 H4]. constructor; [done..| |].
  - intros tp t Ht. by apply (tracker_ok_mono g), H3.
  - intros k e He. apply Hg. by eapply H4.
Qed.

(** ** Handlers that leave the trackers alone *)

(** Two brokers whose trackers differ at most in their fetched offsets *)
Definition like b b' : Prop :=
  trackers b' = trackers b ∧ stores_fetched (tracker_store (wm b)) (tracker_store (wm b'))
  ∧ pending_dlq_events b' = pending_dlq_events b.

Lemma like_refl b : like b b.
Proof. done. Qed.

Lemma like_trans b1 b2 b3 : like b1 b2 → like b2 b3 → like b1 b3.
Proof.
  intros (A1 & A2 & A3) (B1 & B2 & B3). split; [congruence|]. split; [|congruence].
  by trans (tracker_store (wm b2)).
Qed.

Lemma like_tracker b b' tp :
  like b b' → option_Forall2 fetched (get_tracker tp b) (get_tracker tp b').
Proof.
  intros (H1 & H2 & _). unfold get_tracker. rewrite H1. destruct (od_get tp (trackers b)); [apply H2|constructor].
Qed.

Lemma fetched_ok g tp t t' : fetched t t' → tracker_ok g tp t → tracker_ok g tp t'.
Proof.
  intros (H1 & H2 & _) [H3 H4]. split; [by eapply above_same|]. intros o. unfold settled. rewrite H1, H2. apply H4.
Qed.

Lemma broker_ok_like g b b' :
  like b b' → cache_inv (bc_cache_max_bytes cfg) (cache b') → all_shared (wm b') → broker_ok g b → broker_ok g b'.
Proof.
  intros Hl Hc Hsh [(H1 & H2 & _) _ H4 H5]. pose proof Hl as (E1 & E2 & E3).
  constructor; [|done| |by rewrite E3].
  - split; [|split; [|done]].
    + destruct H1 as [W1 W2 W3]. constructor; rewrite ?E1; [done..|]. intros tp l Hl'.
      destruct (W3 tp l Hl') as [t Ht]. specialize (E2 l). rewrite Ht in E2. inversion E2. eauto.
    + unfold ledger_wf. by rewrite E3.
  - intros tp t Ht. pose proof (like_tracker b b' tp Hl) as H. rewrite Ht in H.
    inversion H as [t0 t' Hf E0|]. eapply fetched_ok; [done|]. by apply H4.
Qed.

(** A change of the work manager that keeps its view of the trackers *)
Lemma broker_ok_wm g b w :
  tracker_view w = tracker_view (wm b) → broker_ok g b → broker_ok g (b <| wm := w |>).
Proof.
  intros Hv Hb. unfold tracker_view in Hv. injection Hv as E1 E2 E3. apply (broker_ok_like g b); [|apply Hb| |done].
  - split; [done|]. split; [|done]. cbn. by rewrite E1.
  - intros tp l. cbn. rewrite E2, E3. apply (bo_shared _ _ Hb).
Qed.

(** ** Dispatch *)

Lemma dispatch_message_ok g groups msg b :
  broker_ok g b → broker_ok g (dispatch_message cfg groups msg b).2.
Proof.
  intros Hb. unfold dispatch_message.
  destruct (msg_error msg), (msg_topic msg) as [t|], (msg_partition msg) as [n|], (msg_offset msg) as [o|]; try done.
  destruct (get_tracker (mkTp t n) b) as [tr|]; [|done].
  destruct (is_completed_uncommitted o tr).
  { apply (broker_ok_like g b); [done|apply Hb|apply Hb|done]. }
  set (b1 := b <| cache ::= _ |>).
  assert (broker_ok g b1) as Hb1.
  { apply (broker_ok_like g b); [done| |apply Hb|done]. apply cache_message_spec, Hb. }
  destruct (bc_ordering_mode cfg); [done..|].
  unfold submit_message. match goal with |- context [submit_message_batch ?gs (wm b1)] =>
    destruct (submit_batch_trackers gs (wm b1)) as (H1 & H2 & H3); destruct (submit_message_batch gs (wm b1)) as [ok w] end.
  cbn [fst snd] in *. apply (broker_ok_like g b1); [done|apply Hb1| |done].
  intros tp l. cbn. rewrite H2, H3. apply (bo_shared _ _ Hb1).
Qed.

Lemma dispatch_messages_ok g messages b : broker_ok g b → broker_ok g (dispatch_messages cfg messages b).2.
Proof.
  intros Hb. unfold dispatch_messages.
  assert (∀ groups, broker_ok g (dispatch_loop cfg messages groups b).2) as Hloop.
  { revert b Hb. induction messages as [|msg rest IH]; intros b Hb groups; [done|]. cbn [dispatch_loop].
    pose proof (dispatch_message_ok g groups msg b Hb) as H1.
    destruct (dispatch_message cfg groups msg b) as [[ok groups1] b1]. destruct ok; [by apply IH|done]. }
  specialize (Hloop []). destruct (dispatch_loop cfg messages [] b) as [[ok groups] b1]. cbn [snd] in Hloop.
  destruct ok; cbn [negb]; [|done]. case_decide; [done|].
  destruct (submit_batch_trackers groups (wm b1)) as (H1 & H2 & H3). destruct (submit_message_batch groups (wm b1)) as [ok w].
  cbn [fst snd] in *. apply (broker_ok_like g b1); [done|apply Hloop| |done].
  intros tp l. cbn. rewrite H2, H3. apply (bo_shared _ _ Hloop).
Qed.

Lemma schedule_ok g b w : broker_ok g b → schedule (wm b) = Some w → broker_ok g (b <| wm := w |>).
Proof. intros Hb Hs. apply broker_ok_wm; [|done]. apply schedule_trackers; [apply Hb|done]. Qed.

(** ** Completions *)

(** What processing one event leaves besides the completed offsets *)
Record kept (events : list CompletionEvent) b b' : Prop := mkKept {
  kp_wf : trackers_wf b';
  kp_assigned : offset_trackers (wm b') = offset_trackers (wm b);
  kp_shared : shared_offset_trackers (wm b') = shared_offset_trackers (wm b);
  kp_above : ∀ tp t, get_tracker tp b' = Some t → above t;
  kp_pending : ∀ k e, od_get k (pending_dlq_events b') = Some e → od_get k (pending_dlq_events b) = Some e ∨ e ∈ events;
}.

Lemma kept_refl b : trackers_wf b → (∀ tp t, get_tracker tp b = Some t → above t) → kept [] b b.
Proof. intros Hwf Ha. constructor; try done. by left. Qed.

Lemma kept_trans l l' b1 b2 b3 : kept l b1 b2 → kept l' b2 b3 → kept (l ++ l') b1 b3.
Proof.
  intros [A1 A2 A3 A4 A5] [B1 B2 B3 B4 B5]. constructor; [done|congruence..|done|].
  intros k e He. destruct (B5 k e He) as [H|H]; [|right; set_solver].
  destruct (A5 k e H); [by left|right; set_solver].
Qed.

Lemma complete_event_kept e fl t p :
  trackers_wf (pr_broker p) → (∀ tp t, get_tracker tp (pr_broker p) = Some t → above t) →
  get_tracker (ce_tp e) (pr_broker p) = Some t → kept [e] (pr_broker p) (pr_broker (complete_event e fl t p)).
Proof.
  intros Hwf Ha Ht. destruct (complete_event_frame e fl t p) as (E1 & E2 & _ & _). constructor.
  - apply (same_trackers_wf (update_tracker (ce_tp e) (mark_complete (ce_offset e)) (pr_broker p))); [done|].
    by apply update_tracker_wf.
  - cbn. unfold update_tracker. by destruct (od_get _ _).
  - cbn. unfold update_tracker. by destruct (od_get _ _).
  - intros tp t'. rewrite (complete_event_tracker e fl t p tp Hwf Ht). case_decide; [|apply Ha].
    intros [= <-]. apply above_mark_complete. by eapply Ha.
  - intros k e'. rewrite E2, od_get_pop. case_decide; [done|]. by left.
Qed.

Lemma process_event_kept publish fl e p :
  trackers_wf (pr_broker p) → (∀ tp t, get_tracker tp (pr_broker p) = Some t → above t) →
  kept [e] (pr_broker p) (pr_broker (either (process_event cfg publish fl e p))).
Proof.
  intros Hwf Ha. unfold process_event.
  assert (∀ b', b' = pr_broker p ∨ b' = (pr_broker p) <| pending_dlq_events ::= od_pop (ce_tp e, ce_offset e) |> →
    kept [e] (pr_broker p) b') as Hsame.
  { intros b' [->| ->]; (constructor; try done); [by left|by apply (same_trackers_wf (pr_broker p))|].
    intros k e'. cbn -[od_pop]. rewrite od_get_pop. case_decide; [done|by left]. }
  destruct (negb fl && _); [by apply Hsame; left|].
  destruct (get_tracker (ce_tp e) (pr_broker p)) as [t|] eqn:Ht; [|by apply Hsame; destruct fl; [right|left]].
  destruct (negb _); [by apply Hsame; destruct fl; [right|left]|].
  destruct (needs_dlq cfg e); [|by apply complete_event_kept].
  destruct (default _ _) as [k v]. destruct (publish _ _ _ _).
  - cbn [either]. match goal with |- context [complete_event e fl t ?p1] => exact (complete_event_kept e fl t p1 Hwf Ha Ht) end.
  - constructor; try done; [by apply (same_trackers_wf (pr_broker p))|]. intros k' e'. cbn -[od_set]. rewrite od_get_set. case_decide; [|by left].
    intros [= <-]. right. left.
  - by apply Hsame; left.
Qed.

Lemma process_events_kept publish l p :
  trackers_wf (pr_broker p) → (∀ tp t, get_tracker tp (pr_broker p) = Some t → above t) →
  kept l.*1 (pr_broker p) (pr_broker (either (process_events cfg publish l p))).
Proof.
  revert p. induction l as [|[e fl] l IH]; intros p Hwf Ha; cbn [process_events]; [by apply kept_refl|].
  pose proof (process_event_kept publish fl e p Hwf Ha) as H1. rewrite fmap_cons. cbn [fst].
  destruct (process_event cfg publish fl e p) as [p1|p1]; cbn [either] in *.
  - destruct H1 as [A1 A2 A3 A4 A5]. constructor; try done. intros k e' He. destruct (A5 k e' He); [by left|right; set_solver].
  - apply (kept_trans [e] l.*1 _ (pr_broker p1)); [done|]. apply IH; [apply H1|apply (kp_above _ _ _ H1)].
Qed.

(** The facts after a call that was handed [events] *)
Definition after_report (events : list CompletionEvent) publish g : Facts :=
  g <| reported ::= λ l, l ++ events |> <| publications ::= cons publish |>.

Lemma after_report_le events publish g : facts_le g (after_report events publish g).
Proof. split; [done|]. split; cbn; set_solver. Qed.

Lemma process_completed_ok publish events g b :
  broker_ok g b →
  broker_ok (after_report events publish g) (pr_broker (either (process_completed_events cfg publish events b))).
Proof.
  intros Hb. pose proof (bo_ready _ _ Hb) as Hr. set (g' := after_report events publish g).
  set (L := ((λ e, (e, true)) <$> od_values (pending_dlq_events b)) ++ ((λ e, (e, false)) <$> events)).
  pose proof (process_events_kept publish L (mkProcessing b [] [] 0)) as Hk.
  destruct Hk as [K1 K2 K3 K4 K5]; [apply Hr|intros tp t Ht; by destruct (bo_trackers _ _ Hb tp t Ht)|].
  pose proof (process_completed_events_processed cfg publish b events Hr) as Hp. fold L in Hp.
  assert (∃ seen, seen ⊆ L ∧ processed cfg publish b seen (either (process_completed_events cfg publish events b)))
    as (seen & Hseen & Hq).
  { destruct (process_completed_events cfg publish events b); cbn [either]; [|by exists L].
    destruct Hp as (seen & [k ->] & Hp). exists seen. split; [set_solver|done]. }
  change (process_events cfg publish L (mkProcessing b [] [] 0)) with (process_completed_events cfg publish events b) in *.
  assert (∀ e fl, (e, fl) ∈ L → e ∈ reported g') as Hrep.
  { intros e fl [He|He]%elem_of_both; [|cbn; set_solver].
    apply list_elem_of_fmap in He as ([k e0] & -> & He). apply od_elem_get in He; [|apply Hr].
    apply (bo_pending _ _ Hb) in He. cbn. set_solver. }
  set (p := either (process_completed_events cfg publish events b)) in *. clearbody p.
  constructor.
  - split; [exact K1|]. split; [|apply Hq]. split; [apply Hq|exact (pi_pending _ _ _ _ _ Hq)].
  - intros tp l. rewrite K2, K3. apply (bo_shared _ _ Hb).
  - intros tp t Ht. split; [by eapply K4|]. intros o Ho.
    destruct (pi_back _ _ _ _ _ Hq tp t Ht) as [t0 Ht0].
    destruct (pi_grown _ _ _ _ _ Hq tp t0 Ht0) as (t1 & Ht1 & G1 & _ & _ & _). simplify_eq.
    destruct (bo_trackers _ _ Hb tp t0 Ht0) as [_ Hj].
    destruct Ho as [Ho|Ho].
    { apply (justified_mono g); [apply after_report_le|]. apply Hj. left. lia. }
    destruct (decide (o ∈ completed_list t0)) as [Hold|Hnew].
    { apply (justified_mono g); [apply after_report_le|]. apply Hj. by right. }
    destruct (pi_justified _ _ _ _ _ Hq tp t0 t o Ht0 Ht Ho Hnew) as (e & fl & Hin & Hkey & _ & Hpub).
    injection Hkey as Etp Eo. right. right. exists e. split; [by eapply Hrep, Hseen|]. split; [done|]. split; [done|].
    intros Hn. destruct (Hpub Hn) as (n & k & v & Hv). exists publish, n, k, v. split; [cbn; left|done].
  - intros k e He. destruct (K5 k e He) as [H|H].
    + apply (bo_pending _ _ Hb) in H. cbn. set_solver.
    + apply list_elem_of_fmap in H as ([e0 fl] & -> & H). by eapply Hrep.
Qed.

Lemma record_processed_ok g result pending now b :
  broker_ok g b → broker_ok g (record_processed_completions result pending now b).
Proof.
  intros Hb. unfold record_processed_completions. case_match; [done|].
  apply (broker_ok_like g b); [done|apply Hb|apply Hb|done].
Qed.

Lemma handle_completed_ok publish events now g b :
  broker_ok g b →
  broker_ok (after_report events publish g)
    (match handle_completed_events cfg publish events now b with inl b' | inr b' => b' end).
Proof.
  intros Hb. unfold handle_completed_events. pose proof (process_completed_ok publish events g b Hb) as H.
  destruct (process_completed_events cfg publish events b) as [p|p]; cbn [either] in H; [done|].
  by apply record_processed_ok.
Qed.

Lemma blocking_timeouts_ok time error_text g b events b' :
  broker_ok g b → handle_blocking_timeouts cfg time error_text b = Some (events, b') → broker_ok g b'.
Proof.
  intros Hb. unfold handle_blocking_timeouts. case_match; [by intros [= _ <-]|].
  set (f := fold_left _ _ (false, wm b)).
  assert (tracker_view f.2 = tracker_view (wm b)) as Hv.
  { unfold f. apply (fold_left_inv (λ s : bool * WorkManager E, tracker_view s.2 = tracker_view (wm b))); [|done].
    intros [forced w] [[[tp o] d] ep] Hs. pose proof (force_fail_trackers tp o ep (error_text o d) (max_retries (bc_dlq cfg)) w).
    destruct (force_fail _ _ _ _ _ w) as [r w']. cbn in *. congruence. }
  destruct f as [forced w]. cbn [snd] in Hv. destruct forced; cbn [negb].
  - destruct (poll_completed_events true w) as [[evs w']|] eqn:Hp; [|done]. intros [= _ <-].
    apply broker_ok_wm; [|done]. rewrite <-Hv. eapply poll_trackers; [|exact Hp].
    eapply all_shared_view; [exact Hv|apply Hb].
  - intros [= _ <-]. by apply broker_ok_wm.
Qed.

(** One step of the completion drain: [events] and [forced] are what it was handed *)
Lemma drain_ok publish time error_text now g b events w forced b1 r :
  broker_ok g b →
  poll_completed_events true (wm b) = Some (events, w) →
  handle_blocking_timeouts cfg time error_text (b <| wm := w |>) = Some (forced, b1) →
  drain_completion_events_once cfg publish time error_text now b = Some r →
  broker_ok (after_report (events ++ forced) publish g) (match r with inl b' => b' | inr (_, b') => b' end).
Proof.
  intros Hb Hp Hh. unfold drain_completion_events_once. rewrite Hp, Hh.
  assert (broker_ok g (b <| wm := w |>)) as Hb0.
  { apply broker_ok_wm; [|done]. eapply poll_trackers; [apply Hb|exact Hp]. }
  pose proof (blocking_timeouts_ok time error_text g _ forced b1 Hb0 Hh) as Hb1.
  case_decide. { intros [= <-]. apply (broker_ok_mono g); [apply after_report_le|done]. }
  pose proof (handle_completed_ok publish (events ++ forced) now g b1 Hb1) as Hb2.
  destruct (handle_completed_events cfg publish (events ++ forced) now b1) as [b2|b2]; [by intros [= <-]|].
  destruct (schedule (wm b2)) as [w2|] eqn:Hs; [|done]. intros [= <-]. by apply schedule_ok.
Qed.
End safety.
