(* ===== verification/BrokerHandover.v ===== *)
(** * Commits, assignments and revocations keep offsets justified

    The rest of [BrokerSafety]: what the broker sends to Kafka stands only for offsets that are
    settled in its trackers, and the trackers it builds from what Kafka answers treat only such
    offsets as settled. *)

From S2P Require Import Prelude Vendor Runtime Dto OffsetTracker PyText MetadataEncoder PoisonMessage WorkQueueTopology ExecutionEngine WorkManager WorkManagerTrackers Dlq CommitPlanner Broker BrokerInv BrokerCompletion BrokerCommit CommitCoordinator BrokerRebalance BrokerSafety.

Section handover.
Context {E : Type} `{EE : ExecutionEngine E} `{TL : TrackerLibs} `{RT : Runtime}.
Context (cfg : BrokerConfig).
Implicit Types (b : Broker E) (g : Facts) (k : KafkaTopicPartition) (tp : TopicPartition).

(** ** Entries of Kafka's offset store *)

(** The offsets an entry's metadata lists as done *)
Definition metadata_offsets k : gset Z :=
  match nonempty_metadata (k_metadata k) with Some m => decode_metadata m | None => ∅ end.

Definition entry_ok g k : Prop :=
  ∃ c, k_offset k = Some c ∧ 0 ≤ c
    ∧ (∀ o, o < c → justified cfg g (dto_of_kafka k) o)
    ∧ (∀ o, o ∈ metadata_offsets k → justified cfg g (dto_of_kafka k) o).

Lemma entry_ok_mono g g' k : facts_le g g' → entry_ok g k → entry_ok g' k.
Proof.
  intros Hg (c & H1 & H2 & H3 & H4). exists c. split; [done|]. split; [done|].
  split; intros o Ho; apply (justified_mono cfg g g'); auto.
Qed.

Lemma offset_to_commit_ok g max maxc strategy tp t safe :
  tracker_ok cfg g tp t → -1 ≤ safe → (∀ o, o ≤ safe → justified cfg g tp o) →
  entry_ok g (offset_to_commit max maxc strategy tp t safe).
Proof.
  intros [_ Ht] Hsafe Hj. exists (safe + 1).
  assert (dto_of_kafka (offset_to_commit max maxc strategy tp t safe) = tp) as -> by apply dto_of_offset.
  split; [done|]. split; [lia|]. split; [intros o Ho; apply Hj; lia|].
  intros o Ho. apply Ht. right. unfold metadata_offsets, offset_to_commit in Ho. cbn [k_metadata] in Ho.
  destruct (is_snapshot strategy); [|cbn in Ho; set_solver].
  set (X := get_commit_metadata_offsets maxc t (safe + 1)) in Ho.
  assert (∀ x, x ∈ X → safe + 1 ≤ x ∧ x ∈ ss_list (completed_offsets t)) as HX
    by (intros x Hx; by apply commit_metadata_sound in Hx).
  destruct (encode_metadata max X (safe + 1)) as [|ch m] eqn:He; [cbn in Ho; set_solver|].
  cbn [nonempty_metadata] in Ho. rewrite <-He, metadata_decode_exact in Ho.
  - case_decide; [set_solver|]. by apply HX.
  - intros x Hx. destruct (HX x Hx). lia.
Qed.

(** ** Changing one tracker *)

Lemma update_tracker_ok g tp f b :
  broker_ok cfg g b → (∀ t, get_tracker tp b = Some t → tracker_ok cfg g tp (f t)) →
  broker_ok cfg g (update_tracker tp f b).
Proof.
  intros [(H1 & H2 & H3) H4 H5 H6] Hf. destruct (update_tracker_frame tp f b) as (_ & E2 & E3 & _).
  constructor.
  - split; [by apply update_tracker_wf|]. split; [unfold ledger_wf; by rewrite E3|by rewrite E2].
  - unfold update_tracker. by destruct (od_get tp (trackers b)).
  - intros tp' t. rewrite get_update_tracker by done. case_decide as Hd; [|apply H5]. subst tp'.
    destruct (get_tracker tp b) as [t0|]; [|done]. intros [= <-]. by apply Hf.
  - by rewrite E3.
Qed.

(** ** The commit cycle *)

Definition commits_ok g (commits : list (TopicPartition * Z)) : Prop :=
  ∀ tp h, (tp, h) ∈ commits → -1 ≤ h ∧ ∀ o, o ≤ h → justified cfg g tp o.

Lemma candidates_ok g b : broker_ok cfg g b → commits_ok g (build_commit_candidates b).
Proof.
  intros Hb tp h Hin. unfold build_commit_candidates in Hin.
  apply list_elem_of_omap in Hin as ([tp' l] & Hin & Heq). cbn [fst snd] in Heq.
  destruct (tracker_store (wm b) !! l) as [t|] eqn:Ht; [|done].
  destruct (Z.ltb_spec (last_committed_offset t)
    (get_committable_high_water_mark (get_min_in_flight_offset tp' (wm b)) t)) as [Hlt|]; [|done].
  injection Heq as -> <-.
  assert (get_tracker tp b = Some t) as Hg.
  { unfold get_tracker. rewrite (od_elem_get _ tp l); [done|apply tw_keys, Hb|done]. }
  destruct (bo_trackers _ _ _ Hb tp t Hg) as [Ha Hj]. destruct (above_committable t Ha) as [_ Hset].
  assert (get_committable_high_water_mark (get_min_in_flight_offset tp (wm b)) t
          ≤ get_committable_high_water_mark None t) as Hle.
  { unfold get_committable_high_water_mark. destruct (get_min_in_flight_offset tp (wm b)); [|lia]. case_bool; lia. }
  destruct Ha as [Ha _]. split; [lia|]. intros o Ho. apply Hj, Hset. lia.
Qed.

Lemma commit_trackers_ok g commits b :
  broker_ok cfg g b → commits_ok g commits → broker_ok cfg g (commit_trackers commits b).
Proof.
  unfold commit_trackers. revert b. induction commits as [|[tp h] commits IH]; intros b Hb Hc; [done|].
  cbn [fold_left fst snd]. apply IH; [|intros tp' h' Hin; apply Hc; by right].
  apply update_tracker_ok; [done|]. intros t Ht. destruct (bo_trackers _ _ _ Hb tp t Ht) as [Ha Hj].
  destruct (Hc tp h) as [_ Hh]; [left|]. destruct (above_commit_through h t Ha) as (H1 & H2 & _).
  split; [done|]. intros o Ho. destruct (H2 o Ho); [by apply Hh|by apply Hj].
Qed.

(** A change of the broker's own books *)
Lemma broker_ok_books g b b' :
  wm b' = wm b → trackers b' = trackers b → pending_dlq_events b' = pending_dlq_events b → cache b' = cache b →
  broker_ok cfg g b → broker_ok cfg g b'.
Proof.
  intros E1 E2 E3 E4 Hb. apply (broker_ok_like cfg g b); [| |rewrite E1; apply Hb|done].
  - split; [done|]. by rewrite E1.
  - rewrite E4. apply Hb.
Qed.

Lemma clear_committed_books commits b :
  let b' := clear_committed_dirty_partitions commits b in
  wm b' = wm b ∧ trackers b' = trackers b ∧ pending_dlq_events b' = pending_dlq_events b ∧ cache b' = cache b.
Proof.
  unfold clear_committed_dirty_partitions.
  set (same b' := wm b' = wm b ∧ trackers b' = trackers b ∧ pending_dlq_events b' = pending_dlq_events b ∧ cache b' = cache b).
  assert (same (fold_left clear_committed_partition commits b)) as H.
  { apply (fold_left_inv same); [|done]. intros s [tp h] Hs. unfold clear_committed_partition.
    assert (∀ t, same (prune_timestamps tp t h s)) as Hp.
    { intros t. unfold prune_timestamps. destruct (od_get tp (unsettled_timestamps s)) as [[|]|]; [done| |done].
      by case_decide. }
    destruct (get_tracker tp s); case_match; exact (Hp _). }
  cbn zeta. by case_decide.
Qed.

Lemma build_offsets_ok g commits b ks :
  broker_ok cfg g b → commits_ok g commits →
  build_offsets_to_commit (bc_max_metadata_size cfg) (bc_max_completed_offsets cfg) commits
    (λ tp, get_tracker tp b) (bc_strategy cfg) = Some ks →
  ∀ k, k ∈ ks → entry_ok g k.
Proof.
  intros Hb Hc Hk k Hin. destruct (build_offsets_spec _ _ _ _ _ _ Hk k Hin) as (tp & h & t & Hc' & Ht & ->).
  destruct (Hc tp h Hc'). apply offset_to_commit_ok; [by apply Hb|done..].
Qed.

(** A cycle during which the others turn the broker into [b1], and into [b2] if the commit has to
    be tried again; a cycle that sends nothing does not leave the event loop *)
Lemma commit_ready_ok force source commit_ok others now g g1 g2 b offsets b' :
  let b1 := others 0%nat (b <| cadence ::= record_invocation source |>) in
  broker_ok cfg g b → facts_le g g1 → facts_le g1 g2 →
  commit_ready_offsets cfg force source commit_ok others now b = (offsets, b') →
  (∀ k, k ∈ offsets → entry_ok g k)
  ∧ ((offsets ≠ [] → broker_ok cfg g1 b1 ∧ broker_ok cfg g2 (others 1%nat b1)) →
     broker_ok cfg (if decide (offsets = []) then g else if commit_ok 0%nat then g1 else g2) b').
Proof.
  intros b1 Hb H01 H12. unfold commit_ready_offsets.
  set (b0 := b <| cadence ::= record_invocation source |>) in *.
  assert (broker_ok cfg g b0) as Hb0 by by apply (broker_ok_books g b).
  assert (∀ k, k ∈ @nil KafkaTopicPartition → entry_ok g k) as Hnil by (intros k Hk; by apply elem_of_nil in Hk).
  destruct (negb force && _).
  { intros [= <- <-]. split; [done|]. intros _. rewrite decide_True by done. by apply (broker_ok_books g b). }
  set (commits := if force then _ else _).
  assert (commits_ok g commits) as Hc.
  { intros tp h Hin. apply (candidates_ok g b0 Hb0). unfold commits in Hin. destruct force; [done|].
    by apply list_elem_of_filter in Hin as [_ ?]. }
  destruct (decide (commits = [])) as [|Hne].
  { intros [= <- <-]. split; [done|]. intros _. rewrite decide_True by done. by apply (broker_ok_books g b). }
  unfold commit_offsets. set (tracked := filter _ commits).
  assert (commits_ok g tracked) as Ht.
  { intros tp h Hin. apply Hc. by apply list_elem_of_filter in Hin as [_ ?]. }
  assert (∀ g' (x : Broker E) (committed : bool), broker_ok cfg g' x →
    broker_ok cfg g' ((if committed
       then clear_committed_dirty_partitions commits (x <| cadence ::= record_commit_success source (zlen commits) |>)
       else x) <| completions_since_last_commit := 0 |> <| last_commit_attempt := now |>)) as Hend.
  { intros g' x committed Hx. destruct committed; [|by apply (broker_ok_books g' x)].
    set (x1 := x <| cadence ::= _ |>). destruct (clear_committed_books commits x1) as (E1 & E2 & E3 & E4).
    by apply (broker_ok_books g' x). }
  destruct (decide (tracked = [])).
  { intros [= <- <-]. split; [done|]. intros _. rewrite decide_True by done. by apply (Hend g b0 true). }
  destruct (build_offsets_to_commit _ _ _ _ _) as [ks|] eqn:Hk.
  2:{ intros [= <- <-]. split; [done|]. intros _. rewrite decide_True by done. by apply (Hend g b0 false). }
  assert (ks ≠ []) as Hks.
  { intros ->. apply length_mapM in Hk. by destruct tracked. }
  pose proof (build_offsets_ok g tracked b0 ks Hb0 Ht Hk) as Hgood.
  assert (∀ g', facts_le g g' → commits_ok g' tracked) as Hmono.
  { intros g' Hg tp h Hin. destruct (Ht tp h Hin) as [? Hj]. split; [done|]. intros o Ho.
    by apply (justified_mono cfg g), Hj. }
  cbn [commit_attempts]. fold b1. destruct (commit_ok 0%nat); [|destruct (commit_ok 1%nat)];
    intros [= <- <-]; (split; [done|]); intros Hothers; destruct (Hothers Hks) as [Hb1 Hb2];
    rewrite (decide_False (P := ks = [])) by done.
  - apply (Hend g1 _ true). apply commit_trackers_ok; [done|by apply Hmono].
  - apply (Hend g2 _ true). apply commit_trackers_ok; [done|]. apply Hmono. by trans g1.
  - apply (Hend g2 _ false). by apply (broker_ok_books g2 (others 1%nat b1)).
Qed.

(** ** Assignment *)

(** What Kafka may answer about one partition: a good entry, or that nothing is committed *)
Definition answer_ok g k : Prop :=
  entry_ok g k ∨ ((∀ o, k_offset k = Some o → o < 0) ∧ nonempty_metadata (k_metadata k) = None).

(** What the rebalance callback says of one partition: no metadata, a position it was given *)
Definition assigned_ok g (p : KafkaTopicPartition) : Prop :=
  nonempty_metadata (k_metadata p) = None
  ∧ ∀ a, k_offset p = Some a → 0 < a → (dto_of_kafka p, a) ∈ started_at g.

Lemma decoded_offsets_ok g p c strategy lc o :
  assigned_ok g p → (∀ k, c = Some k → answer_ok g k ∧ dto_of_kafka k = dto_of_kafka p) →
  o ∈ decode_assignment_completed_offsets strategy p c lc → lc < o ∧ justified cfg g (dto_of_kafka p) o.
Proof.
  intros [Hp _] Hc. unfold decode_assignment_completed_offsets. destruct (negb _); [set_solver|]. rewrite Hp.
  destruct c as [k|]; cbn [mbind option_bind]; [|cbn; set_solver].
  destruct (Hc k eq_refl) as [[(c & _ & _ & _ & Hm)|[_ Hnone]] Hdto]; [|rewrite Hnone; set_solver].
  unfold metadata_offsets in Hm. destruct (nonempty_metadata (k_metadata k)) as [m|]; [|set_solver].
  rewrite elem_of_filter, <-Hdto. intros [? ?]. auto.
Qed.

Lemma assigned_tracker_ok g oi strategy grace p c t :
  assigned_ok g p → (∀ k, c = Some k → answer_ok g k ∧ dto_of_kafka k = dto_of_kafka p) →
  assigned_tracker oi strategy grace p c = Some t → tracker_ok cfg g (dto_of_kafka p) t.
Proof.
  intros Hp Hc. unfold assigned_tracker. cbv zeta.
  set (from_assignment := match k_offset p with Some a => if 0 <? a then a - 1 else -1 | None => -1 end).
  set (lc := match c ≫= k_offset with Some o => if 0 <=? o then o - 1 else from_assignment | None => from_assignment end).
  set (X := decode_assignment_completed_offsets strategy p c lc).
  assert (-1 ≤ from_assignment ∧ ∀ o, o ≤ from_assignment → justified cfg g (dto_of_kafka p) o) as [Hf1 Hf2].
  { unfold from_assignment. destruct (k_offset p) as [a|] eqn:Ha; [|split; [lia|intros o Ho; left; lia]].
    destruct (Z.ltb_spec 0 a); [|split; [lia|intros o Ho; left; lia]]. split; [lia|]. intros o Ho. right. left.
    exists a. split; [by apply Hp|lia]. }
  assert (-1 ≤ lc ∧ ∀ o, o ≤ lc → justified cfg g (dto_of_kafka p) o) as [Hl1 Hl2].
  { unfold lc. destruct c as [k|]; [|done]. cbn [mbind option_bind].
    destruct (k_offset k) as [o'|] eqn:Ho'; [|done]. destruct (Z.leb_spec 0 o'); [|done].
    destruct (Hc k eq_refl) as [[(c & E1 & _ & Hj & _)|[Hneg _]] Hdto].
    - rewrite E1 in Ho'. injection Ho' as ->. split; [lia|]. intros o Ho. rewrite <-Hdto. apply Hj. lia.
    - specialize (Hneg _ Ho'). lia. }
  match goal with |- context [match ?x with Some _ => _ | None => _ end] => destruct x as [start|]; [|done] end.
  unfold rehydrate_assignment_state. destruct (_ <? _); [done|]. cbn [fmap option_fmap option_map]. intros [= <-].
  assert (∀ o, o ∈ ss_list (ss_of_set X) → lc < o ∧ justified cfg g (dto_of_kafka p) o) as HX.
  { intros o Ho%ss_of_set_spec. by apply (decoded_offsets_ok g p c strategy). }
  split; [split; [exact Hl1|intros o Ho; by apply HX]|]. intros o [Ho|Ho]; [by apply Hl2|by apply HX].
Qed.

Lemma committed_table_elem reply tp k :
  od_get tp (committed_table reply) = Some k → k ∈ default [] reply ∧ dto_of_kafka k = tp.
Proof.
  unfold committed_table. set (l := default [] reply).
  set (good d := ∀ tp k, od_get tp d = Some k → k ∈ l ∧ dto_of_kafka k = tp).
  assert (∀ l0 d, l0 ⊆ l → good d →
    good (fold_left (λ acc c, match k_offset c with None => acc | Some _ => od_set (dto_of_kafka c) c acc end) l0 d)) as H.
  { induction l0 as [|c l0 IH]; intros d Hsub Hd; [done|]. cbn [fold_left]. apply IH; [set_solver|].
    destruct (k_offset c); [|done]. intros tp' k'. rewrite od_get_set. case_decide; [|apply Hd].
    intros [= <-]. split; [set_solver|done]. }
  apply (H l []); [done|]. intros tp' k' Hk. done.
Qed.

Lemma build_assignments_ok g oi reply partitions strategy grace assignments :
  Forall (assigned_ok g) partitions → Forall (answer_ok g) (default [] reply) →
  build_assignments oi reply partitions strategy grace = Some assignments →
  NoDup (od_keys assignments)
  ∧ ∀ tp t, od_get tp assignments = Some t → tracker_ok cfg g tp t.
Proof.
  intros Hp Hr. unfold build_assignments.
  set (good (d : odict TopicPartition OffsetTracker) := NoDup (od_keys d) ∧ ∀ tp t, od_get tp d = Some t → tracker_ok cfg g tp t).
  set (f := λ (acc : option (odict TopicPartition OffsetTracker)) p, _).
  assert (∀ l acc, Forall (assigned_ok g) l → (∀ d, acc = Some d → good d) → ∀ d, fold_left f l acc = Some d → good d) as H.
  { induction l as [|p l IH]; intros acc Hl Hacc d; [apply Hacc|]. cbn [fold_left].
    apply Forall_cons in Hl as [Hp1 Hl]. apply IH; [done|]. intros d1. unfold f.
    destruct acc as [d0|]; [|done]. destruct (Hacc d0 eq_refl) as [Hnd Hok].
    destruct (assigned_tracker _ _ _ p _) as [t|] eqn:Ht; [|done]. intros [= <-].
    split; [by apply NoDup_od_set|]. intros tp t'. rewrite od_get_set. case_decide as Hd; [|apply Hok].
    intros [= <-]. subst tp. eapply assigned_tracker_ok; [done| |exact Ht].
    intros k [Hk Hdto]%committed_table_elem. split; [|done]. rewrite Forall_forall in Hr. by apply Hr. }
  intros Hb. apply (H partitions (Some [])); [done| |done]. intros d [= <-]. split; [apply NoDup_nil; exact I|].
  intros tp t Ht. done.
Qed.

Lemma assign_ok g assignments b :
  broker_ok cfg g b → NoDup (od_keys assignments) → (∀ tp t, od_get tp assignments = Some t → tracker_ok cfg g tp t) →
  broker_ok cfg g (assign_sync assignments None b).2.
Proof.
  intros Hb Hnd Ha. destruct (assign_sync_trackers assignments None b) as [H1 H2]; [apply Hb|done|].
  constructor.
  - split; [exact H1|]. unfold assign_sync. destruct (allocate _ _). apply Hb.
  - unfold assign_sync. destruct (allocate _ _) as [locs store]. cbn [snd].
    apply (on_assign_shared locs ((wm b) <| tracker_store := store |>)). apply (bo_shared _ _ _ Hb).
  - intros tp t. rewrite H2. destruct (od_get tp assignments) as [t'|] eqn:Ht; [|apply (bo_trackers _ _ _ Hb)].
    intros [= <-]. by apply Ha.
  - unfold assign_sync. destruct (allocate _ _). apply (bo_pending _ _ _ Hb).
Qed.

(** ** Revocation *)

Lemma prepare_revoke_ok g partitions b prep c' b' :
  broker_ok cfg g b → NoDup (dto_of_kafka <$> partitions) →
  prepare_revoke_sync cfg partitions None b = (prep, c', b') →
  broker_ok cfg g b' ∧ ∀ k, k ∈ offsets_to_commit prep → entry_ok g k.
Proof.
  intros Hb Hnd Hp. pose proof (bo_ready _ _ _ Hb) as (Hwf & Hledger & Hcache).
  pose proof (prepare_revoke_spec cfg partitions None b Hwf Hnd) as H. rewrite Hp in H.
  destruct H as (_ & _ & Hoffsets & P).
  destruct (on_revoke_trackers (dto_of_kafka <$> partitions) b Hwf) as [_ Hg].
  assert (∀ tp t, get_tracker tp b = Some t → tracker_ok cfg g tp (advance_high_water_mark t)) as Hadv.
  { intros tp t Ht. destruct (bo_trackers _ _ _ Hb tp t Ht) as [Ha Hj]. destruct (above_advance t Ha) as [H1 H2].
    split; [done|]. intros o Ho. by apply Hj, H2. }
  split.
  - constructor.
    + split; [exact (pf_wf _ _ _ P)|]. unfold ledger_wf. rewrite (pf_pending _ _ _ P), (pf_cache _ _ _ P).
      split; [exact Hledger|]. by apply drop_partitions_spec.
    + destruct (pf_wm _ _ _ P) as [store ->]. exact (on_revoke_shared _ _ (bo_shared _ _ _ Hb)).
    + intros tp t. rewrite (pf_get _ _ _ P), Hg. case_decide; [|apply (bo_trackers _ _ _ Hb)].
      destruct (get_tracker tp b) as [t0|] eqn:Ht0; [|done]. intros [= <-]. by apply Hadv.
    + intros k e. rewrite (pf_pending _ _ _ P). apply (bo_pending _ _ _ Hb).
  - intros k. rewrite Hoffsets. intros (p & _ & Hk)%list_elem_of_omap.
    destruct (get_tracker (dto_of_kafka p) b) as [t|] eqn:Ht; [|done]. cbn [mbind option_bind] in Hk.
    destruct (Hadv _ _ Ht) as [Ha Hj].
    unfold revoke_entry in Hk. destruct (Z.ltb_spec (revoke_mark [] (dto_of_kafka p) (advance_high_water_mark t)) 0); [done|].
    pose proof (revoke_entry_spec cfg [] (dto_of_kafka p) (advance_high_water_mark t)) as Hs.
    unfold revoke_entry in Hs. destruct (Z.ltb_spec (revoke_mark [] (dto_of_kafka p) (advance_high_water_mark t)) 0); [lia|].
    rewrite Hs in Hk by lia. injection Hk as <-. apply offset_to_commit_ok; [by apply Hadv|lia|].
    intros o Ho. apply Hj. left. exact Ho.
Qed.

Lemma cleanup_partition_ok g tp b : broker_ok cfg g b → broker_ok cfg g (cleanup_partition b tp).
Proof.
  intros [([W1 W2 W3] & [L1 L2] & H3) H4 H5 H6].
  assert (∀ tp' l, od_get tp' (od_pop tp (trackers b)) = Some l → od_get tp' (trackers b) = Some l) as Hpop.
  { intros tp' l. rewrite od_get_pop. by case_decide. }
  constructor; [split; [|split; [split|done]]|done| |].
  - constructor; cbn -[od_pop]; [by apply NoDup_od_pop| |].
    + unfold od_values in *. eapply sublist_NoDup; [exact W2|]. apply fmap_sublist, sublist_filter.
    + intros tp' l Hl. eapply W3, Hpop, Hl.
  - change (NoDup (od_keys (od_filter (λ k : CacheKey, k.1 ≠ tp) (pending_dlq_events b)))).
    rewrite od_keys_filter. by apply NoDup_filter.
  - intros k e. cbn -[od_filter]. rewrite od_get_filter. case_decide; [apply L2|done].
  - intros tp' t Ht. apply H5. revert Ht. unfold get_tracker. cbn -[od_pop].
    destruct (od_get tp' (od_pop tp (trackers b))) as [l|] eqn:Hl; [|done]. by rewrite (Hpop _ _ Hl).
  - intros k e. cbn -[od_filter]. rewrite od_get_filter. case_decide; [apply H6|done].
Qed.

Lemma cleanup_revoke_ok g tps failed b : broker_ok cfg g b → broker_ok cfg g (cleanup_revoke_sync tps failed b).
Proof.
  intros Hb. unfold cleanup_revoke_sync. apply (fold_left_inv (broker_ok cfg g)).
  - intros s tp. apply cleanup_partition_ok.
  - by apply (broker_ok_books g b).
Qed.
End handover.
