(* ===== verification/BrokerSystem.v ===== *)
(** * The broker over Kafka's offset store

    The whole direct commit path as one transition system: consumed batches, scheduling,
    completions, commit cycles with everything else running in their middle, and rebalances, next
    to the offset store of the consumer group.  What the broker has sent may reach the store at
    any later time, in any order, or not at all, whatever the broker is told; others may move a
    partition's offset; an assignment is built from what the store holds then.

    [kafka_never_ahead] is at-least-once delivery: an offset below the one in the store is never
    one that nobody has processed. *)

From S2P Require Import Prelude Vendor Runtime Dto OffsetTracker PyText MetadataEncoder PoisonMessage WorkQueueTopology ExecutionEngine WorkManager WorkManagerTrackers Dlq CommitPlanner Broker BrokerInv BrokerCompletion BrokerCommit CommitCoordinator BrokerRebalance BrokerSafety BrokerHandover.

Section system.
Context {E : Type} `{EE : ExecutionEngine E} `{TL : TrackerLibs} `{RT : Runtime}.
Context (cfg : BrokerConfig) (OFFSET_INVALID grace_ms : Z).

Record System := mkSystem {
  sy_broker : Broker E;
  sy_committed : gmap TopicPartition KafkaTopicPartition;   (* the group's offsets in Kafka *)
  sy_sent : list KafkaTopicPartition;                       (* commits on their way *)
  sy_facts : Facts;
}.

#[export] Instance System_settable : Settable System :=
  λ s, mkSystem (sy_broker s) (sy_committed s) (sy_sent s) (sy_facts s).

(** A broker that has no partition yet, and a group that has committed nothing *)
Definition system_start (s : System) : Prop :=
  trackers (sy_broker s) = [] ∧ pending_dlq_events (sy_broker s) = []
  ∧ cache_inv (bc_cache_max_bytes cfg) (cache (sy_broker s)) ∧ offset_trackers (wm (sy_broker s)) = []
  ∧ sy_committed s = ∅ ∧ sy_sent s = [] ∧ sy_facts s = mkFacts [] [] [].

(** [consumer.committed]: the entry of the store, or one that says there is none *)
Definition store_answers (s : System) (k : KafkaTopicPartition) : Prop :=
  sy_committed s !! dto_of_kafka k = Some k
  ∨ k_offset k = Some OFFSET_INVALID ∧ nonempty_metadata (k_metadata k) = None.

(** The positions a rebalance callback carries *)
Definition positions_of (partitions : list KafkaTopicPartition) : list (TopicPartition * Z) :=
  omap (λ p, (dto_of_kafka p,.) <$> k_offset p) partitions.

Inductive system_step : System → System → Prop :=
  | sys_dispatch s messages :
      system_step s (s <| sy_broker ::= λ b, (dispatch_messages cfg messages b).2 |>)
  | sys_schedule s w :
      schedule (wm (sy_broker s)) = Some w → system_step s (s <| sy_broker ::= λ b, b <| wm := w |> |>)
  | sys_set_limit s v w :
      set_max_in_flight_messages v (wm (sy_broker s)) = Some w →
      system_step s (s <| sy_broker ::= λ b, b <| wm := w |> |>)
  | sys_drain s publish time error_text now events w forced b1 r :
      poll_completed_events true (wm (sy_broker s)) = Some (events, w) →
      handle_blocking_timeouts cfg time error_text ((sy_broker s) <| wm := w |>) = Some (forced, b1) →
      drain_completion_events_once cfg publish time error_text now (sy_broker s) = Some r →
      system_step s (s <| sy_broker := match r with inl b' => b' | inr (_, b') => b' end |>
                       <| sy_facts ::= after_report (events ++ forced) publish |>)
  | sys_commit_nothing s force source commit_ok others now b' :
      commit_ready_offsets cfg force source commit_ok others now (sy_broker s) = ([], b') →
      system_step s (s <| sy_broker := b' |>)
  | sys_commit s force source commit_ok others now offsets b' s1 s2 :
      commit_ready_offsets cfg force source commit_ok others now (sy_broker s) = (offsets, b') → offsets ≠ [] →
      let s0 := s <| sy_broker ::= λ b, b <| cadence ::= record_invocation source |> |> <| sy_sent ::= app offsets |> in
      system_run s0 s1 → sy_broker s1 = others 0%nat (sy_broker s0) →
      system_run s1 s2 → sy_broker s2 = others 1%nat (sy_broker s1) →
      system_step s ((if commit_ok 0%nat then s1 else s2) <| sy_broker := b' |>)
  | sys_assign s reply partitions assignments :
      Forall (λ p, nonempty_metadata (k_metadata p) = None) partitions →
      Forall (store_answers s) (default [] reply) →
      build_assignments OFFSET_INVALID reply partitions (bc_strategy cfg) grace_ms = Some assignments →
      system_step s (s <| sy_broker ::= λ b, (assign_sync assignments None b).2 |>
                       <| sy_facts ::= λ g, g <| started_at ::= app (positions_of partitions) |> |>)
  | sys_prepare_revoke s partitions prep c b' :
      NoDup (dto_of_kafka <$> partitions) →
      prepare_revoke_sync cfg partitions None (sy_broker s) = (prep, c, b') →
      system_step s (s <| sy_broker := b' |> <| sy_sent ::= app (offsets_to_commit prep) |>)
  | sys_cleanup_revoke s tps failed :
      system_step s (s <| sy_broker ::= cleanup_revoke_sync tps failed |>)
  | sys_lands s k :
      k ∈ sy_sent s → system_step s (s <| sy_committed ::= <[dto_of_kafka k := k]> |>)
  | sys_moved_by_others s tp c :
      0 ≤ c →
      system_step s (s <| sy_committed ::= <[tp := mkKafkaTp (topic tp) (partition tp) (Some c) None]> |>
                       <| sy_facts ::= λ g, g <| started_at ::= cons (tp, c) |> |>)
with system_run : System → System → Prop :=
  | run_done s : system_run s s
  | run_more s s1 s2 : system_step s s1 → system_run s1 s2 → system_run s s2.

Scheme system_step_mut := Minimality for system_step Sort Prop
  with system_run_mut := Minimality for system_run Sort Prop.
Combined Scheme system_mutind from system_step_mut, system_run_mut.

Record system_ok (s : System) : Prop := mkSystemOk {
  so_broker : broker_ok cfg (sy_facts s) (sy_broker s);
  so_sent k : k ∈ sy_sent s → entry_ok cfg (sy_facts s) k;
  so_committed tp k : sy_committed s !! tp = Some k → dto_of_kafka k = tp ∧ entry_ok cfg (sy_facts s) k;
}.

Definition preserved (s s' : System) : Prop := system_ok s → system_ok s' ∧ facts_le (sy_facts s) (sy_facts s').

(** A step that changes the broker and may add facts *)
Lemma system_ok_broker s b' g' sent :
  system_ok s → facts_le (sy_facts s) g' → broker_ok cfg g' b' → (∀ k, k ∈ sent → entry_ok cfg g' k) →
  system_ok (mkSystem b' (sy_committed s) (sent ++ sy_sent s) g').
Proof.
  intros [H1 H2 H3] Hg Hb Hsent. constructor; cbn; [done| |].
  - intros k [Hk|Hk]%elem_of_app; [by apply Hsent|]. by apply (entry_ok_mono cfg (sy_facts s)), H2.
  - intros tp k Hk. destruct (H3 tp k Hk). split; [done|]. by apply (entry_ok_mono cfg (sy_facts s)).
Qed.

Lemma system_ok_handler s b' g' :
  system_ok s → facts_le (sy_facts s) g' → broker_ok cfg g' b' →
  system_ok (mkSystem b' (sy_committed s) (sy_sent s) g').
Proof.
  intros Hs Hg Hb. apply (system_ok_broker s b' g' []); [done..|]. intros k Hk. by apply elem_of_nil in Hk.
Qed.

Lemma system_start_ok s : system_start s → system_ok s.
Proof.
  intros (H1 & H2 & H3 & H4 & H5 & H6 & H7). constructor.
  - constructor.
    + split; [|split; [|done]].
      * constructor; rewrite H1; [by apply NoDup_nil|by apply NoDup_nil|done].
      * unfold ledger_wf. rewrite H2. split; [by apply NoDup_nil|done].
    + intros tp l. by rewrite H4.
    + intros tp t. unfold get_tracker. by rewrite H1.
    + intros k e. by rewrite H2.
  - intros k. rewrite H6. intros Hk. by apply elem_of_nil in Hk.
  - intros tp k. by rewrite H5, lookup_empty.
Qed.
Context (invalid_negative : OFFSET_INVALID < 0).

Lemma store_answers_ok s g reply :
  facts_le (sy_facts s) g → system_ok s → Forall (store_answers s) reply → Forall (answer_ok cfg g) reply.
Proof.
  intros Hg Hs Hr. eapply Forall_impl; [exact Hr|]. intros k [Hk|[Hk Hm]].
  - left. destruct (so_committed _ Hs _ _ Hk). by apply (entry_ok_mono cfg (sy_facts s)).
  - right. split; [|done]. intros o Ho. rewrite Hk in Ho. injection Ho as <-. exact invalid_negative.
Qed.

Lemma system_preserved : (∀ s s', system_step s s' → preserved s s') ∧ (∀ s s', system_run s s' → preserved s s').
Proof.
  apply system_mutind; unfold preserved.
  - intros s messages Hs. split; [|done].
    apply (system_ok_handler s); [done|done|apply dispatch_messages_ok, Hs].
  - intros s w Hw Hs. split; [|done]. apply (system_ok_handler s); [done|done| ].
    apply (schedule_ok cfg); [apply Hs|done].
  - intros s v w Hw Hs. split; [|done]. apply (system_ok_handler s); [done|done| ].
    apply (broker_ok_wm cfg); [|apply Hs]. revert Hw. unfold set_max_in_flight_messages. case_match; [done|].
    by intros [= <-].
  - intros s publish time error_text now events w forced b1 r Hp Hh Hd Hs.
    pose proof (after_report_le (events ++ forced) publish (sy_facts s)) as Hle. split; [|done].
    apply (system_ok_handler s); [done|done| ]. by eapply drain_ok; [apply Hs|..].
  - intros s force source commit_ok others now b' Hc Hs. split; [|done].
    apply (system_ok_handler s); [done|done| ].
    destruct (commit_ready_ok cfg force source commit_ok others now _ _ _ _ _ _ (so_broker _ Hs) ltac:(done) ltac:(done) Hc)
      as [_ H]. rewrite decide_True in H by done. by apply H.
  - intros s force source commit_ok others now offsets b' s1 s2 Hc Hne _ IH1 E1 _ IH2 E2 Hs.
    set (s0 := s <| sy_broker ::= _ |> <| sy_sent ::= _ |>) in *.
    assert (∀ k, k ∈ offsets → entry_ok cfg (sy_facts s) k) as Hgood.
    { destruct (commit_ready_ok cfg force source commit_ok others now _ _ _ _ _ _ (so_broker _ Hs) ltac:(done) ltac:(done) Hc)
        as [H _]. done. }
    assert (system_ok s0) as Hs0.
    { apply (system_ok_broker s _ _ offsets); [done|done| |done]. by apply (broker_ok_books cfg _ (sy_broker s)), Hs. }
    destruct (IH1 Hs0) as [Hs1 G1]. destruct (IH2 Hs1) as [Hs2 G2].
    destruct (commit_ready_ok cfg force source commit_ok others now _ (sy_facts s1) (sy_facts s2) _ _ _
      (so_broker _ Hs) G1 G2 Hc) as [_ H]. rewrite decide_False in H by done.
    assert (broker_ok cfg (if commit_ok 0%nat then sy_facts s1 else sy_facts s2) b') as Hb'.
    { apply H. intros _. cbn in E1. rewrite <-E1, <-E2. split; [apply Hs1|apply Hs2]. }
    destruct (commit_ok 0%nat); (split; [|done || by trans (sy_facts s1)]).
    + by apply (system_ok_handler s1).
    + by apply (system_ok_handler s2).
  - intros s reply partitions assignments Hp Hr Ha Hs.
    set (g' := (sy_facts s) <| started_at ::= app (positions_of partitions) |>).
    assert (facts_le (sy_facts s) g') as Hle by (split; [cbn; set_solver|done]). split; [|done].
    apply (system_ok_handler s _ g'); [done|done|].
    destruct (build_assignments_ok cfg g' OFFSET_INVALID reply partitions (bc_strategy cfg) grace_ms assignments)
      as [Hnd Hok]; [|by apply (store_answers_ok s)|done|].
    { rewrite Forall_forall in Hp |- *. intros p Hin. split; [by apply Hp|]. intros a Ha' _. cbn. apply elem_of_app. left.
      apply list_elem_of_omap. exists p. split; [done|]. by rewrite Ha'. }
    apply assign_ok; [by apply (broker_ok_mono cfg (sy_facts s)), Hs|done|done].
  - intros s partitions prep c b' Hnd Hp Hs. split; [|done].
    destruct (prepare_revoke_ok cfg (sy_facts s) partitions (sy_broker s) prep c b' (so_broker _ Hs) Hnd Hp).
    by apply (system_ok_broker s _ _ (offsets_to_commit prep)).
  - intros s tps failed Hs. split; [|done]. apply (system_ok_handler s); [done|done|by apply cleanup_revoke_ok, Hs].
  - intros s k Hk [H1 H2 H3]. split; [|done]. constructor; [done..|]. intros tp k'. cbn.
    destruct (decide (dto_of_kafka k = tp)) as [<-|]; [rewrite lookup_insert_eq|rewrite lookup_insert_ne by done; apply H3].
    intros [= <-]. split; [done|by apply H2].
  - intros s tp c Hc [H1 H2 H3].
    set (g' := (sy_facts s) <| started_at ::= cons (tp, c) |>).
    assert (facts_le (sy_facts s) g') as Hle by (split; [cbn; set_solver|done]). split; [|done].
    constructor; [by apply (broker_ok_mono cfg (sy_facts s))|intros k Hk; by apply (entry_ok_mono cfg (sy_facts s)), H2|].
    intros tp' k. cbn. destruct (decide (tp = tp')) as [<-|]; [rewrite lookup_insert_eq|rewrite lookup_insert_ne by done].
    + intros [= <-]. split; [by destruct tp|]. exists c.  split; [done|]. split; [done|]. split.
      * intros o Ho. right. left. exists c. split; [|done]. destruct tp. left.
      * intros o Ho. cbn in Ho. set_solver.
    + intros Hk. destruct (H3 tp' k Hk). split; [done|]. by apply (entry_ok_mono cfg (sy_facts s)).
  - intros s Hs. done.
  - intros s s1 s2 _ IH1 _ IH2 Hs. destruct (IH1 Hs) as [Hs1 G1]. destruct (IH2 Hs1) as [Hs2 G2].
    split; [done|]. by trans (sy_facts s1).
Qed.

Lemma system_run_ok s0 s : system_start s0 → system_run s0 s → system_ok s.
Proof. intros H0 Hr. by apply (proj2 system_preserved s0 s Hr), system_start_ok. Qed.

(** C1. At-least-once: in every run of the broker from an empty group - any sequence of consumed
    batches, scheduling, completions, commits with anything running in their middle, revocations,
    re-assignments from what Kafka then holds, commits that arrive late, twice or never, and
    offsets moved by others - an offset that lies below the committed offset of its partition, or
    that the committed metadata lists as done, either lies before a position that somebody else
    gave the partition, or a completion of it was reported, and a terminal failure among those
    only after its publication to the dead-letter topic. *)
Theorem kafka_never_ahead s0 s tp k c o :
  system_start s0 → system_run s0 s →
  sy_committed s !! tp = Some k → k_offset k = Some c → 0 ≤ o → o < c ∨ o ∈ metadata_offsets k →
  (∃ a, (tp, a) ∈ started_at (sy_facts s) ∧ o < a) ∨ processed_offset cfg (sy_facts s) tp o.
Proof.
  intros H0 Hr Hk Hc Ho Hcov. destruct (so_committed _ (system_run_ok s0 s H0 Hr) tp k Hk) as [<- (c' & E1 & _ & H1 & H2)].
  assert (justified cfg (sy_facts s) (dto_of_kafka k) o) as [?|?]; [|lia|done].
  rewrite Hc in E1. injection E1 as <-. destruct Hcov; [by apply H1|by apply H2].
Qed.
Lemma revoke_callback_runs s commit_ok partitions sent c b' :
  NoDup (dto_of_kafka <$> partitions) →
  handle_revoke_callback cfg true true commit_ok partitions None (sy_broker s) = (true, sent, c, b') →
  ∃ s', system_run s s' ∧ sy_broker s' = b' ∧ sy_sent s' = sent ++ sy_sent s ∧ sy_facts s' = sy_facts s.
Proof.
  intros Hnd. unfold handle_revoke_callback. cbn [negb].
  destruct (prepare_revoke_sync cfg partitions None (sy_broker s)) as [[prep c1] b1] eqn:Hp. intros [= <- _ <-].
  eexists. split; [|split; [|split]].
  - eapply run_more; [by eapply sys_prepare_revoke|]. eapply run_more; [by apply (sys_cleanup_revoke _ (revoked_tps prep))|].
    apply run_done.
  - done.
  - done.
  - done.
Qed.
End system.

(** ** A concrete run: a message is consumed, processed and committed *)

#[local] Instance system_demo_libs : TrackerLibs := vendor_lists.

Definition system_demo_tp : TopicPartition := mkTp "orders" 0.
Definition system_demo_config : BrokerConfig :=
  mkBrokerConfig (demo_dlq_config 3) 1000 "metadata_snapshot" 4000 1000 0 1 (1 # 10) KEY_HASH.
Definition system_demo_nothing : KafkaTopicPartition := mkKafkaTp "orders" 0 (Some (-1001)) None.

Definition system_demo_manager : WorkManager DemoEngine :=
  mkWM (mkDemoEngine 10 [] [] false) ∅ [] new_topology [] [] [] [] 0 None [] 5 0 false None KEY_HASH
    500 ∅ ∅ ∅ ∅ ∅ [] 100 0 ∅ None 4 0 0.

Definition system_demo_0 : System :=
  mkSystem (mkBroker system_demo_manager [] empty_cache [] ∅ [] [] 0 0 (mkCadence 0 0 0 0 [] [] [] []) [] [] []) ∅ []
    (mkFacts [] [] []).

Definition system_demo_assignments : odict TopicPartition OffsetTracker :=
  default [] (build_assignments (-1001) (Some [system_demo_nothing]) [system_demo_nothing] "metadata_snapshot" 500).
Definition system_demo_1 : System :=
  system_demo_0 <| sy_broker ::= λ b, (assign_sync system_demo_assignments None b).2 |>
                <| sy_facts ::= λ g, g <| started_at ::= app (positions_of [system_demo_nothing]) |> |>.
Definition system_demo_2 : System :=
  system_demo_1 <| sy_broker ::= λ b, (dispatch_messages system_demo_config
    [mkKafkaMessage false (Some "orders"%string) (Some 0) (Some 0) (PyStr [107]) PyNone] b).2 |>.
Definition system_demo_scheduled : WorkManager DemoEngine :=
  default (wm (sy_broker system_demo_2)) (schedule (wm (sy_broker system_demo_2))).
Definition system_demo_3 : System := system_demo_2 <| sy_broker ::= λ b, b <| wm := system_demo_scheduled |> |>.

Definition system_demo_publish (n : nat) (e : CompletionEvent) (k v : PyValue) : PublishOutcome := Published.
Definition system_demo_polled : list CompletionEvent * WorkManager DemoEngine :=
  default ([], wm (sy_broker system_demo_3)) (poll_completed_events true (wm (sy_broker system_demo_3))).
Definition system_demo_timeouts : list CompletionEvent * Broker DemoEngine :=
  default ([], sy_broker system_demo_3)
    (handle_blocking_timeouts system_demo_config (λ _, 0%Q) (λ _ _, "") ((sy_broker system_demo_3) <| wm := system_demo_polled.2 |>)).
Definition system_demo_drained : Broker DemoEngine + bool * Broker DemoEngine :=
  default (inl (sy_broker system_demo_3))
    (drain_completion_events_once system_demo_config system_demo_publish (λ _, 0%Q) (λ _ _, "") 1%Q (sy_broker system_demo_3)).
Definition system_demo_4 : System :=
  system_demo_3 <| sy_broker := match system_demo_drained with inl b' => b' | inr (_, b') => b' end |>
    <| sy_facts ::= after_report (system_demo_polled.1 ++ system_demo_timeouts.1) system_demo_publish |>.

Definition system_demo_ok (n : nat) : bool := true.
Definition system_demo_commit : list KafkaTopicPartition * Broker DemoEngine :=
  commit_ready_offsets system_demo_config true "loop" system_demo_ok (λ _ b, b) 2%Q (sy_broker system_demo_4).
Definition system_demo_sending : System :=
  system_demo_4 <| sy_broker ::= λ b, b <| cadence ::= record_invocation "loop" |> |>
    <| sy_sent ::= app system_demo_commit.1 |>.
Definition system_demo_5 : System :=
  (if system_demo_ok 0%nat then system_demo_sending else system_demo_sending) <| sy_broker := system_demo_commit.2 |>.
Definition system_demo_entry : KafkaTopicPartition := default system_demo_nothing (head system_demo_commit.1).
Definition system_demo_6 : System :=
  system_demo_5 <| sy_committed ::= <[dto_of_kafka system_demo_entry := system_demo_entry]> |>.

Lemma default_some {A} (x : A) (o : option A) : bool_decide (is_Some o) = true → o = Some (default x o).
Proof. by destruct o. Qed.

Lemma default_pair {A B} (x : A * B) (o : option (A * B)) (p : A * B) :
  p = default x o → bool_decide (is_Some o) = true → o = Some (p.1, p.2).
Proof. intros ->. by destruct o as [[? ?]|]. Qed.

Lemma default_head {A} (x : A) (l : list A) : bool_decide (l = []) = false → default x (head l) ∈ l.
Proof. destruct l; [done|]. intros _. left. Qed.

Definition system_demo_run := system_run (E := DemoEngine) system_demo_config (-1001) 500.

Lemma system_demo_start : system_start system_demo_config system_demo_0.
Proof. repeat (split; [done|]). split; [|done]. by constructor; [apply NoDup_nil|..]. Qed.

Lemma system_demo_runs : system_demo_run system_demo_0 system_demo_6.
Proof.
  apply (run_more _ _ _ _ system_demo_1).
  { apply (sys_assign _ _ _ system_demo_0 (Some [system_demo_nothing]) [system_demo_nothing] system_demo_assignments).
    - by apply Forall_singleton.
    - apply Forall_singleton. by right.
    - by apply default_some. }
  apply (run_more _ _ _ _ system_demo_2); [apply sys_dispatch|].
  apply (run_more _ _ _ _ system_demo_3).
  { apply (sys_schedule _ _ _ system_demo_2 system_demo_scheduled).
    apply default_some. by vm_compute. }
  apply (run_more _ _ _ _ system_demo_4).
  { apply (sys_drain _ _ _ system_demo_3 system_demo_publish (λ _, 0%Q) (λ _ _, ""%string) 1%Q system_demo_polled.1 system_demo_polled.2
      system_demo_timeouts.1 system_demo_timeouts.2 system_demo_drained).
    - apply (default_pair ([], wm (sy_broker system_demo_3)) _ system_demo_polled);
        [unfold system_demo_polled; reflexivity|by vm_compute].
    - apply (default_pair ([], sy_broker system_demo_3) _ system_demo_timeouts);
        [unfold system_demo_timeouts; reflexivity|by vm_compute].
    - unfold system_demo_drained. apply default_some. by vm_compute. }
  apply (run_more _ _ _ _ system_demo_5).
  { apply (sys_commit _ _ _ system_demo_4 true "loop" system_demo_ok (λ _ b, b) 2%Q system_demo_commit.1 system_demo_commit.2
      system_demo_sending system_demo_sending).
    - unfold system_demo_commit. apply surjective_pairing.
    - intros Hnil. assert (bool_decide (system_demo_commit.1 = []) = false) as Hb by by vm_compute.
      by rewrite Hnil in Hb.
    - apply run_done.
    - done.
    - apply run_done.
    - done. }
  apply (run_more _ _ _ _ system_demo_6); [|apply run_done].
  apply sys_lands. apply elem_of_app. left. apply default_head. by vm_compute.
Qed.

Lemma kafka_never_ahead_witness :
  k_offset <$> (sy_committed system_demo_6 !! system_demo_tp) = Some (Some 1)
  ∧ ((∃ a, (system_demo_tp, a) ∈ started_at (sy_facts system_demo_6) ∧ 0 < a)
     ∨ processed_offset system_demo_config (sy_facts system_demo_6) system_demo_tp 0).
Proof.
  split; [by vm_compute|].
  assert (sy_committed system_demo_6 !! system_demo_tp = Some system_demo_entry) as Hk by by vm_compute.
  assert (k_offset system_demo_entry = Some 1) as Ho by by vm_compute.
  exact (kafka_never_ahead system_demo_config (-1001) 500 eq_refl system_demo_0 system_demo_6 system_demo_tp
    system_demo_entry 1 0 system_demo_start system_demo_runs Hk Ho (Z.le_refl 0) (or_introl Z.lt_0_1)).
Defined.
