(* ===== verification/BrokerLoad.v ===== *)
(** * How much work the broker's handlers add

    The load of [WorkManagerLoad] through the handlers of the broker: only a dispatch raises it,
    by at most one per message that carries data. *)

From S2P Require Import Prelude Vendor Runtime Dto OffsetTracker PoisonMessage WorkQueueTopology ExecutionEngine WorkManager WorkManagerSchedule WorkManagerLoad Dlq CommitPlanner Broker BrokerInv BrokerCompletion BrokerHandover CommitCoordinator BrokerRebalance.

Section load.
Context {E : Type} `{EE : ExecutionEngine E} `{TL : TrackerLibs} `{RT : Runtime}.
Context (cfg : BrokerConfig).
Implicit Types (b : Broker E).

Definition broker_load b : Z := load (wm b).
Definition broker_grows (n : Z) b b' : Prop := grows n (wm b) (wm b').

(** ** Dispatch *)

(** The messages that carry data; the others are errors and events of a partition's end. *)
Definition data_messages (messages : list Message) : list Message := filter (λ m, msg_error m = false) messages.

Lemma group_message_count k m groups : messages_in (group_message k m groups) = messages_in groups + 1.
Proof.
  unfold group_message, messages_in. rewrite od_sum_set. destruct (od_get k groups) as [l|]; cbn.
  - rewrite zlen_app. change (zlen [m]) with 1. lia.
  - change (zlen [m]) with 1. lia.
Qed.

(** What one message adds to the groups and to the queues *)
Lemma dispatch_message_load groups msg b :
  let '(_, groups', b') := dispatch_message cfg groups msg b in
  ∃ n m, messages_in groups' = messages_in groups + n ∧ 0 ≤ n ∧ broker_grows m b b' ∧ 0 ≤ m
    ∧ n + m ≤ zlen (data_messages [msg]).
Proof.
  unfold dispatch_message, data_messages. rewrite filter_cons, filter_nil. pose proof (grows_refl (wm b)) as Hr.
  assert (∀ n', 0 ≤ n' → ∃ n m, messages_in groups = messages_in groups + n ∧ 0 ≤ n ∧ broker_grows m b b ∧ 0 ≤ m ∧ n + m ≤ n') as Hsame.
  { intros n' Hn. exists 0, 0. split; [lia|]. split; [lia|]. split; [done|lia]. }
  destruct (msg_error msg); [apply Hsame, zlen_nonneg|]. rewrite decide_True by done.
  change (zlen [msg]) with 1. cbn [fst snd].
  destruct (msg_topic msg) as [t|], (msg_partition msg) as [p|], (msg_offset msg) as [o|]; try (by apply Hsame).
  destruct (get_tracker _ b) as [tracker|]; [|by apply Hsame].
  destruct (is_completed_uncommitted o tracker); [by apply Hsame|].
  destruct (bc_ordering_mode cfg).
  - exists 1, 0. rewrite group_message_count. split; [done|]. split; [lia|]. split; [exact Hr|]. lia.
  - exists 1, 0. rewrite group_message_count. split; [done|]. split; [lia|]. split; [exact Hr|]. lia.
  - match goal with |- context [submit_message ?a ?b0 ?c ?d ?e ?w] => pose proof (submit_message_load a b0 c d e w) as H1;
      destruct (submit_message a b0 c d e w) as [ok w'] end.
    exists 0, 1. split; [lia|]. split; [lia|]. split; [exact H1|]. lia.
Qed.

Lemma dispatch_loop_load messages groups b :
  let '(_, groups', b') := dispatch_loop cfg messages groups b in
  ∃ n m, messages_in groups' = messages_in groups + n ∧ 0 ≤ n ∧ broker_grows m b b' ∧ 0 ≤ m
    ∧ n + m ≤ zlen (data_messages messages).
Proof.
  revert groups b. induction messages as [|msg rest IH]; intros groups b; cbn [dispatch_loop].
  { exists 0, 0. split; [lia|]. split; [lia|]. split; [apply grows_refl|]. split; [lia|done]. }
  assert (zlen (data_messages (msg :: rest)) = zlen (data_messages [msg]) + zlen (data_messages rest)) as ->.
  { unfold data_messages. by rewrite <-zlen_app, <-filter_app. }
  pose proof (zlen_nonneg (data_messages rest)).
  pose proof (dispatch_message_load groups msg b) as H1. destruct (dispatch_message cfg groups msg b) as [[ok groups1] b1].
  destruct H1 as (n1 & m1 & E1 & P1 & G1 & P2 & L1). destruct ok.
  - specialize (IH groups1 b1). destruct (dispatch_loop cfg rest groups1 b1) as [[ok groups2] b2].
    destruct IH as (n2 & m2 & E2 & Q1 & G2 & Q2 & L2). exists (n1 + n2), (m1 + m2). split; [lia|]. split; [lia|].
    split; [by eapply grows_trans|lia].
  - exists n1, m1. split; [done|]. split; [done|]. split; [done|lia].
Qed.

Lemma dispatch_messages_load messages b :
  broker_grows (zlen (data_messages messages)) b (dispatch_messages cfg messages b).2.
Proof.
  unfold dispatch_messages. pose proof (dispatch_loop_load messages [] b) as H1.
  destruct (dispatch_loop cfg messages [] b) as [[ok groups] b1]. destruct H1 as (n & m & E1 & P1 & G1 & P2 & L1).
  change (messages_in []) with 0 in E1.
  destruct ok; cbn [negb]; [|by apply (grows_mono m); [lia|]]. case_decide; [by apply (grows_mono m); [lia|]|].
  pose proof (submit_batch_load groups (wm b1)) as H2. destruct (submit_message_batch groups (wm b1)) as [ok' w].
  apply (grows_mono (m + n)); [lia|]. eapply grows_trans; [exact G1|].
  apply (grows_mono (messages_in groups)); [lia|exact H2].
Qed.

(** ** Completions *)

(** Processing completions changes nothing of the work manager but the trackers. *)

Lemma trackers_only_refl (w : WorkManager E) : same_but_trackers w w.
Proof. exists (tracker_store w), (blocking_cache w), (blocking_cache_counter w). by destruct w. Qed.

Lemma trackers_only_trans (w1 w2 w3 : WorkManager E) : same_but_trackers w1 w2 → same_but_trackers w2 w3 → same_but_trackers w1 w3.
Proof.
  intros (t2 & c2 & n2 & -> & D2) (t3 & c3 & n3 & -> & D3). exists t3, c3, n3. split; [done|]. by rewrite D3.
Qed.

Lemma update_tracker_only tp f b : same_but_trackers (wm b) (wm (update_tracker tp f b)).
Proof.
  unfold update_tracker. destruct (od_get tp (trackers b)) as [l|]; [|apply trackers_only_refl].
  exists (alter f l (tracker_store (wm b))), (blocking_cache (wm b)), (blocking_cache_counter (wm b)).
  split; [by destruct b as [[]]|]. apply dom_alter_L.
Qed.

Lemma commit_trackers_only commits b : same_but_trackers (wm b) (wm (commit_trackers commits b)).
Proof.
  unfold commit_trackers. apply (fold_left_inv (λ x : Broker E, same_but_trackers (wm b) (wm x))); [|apply trackers_only_refl].
  intros x c Hx. eapply trackers_only_trans; [exact Hx|apply update_tracker_only].
Qed.

Lemma process_event_only publish from_pending e (p : Processing E) :
  same_but_trackers (wm (pr_broker p)) (wm (pr_broker (either (process_event cfg publish from_pending e p)))).
Proof.
  unfold process_event. pose proof (trackers_only_refl (wm (pr_broker p))) as Hr.
  assert (∀ t (q : Processing E), same_but_trackers (wm (pr_broker q)) (wm (pr_broker (complete_event e from_pending t q)))) as Hc.
  { intros t q. exact (update_tracker_only (ce_tp e) (mark_complete (ce_offset e)) (pr_broker q)). }
  destruct (_ && _); [done|]. destruct (get_tracker _ _) as [t|]; [|by destruct from_pending].
  destruct (negb (_ =? _)); [by destruct from_pending|]. destruct (needs_dlq cfg e); [|apply Hc].
  destruct (default _ _) as [k v]. destruct (publish _ _ _ _); [|done|done].
  pose proof (Hc t (p <| pr_publishes ::= S |>)) as H. exact H.
Qed.

Lemma process_events_only publish events (p : Processing E) :
  same_but_trackers (wm (pr_broker p)) (wm (pr_broker (either (process_events cfg publish events p)))).
Proof.
  revert p. induction events as [|[e from_pending] events IH]; intros p; cbn [process_events]; [apply trackers_only_refl|].
  pose proof (process_event_only publish from_pending e p) as H1.
  destruct (process_event cfg publish from_pending e p) as [p1|p1]; [exact H1|]. eapply trackers_only_trans; [exact H1|apply IH].
Qed.

Lemma handle_completed_only publish events now b :
  same_but_trackers (wm b) (wm (match handle_completed_events cfg publish events now b with inl b' | inr b' => b' end)).
Proof.
  unfold handle_completed_events, process_completed_events.
  match goal with |- context [process_events cfg publish ?l ?p] => pose proof (process_events_only publish l p) as H1;
    destruct (process_events cfg publish l p) as [q|q] end; cbn [either pr_broker] in *; [exact H1|].
  eapply trackers_only_trans; [exact H1|]. unfold record_processed_completions. case_match; apply trackers_only_refl.
Qed.

Lemma trackers_only_load (w w' : WorkManager E) : same_but_trackers w w' → load_view w' = load_view w.
Proof. by intros (store & cache & counter & -> & _). Qed.

Lemma update_tracker_load tp f b : load_view (wm (update_tracker tp f b)) = load_view (wm b).
Proof. apply trackers_only_load, update_tracker_only. Qed.

Lemma handle_completed_load publish events now b :
  load_view (wm (match handle_completed_events cfg publish events now b with inl b' | inr b' => b' end)) = load_view (wm b).
Proof. apply trackers_only_load, handle_completed_only. Qed.

Lemma blocking_timeouts_load time error_text b events b' :
  handle_blocking_timeouts cfg time error_text b = Some (events, b') → broker_grows 0 b b'.
Proof.
  unfold handle_blocking_timeouts. case_match; [intros [= _ <-]; apply grows_refl|].
  set (f := fold_left _ _ (false, wm b)).
  assert (grows 0 (wm b) f.2) as Hv.
  { unfold f. apply (fold_left_inv (λ s : bool * WorkManager E, grows 0 (wm b) s.2)); [|apply grows_refl].
    intros [forced w] [[[tp o] d] ep] Hs. pose proof (force_fail_load tp o ep (error_text o d) (max_retries (bc_dlq cfg)) w).
    destruct (force_fail _ _ _ _ _ w) as [r w']. by eapply grows_trans0. }
  destruct f as [forced w]. cbn [snd] in Hv. destruct forced; cbn [negb]; [|by intros [= _ <-]].
  destruct (poll_completed_events true w) as [[evs w']|] eqn:Hp; [|done]. intros [= _ <-].
  eapply grows_trans0; [exact Hv|]. by eapply poll_load.
Qed.

Lemma drain_load publish time error_text now b r :
  drain_completion_events_once cfg publish time error_text now b = Some r →
  broker_grows 0 b (match r with inl b' => b' | inr (_, b') => b' end).
Proof.
  unfold drain_completion_events_once.
  destruct (poll_completed_events true (wm b)) as [[events w]|] eqn:Hp; [|done]. apply poll_load in Hp.
  destruct (handle_blocking_timeouts _ _ _ _) as [[forced b1]|] eqn:Hh; [|done]. apply blocking_timeouts_load in Hh.
  assert (broker_grows 0 b b1) as H1 by (eapply grows_trans0; [exact Hp|exact Hh]).
  case_decide; [by intros [= <-]|].
  pose proof (handle_completed_load publish (events ++ forced) now b1) as H2.
  destruct (handle_completed_events _ _ _ _ _) as [b2|b2]; cbn [either] in H2.
  - intros [= <-]. eapply grows_trans0; [exact H1|]. by apply grows_view.
  - destruct (schedule (wm b2)) as [w2|] eqn:Hs; [|done]. intros [= <-]. apply schedule_load in Hs.
    eapply grows_trans0; [exact H1|]. eapply grows_trans0; [by apply grows_view|exact Hs].
Qed.

(** ** Commits *)

Lemma commit_trackers_load commits b : load_view (wm (commit_trackers commits b)) = load_view (wm b).
Proof. apply trackers_only_load, commit_trackers_only. Qed.

(** A commit cycle itself adds nothing: the load at its end is the one the other tasks left. *)
Lemma commit_ready_load force source commit_ok others now b offsets b' :
  let b1 := others 0%nat (b <| cadence ::= record_invocation source |>) in
  commit_ready_offsets cfg force source commit_ok others now b = (offsets, b') →
  load_view (wm b') = load_view (wm (if decide (offsets = []) then b
                                     else if commit_ok 0%nat then b1 else others 1%nat b1)).
Proof.
  intros b1. unfold commit_ready_offsets. set (b0 := b <| cadence ::= record_invocation source |>) in *.
  destruct (negb force && _); [intros [= <- <-]; by rewrite decide_True|].
  set (commits := if force then _ else _).
  destruct (decide (commits = [])); [intros [= <- <-]; by rewrite decide_True|].
  unfold commit_offsets. set (tracked := filter _ commits).
  assert (∀ (x : Broker E) (committed : bool), load_view (wm
    ((if committed
       then clear_committed_dirty_partitions commits (x <| cadence ::= record_commit_success source (zlen commits) |>)
       else x) <| completions_since_last_commit := 0 |> <| last_commit_attempt := now |>)) = load_view (wm x)) as Hend.
  { intros x [|]; [|done]. destruct (clear_committed_books commits (x <| cadence ::= record_commit_success source (zlen commits) |>)) as (E1 & _).
    cbn. by rewrite E1. }
  destruct (decide (tracked = [])).
  { intros [= <- <-]. rewrite decide_True by done. exact (Hend b0 true). }
  destruct (build_offsets_to_commit _ _ _ _ _) as [ks|] eqn:Hk.
  2:{ intros [= <- <-]. rewrite decide_True by done. exact (Hend b0 false). }
  assert (ks ≠ []) as Hks.
  { intros ->. apply length_mapM in Hk. by destruct tracked. }
  cbn [commit_attempts]. fold b1. destruct (commit_ok 0%nat); [|destruct (commit_ok 1%nat)];
    intros [= <- <-]; rewrite decide_False by done.
  - rewrite (Hend _ true). apply commit_trackers_load.
  - rewrite (Hend _ true). apply commit_trackers_load.
  - by rewrite (Hend _ false).
Qed.

(** ** Rebalances *)

Lemma assign_sync_load assignments coordinator b : broker_grows 0 b (assign_sync assignments coordinator b).2.
Proof.
  unfold assign_sync. destruct (allocate _ _) as [locs store]. cbn [snd].
  eapply (grows_trans0 _ ((wm b) <| tracker_store := store |>)); [by apply grows_view|]. apply on_assign_load.
Qed.

Lemma prepare_revoke_load partitions coordinator b :
  broker_grows 0 b (prepare_revoke_sync cfg partitions coordinator b).2.
Proof.
  unfold prepare_revoke_sync. set (b0 := b <| wm ::= on_revoke _ |>).
  assert (broker_grows 0 b b0) as H0 by apply on_revoke_load.
  match goal with |- context [fold_left ?f partitions ([], b0)] =>
    assert (load_view (wm (fold_left f partitions ([], b0)).2) = load_view (wm b0)) as H1;
    [|destruct (fold_left f partitions ([], b0)) as [ks b1]] end.
  { apply (fold_left_inv (λ s : list KafkaTopicPartition * Broker E, load_view (wm s.2) = load_view (wm b0))); [|done].
    intros [ks s] p Hs. unfold prepare_partition. destruct (get_tracker _ _); [|exact Hs]. cbn [snd] in Hs |- *.
    rewrite update_tracker_load. exact Hs. }
  eapply grows_trans0; [exact H0|]. by apply grows_view.
Qed.

Lemma cleanup_revoke_load tps failed b : load_view (wm (cleanup_revoke_sync tps failed b)) = load_view (wm b).
Proof.
  unfold cleanup_revoke_sync. apply (fold_left_inv (λ s : Broker E, load_view (wm s) = load_view (wm b))); [|done].
  by intros s tp <-.
Qed.
End load.
