(* ===== verification/BrokerLoop.v ===== *)
(** * The consumer loop and the completion monitor
    ([control_plane/broker_poller.py], [broker_completion_monitor_support.py])

    [_run_consumer] and [BrokerCompletionMonitorSupport.run] as two tasks on one event loop.  Each
    task is cut where it leaves the loop; a position says where it is, a section of code between
    two cuts is a function, and the Kafka callbacks and the offset store of [BrokerSystem] run in
    between.  A commit has everything else running in its middle, as there. *)

From S2P Require Import Prelude Vendor Runtime Dto OffsetTracker PoisonMessage WorkQueueTopology ExecutionEngine WorkManager WorkManagerLoad Adaptive Dlq CommitPlanner Broker BrokerInv BrokerCompletion BrokerCommit CommitCoordinator BrokerRebalance BrokerSafety BrokerHandover BrokerSystem BrokerLoad.

(** Where the consumer task is *)
Inductive ConsumerAt :=
  | LoopTop                                                       (* at [while self._running] *)
  | PendingDrained                                                (* the commit after a drain of pending events *)
  | BeforeCheck (pending : bool)                                  (* at [_check_backpressure] *)
  | Consuming (pending : bool) (num_messages : Z) (timeout : Q)   (* in [consumer.consume] *)
  | Consumed (pending : bool) (messages : list Message)           (* waiting for the control lock *)
  | TurnDone                                                      (* the commit that ends a turn *)
  | Committing (next : bool)                                      (* inside a commit of this task *)
  | LoopFailed.                                                   (* [except Exception] *)

(** Where the monitor task is *)
Inductive MonitorAt :=
  | MonitorTop
  | MonitorWaiting                            (* in [wait_for_completion] *)
  | MonitorReady (had_pending : bool)         (* waiting for the control lock *)
  | MonitorDrained (had_pending : bool)       (* the commit after a drain *)
  | MonitorCommitting
  | MonitorFailed.

Section loop.
Context {E : Type} `{EE : ExecutionEngine E} `{TL : TrackerLibs} `{RT : Runtime}.
Context (cfg : BrokerConfig) (OFFSET_INVALID grace_ms batch_size : Z).
Implicit Types (b : Broker E) (s : System (E := E)).

#[export] Instance system_limited : LimitedWork (System (E := E)) := {|
  lw_total_in_flight s := get_total_in_flight_count (wm (sy_broker s));
  lw_total_queued s := get_total_queued_messages (wm (sy_broker s));
  lw_average_latency s := completion_latency_ema_seconds (wm (sy_broker s));
  lw_limit s := max_in_flight_messages (wm (sy_broker s));
  lw_set_limit v s := (λ w, s <| sy_broker ::= λ b, b <| wm := w |> |>) <$> set_max_in_flight_messages v (wm (sy_broker s));
|}.

Record Poller := mkPoller {
  po_limits : BrokerLimits (System (E := E));   (* the limits, over the broker and the offset store *)
  po_consumer_at : ConsumerAt;
  po_monitor_at : MonitorAt;
  po_running : bool;
  po_poll_records_total : Z;
  po_poll_nonempty_total : Z;
  po_poll_empty_total : Z;
  po_poll_error_total : Z;
  po_assigned : gset TopicPartition;            (* Kafka's side: the partitions held, *)
  po_paused : gset TopicPartition;              (* and those of them that are paused *)
  po_strayed : bool;                            (* some assignment found the broker paused or overloaded *)
}.

#[export] Instance Poller_settable : Settable Poller :=
  λ p, mkPoller (po_limits p) (po_consumer_at p) (po_monitor_at p) (po_running p) (po_poll_records_total p)
         (po_poll_nonempty_total p) (po_poll_empty_total p) (po_poll_error_total p) (po_assigned p) (po_paused p)
         (po_strayed p).

Definition po_system (p : Poller) : System := limited_work (po_limits p).
Definition po_broker (p : Poller) : Broker E := sy_broker (po_system p).
Definition with_system (s : System) (p : Poller) : Poller := p <| po_limits ::= λ l, l <| limited_work := s |> |>.
Definition with_broker b (p : Poller) : Poller := with_system ((po_system p) <| sy_broker := b |>) p.

Definition poller_load (p : Poller) : Z := broker_load (po_broker p).

(** ** Sections of the two tasks *)

Definition idle_consume_timeout_seconds : Q := 1 # 10.

(** [_get_consume_timeout_seconds] *)
Definition get_consume_timeout_seconds b : Q :=
  if (0 <? get_total_in_flight_count (wm b)) || (0 <? get_total_queued_messages (wm b)) then 0%Q
  else idle_consume_timeout_seconds.

(** The trackers of [_get_total_true_lag] *)
Definition tracked b : list OffsetTracker := omap (λ p, tracker_store (wm b) !! p.2) (trackers b).

(** What [pause] and [resume] do in the client *)
Definition apply_call (paused : gset TopicPartition) (c : ConsumerCall) : gset TopicPartition :=
  match c with
  | Pause ps => paused ∪ list_to_set ps
  | Resume ps => paused ∖ list_to_set ps
  end.

(** [_check_backpressure] and the arguments of the next [consume] *)
Definition check_section (now1 now2 : Q) (pending : bool) (p : Poller) : Poller :=
  match check_backpressure (Some (elements (po_assigned p))) (get_total_true_lag (tracked (po_broker p))) now1 now2
          (po_limits p) with
  | None => p <| po_consumer_at := LoopFailed |>
  | Some limits =>
      let calls := drop (length (consumer_calls (po_limits p))) (consumer_calls limits) in
      p <| po_limits := limits |>
        <| po_paused ::= λ ps, fold_left apply_call calls ps |>
        <| po_consumer_at :=
             if pending then Consuming true 1 0%Q
             else Consuming false batch_size (get_consume_timeout_seconds (sy_broker (limited_work limits))) |>
  end.

(** [_record_pipeline_poll_batch] *)
Definition record_pipeline_poll_batch (messages : list Message) (p : Poller) : Poller :=
  let message_count := zlen messages in
  let p1 := p <| po_poll_records_total ::= λ n, n + message_count |> in
  if 0 <? message_count then p1 <| po_poll_nonempty_total ::= λ n, n + 1 |>
  else p1 <| po_poll_empty_total ::= λ n, n + 1 |>.

(** [_consume_messages]: [None] is an exception of the client *)
Definition consume_section (answer : option (list Message)) (pending : bool) (p : Poller) : Poller :=
  match answer with
  | None => p <| po_poll_error_total ::= λ n, n + 1 |> <| po_consumer_at := LoopFailed |>
  | Some messages => (record_pipeline_poll_batch messages p) <| po_consumer_at := Consumed pending messages |>
  end.

(** [dispatch_messages] and [schedule] under the control lock: the flag is [false] when the
    dispatch raises, [None] is fuel *)
Definition dispatch_section (messages : list Message) b : option (bool * Broker E) :=
  match messages with
  | [] => Some (true, b)
  | _ =>
      let '(ok, b1) := dispatch_messages cfg messages b in
      if negb ok then Some (false, b1)
      else match schedule (wm b1) with
           | None => None
           | Some w => Some (true, b1 <| wm := w |>)
           end
  end.

(** [_drain_completion_events_once] with what it reports to the world: the result says whether
    anything was drained, [None] is an exception *)
Inductive drains (s : System) : option bool → System → Prop :=
  drains_intro publish time error_text now events w forced b1 r :
    poll_completed_events true (wm (sy_broker s)) = Some (events, w) →
    handle_blocking_timeouts cfg time error_text ((sy_broker s) <| wm := w |>) = Some (forced, b1) →
    drain_completion_events_once cfg publish time error_text now (sy_broker s) = Some r →
    drains s (match r with inl _ => None | inr (drained, _) => Some drained end)
      (s <| sy_broker := match r with inl b' => b' | inr (_, b') => b' end |>
         <| sy_facts ::= after_report (events ++ forced) publish |>).

(** The positions after a drain *)
Definition after_pending_drain (drained : option bool) : ConsumerAt :=
  match drained with None => LoopFailed | Some true => PendingDrained | Some false => BeforeCheck true end.

Definition after_monitor_drain (had_pending : bool) (drained : option bool) : MonitorAt :=
  match drained with None => MonitorFailed | Some true => MonitorDrained had_pending | Some false => MonitorTop end.

(** After [wait_for_completion] *)
Definition monitor_woken (has_completion : bool) : MonitorAt :=
  if negb has_completion && (bc_max_blocking_duration_ms cfg <=? 0) then MonitorTop else MonitorReady false.

(** What Kafka may return: at most [num_messages], and data only of partitions held and not paused *)
Definition may_return (num_messages : Z) (messages : list Message) (p : Poller) : Prop :=
  zlen messages ≤ num_messages
  ∧ Forall (λ m, ∃ t n, msg_topic m = Some t ∧ msg_partition m = Some n ∧ mkTp t n ∈ po_assigned p ∖ po_paused p)
      (data_messages messages).

(** ** The two tasks, the callbacks and the offset store *)

Inductive poller_step : Poller → Poller → Prop :=
  (* the consumer task *)
  | ps_top p :
      po_consumer_at p = LoopTop → po_running p = true → pending_dlq_events (po_broker p) = [] →
      poller_step p (p <| po_consumer_at := BeforeCheck false |>)
  | ps_drain_pending p drained s' :
      po_consumer_at p = LoopTop → po_running p = true → pending_dlq_events (po_broker p) ≠ [] →
      drains (po_system p) drained s' →
      poller_step p ((with_system s' p) <| po_consumer_at := after_pending_drain drained |>)
  | ps_commit_pending p p' :
      po_consumer_at p = PendingDrained →
      commits true "unknown" (p <| po_consumer_at := Committing true |>) p' →
      poller_step p (p' <| po_consumer_at := BeforeCheck true |>)
  | ps_check p pending now1 now2 :
      po_consumer_at p = BeforeCheck pending → poller_step p (check_section now1 now2 pending p)
  | ps_consume p pending num_messages timeout answer :
      po_consumer_at p = Consuming pending num_messages timeout →
      (∀ messages, answer = Some messages → may_return num_messages messages p) →
      poller_step p (consume_section answer pending p)
  | ps_dispatch_pending p messages ok b' :
      po_consumer_at p = Consumed true messages → dispatch_section messages (po_broker p) = Some (ok, b') →
      poller_step p ((with_broker b' p) <| po_consumer_at := if (ok : bool) then LoopTop else LoopFailed |>)
  | ps_dispatch p messages b' drained s' :
      po_consumer_at p = Consumed false messages → dispatch_section messages (po_broker p) = Some (true, b') →
      drains (po_system (with_broker b' p)) drained s' →
      poller_step p ((with_system s' p) <| po_consumer_at := if drained is Some _ then TurnDone else LoopFailed |>)
  | ps_dispatch_raises p messages b' :
      po_consumer_at p = Consumed false messages → dispatch_section messages (po_broker p) = Some (false, b') →
      poller_step p ((with_broker b' p) <| po_consumer_at := LoopFailed |>)
  | ps_commit_turn p p' :
      po_consumer_at p = TurnDone →
      commits false "consumer_loop" (p <| po_consumer_at := Committing false |>) p' →
      poller_step p (p' <| po_consumer_at := LoopTop |>)
  | ps_consumer_fails p :
      po_consumer_at p = LoopFailed → poller_step p (p <| po_running := false |>)
  (* the monitor task *)
  | ps_monitor_pending p :
      po_monitor_at p = MonitorTop → po_running p = true → pending_dlq_events (po_broker p) ≠ [] →
      poller_step p (p <| po_monitor_at := MonitorReady true |>)
  | ps_monitor_waits p :
      po_monitor_at p = MonitorTop → po_running p = true → pending_dlq_events (po_broker p) = [] →
      0 < get_total_in_flight_count (wm (po_broker p)) →
      poller_step p (p <| po_monitor_at := MonitorWaiting |>)
  | ps_monitor_woken p has_completion :
      po_monitor_at p = MonitorWaiting → poller_step p (p <| po_monitor_at := monitor_woken has_completion |>)
  | ps_monitor_drains p had_pending drained s' :
      po_monitor_at p = MonitorReady had_pending → drains (po_system p) drained s' →
      poller_step p ((with_system s' p) <| po_monitor_at := after_monitor_drain had_pending drained |>)
  | ps_monitor_commits p had_pending p' :
      po_monitor_at p = MonitorDrained had_pending →
      commits had_pending "completion_monitor" (p <| po_monitor_at := MonitorCommitting |>) p' →
      poller_step p (p' <| po_monitor_at := MonitorTop |>)
  | ps_monitor_fails p :
      po_monitor_at p = MonitorFailed → poller_step p (p <| po_running := false |>)
  (* the Kafka callbacks *)
  | ps_assign p reply partitions assignments :
      Forall (λ k, nonempty_metadata (k_metadata k) = None) partitions →
      Forall (store_answers OFFSET_INVALID (po_system p)) (default [] reply) →
      build_assignments OFFSET_INVALID reply partitions (bc_strategy cfg) grace_ms = Some assignments →
      poller_step p
        ((with_system ((po_system p) <| sy_broker ::= λ b, (assign_sync assignments None b).2 |>
                         <| sy_facts ::= λ g, g <| started_at ::= app (positions_of partitions) |> |>) p)
           <| po_assigned ::= λ ps, ps ∪ list_to_set (od_keys assignments) |>
           <| po_paused ::= λ ps, ps ∖ list_to_set (od_keys assignments) |>
           <| po_strayed ::= orb (is_paused (po_limits p) || (MAX_IN_FLIGHT_MESSAGES (po_limits p) <? poller_load p)) |>)
  | ps_prepare_revoke p partitions prep c b' :
      NoDup (dto_of_kafka <$> partitions) →
      prepare_revoke_sync cfg partitions None (po_broker p) = (prep, c, b') →
      poller_step p
        ((with_system ((po_system p) <| sy_broker := b' |> <| sy_sent ::= app (offsets_to_commit prep) |>) p)
           <| po_assigned ::= λ ps, ps ∖ list_to_set (dto_of_kafka <$> partitions) |>
           <| po_paused ::= λ ps, ps ∖ list_to_set (dto_of_kafka <$> partitions) |>)
  | ps_cleanup_revoke p tps failed :
      poller_step p (with_broker (cleanup_revoke_sync tps failed (po_broker p)) p)
  (* the offset store *)
  | ps_lands p k :
      k ∈ sy_sent (po_system p) →
      poller_step p (with_system ((po_system p) <| sy_committed ::= <[dto_of_kafka k := k]> |>) p)
  | ps_moved_by_others p tp c :
      0 ≤ c →
      poller_step p
        (with_system ((po_system p) <| sy_committed ::= <[tp := mkKafkaTp (topic tp) (partition tp) (Some c) None]> |>
                        <| sy_facts ::= λ g, g <| started_at ::= cons (tp, c) |> |>) p)
(* [_maybe_commit_ready_offsets] of one of the tasks *)
with commits : bool → string → Poller → Poller → Prop :=
  | commits_nothing had_pending source commit_ok others now p b' :
      maybe_commit_ready_offsets cfg had_pending source commit_ok others now (po_broker p) = ([], b') →
      commits had_pending source p (with_broker b' p)
  | commits_sends had_pending source commit_ok others now offsets b' p p1 p2 :
      maybe_commit_ready_offsets cfg had_pending source commit_ok others now (po_broker p) = (offsets, b') →
      offsets ≠ [] →
      let p0 := with_system ((po_system p) <| sy_broker ::= λ b, b <| cadence ::= record_invocation source |> |>
                               <| sy_sent ::= app offsets |>) p in
      poller_run p0 p1 → po_broker p1 = others 0%nat (po_broker p0) →
      poller_run p1 p2 → po_broker p2 = others 1%nat (po_broker p1) →
      commits had_pending source p (with_broker b' (if commit_ok 0%nat then p1 else p2))
with poller_run : Poller → Poller → Prop :=
  | poller_done p : poller_run p p
  | poller_more p p1 p2 : poller_step p p1 → poller_run p1 p2 → poller_run p p2.

Scheme poller_step_mut := Minimality for poller_step Sort Prop
  with commits_mut := Minimality for commits Sort Prop
  with poller_run_mut := Minimality for poller_run Sort Prop.
Combined Scheme poller_mutind from poller_step_mut, commits_mut, poller_run_mut.

(** ** The loops are runs of the broker *)

Abbreviation step_of := (system_step cfg OFFSET_INVALID grace_ms).
Abbreviation run_of := (system_run cfg OFFSET_INVALID grace_ms).

Lemma run_one s s' : step_of s s' → run_of s s'.
Proof. intros H. eapply run_more; [exact H|apply run_done]. Qed.

Lemma run_trans s1 s2 s3 : run_of s1 s2 → run_of s2 s3 → run_of s1 s3.
Proof. induction 1 as [|s s1 s2' H1 H2 IH]; [done|]. intros H3. eapply run_more; [exact H1|]. by apply IH. Qed.

Lemma same_broker s : s <| sy_broker := sy_broker s |> = s.
Proof. by destruct s. Qed.

Lemma set_limit_runs v (l l' : BrokerLimits (System (E := E))) :
  set_runtime_max_in_flight v l = Some l' → run_of (limited_work l) (limited_work l').
Proof.
  unfold set_runtime_max_in_flight. case_match; [intros [= <-]; apply run_done|].
  destruct (lw_set_limit _ _) as [s|] eqn:Hs; [|done]. intros [= <-]. cbn in Hs |- *.
  apply fmap_Some in Hs as (w & Hw & ->). apply run_one. by eapply sys_set_limit.
Qed.

Lemma check_runs ps lag now1 now2 (l l' : BrokerLimits (System (E := E))) :
  check_backpressure ps lag now1 now2 l = Some l' → run_of (limited_work l) (limited_work l').
Proof.
  unfold check_backpressure. destruct ps as [ps|]; [|done].
  destruct (maybe_adjust_adaptive_backpressure _ _ _ _) as [l1|] eqn:H1; [|done].
  destruct (maybe_adjust_adaptive_concurrency _ _ _ _) as [l2|] eqn:H2; [|done].
  assert (run_of (limited_work l) (limited_work l1)) as R1.
  { revert H1. unfold maybe_adjust_adaptive_backpressure. case_match; [intros [= <-]; apply run_done|].
    destruct (ab_evaluate _ _ _ _ _ _) as [v c]. case_match; [intros [= <-]; apply run_done|].
    intros Hl. exact (set_limit_runs _ _ _ Hl). }
  assert (run_of (limited_work l1) (limited_work l2)) as R2.
  { revert H2. unfold maybe_adjust_adaptive_concurrency. destruct (ac_evaluate _ _ _) as [[v|] c].
    - intros Hl. exact (set_limit_runs _ _ _ Hl).
    - intros [= <-]. apply run_done. }
  intros H3. assert (limited_work l' = limited_work l2) as ->; [|by eapply run_trans].
  case_match; [by injection H3 as <-|]. destruct (check_runtime_backpressure _ _ _). by injection H3 as <-.
Qed.

Lemma drains_step s drained s' : drains s drained s' → step_of s s'.
Proof. intros [publish time error_text now events w forced b1 r Hp Hh Hd]. by eapply sys_drain. Qed.

Lemma dispatch_runs messages s ok b' :
  dispatch_section messages (sy_broker s) = Some (ok, b') → run_of s (s <| sy_broker := b' |>).
Proof.
  unfold dispatch_section. destruct messages as [|m ms]; [intros [= <- <-]; rewrite same_broker; apply run_done|].
  assert (step_of s (s <| sy_broker := (dispatch_messages cfg (m :: ms) (sy_broker s)).2 |>)) as H1
    by exact (sys_dispatch cfg OFFSET_INVALID grace_ms s (m :: ms)).
  destruct (dispatch_messages cfg (m :: ms) (sy_broker s)) as [[] b1]; cbn [negb snd] in *.
  - destruct (schedule (wm b1)) as [w|] eqn:Hs; [|done]. intros [= <- <-].
    eapply run_more; [exact H1|]. apply run_one. exact (sys_schedule cfg OFFSET_INVALID grace_ms (s <| sy_broker := b1 |>) w Hs).
  - intros [= <- <-]. by apply run_one.
Qed.

Lemma maybe_commit_cases had_pending source commit_ok others now b r :
  maybe_commit_ready_offsets cfg had_pending source commit_ok others now b = r →
  r = ([], b) ∨ ∃ force, commit_ready_offsets cfg force source commit_ok others now b = r.
Proof.
  unfold maybe_commit_ready_offsets. case_match; intros <-; [right; by eexists|by left].
Qed.

Lemma loops_simulated :
  (∀ p p', poller_step p p' → run_of (po_system p) (po_system p'))
  ∧ (∀ had_pending source p p', commits had_pending source p p' → run_of (po_system p) (po_system p'))
  ∧ (∀ p p', poller_run p p' → run_of (po_system p) (po_system p')).
Proof.
  apply poller_mutind; intros.
  - apply run_done.
  - by eapply run_one, drains_step.
  - done.
  - unfold check_section. destruct (check_backpressure _ _ _ _ _) as [l|] eqn:Hc; [|apply run_done]. by eapply check_runs.
  - destruct answer as [messages|]; [|apply run_done]. unfold consume_section, record_pipeline_poll_batch.
    case_match; apply run_done.
  - by eapply dispatch_runs.
  - eapply run_trans; [by eapply dispatch_runs|]. by eapply run_one, drains_step.
  - by eapply dispatch_runs.
  - done.
  - apply run_done.
  - apply run_done.
  - apply run_done.
  - apply run_done.
  - by eapply run_one, drains_step.
  - done.
  - apply run_done.
  - apply run_one. by eapply sys_assign.
  - apply run_one. by eapply sys_prepare_revoke.
  - apply run_one. apply sys_cleanup_revoke.
  - apply run_one. by apply sys_lands.
  - apply run_one. by apply sys_moved_by_others.
  - apply maybe_commit_cases in H as [[= ->]|[force Hc]].
    + unfold po_broker. change (po_system (with_broker ?b p)) with ((po_system p) <| sy_broker := b |>).
      rewrite same_broker. apply run_done.
    + apply run_one. by eapply sys_commit_nothing.
  - apply maybe_commit_cases in H as [[= -> _]|[force Hc]]; [done|].
    apply run_one.
    assert (po_system (with_broker b' (if commit_ok 0%nat then p1 else p2)) =
      (if commit_ok 0%nat then po_system p1 else po_system p2) <| sy_broker := b' |>) as -> by by destruct (commit_ok 0%nat).
    by apply (sys_commit cfg OFFSET_INVALID grace_ms (po_system p) force source commit_ok others now offsets b' (po_system p1) (po_system p2)).
  - apply run_done.
  - by eapply run_trans.
Qed.
End loop.
