(* ===== verification/BrokerLoopLoad.v ===== *)
(** * The load is bounded

    Back pressure over the loops of [BrokerLoop]: what is in flight and queued stays within the
    configured limit plus one polled batch, as long as no assignment finds the broker paused or
    overloaded.  An assignment that does escapes the pause: the flag is set, so the new partitions
    are never paused. *)

From S2P Require Import Prelude Vendor Runtime Dto OffsetTracker PoisonMessage WorkQueueTopology ExecutionEngine WorkManager WorkManagerLoad Adaptive Dlq CommitPlanner Broker BrokerInv BrokerCompletion BrokerCommit CommitCoordinator BrokerRebalance BrokerSafety BrokerHandover BrokerSystem BrokerLoad BrokerLoop.

Section load.
Context {E : Type} `{EE : ExecutionEngine E} `{TL : TrackerLibs} `{RT : Runtime}.
Context (cfg : BrokerConfig) (OFFSET_INVALID grace_ms batch_size configured : Z).
Implicit Types (b : Broker E) (s : System (E := E)) (p : Poller (E := E)) (l : BrokerLimits (System (E := E))).

Abbreviation step := (poller_step cfg OFFSET_INVALID grace_ms batch_size).
Abbreviation run := (poller_run cfg OFFSET_INVALID grace_ms batch_size).

(** ** The limits *)

Record limits_ok l : Prop := mkLimitsOk {
  lk_configured : configured_max_in_flight l = configured;
  lk_limit : 1 ≤ MAX_IN_FLIGHT_MESSAGES l ≤ Z.max 1 configured;
  lk_resume : MIN_IN_FLIGHT_MESSAGES_TO_RESUME l = resume_limit_of (MAX_IN_FLIGHT_MESSAGES l);
}.

(** What an adjustment leaves: everything but the limit *)
Record adjusted l l' : Prop := mkAdjusted {
  aj_ok : limits_ok l';
  aj_load : load_view (wm (sy_broker (limited_work l'))) = load_view (wm (sy_broker (limited_work l)));
  aj_paused : is_paused l' = is_paused l;
  aj_calls : consumer_calls l' = consumer_calls l;
}.

Lemma adjusted_refl l : limits_ok l → adjusted l l.
Proof. by split. Qed.

Lemma adjusted_trans l1 l2 l3 : adjusted l1 l2 → adjusted l2 l3 → adjusted l1 l3.
Proof. intros [A1 A2 A3 A4] [B1 B2 B3 B4]. split; [done|by rewrite B2|by rewrite B3|by rewrite B4]. Qed.

Lemma set_limit_adjusted v l l' : limits_ok l → set_runtime_max_in_flight v l = Some l' → adjusted l l'.
Proof.
  intros [H1 H2 H3]. unfold set_runtime_max_in_flight. rewrite H1.
  case_match; [intros [= <-]; by split; [split; [done|cbn; lia|]|..]|].
  destruct (lw_set_limit _ _) as [s|] eqn:Hs; [|done]. intros [= <-].
  split; [split; [done|cbn; lia|done]| |done|done].
  cbn in Hs |- *. apply fmap_Some in Hs as (w & Hw & ->). cbn. revert Hw.
  unfold set_max_in_flight_messages. case_match; [done|]. by intros [= <-].
Qed.

Lemma adjust_adjusted queued lag now1 now2 l l1 l2 :
  limits_ok l → maybe_adjust_adaptive_backpressure queued lag now1 l = Some l1 →
  maybe_adjust_adaptive_concurrency queued lag now2 l1 = Some l2 → adjusted l l2.
Proof.
  intros Hl H1 H2. assert (adjusted l l1) as A1.
  { revert H1. unfold maybe_adjust_adaptive_backpressure. case_match; [intros [= <-]; by apply adjusted_refl|].
    destruct (ab_evaluate _ _ _ _ _ _) as [v c].
    assert (adjusted l (l <| backpressure_controller := c |>)) as A0 by (destruct Hl; by split).
    case_match; [by intros [= <-]|]. intros Hv. eapply adjusted_trans; [exact A0|].
    by eapply set_limit_adjusted; [apply A0|]. }
  eapply adjusted_trans; [exact A1|]. revert H2. unfold maybe_adjust_adaptive_concurrency.
  destruct (ac_evaluate _ _ _) as [v c].
  assert (adjusted l1 (l1 <| concurrency_controller := c |>)) as A0 by (destruct A1 as [[]]; by split).
  destruct v as [v|]; [|by intros [= <-]]. intros Hv. eapply adjusted_trans; [exact A0|].
  by eapply set_limit_adjusted; [apply A0|].
Qed.

Definition limits_load l : Z := load (wm (sy_broker (limited_work l))).

(** What a check decides *)
Lemma check_decides ps lag now1 now2 l l' :
  limits_ok l → check_backpressure (Some ps) lag now1 now2 l = Some l' →
  limits_ok l' ∧ load_view (wm (sy_broker (limited_work l'))) = load_view (wm (sy_broker (limited_work l)))
  ∧ ∃ calls, consumer_calls l' = consumer_calls l ++ calls
    ∧ (is_paused l' = true ∧ (calls = [] ∧ is_paused l = true ∨ calls = [Pause ps])
       ∨ is_paused l' = false ∧ (ps = [] ∨ limits_load l' ≤ Z.max 1 configured)).
Proof.
  intros Hl. unfold check_backpressure.
  destruct (maybe_adjust_adaptive_backpressure _ _ _ _) as [l1|] eqn:H1; [|done].
  destruct (maybe_adjust_adaptive_concurrency _ _ _ _) as [l2|] eqn:H2; [|done].
  destruct (adjust_adjusted _ _ _ _ _ _ _ Hl H1 H2) as [A1 A2 A3 A4]. clear H1 H2.
  set (queued := lw_total_queued (limited_work l)).
  assert (lw_total_in_flight (limited_work l2) + queued = limits_load l2) as Hload.
  { unfold queued, limits_load, load, lw_total_in_flight, lw_total_queued, system_limited, get_total_in_flight_count,
      get_total_queued_messages. unfold load_view in A2. injection A2 as _ E2 E3. lia. }
  rewrite Hload. destruct A1 as [C1 C2 C3].
  destruct (_ && _) eqn:Hearly.
  - intros [= <-]. split; [done|]. split; [done|]. exists []. rewrite app_nil_r. split; [done|]. right.
    apply andb_prop in Hearly as [Hearly Hle]. apply andb_prop in Hearly as [Hearly _].
    apply andb_prop in Hearly as [_ Hp]. apply negb_true_iff in Hp. apply Z.leb_le in Hle. split; [done|]. right. lia.
  - destruct (check_runtime_backpressure ps queued l2) as [paused calls] eqn:Hc. intros [= <-].
    split; [done|]. split; [done|]. exists calls. split; [cbn; by rewrite A4|]. cbn. revert Hc.
    unfold check_runtime_backpressure. rewrite Hload. pose proof (resume_limit_bounds (MAX_IN_FLIGHT_MESSAGES l2) ltac:(lia)).
    destruct ps as [|tp ps].
    { intros [= <- <-]. destruct (is_paused l2) eqn:Hp; [left|right]; (split; [done|]); left; [|done]. split; [done|congruence]. }
    case_match; [intros [= <- <-]; left; split; [done|by right]|].
    case_match; intros [= <- <-].
    + right. split; [done|]. right. change (limits_load (_ <| consumer_calls ::= _ |>)) with (limits_load l2). lia.
    + destruct (is_paused l2) eqn:Hp; [left; split; [done|]; left; split; [done|congruence]|].
      right. split; [done|]. right. change (limits_load (_ <| consumer_calls ::= _ |>)) with (limits_load l2). cbn in *. lia.
Qed.

(** ** The invariant *)

Definition in_flight_limit : Z := Z.max 1 configured.
Definition load_limit : Z := in_flight_limit + Z.max 1 batch_size.

(** What the consumer task still has to add *)
Definition position_ok p : Prop :=
  match po_consumer_at p with
  | Consuming _ n _ =>
      n ≤ Z.max 1 batch_size
      ∧ (is_paused (po_limits p) = true ∨ poller_load p ≤ in_flight_limit ∨ po_assigned p = ∅)
  | Consumed _ messages => poller_load p + zlen (data_messages messages) ≤ load_limit
  | _ => True
  end.

Record bounded p : Prop := mkBounded {
  bd_limits : limits_ok (po_limits p);
  bd_counted : counted (wm (po_broker p));
  bd_paused : is_paused (po_limits p) = true → po_assigned p ⊆ po_paused p;
  bd_position : position_ok p;
  bd_load : poller_load p ≤ load_limit;
}.

(** Work that does not grow *)
Lemma bounded_work p s : bounded p → grows 0 (wm (po_broker p)) (wm (sy_broker s)) → bounded (with_system s p).
Proof.
  intros [H1 H2 H3 H4 H5] Hg. destruct (Hg H2) as [Hc Hl].
  assert (poller_load (with_system s p) ≤ poller_load p) as Hle.
  { change (load (wm (sy_broker s)) ≤ load (wm (po_broker p))). lia. }
  split; [by destruct H1|exact Hc|exact H3| |lia].
  unfold position_ok in *. change (po_consumer_at (with_system s p)) with (po_consumer_at p).
  change (is_paused (po_limits (with_system s p))) with (is_paused (po_limits p)).
  change (po_assigned (with_system s p)) with (po_assigned p).
  destruct (po_consumer_at p); try done.
  - destruct H4 as [? [?|[?|?]]]; (split; [done|]); [by left| |by right; right]. right; left. lia.
  - lia.
Qed.

Lemma bounded_view p s : bounded p → load_view (wm (sy_broker s)) = load_view (wm (po_broker p)) → bounded (with_system s p).
Proof. intros Hb Hv. apply bounded_work; [done|by apply grows_view]. Qed.

(** A position with nothing to add *)
Definition adds_nothing (at' : ConsumerAt) : Prop :=
  match at' with Consuming _ _ _ | Consumed _ _ => False | _ => True end.

Lemma bounded_at p at' : adds_nothing at' → bounded p → bounded (p <| po_consumer_at := at' |>).
Proof. intros Ha [H1 H2 H3 H4 H5]. split; try done. unfold position_ok. cbn. by destruct at'. Qed.

Lemma bounded_check p pending now1 now2 : bounded p → bounded (check_section batch_size now1 now2 pending p).
Proof.
  intros Hb. unfold check_section. destruct (check_backpressure _ _ _ _ _) as [l|] eqn:Hc; [|by apply bounded_at].
  destruct Hb as [H1 H2 H3 H4 H5]. destruct (check_decides _ _ _ _ _ _ H1 Hc) as (Hl & Hv & calls & Hcalls & Hcase).
  rewrite Hcalls, drop_app_length.
  assert (counted (wm (sy_broker (limited_work l))) ∧ limits_load l ≤ poller_load p + 0) as [Hcnt Hload]
    by (apply (grows_view (wm (po_broker p))); done).
  split; cbn.
  - done.
  - done.
  - intros Hp. destruct Hcase as [[_ [[-> Hp']| ->]]|[Hp' _]]; [|cbn|congruence].
    + by apply H3.
    + intros tp Htp. apply elem_of_union. right. by apply elem_of_list_to_set, elem_of_elements.
  - unfold position_ok. cbn. change (poller_load _) with (limits_load l).
    assert (is_paused l = true ∨ limits_load l ≤ in_flight_limit ∨ po_assigned p = ∅) as Hcan.
    { destruct Hcase as [[Hp _]|[_ [Hn|Hle]]]; [by left| |by right; left]. right; right.
      apply elements_empty_iff in Hn. by apply leibniz_equiv. }
    destruct pending; (split; [lia|exact Hcan]).
  - change (poller_load _) with (limits_load l). lia.
Qed.

Lemma data_messages_length messages : zlen (data_messages messages) ≤ zlen messages.
Proof. unfold data_messages, zlen. pose proof (length_filter (λ m, msg_error m = false) messages). lia. Qed.

Lemma bounded_consume p pending n timeout answer :
  po_consumer_at p = Consuming pending n timeout →
  (∀ messages, answer = Some messages → may_return n messages p) → bounded p →
  bounded (consume_section answer pending p).
Proof.
  intros Hat Hok [H1 H2 H3 H4 H5]. destruct answer as [messages|]; [|by split].
  destruct (Hok messages eq_refl) as [Hlen Hfrom]. unfold position_ok in H4. rewrite Hat in H4. destruct H4 as [Hn Hcan].
  assert (poller_load p + zlen (data_messages messages) ≤ load_limit) as Hadd.
  { destruct (decide (data_messages messages = [])) as [->|Hne]; [rewrite zlen_nil_0; lia|].
    pose proof (data_messages_length messages). unfold load_limit. destruct Hcan as [Hp|[Hle|He]]; [|lia|].
    - specialize (H3 Hp). destruct (data_messages messages) as [|m ms]; [done|]. apply Forall_cons in Hfrom as [(t & k & _ & _ & Hm) _].
      set_solver.
    - destruct (data_messages messages) as [|m ms]; [done|]. apply Forall_cons in Hfrom as [(t & k & _ & _ & Hm) _].
      set_solver. }
  unfold consume_section, record_pipeline_poll_batch. case_match; by split.
Qed.

Lemma dispatch_section_load messages b ok b' :
  dispatch_section cfg messages b = Some (ok, b') → broker_grows (zlen (data_messages messages)) b b'.
Proof.
  unfold dispatch_section. destruct messages as [|m ms]; [intros [= <- <-]; apply grows_refl|].
  pose proof (dispatch_messages_load cfg (m :: ms) b) as H1.
  destruct (dispatch_messages cfg (m :: ms) b) as [[] b1]; cbn [negb snd] in *.
  - destruct (schedule (wm b1)) as [w|] eqn:Hs; [|done]. intros [= <- <-]. apply schedule_load in Hs.
    rewrite <-(Z.add_0_r (zlen _)). eapply grows_trans; [exact H1|exact Hs].
  - by intros [= <- <-].
Qed.

Lemma bounded_dispatch p pending messages ok b' at' :
  po_consumer_at p = Consumed pending messages → dispatch_section cfg messages (po_broker p) = Some (ok, b') →
  adds_nothing at' → bounded p → bounded ((with_broker b' p) <| po_consumer_at := at' |>).
Proof.
  intros Hat Hd Ha [H1 H2 H3 H4 H5]. apply dispatch_section_load in Hd. destruct (Hd H2) as [Hc Hl].
  unfold position_ok in H4. rewrite Hat in H4. split; [by destruct H1|exact Hc|exact H3| |].
  - unfold position_ok. cbn. by destruct at'.
  - change (broker_load b' ≤ load_limit). unfold poller_load, broker_load in *. lia.
Qed.

Lemma drains_load s drained s' : drains cfg s drained s' → grows 0 (wm (sy_broker s)) (wm (sy_broker s')).
Proof. intros [publish time error_text now events w forced b1 r Hp Hh Hd]. by eapply drain_load. Qed.

Lemma after_pending_adds_nothing drained : adds_nothing (after_pending_drain drained).
Proof. by destruct drained as [[]|]. Qed.

(** An assignment that finds the broker neither paused nor overloaded *)
Lemma bounded_assign p s gained :
  grows 0 (wm (po_broker p)) (wm (sy_broker s)) →
  is_paused (po_limits p) || (MAX_IN_FLIGHT_MESSAGES (po_limits p) <? poller_load p) = false → bounded p →
  bounded ((with_system s p) <| po_assigned ::= λ ps, ps ∪ gained |> <| po_paused ::= λ ps, ps ∖ gained |>
             <| po_strayed ::= orb false |>).
Proof.
  intros Hg [Hp Hm]%orb_false_elim Hb. pose proof (bd_limits _ Hb) as [_ Hlim _].
  pose proof (bounded_work p s Hb Hg) as [H1 H2 H3 H4 H5].
  assert (poller_load (with_system s p) ≤ in_flight_limit) as Hle.
  { destruct (Hg (bd_counted _ Hb)) as [_ Hl]. change (load (wm (po_broker p))) with (poller_load p) in Hl.
    change (load (wm (sy_broker s)) ≤ in_flight_limit). unfold in_flight_limit. apply Z.ltb_ge in Hm. lia. }
  split; [done|done| | |done].
  - cbn. intros Hp'. congruence.
  - unfold position_ok in *. cbn in *. destruct (po_consumer_at p); try done. destruct H4 as [Hn _]. split; [done|].
    right; left. exact Hle.
Qed.

Lemma bounded_revoke p s lost :
  grows 0 (wm (po_broker p)) (wm (sy_broker s)) → bounded p →
  bounded ((with_system s p) <| po_assigned ::= λ ps, ps ∖ lost |> <| po_paused ::= λ ps, ps ∖ lost |>).
Proof.
  intros Hg Hb. pose proof (bounded_work p s Hb Hg) as [H1 H2 H3 H4 H5]. split; [done|done| | |done].
  - cbn in *. intros Hp. specialize (H3 Hp). set_solver.
  - unfold position_ok in *. cbn in *. destruct (po_consumer_at p); try done. destruct H4 as [Hn Hcan]. split; [done|].
    destruct Hcan as [?|[?|He]]; [by left|right; by left|]. right; right. set_solver.
Qed.

(** ** Every run *)

(** Once an assignment has strayed the run says nothing; until then the load is bounded. *)
Definition unless_strayed p p' : Prop :=
  (po_strayed p' = false → po_strayed p = false) ∧ (po_strayed p' = false → bounded p → bounded p').

Lemma unless_refl p p' : po_strayed p' = po_strayed p → (bounded p → bounded p') → unless_strayed p p'.
Proof. intros Est H. split; [congruence|]. by intros _. Qed.

Lemma commit_load had source commit_ok others now b offsets b' :
  maybe_commit_ready_offsets cfg had source commit_ok others now b = (offsets, b') → offsets ≠ [] →
  load_view (wm b') = load_view (wm (let b1 := others 0%nat (b <| cadence ::= record_invocation source |>) in
                                     if commit_ok 0%nat then b1 else others 1%nat b1)).
Proof.
  intros [[= -> ->]|[force Hc]]%maybe_commit_cases Hne; [done|].
  apply commit_ready_load in Hc. by rewrite decide_False in Hc.
Qed.

Lemma loops_bounded :
  (∀ p p', step p p' → unless_strayed p p')
  ∧ (∀ had_pending source p p',
       commits cfg OFFSET_INVALID grace_ms batch_size had_pending source p p' → unless_strayed p p')
  ∧ (∀ p p', run p p' → unless_strayed p p').
Proof.
  apply poller_mutind.
  - intros p _ _ _. apply unless_refl; [done|by apply bounded_at].
  - intros p drained s' _ _ _ Hd. apply drains_load in Hd. apply unless_refl; [done|]. intros Hb.
    apply bounded_at; [apply after_pending_adds_nothing|by apply bounded_work].
  - intros p p' _ _ [IH1 IH2]. split; [exact IH1|]. intros Hs Hb. apply bounded_at; [done|]. apply IH2; [done|by apply bounded_at].
  - intros p pending now1 now2 _. apply unless_refl; [|apply bounded_check].
    unfold check_section. by destruct (check_backpressure _ _ _ _ _).
  - intros p pending n timeout answer Hat Hok. apply unless_refl; [|by eapply bounded_consume].
    destruct answer as [ms|]; [|done]. unfold consume_section, record_pipeline_poll_batch. by case_match.
  - intros p messages ok b' Hat Hd. apply unless_refl; [done|]. eapply bounded_dispatch; [done|done|by destruct ok].
  - intros p messages b' drained s' Hat Hd Hdr. apply drains_load in Hdr. apply unless_refl; [done|]. intros Hb.
    pose proof (bounded_dispatch p false messages true b' LoopTop Hat Hd I Hb) as H1.
    apply (bounded_work _ s') in H1; [|exact Hdr].
    pose proof (bounded_at _ (if drained is Some _ then TurnDone else LoopFailed) ltac:(by destruct drained) H1) as H2.
    exact H2.
  - intros p messages b' Hat Hd. apply unless_refl; [done|]. by eapply bounded_dispatch.
  - intros p p' _ _ [IH1 IH2]. split; [exact IH1|]. intros Hs Hb. apply bounded_at; [done|]. apply IH2; [done|by apply bounded_at].
  - intros p _. apply unless_refl; [done|]. by intros [].
  - intros p _ _ _. apply unless_refl; [done|]. by intros [].
  - intros p _ _ _ _. apply unless_refl; [done|]. by intros [].
  - intros p has _. apply unless_refl; [done|]. by intros [].
  - intros p had drained s' _ Hd. apply drains_load in Hd. apply unless_refl; [done|]. intros Hb.
    by destruct (bounded_work p s' Hb Hd).
  - intros p had p' _ _ [IH1 IH2]. split; [exact IH1|]. intros Hs Hb.
    destruct (IH2 Hs) as [H1 H2 H3 H4 H5]; [by destruct Hb|]. by split.
  - intros p _. apply unless_refl; [done|]. by intros [].
  - intros p reply partitions assignments _ _ _. set (s' := (po_system p) <| sy_broker ::= _ |> <| sy_facts ::= _ |>).
    assert (grows 0 (wm (po_broker p)) (wm (sy_broker s'))) as Hg by apply assign_sync_load.
    unfold unless_strayed. cbn [po_strayed]. split; [by intros [_ ?]%orb_false_elim|]. intros [Hst _]%orb_false_elim Hb.
    pose proof (bounded_assign p s' (list_to_set (od_keys assignments)) Hg Hst Hb) as []. by split.
  - intros p partitions prep c b' _ Hp. pose proof (prepare_revoke_load cfg partitions None (po_broker p)) as Hg.
    rewrite Hp in Hg. apply unless_refl; [done|]. intros Hb. by apply bounded_revoke.
  - intros p tps failed. apply unless_refl; [done|]. intros Hb. apply bounded_view; [done|]. apply cleanup_revoke_load.
  - intros p k _. apply unless_refl; [done|]. intros Hb. by apply bounded_view.
  - intros p tp c _. apply unless_refl; [done|]. intros Hb. by apply bounded_view.
  - intros had source commit_ok others now p b' Hc. apply unless_refl; [done|]. intros Hb. apply bounded_view; [done|].
    apply maybe_commit_cases in Hc as [[= ->]|[force Hc]]; [done|]. apply commit_ready_load in Hc. exact Hc.
  - intros had source commit_ok others now offsets b' p p1 p2 Hc Hne p0 _ [IH1 IH1'] E1 _ [IH2 IH2'] E2.
    apply commit_load in Hc; [|done]. cbv zeta in Hc.
    change ((po_broker p) <| cadence ::= record_invocation source |>) with (po_broker p0) in Hc.
    rewrite <-E1, <-E2 in Hc. destruct (commit_ok 0%nat).
    + split; [exact IH1|]. intros Hs Hb. apply bounded_view; [|exact Hc]. apply IH1'; [exact Hs|]. by apply bounded_view.
    + split; [intros Hs; apply IH1, IH2, Hs|]. intros Hs Hb. apply bounded_view; [|exact Hc]. apply IH2'; [exact Hs|].
      apply IH1'; [by apply IH2|]. by apply bounded_view.
  - intros p. by apply unless_refl.
  - intros p p1 p2 _ [IH1 IH1'] _ [IH2 IH2']. split; [by intros ?%IH2%IH1|]. intros Hs Hb. apply IH2'; [done|].
    apply IH1'; [by apply IH2|done].
Qed.

(** ** The start *)

(** The broker's constructor over a work manager that holds nothing, and no partition held *)
Definition poller_start p : Prop :=
  (∃ queue_max bp cc s, init_limits configured queue_max bp cc s = Some (po_limits p))
  ∧ queue_topology (wm (po_broker p)) = new_topology
  ∧ total_queued_messages (wm (po_broker p)) = 0 ∧ current_in_flight_count (wm (po_broker p)) = 0
  ∧ po_consumer_at p = LoopTop ∧ po_assigned p = ∅ ∧ po_strayed p = false.

Lemma init_limits_ok queue_max bp cc s l : init_limits configured queue_max bp cc s = Some l → limits_ok l.
Proof.
  unfold init_limits, set_runtime_max_in_flight. cbn [configured_max_in_flight MAX_IN_FLIGHT_MESSAGES].
  case_match; [intros [= <-]; split; cbn; [done|lia|done]|].
  destruct (lw_set_limit _ _); [|done]. intros [= <-]. split; cbn; [done|lia|done].
Qed.

Lemma poller_start_bounded p : poller_start p → bounded p.
Proof.
  intros ((queue_max & bp & cc & s & Hi) & H1 & H2 & H3 & H4 & H5 & H6).
  assert (poller_load p = 0) as Hload.
  { unfold poller_load, broker_load, load, get_total_in_flight_count, get_total_queued_messages. lia. }
  split.
  - by eapply init_limits_ok.
  - unfold counted, get_total_in_flight_count. rewrite H1, H2, H3. split; [apply dicts_nodup_new|done].
  - rewrite H5. set_solver.
  - unfold position_ok. by rewrite H4.
  - unfold load_limit, in_flight_limit. lia.
Qed.

(** C2. Back pressure bounds memory: in every run of the two tasks, whatever the engine accepts,
    completes or refuses, whatever the controllers decide and however commits and rebalances fall
    in between, the items in flight and queued together never exceed the configured limit by more
    than one polled batch, and the queues hold no more than the count says - as long as no
    assignment found the broker paused or above its limit. *)
Theorem load_stays_bounded p0 p :
  poller_start p0 → run p0 p → po_strayed p = false →
  get_total_in_flight_count (wm (po_broker p)) + get_total_queued_messages (wm (po_broker p))
    ≤ Z.max 1 configured + Z.max 1 batch_size
  ∧ total_items (queue_topology (wm (po_broker p))) ≤ get_total_queued_messages (wm (po_broker p)).
Proof.
  intros H0 Hr Hs. destruct (proj2 (proj2 loops_bounded) p0 p Hr) as [_ H]. specialize (H Hs (poller_start_bounded p0 H0)).
  destruct H as [_ (_ & Hc & _) _ _ Hl]. split; [exact Hl|exact Hc].
Qed.
End load.
