(* ===== verification/BrokerTurn.v ===== *)
(** * Turns of the loops that nothing interrupts

    One pass of the body of [_run_consumer] and of the completion monitor as functions, for the
    case that no other task runs in between, and the proof that they are runs of the two tasks of
    [BrokerLoop].  They evaluate, so concrete runs of the whole broker are computed with them. *)

From S2P Require Import Prelude Vendor Runtime Dto OffsetTracker PoisonMessage WorkQueueTopology ExecutionEngine WorkManager WorkManagerLoad Adaptive Dlq CommitPlanner Broker BrokerInv BrokerCompletion BrokerCommit CommitCoordinator BrokerRebalance BrokerSafety BrokerHandover BrokerSystem BrokerLoad BrokerLoop BrokerLoopLoad.

(** What the outside answers during a turn *)
Record TurnAnswers := mkAnswers {
  ta_controller_now : Q * Q;
  ta_messages : option (list Message);
  ta_publish : nat → CompletionEvent → PyValue → PyValue → PublishOutcome;
  ta_time : TopicPartition → Q;
  ta_error_text : Z → Q → string;
  ta_now : Q;
  ta_commit_ok : nat → bool;
}.

Section turn.
Context {E : Type} `{EE : ExecutionEngine E} `{TL : TrackerLibs} `{RT : Runtime}.
Context (cfg : BrokerConfig) (OFFSET_INVALID grace_ms batch_size : Z) (answers : TurnAnswers).
Implicit Types (b : Broker E) (s : System (E := E)) (p : Poller (E := E)).

(** [drains], with the answers of this turn; [None] is fuel *)
Definition quiet_drain s : option (option bool * System (E := E)) :=
  match poll_completed_events true (wm (sy_broker s)) with
  | None => None
  | Some (events, w) =>
      match handle_blocking_timeouts cfg (ta_time answers) (ta_error_text answers) ((sy_broker s) <| wm := w |>),
            drain_completion_events_once cfg (ta_publish answers) (ta_time answers) (ta_error_text answers)
              (ta_now answers) (sy_broker s) with
      | Some (forced, _), Some r =>
          Some (match r with inl _ => None | inr (drained, _) => Some drained end,
                s <| sy_broker := match r with inl b' => b' | inr (_, b') => b' end |>
                  <| sy_facts ::= after_report (events ++ forced) (ta_publish answers) |>)
      | _, _ => None
      end
  end.

(** A commit with nothing in its middle *)
Definition quiet_commit (had_pending : bool) (source : string) p : Poller :=
  let '(offsets, b') := maybe_commit_ready_offsets cfg had_pending source (ta_commit_ok answers) (λ _ b, b)
                          (ta_now answers) (po_broker p) in
  with_system ((po_system p) <| sy_broker := b' |> <| sy_sent ::= app offsets |>) p.

(** Whether Kafka may answer so *)
Definition answer_allowed (num_messages : Z) p : bool :=
  match ta_messages answers with
  | None => true
  | Some messages =>
      (zlen messages <=? num_messages)
      && forallb (λ m, match msg_topic m, msg_partition m with
                       | Some t, Some n => bool_decide (mkTp t n ∈ po_assigned p ∖ po_paused p)
                       | _, _ => false
                       end) (data_messages messages)
  end.

(** From [_check_backpressure] to the messages *)
Definition quiet_consume (pending : bool) p : option Poller :=
  let p1 := check_section batch_size (ta_controller_now answers).1 (ta_controller_now answers).2 pending p in
  match po_consumer_at p1 with
  | Consuming _ num_messages _ =>
      if answer_allowed num_messages p1 then Some (consume_section (ta_messages answers) pending p1) else None
  | _ => Some p1
  end.

(** The pass that retries publications *)
Definition quiet_pending_turn p : option Poller :=
  match quiet_drain (po_system p) with
  | None => None
  | Some (drained, s') =>
      let p1 := (with_system s' p) <| po_consumer_at := after_pending_drain drained |> in
      match drained with
      | None => Some p1
      | Some _ =>
          let p2 := if drained is Some true
                    then (quiet_commit true "unknown" (p1 <| po_consumer_at := Committing true |>))
                           <| po_consumer_at := BeforeCheck true |>
                    else p1 in
          match quiet_consume true p2 with
          | None => None
          | Some p3 =>
              match po_consumer_at p3 with
              | Consumed _ messages =>
                  match dispatch_section cfg messages (po_broker p3) with
                  | None => None
                  | Some (ok, b') =>
                      Some ((with_broker b' p3) <| po_consumer_at := if (ok : bool) then LoopTop else LoopFailed |>)
                  end
              | _ => Some p3
              end
          end
      end
  end.

(** The ordinary pass *)
Definition quiet_plain_turn p : option Poller :=
  match quiet_consume false (p <| po_consumer_at := BeforeCheck false |>) with
  | None => None
  | Some p1 =>
      match po_consumer_at p1 with
      | Consumed _ messages =>
          match dispatch_section cfg messages (po_broker p1) with
          | None => None
          | Some (false, b') => Some ((with_broker b' p1) <| po_consumer_at := LoopFailed |>)
          | Some (true, b') =>
              match quiet_drain (po_system (with_broker b' p1)) with
              | None => None
              | Some (drained, s') =>
                  let p2 := (with_system s' p1) <| po_consumer_at := if drained is Some _ then TurnDone else LoopFailed |> in
                  match drained with
                  | None => Some p2
                  | Some _ =>
                      Some ((quiet_commit false "consumer_loop" (p2 <| po_consumer_at := Committing false |>))
                              <| po_consumer_at := LoopTop |>)
                  end
              end
          end
      | _ => Some p1
      end
  end.

(** One pass of the [while] loop of [_run_consumer] *)
Definition quiet_turn p : option Poller :=
  match po_consumer_at p with
  | LoopTop =>
      if negb (po_running p) then Some p
      else if decide (pending_dlq_events (po_broker p) = []) then quiet_plain_turn p else quiet_pending_turn p
  | _ => None
  end.

(** One pass of the monitor's loop; [has_completion] is what [wait_for_completion] answers *)
Definition quiet_monitor_turn (has_completion : bool) p : option Poller :=
  let drain_and_commit had_pending :=
    match quiet_drain (po_system p) with
    | None => None
    | Some (drained, s') =>
        let p1 := (with_system s' p) <| po_monitor_at := after_monitor_drain had_pending drained |> in
        match drained with
        | Some true => Some ((quiet_commit had_pending "completion_monitor" (p1 <| po_monitor_at := MonitorCommitting |>))
                               <| po_monitor_at := MonitorTop |>)
        | _ => Some p1
        end
    end in
  match po_monitor_at p with
  | MonitorTop =>
      if negb (po_running p) then Some p
      else if decide (pending_dlq_events (po_broker p) = []) then
        if get_total_in_flight_count (wm (po_broker p)) <=? 0 then Some p
        else if negb has_completion && (bc_max_blocking_duration_ms cfg <=? 0) then Some p
        else drain_and_commit false
      else drain_and_commit true
  | _ => None
  end.

(** ** They are runs of the two tasks *)

Abbreviation turn_step := (poller_step cfg OFFSET_INVALID grace_ms batch_size).
Abbreviation turn_run := (poller_run cfg OFFSET_INVALID grace_ms batch_size).

Lemma turn_one p p' : turn_step p p' → turn_run p p'.
Proof. intros H. eapply poller_more; [exact H|apply poller_done]. Qed.

Lemma turn_trans p1 p2 p3 : turn_run p1 p2 → turn_run p2 p3 → turn_run p1 p3.
Proof. induction 1 as [|q q1 q2 H1 H2 IH]; [done|]. intros H3. eapply poller_more; [exact H1|]. by apply IH. Qed.

Lemma quiet_drain_drains s drained s' : quiet_drain s = Some (drained, s') → drains cfg s drained s'.
Proof.
  unfold quiet_drain. destruct (poll_completed_events _ _) as [[events w]|] eqn:Hp; [|done].
  destruct (handle_blocking_timeouts _ _ _ _) as [[forced b1]|] eqn:Hh; [|done].
  destruct (drain_completion_events_once _ _ _ _ _ _) as [r|] eqn:Hd; [|done]. intros [= <- <-].
  by eapply (drains_intro cfg s (ta_publish answers) (ta_time answers) (ta_error_text answers) (ta_now answers)).
Qed.

Lemma quiet_commit_commits had_pending source p :
  commits cfg OFFSET_INVALID grace_ms batch_size had_pending source p (quiet_commit had_pending source p).
Proof.
  unfold quiet_commit. destruct (maybe_commit_ready_offsets _ _ _ _ _ _ _) as [offsets b'] eqn:Hc.
  destruct (decide (offsets = [])) as [->|Hne].
  - exact (commits_nothing cfg OFFSET_INVALID grace_ms batch_size had_pending source _ _ _ p b' Hc).
  - set (p0 := with_system ((po_system p) <| sy_broker ::= λ b, b <| cadence ::= record_invocation source |> |>
                               <| sy_sent ::= app offsets |>) p).
    pose proof (commits_sends cfg OFFSET_INVALID grace_ms batch_size had_pending source _ _ _ _ _ p p0 p0 Hc Hne
      (poller_done cfg OFFSET_INVALID grace_ms batch_size p0) eq_refl (poller_done cfg OFFSET_INVALID grace_ms batch_size p0) eq_refl) as H.
    by destruct (ta_commit_ok answers 0%nat).
Qed.

Lemma answer_allowed_may num_messages p messages :
  answer_allowed num_messages p = true → ta_messages answers = Some messages → may_return num_messages messages p.
Proof.
  unfold answer_allowed, may_return. intros H Hm. rewrite Hm in H. apply andb_prop in H as [Hl Hf].
  split; [lia|]. rewrite Forall_forall. rewrite forallb_forall in Hf. intros m Hin.
  specialize (Hf m (proj1 (list_elem_of_In _ _) Hin)). destruct (msg_topic m) as [t|], (msg_partition m) as [n|]; try done.
  exists t, n. apply bool_decide_eq_true in Hf. done.
Qed.

Lemma check_positions now1 now2 pending p :
  po_consumer_at (check_section batch_size now1 now2 pending p) = LoopFailed
  ∨ ∃ n t, po_consumer_at (check_section batch_size now1 now2 pending p) = Consuming pending n t.
Proof. unfold check_section. case_match; [|by left]. right. destruct pending; by eexists _, _. Qed.

Lemma quiet_consume_runs pending p p' :
  po_consumer_at p = BeforeCheck pending → quiet_consume pending p = Some p' → turn_run p p'.
Proof.
  intros Hat. unfold quiet_consume.
  pose proof (check_positions (ta_controller_now answers).1 (ta_controller_now answers).2 pending p) as Hpos.
  set (p1 := check_section _ _ _ _ _) in *.
  assert (turn_run p p1) as H1 by by apply turn_one, ps_check.
  destruct Hpos as [Hf|(n & t & Hc)]; [rewrite Hf; by intros [= <-]|rewrite Hc].
  destruct (answer_allowed n p1) eqn:Ha; [|done]. intros [= <-]. eapply turn_trans; [exact H1|]. apply turn_one.
  eapply ps_consume; [exact Hc|]. intros messages Hm. by eapply answer_allowed_may.
Qed.

Lemma consumed_pending pending p p' q messages :
  quiet_consume pending p = Some p' → po_consumer_at p' = Consumed q messages → q = pending.
Proof.
  unfold quiet_consume.
  pose proof (check_positions (ta_controller_now answers).1 (ta_controller_now answers).2 pending p) as Hpos.
  set (p1 := check_section _ _ _ _ _) in *.
  destruct Hpos as [Hf|(n & t & Hc)]; [rewrite Hf; intros [= <-]; congruence|rewrite Hc].
  destruct (answer_allowed n p1); [|done]. intros [= <-]. unfold consume_section. destruct (ta_messages answers); [|done].
  by intros [= <- _].
Qed.

Lemma quiet_plain_runs p p' :
  po_consumer_at p = LoopTop → po_running p = true → pending_dlq_events (po_broker p) = [] →
  quiet_plain_turn p = Some p' → turn_run p p'.
Proof.
  intros Hat Hrun Hp. unfold quiet_plain_turn. set (p0 := p <| po_consumer_at := BeforeCheck false |>).
  assert (turn_run p p0) as H0 by by apply turn_one, ps_top.
  destruct (quiet_consume false p0) as [p1|] eqn:Hq; [|done].
  assert (turn_run p p1) as H1 by (eapply turn_trans; [exact H0|by eapply quiet_consume_runs]).
  destruct (po_consumer_at p1) as [| | | |pending messages| | |] eqn:Hat1; try by intros [= <-].
  assert (pending = false) as -> by by eapply consumed_pending.
  destruct (dispatch_section cfg messages (po_broker p1)) as [[[] b']|] eqn:Hd; [| |done].
  2: { intros [= <-]. eapply turn_trans; [exact H1|]. by eapply turn_one, ps_dispatch_raises. }
  destruct (quiet_drain _) as [[drained s']|] eqn:Hdr; [|done]. apply quiet_drain_drains in Hdr.
  pose proof (ps_dispatch cfg OFFSET_INVALID grace_ms batch_size p1 messages b' drained s' Hat1 Hd Hdr) as H2.
  destruct drained as [d|]; intros [= <-]; (eapply turn_trans; [exact H1|]); [|by apply turn_one].
  eapply poller_more; [exact H2|]. apply turn_one. apply ps_commit_turn; [done|]. apply quiet_commit_commits.
Qed.

Lemma quiet_pending_runs p p' :
  po_consumer_at p = LoopTop → po_running p = true → pending_dlq_events (po_broker p) ≠ [] →
  quiet_pending_turn p = Some p' → turn_run p p'.
Proof.
  intros Hat Hrun Hp. unfold quiet_pending_turn. destruct (quiet_drain _) as [[drained s']|] eqn:Hdr; [|done].
  apply quiet_drain_drains in Hdr. pose proof (ps_drain_pending cfg OFFSET_INVALID grace_ms batch_size p drained s' Hat Hrun Hp Hdr) as H1.
  set (p1 := (with_system s' p) <| po_consumer_at := after_pending_drain drained |>) in *.
  destruct drained as [d|]; [|intros [= <-]; by apply turn_one].
  set (p2 := if d then _ else p1).
  assert (turn_run p p2 ∧ po_consumer_at p2 = BeforeCheck true) as [H2 Hat2].
  { unfold p2. destruct d; [|split; [by apply turn_one|done]]. split; [|done]. eapply poller_more; [exact H1|].
    apply turn_one. apply ps_commit_pending; [done|]. apply quiet_commit_commits. }
  destruct (quiet_consume true p2) as [p3|] eqn:Hq; [|done].
  assert (turn_run p p3) as H3 by (eapply turn_trans; [exact H2|by eapply quiet_consume_runs]).
  destruct (po_consumer_at p3) as [| | | |pending messages| | |] eqn:Hat3; try by intros [= <-].
  assert (pending = true) as -> by by eapply consumed_pending.
  destruct (dispatch_section cfg messages (po_broker p3)) as [[ok b']|] eqn:Hd; [|done]. intros [= <-].
  eapply turn_trans; [exact H3|]. by eapply turn_one, ps_dispatch_pending.
Qed.

Lemma quiet_turn_runs p p' : quiet_turn p = Some p' → turn_run p p'.
Proof.
  unfold quiet_turn. destruct (po_consumer_at p) eqn:Hat; try done. destruct (po_running p) eqn:Hrun; cbn [negb].
  - case_decide; [by apply quiet_plain_runs|by apply quiet_pending_runs].
  - intros [= <-]. apply poller_done.
Qed.

Lemma quiet_monitor_runs has_completion p p' : quiet_monitor_turn has_completion p = Some p' → turn_run p p'.
Proof.
  unfold quiet_monitor_turn. destruct (po_monitor_at p) eqn:Hat; try done.
  assert (∀ had p1, turn_run p p1 → po_monitor_at p1 = MonitorReady had → po_system p1 = po_system p →
    po_limits p1 = po_limits p → (∀ s, with_system s p1 = (with_system s p) <| po_monitor_at := MonitorReady had |>) →
    match quiet_drain (po_system p) with
    | None => None
    | Some (drained, s') =>
        let p1 := (with_system s' p) <| po_monitor_at := after_monitor_drain had drained |> in
        match drained with
        | Some true => Some ((quiet_commit had "completion_monitor" (p1 <| po_monitor_at := MonitorCommitting |>))
                               <| po_monitor_at := MonitorTop |>)
        | _ => Some p1
        end
    end = Some p' → turn_run p p') as Hgo.
  { intros had p1 Hr Hat1 Hs _ Hw. destruct (quiet_drain _) as [[drained s']|] eqn:Hdr; [|done]. apply quiet_drain_drains in Hdr.
    rewrite <-Hs in Hdr. pose proof (ps_monitor_drains cfg OFFSET_INVALID grace_ms batch_size p1 had drained s' Hat1 Hdr) as H1. rewrite Hw in H1.
    destruct drained as [[]|]; intros [= <-]; (eapply turn_trans; [exact Hr|]); [|by apply turn_one..].
    eapply poller_more; [exact H1|]. apply turn_one. apply (ps_monitor_commits cfg OFFSET_INVALID grace_ms batch_size _ had); [done|]. apply quiet_commit_commits. }
  destruct (po_running p) eqn:Hrun; cbn [negb]; [|intros [= <-]; apply poller_done].
  case_decide as Hp.
  - destruct (get_total_in_flight_count _ <=? 0) eqn:Hn; [intros [= <-]; apply poller_done|].
    destruct (negb has_completion && _) eqn:Hb; [intros [= <-]; apply poller_done|].
    apply (Hgo false (p <| po_monitor_at := MonitorReady false |>)); try done.
    eapply poller_more; [apply ps_monitor_waits; [done..|]; lia|]. apply turn_one.
    pose proof (ps_monitor_woken cfg OFFSET_INVALID grace_ms batch_size (p <| po_monitor_at := MonitorWaiting |>) has_completion eq_refl) as H1.
    unfold monitor_woken in H1. rewrite Hb in H1. exact H1.
  - apply (Hgo true (p <| po_monitor_at := MonitorReady true |>)); try done. by apply turn_one, ps_monitor_pending.
Qed.
End turn.

(** ** A concrete broker that is overrun

    An engine that accepts nothing, a limit of one item and batches of one message: the second
    message pauses the consumer. *)

#[local] Instance loop_demo_libs : TrackerLibs := vendor_lists.

Abbreviation DemoPoller := (Poller (E := DemoEngine)).

Definition loop_demo_manager : WorkManager DemoEngine :=
  system_demo_manager <| execution_engine := mkDemoEngine 0 [] [] false |>.
Definition loop_demo_system : System (E := DemoEngine) :=
  system_demo_0 <| sy_broker ::= λ b, b <| wm := loop_demo_manager |> |>.
Definition loop_demo_bp : AdaptiveBackpressureConfig := mkBackpressureConfig false 1 16 16 1000 0 25 100.
Definition loop_demo_cc : AdaptiveConcurrencyConfig := mkConcurrencyConfig false 0 32 64 1000.
Definition loop_demo_limits : BrokerLimits (System (E := DemoEngine)) :=
  default (mkLimits 1 1 1 0 0 false (new_backpressure_controller 1 loop_demo_bp) (new_concurrency_controller loop_demo_cc 1)
             loop_demo_system [])
    (init_limits 1 0 loop_demo_bp loop_demo_cc loop_demo_system).

Definition loop_demo_0 : DemoPoller := mkPoller loop_demo_limits LoopTop MonitorTop true 0 0 0 0 ∅ ∅ false.

Definition loop_demo_partition (n : Z) : KafkaTopicPartition := mkKafkaTp "orders" n (Some (-1001)) None.
Definition loop_demo_assignments (n : Z) : odict TopicPartition OffsetTracker :=
  default [] (build_assignments (-1001) (Some [loop_demo_partition n]) [loop_demo_partition n] "metadata_snapshot" 500).
Definition loop_demo_assign (n : Z) (p : DemoPoller) : DemoPoller :=
  (with_system ((po_system p) <| sy_broker ::= λ b, (assign_sync (loop_demo_assignments n) None b).2 |>
                  <| sy_facts ::= λ g, g <| started_at ::= app (positions_of [loop_demo_partition n]) |> |>) p)
    <| po_assigned ::= λ ps, ps ∪ list_to_set (od_keys (loop_demo_assignments n)) |>
    <| po_paused ::= λ ps, ps ∖ list_to_set (od_keys (loop_demo_assignments n)) |>
    <| po_strayed ::= orb (is_paused (po_limits p) || (MAX_IN_FLIGHT_MESSAGES (po_limits p) <? poller_load p)) |>.

Definition loop_demo_message (n o : Z) : Message :=
  mkKafkaMessage false (Some "orders"%string) (Some n) (Some o) (PyStr [107]) PyNone.
Definition loop_demo_answers (messages : list Message) : TurnAnswers :=
  mkAnswers (0%Q, 0%Q) (Some messages) (λ _ _ _ _, Published) (λ _, 0%Q) (λ _ _, ""%string) 1%Q (λ _, true).
Definition loop_demo_turn (messages : list Message) (p : DemoPoller) : option DemoPoller :=
  quiet_turn system_demo_config 1 (loop_demo_answers messages) p.

Definition loop_demo_1 : DemoPoller := loop_demo_assign 0 loop_demo_0.
Definition loop_demo_2 : DemoPoller := default loop_demo_1 (loop_demo_turn [loop_demo_message 0 0] loop_demo_1).
Definition loop_demo_3 : DemoPoller := default loop_demo_2 (loop_demo_turn [loop_demo_message 0 1] loop_demo_2).
Definition loop_demo_4 : DemoPoller := default loop_demo_3 (loop_demo_turn [] loop_demo_3).
Definition loop_demo_5 : DemoPoller := loop_demo_assign 1 loop_demo_4.
Definition loop_demo_6 : DemoPoller := default loop_demo_5 (loop_demo_turn [loop_demo_message 1 0] loop_demo_5).
Definition loop_demo_7 : DemoPoller := default loop_demo_6 (loop_demo_turn [loop_demo_message 1 1] loop_demo_6).

Example loop_demo_loads :
  poller_load <$> [loop_demo_1; loop_demo_2; loop_demo_3; loop_demo_4; loop_demo_5; loop_demo_6; loop_demo_7]
    = [0; 1; 2; 2; 2; 3; 4]
  ∧ (λ p, is_paused (po_limits p)) <$> [loop_demo_3; loop_demo_4; loop_demo_5; loop_demo_6; loop_demo_7]
    = [false; true; true; true; true]
  ∧ po_strayed loop_demo_4 = false.
Proof. vm_compute. split; [done|]. split; done. Qed.

Abbreviation loop_demo_run := (poller_run (E := DemoEngine) system_demo_config (-1001) 500 1).

Lemma loop_demo_assign_runs n p :
  bool_decide (is_Some (build_assignments (-1001) (Some [loop_demo_partition n]) [loop_demo_partition n]
                          "metadata_snapshot" 500)) = true →
  loop_demo_run p (loop_demo_assign n p).
Proof.
  intros [a Ha]%bool_decide_eq_true. apply turn_one. unfold loop_demo_assign, loop_demo_assignments. rewrite Ha.
  apply (ps_assign _ _ _ _ p (Some [loop_demo_partition n])).
  - by apply Forall_singleton.
  - apply Forall_singleton. by right.
  - exact Ha.
Qed.

Lemma loop_demo_turn_runs messages p :
  bool_decide (is_Some (loop_demo_turn messages p)) = true → loop_demo_run p (default p (loop_demo_turn messages p)).
Proof.
  intros [q Hq]%bool_decide_eq_true. rewrite Hq. by eapply quiet_turn_runs.
Qed.

Lemma loop_demo_start : poller_start 1 loop_demo_0.
Proof.
  split; [|done]. exists 0, loop_demo_bp, loop_demo_cc, loop_demo_system.
  change (po_limits loop_demo_0) with loop_demo_limits. unfold loop_demo_limits. apply default_some. by vm_compute.
Qed.

Lemma loop_demo_runs_2 : loop_demo_run loop_demo_1 loop_demo_2.
Proof. apply loop_demo_turn_runs. by vm_compute. Qed.

Lemma loop_demo_runs_3 : loop_demo_run loop_demo_2 loop_demo_3.
Proof. apply loop_demo_turn_runs. by vm_compute. Qed.

Lemma loop_demo_runs_4 : loop_demo_run loop_demo_0 loop_demo_4.
Proof.
  apply (turn_trans _ _ _ _ _ loop_demo_1); [apply loop_demo_assign_runs; by vm_compute|].
  apply (turn_trans _ _ _ _ _ loop_demo_2); [exact loop_demo_runs_2|].
  apply (turn_trans _ _ _ _ _ loop_demo_3); [exact loop_demo_runs_3|].
  apply loop_demo_turn_runs. by vm_compute.
Qed.

Lemma load_stays_bounded_witness :
  is_paused (po_limits loop_demo_4) = true
  ∧ get_total_in_flight_count (wm (po_broker loop_demo_4)) + get_total_queued_messages (wm (po_broker loop_demo_4)) ≤ 1 + 1.
Proof.
  split; [by vm_compute|].
  exact (proj1 (load_stays_bounded system_demo_config (-1001) 500 1 1 loop_demo_0 loop_demo_4 loop_demo_start loop_demo_runs_4 eq_refl)).
Defined.


(** A partition assigned while the pause flag is set is not paused, and no later check pauses it:
    the consumer counts as paused while its load passes the bound and keeps growing. *)
Theorem assignment_escapes_pause :
  ∃ p0 p, poller_start 1 p0 ∧ loop_demo_run p0 p ∧ is_paused (po_limits p) = true ∧ poller_load p = 4
    ∧ ∀ pending now1 now2, consumer_calls (po_limits (check_section 1 now1 now2 pending p)) = consumer_calls (po_limits p).
Proof.
  exists loop_demo_0, loop_demo_7. split; [exact loop_demo_start|]. split; [|split; [by vm_compute|split; [by vm_compute|]]].
  - apply (turn_trans _ _ _ _ _ loop_demo_4); [exact loop_demo_runs_4|].
    apply (turn_trans _ _ _ _ _ loop_demo_5); [apply loop_demo_assign_runs; by vm_compute|].
    apply (turn_trans _ _ _ _ _ loop_demo_6); apply loop_demo_turn_runs; by vm_compute.
  - intros pending now1 now2. destruct pending; by vm_compute.
Qed.
