(* ===== verification/BrokerShutdown.v ===== *)
(** * The drain at shutdown ([control_plane/broker_shutdown_support.py])

    What a graceful [stop] does between the end of the consumer task and the clean-up.  The two
    tasks of [BrokerLoop] are over by then and Kafka's callbacks only run inside [consume], so a
    pass of the loop runs undisturbed; the coordinator's drain is a callback whose answer is given
    (see [CoordinatorDrain]).  The loop itself is a function of the answers its passes get. *)

From S2P Require Import Prelude Vendor Runtime Dto OffsetTracker PoisonMessage WorkQueueTopology ExecutionEngine WorkManager WorkManagerInv WorkManagerOps WorkManagerSchedule WorkManagerSteps WorkManagerSystem WorkManagerLoad Adaptive Dlq CommitPlanner Broker BrokerInv BrokerCompletion BrokerCommit CommitCoordinator BrokerRebalance BrokerSafety BrokerHandover BrokerSystem BrokerLoad BrokerLoop BrokerLoopLoad BrokerTurn.

(** What one pass is told *)
Record PassAnswers := mkPass {
  pa_turn : TurnAnswers;                (* publications and clocks of the completions *)
  pa_commit_ok : nat → bool;            (* the attempts of the commit after a drain *)
  pa_final_ok : nat → bool;             (* and of the last one *)
  pa_commit_now : Q;
  pa_final_now : Q;
  pa_coordinator_drained : bool;
  pa_clock : Q;                         (* [self._now()] *)
}.

(** How a pass ends *)
Inductive PassEnd :=
  | DrainEnded (drained : bool)                 (* [drain] returns *)
  | DrainRaised                                 (* a publication raised *)
  | WaitsForCompletion (timeout_seconds : Q)    (* the next pass follows *)
  | Sleeps (seconds : Q).

Definition goes_on (e : PassEnd) : bool :=
  match e with WaitsForCompletion _ | Sleeps _ => true | _ => false end.

Definition Qmin2 (a b : Q) : Q := if (b <q a) then b else a.

Lemma Qmin2_spec a b : (Qmin2 a b <= a ∧ Qmin2 a b <= b ∧ (a <= Qmin2 a b ∨ b <= Qmin2 a b))%Q.
Proof.
  unfold Qmin2, Qltb. destruct (Qle_bool a b) eqn:Hq; cbn [negb].
  - apply Qle_bool_iff in Hq. lra.
  - assert (b < a)%Q by (apply Qnot_le_lt; intros ?%Qle_bool_iff; congruence). lra.
Qed.

Section shutdown.
Context {E : Type} `{EE : ExecutionEngine E} `{TL : TrackerLibs} `{RT : Runtime}.
Context (cfg : BrokerConfig) (OFFSET_INVALID grace_ms : Z).
Implicit Types (b : Broker E) (s : System (E := E)).

(** [_commit_ready_offsets(force=True, source="stop_drain")] *)
Definition forced_commit (commit_ok : nat → bool) (now : Q) s : System (E := E) :=
  let '(offsets, b') := commit_ready_offsets cfg true "stop_drain" commit_ok (λ _ b, b) now (sy_broker s) in
  s <| sy_broker := b' |> <| sy_sent ::= app offsets |>.

Definition drain_wait (remaining_seconds : Q) b : PassEnd :=
  let pending_dlq_count := zlen (pending_dlq_events b) in
  if (0 <? get_total_in_flight_count (wm b)) && (pending_dlq_count <=? 0)
  then WaitsForCompletion (Qmin2 remaining_seconds idle_consume_timeout_seconds)
  else Sleeps (Qmin2 remaining_seconds (if 0 <? pending_dlq_count then idle_consume_timeout_seconds else 1 # 100)).

Definition nothing_left b : bool :=
  (get_total_in_flight_count (wm b) <=? 0) && (get_total_queued_messages (wm b) <=? 0)
  && (zlen (pending_dlq_events b) <=? 0).

(** One pass of the [while True] loop; [None] is fuel *)
Definition drain_pass (deadline : Q) (a : PassAnswers) s : option (PassEnd * System (E := E)) :=
  match schedule (wm (sy_broker s)) with
  | None => None
  | Some w =>
      match quiet_drain cfg (pa_turn a) (s <| sy_broker ::= λ b, b <| wm := w |> |>) with
      | None => None
      | Some (None, s1) => Some (DrainRaised, s1)
      | Some (Some drained_completion, s1) =>
          let s2 := if (drained_completion : bool) then forced_commit (pa_commit_ok a) (pa_commit_now a) s1 else s1 in
          if nothing_left (sy_broker s2)
          then Some (DrainEnded (pa_coordinator_drained a), forced_commit (pa_final_ok a) (pa_final_now a) s2)
          else
            let remaining_seconds := (deadline - pa_clock a)%Q in
            if (remaining_seconds <=q 0) then Some (DrainEnded false, s2)
            else Some (drain_wait remaining_seconds (sy_broker s2), s2)
      end
  end.

(** [drain]: the passes that get the answers given, in order *)
Fixpoint drain_passes (deadline : Q) (last : PassEnd) (answers : list PassAnswers) s
    : option (PassEnd * System (E := E)) :=
  match answers with
  | [] => Some (last, s)
  | a :: rest =>
      match drain_pass deadline a s with
      | None => None
      | Some (e, s1) => if goes_on e then drain_passes deadline e rest s1 else Some (e, s1)
      end
  end.

Definition drain (timeout_seconds start : Q) (answers : list PassAnswers) s : option (PassEnd * System (E := E)) :=
  drain_passes (start + Qmax0 timeout_seconds)%Q (Sleeps 0) answers s.

(** ** The drain is a run of the broker *)

Abbreviation run_of := (system_run cfg OFFSET_INVALID grace_ms).

Lemma forced_commit_runs commit_ok now s : run_of s (forced_commit commit_ok now s).
Proof.
  unfold forced_commit. destruct (commit_ready_offsets _ _ _ _ _ _ _) as [offsets b'] eqn:Hc.
  destruct (decide (offsets = [])) as [->|Hne].
  - apply run_one. exact (sys_commit_nothing cfg OFFSET_INVALID grace_ms s true "stop_drain" commit_ok _ now b' Hc).
  - apply run_one.
    set (s0 := s <| sy_broker ::= λ b, b <| cadence ::= record_invocation "stop_drain" |> |> <| sy_sent ::= app offsets |>).
    pose proof (sys_commit cfg OFFSET_INVALID grace_ms s true "stop_drain" commit_ok (λ _ b, b) now offsets b' s0 s0 Hc Hne
      (run_done cfg OFFSET_INVALID grace_ms s0) eq_refl (run_done cfg OFFSET_INVALID grace_ms s0) eq_refl) as H.
    by destruct (commit_ok 0%nat).
Qed.

Lemma quiet_drain_runs a s drained s' : quiet_drain cfg a s = Some (drained, s') → run_of s s'.
Proof. intros H. by eapply run_one, drains_step, quiet_drain_drains. Qed.

(** The states of a pass: after the drain of completions, and before the last commit *)
Lemma drain_pass_runs deadline a s e s' :
  drain_pass deadline a s = Some (e, s') →
  run_of s s' ∧ ∀ d, e = DrainEnded d → d = true →
    ∃ s2, run_of s s2 ∧ nothing_left (sy_broker s2) = true ∧ s' = forced_commit (pa_final_ok a) (pa_final_now a) s2.
Proof.
  unfold drain_pass. destruct (schedule _) as [w|] eqn:Hs; [|done].
  assert (run_of s (s <| sy_broker ::= λ b, b <| wm := w |> |>)) as H0 by by apply run_one, sys_schedule.
  destruct (quiet_drain _ _ _) as [[[drained|] s1]|] eqn:Hd; [| |done]; apply quiet_drain_runs in Hd.
  - assert (run_of s s1) as H1 by by eapply run_trans. set (s2 := if drained then _ else s1).
    assert (run_of s s2) as H2.
    { unfold s2. destruct drained; [|done]. eapply run_trans; [exact H1|apply forced_commit_runs]. }
    destruct (nothing_left (sy_broker s2)) eqn:Hn.
    + intros [= <- <-]. split; [eapply run_trans; [exact H2|apply forced_commit_runs]|]. intros d _ _. by exists s2.
    + case_match; intros [= <- <-]; (split; [done|]); [by intros d [= <-]|]. intros d. unfold drain_wait. by case_match.
  - intros [= <- <-]. split; [by eapply run_trans|done].
Qed.

(** ** The work manager through a pass *)

Section counted.
Context `{EL : !ExecutionEngineLaws E}.
Context (no_blocking_timeout : bc_max_blocking_duration_ms cfg ≤ 0).

Lemma quiet_drain_total a s :
  wm_inv (wm (sy_broker s)) → ∃ drained s', quiet_drain cfg a s = Some (drained, s') ∧ wm_inv (wm (sy_broker s')).
Proof.
  intros Hi. unfold quiet_drain, drain_completion_events_once, handle_blocking_timeouts.
  destruct (poll_spec true _ Hi) as (events & w & -> & [Hw _ _ _ _]).
  rewrite (proj2 (Z.leb_le _ _) no_blocking_timeout). case_decide; [by eexists _, _|].
  set (b1 := (sy_broker s) <| wm := w |>).
  pose proof (handle_completed_only cfg (ta_publish a) (events ++ []) (ta_now a) b1) as H1.
  destruct (handle_completed_events _ _ _ _ _) as [b2|b2]; cbn [either] in H1.
  - eexists _, _. split; [done|]. by apply (wm_inv_trackers w).
  - assert (wm_inv (wm b2)) as H2 by by apply (wm_inv_trackers w).
    destruct (schedule_spec _ H2) as (w2 & -> & [H3 _]). by eexists _, _.
Qed.

(** What committed trackers and the ledgers' books respect, a forced commit respects. *)
Lemma forced_commit_inv (P : Broker E → Prop) commit_ok now s :
  (∀ b b', wm b' = wm b → trackers b' = trackers b → pending_dlq_events b' = pending_dlq_events b → P b → P b') →
  (∀ commits b, P b → P (commit_trackers commits b)) →
  P (sy_broker s) → P (sy_broker (forced_commit commit_ok now s)).
Proof.
  intros Hbooks Htr H0. unfold forced_commit, commit_ready_offsets. cbn [negb andb].
  set (b0 := (sy_broker s) <| cadence ::= record_invocation "stop_drain" |>).
  assert (P b0) as Hb0 by by apply (Hbooks (sy_broker s)).
  case_decide; [by apply (Hbooks b0)|]. set (commits := build_commit_candidates b0).
  assert (∀ (x : Broker E) (committed : bool), P x → P
    ((if committed
       then clear_committed_dirty_partitions commits (x <| cadence ::= record_commit_success "stop_drain" (zlen commits) |>)
       else x) <| completions_since_last_commit := 0 |> <| last_commit_attempt := now |>)) as Hend.
  { intros x [|] Hx; [|by apply (Hbooks x)].
    destruct (clear_committed_books commits (x <| cadence ::= record_commit_success "stop_drain" (zlen commits) |>)) as (E1 & E2 & E3 & _).
    by apply (Hbooks x). }
  unfold commit_offsets. case_decide; [exact (Hend b0 true Hb0)|].
  destruct (build_offsets_to_commit _ _ _ _ _) as [ks|]; [|exact (Hend b0 false Hb0)].
  rewrite commit_attempts_quiet. destruct (cycle_ok commit_ok).
  - exact (Hend _ true (Htr _ b0 Hb0)).
  - refine (Hend _ false _). by apply (Hbooks b0).
Qed.

Lemma forced_commit_only commit_ok now s :
  same_but_trackers (wm (sy_broker s)) (wm (sy_broker (forced_commit commit_ok now s))).
Proof.
  apply forced_commit_inv; [by intros b b' ->| |apply trackers_only_refl].
  intros commits b Hb. eapply trackers_only_trans; [exact Hb|apply commit_trackers_only].
Qed.

Lemma dispatch_messages_inv messages b : wm_inv (wm b) → wm_inv (wm (dispatch_messages cfg messages b).2).
Proof.
  intros Hi. unfold dispatch_messages.
  assert (∀ groups b, wm_inv (wm b) → wm_inv (wm (dispatch_loop cfg messages groups b).2)) as Hloop.
  { clear b Hi. induction messages as [|msg rest IH]; intros groups b Hi; cbn [dispatch_loop]; [done|].
    assert (wm_inv (wm (dispatch_message cfg groups msg b).2)) as H1.
    { unfold dispatch_message. repeat (case_match; try done); cbn [snd];
        by match goal with H : submit_message ?a ?b0 ?c ?d ?e ?w = _ |- _ =>
             unfold submit_message in H; eapply (f_equal snd) in H; cbn in H; subst; apply submit_message_batch_spec end. }
    destruct (dispatch_message cfg groups msg b) as [[[] groups1] b1]; [by apply IH|done]. }
  specialize (Hloop [] b Hi). destruct (dispatch_loop cfg messages [] b) as [[ok groups] b1]. cbn [snd] in Hloop.
  destruct ok; cbn [negb]; [|done]. case_decide; [done|].
  pose proof (submit_message_batch_spec groups (wm b1) Hloop) as (H1 & _).
  by destruct (submit_message_batch groups (wm b1)).
Qed.

(** Assigning partitions the work manager does not have *)
Lemma assign_sync_inv assignments coordinator b :
  NoDup (od_keys assignments) → (∀ tp, tp ∈ od_keys assignments → assigned (queue_topology (wm b)) tp = false) →
  (∀ store, wm_inv ((wm b) <| tracker_store := store |>)) → wm_inv (wm (assign_sync assignments coordinator b).2).
Proof.
  intros Hnd Has Hi. unfold assign_sync. pose proof (allocate_spec assignments (tracker_store (wm b))) as [Hk _ _ _ _ Hh].
  destruct (allocate assignments (tracker_store (wm b))) as [locs store]. cbn [fst snd] in *.
  apply (on_assign_spec (od_map SharedTracker locs) ((wm b) <| tracker_store := store |>)); [apply Hi|..].
  - by rewrite od_map_keys, Hk.
  - intros tp v Hin. unfold od_map in Hin. apply list_elem_of_fmap in Hin as ([tp' l] & [= -> ->] & Hin).
    split; [|apply Hh, list_elem_of_fmap; by exists (tp', l)].
    apply Has. rewrite <-Hk. apply list_elem_of_fmap. by exists (tp', l).
Qed.

(** A pass ends, and leaves the work manager in order *)
Lemma drain_pass_total deadline a s :
  wm_inv (wm (sy_broker s)) → ∃ e s', drain_pass deadline a s = Some (e, s') ∧ wm_inv (wm (sy_broker s')).
Proof.
  intros Hi. unfold drain_pass. destruct (schedule_spec _ Hi) as (w & -> & [Hw _]).
  set (s0 := s <| sy_broker ::= λ b, b <| wm := w |> |>).
  destruct (quiet_drain_total (pa_turn a) s0) as (drained & s1 & -> & H1); [by cbn|].
  destruct drained as [drained|]; [|by eexists _, _]. set (s2 := if drained then _ else s1).
  assert (wm_inv (wm (sy_broker s2))) as H2.
  { unfold s2. destruct drained; [|done]. eapply wm_inv_trackers; [apply forced_commit_only|done]. }
  case_match; [eexists _, _; split; [done|]; eapply wm_inv_trackers; [apply forced_commit_only|done]|].
  case_match; by eexists _, _.
Qed.

Definition pause_of (e : PassEnd) : option Q :=
  match e with WaitsForCompletion t | Sleeps t => Some t | _ => None end.

(** A pass that goes on was before the deadline, and pauses no longer than up to it. *)
Lemma drain_pass_goes_on deadline a s e s' :
  drain_pass deadline a s = Some (e, s') → goes_on e = true →
  (pa_clock a < deadline)%Q
  ∧ match pause_of e with Some t => 0 < t <= 1 # 10 ∧ t <= deadline - pa_clock a | None => False end%Q.
Proof.
  unfold drain_pass. destruct (schedule _) as [w|]; [|done]. destruct (quiet_drain _ _ _) as [[[d|] s1]|]; [| |done].
  2: by intros [= <- _].
  case_match; [by intros [= <- _]|]. destruct (Qle_bool (deadline - pa_clock a) 0) eqn:Hr; [by intros [= <- _]|].
  intros [= <- _] _. assert (0 < deadline - pa_clock a)%Q as Hpos.
  { apply Qnot_le_lt. intros H2. apply Qle_bool_iff in H2. congruence. }
  split; [lra|]. unfold drain_wait, idle_consume_timeout_seconds. set (r := (deadline - pa_clock a)%Q) in *.
  pose proof (Qmin2_spec r (1 # 10)). pose proof (Qmin2_spec r (1 # 100)).
  destruct (_ && _); [|destruct (0 <? _)]; cbn [pause_of]; lra.
Qed.

(** C7. The drain ends.  From a work manager in order, with no blocking timeout configured, no pass
    of the drain can fail to end, whatever the engine, the publications and Kafka answer, and once
    a clock reading is at or past the deadline the drain has returned or raised; every pause on the
    way is positive, at most a tenth of a second, and ends no later than the deadline. *)
Theorem shutdown_drain_ends timeout_seconds start answers s :
  wm_inv (wm (sy_broker s)) →
  (∃ a, a ∈ answers ∧ (start + Qmax0 timeout_seconds <= pa_clock a)%Q) →
  (∃ e s', drain timeout_seconds start answers s = Some (e, s') ∧ goes_on e = false ∧ wm_inv (wm (sy_broker s')))
  ∧ ∀ a s e s', drain_pass (start + Qmax0 timeout_seconds) a s = Some (e, s') → goes_on e = true →
      match pause_of e with
      | Some t => 0 < t <= 1 # 10 ∧ t <= start + Qmax0 timeout_seconds - pa_clock a
      | None => False
      end%Q.
Proof.
  unfold drain. set (deadline := (start + Qmax0 timeout_seconds)%Q). intros Hi Ha.
  split; [|intros a s1 e s' Hp Hg; by apply (drain_pass_goes_on deadline a s1 e s' Hp Hg)].
  generalize (Sleeps 0). intros last. revert last s Hi.
  induction answers as [|a answers IH]; intros last s Hi; cbn [drain_passes].
  { destruct Ha as (a & Ha & _). by apply elem_of_nil in Ha. }
  destruct (drain_pass_total deadline a s Hi) as (e & s1 & Hp & H1). rewrite Hp.
  destruct (goes_on e) eqn:Hg; [|by exists e, s1]. apply IH; [|done].
  destruct Ha as (x & [->|Hx]%elem_of_cons & Hl); [|by exists x]. exfalso.
  destruct (drain_pass_goes_on deadline a s e s1 Hp Hg). unfold deadline in *. lra.
Qed.

(** ** What a successful drain leaves *)

Lemma commit_trackers_books commits b :
  trackers (commit_trackers commits b) = trackers b ∧ pending_dlq_events (commit_trackers commits b) = pending_dlq_events b.
Proof.
  unfold commit_trackers.
  apply (fold_left_inv (λ x : Broker E, trackers x = trackers b ∧ pending_dlq_events x = pending_dlq_events b)); [|done].
  intros x c Hx. unfold update_tracker. by destruct (od_get c.1 (trackers x)).
Qed.

Lemma forced_commit_books commit_ok now s :
  trackers (sy_broker (forced_commit commit_ok now s)) = trackers (sy_broker s)
  ∧ pending_dlq_events (sy_broker (forced_commit commit_ok now s)) = pending_dlq_events (sy_broker s).
Proof.
  apply (forced_commit_inv (λ b, trackers b = trackers (sy_broker s) ∧ pending_dlq_events b = pending_dlq_events (sy_broker s)));
    [by intros b b' _ -> ->| |done].
  intros commits b [H1 H2]. destruct (commit_trackers_books commits b) as [-> ->]. by split.
Qed.

(** The trackers after a commit that Kafka accepts *)
Lemma forced_commit_get commit_ok now s tp :
  let b := sy_broker s in
  trackers_wf b → cycle_ok commit_ok = true →
  get_tracker tp (sy_broker (forced_commit commit_ok now s)) =
    match od_get tp (build_commit_candidates b) with
    | Some h => commit_through h <$> get_tracker tp b
    | None => get_tracker tp b
    end.
Proof.
  intros b Hwf Hok. unfold forced_commit, commit_ready_offsets. cbn [negb andb].
  set (b0 := (sy_broker s) <| cadence ::= record_invocation "stop_drain" |>).
  change (build_commit_candidates b0) with (build_commit_candidates b).
  pose proof (build_commit_candidates_keys b Hwf) as Hnd.
  assert (∀ c, c ∈ build_commit_candidates b → is_Some (get_tracker c.1 b)) as Htr by (intros c; by apply candidates_tracked).
  set (commits := build_commit_candidates b) in *.
  destruct (decide (commits = [])) as [->|Hne]; [done|]. unfold commit_offsets.
  assert (filter (λ c, is_Some (get_tracker c.1 b0)) commits = commits) as Hf by (apply list_filter_all; exact Htr).
  rewrite Hf, decide_False by done.
  destruct (build_offsets_some (bc_max_metadata_size cfg) (bc_max_completed_offsets cfg) commits
    (λ tp, get_tracker tp b0) (bc_strategy cfg) Htr) as [ks ->].
  rewrite commit_attempts_quiet, Hok. assert (trackers_wf b0) as Hwf0 by exact (same_trackers_wf b b0 (conj eq_refl eq_refl) Hwf).
  etrans; [|exact (commit_trackers_get commits b0 tp Hwf0 Hnd)].
  set (b1 := commit_trackers commits b0).
  destruct (clear_committed_books commits (b1 <| cadence ::= record_commit_success "stop_drain" (zlen commits) |>)) as (E1 & E2 & _).
  apply (same_trackers_get b1). split; [exact E2|]. f_equal. exact E1.
Qed.

(** It commits everything that is done when nothing is in flight. *)
Lemma forced_commit_settles commit_ok now s tp t' :
  trackers_wf (sy_broker s) → (∀ tp t, get_tracker tp (sy_broker s) = Some t → above t) →
  dispatch_timestamps (wm (sy_broker s)) = [] → cycle_ok commit_ok = true →
  get_tracker tp (sy_broker (forced_commit commit_ok now s)) = Some t' →
  ¬ settled t' (last_committed_offset t' + 1).
Proof.
  intros Hwf Hab Hd Hok. rewrite (forced_commit_get commit_ok now s tp Hwf Hok).
  destruct (get_tracker tp (sy_broker s)) as [t|] eqn:Ht; [|by destruct (od_get _ _)].
  rewrite (candidate_of _ tp t Hwf Ht). unfold get_min_in_flight_offset. rewrite Hd. cbn [od_keys fmap list_fmap fold_left].
  destruct (contiguous_from_spec (last_committed_offset t) (ss_list (completed_offsets t))) as (H1 & _ & H3);
    [apply ss_list_sorted|apply (Hab tp t Ht)|].
  fold (get_committable_high_water_mark None t) in H1, H3. set (h := get_committable_high_water_mark None t) in *.
  assert (¬ settled t (h + 1)) as Hn by (intros [?|?]; [lia|done]).
  destruct (Z.ltb_spec (last_committed_offset t) h); cbn [fmap option_fmap option_map]; intros [= <-].
  - destruct (above_commit_through h t (Hab tp t Ht)) as (_ & H4 & -> & _).
    replace (Z.max h (last_committed_offset t)) with h by lia. intros [?|?]%H4; [lia|done].
  - by replace (last_committed_offset t) with h by lia.
Qed.

Context (invalid_negative : OFFSET_INVALID < 0).

(** C6. A drain that reports success leaves nothing behind: nothing is in flight, queued or waiting
    for the dead-letter topic, and, when Kafka accepts the last commit, every partition is committed
    right up to its first unfinished offset; and all of the drain was a run of the broker system, so
    nothing unprocessed was committed on the way. *)
Theorem shutdown_drained s0 s timeout_seconds start answers s' :
  system_start cfg s0 → run_of s0 s → wm_inv (wm (sy_broker s)) →
  (∀ a, a ∈ answers → cycle_ok (pa_final_ok a) = true) →
  drain timeout_seconds start answers s = Some (DrainEnded true, s') →
  run_of s0 s'
  ∧ current_in_flight_count (wm (sy_broker s')) = 0 ∧ total_queued_messages (wm (sy_broker s')) = 0
  ∧ pending_dlq_events (sy_broker s') = []
  ∧ ∀ tp t, get_tracker tp (sy_broker s') = Some t → ¬ settled t (last_committed_offset t + 1).
Proof.
  unfold drain. set (deadline := (start + _)%Q). assert (Sleeps 0 ≠ DrainEnded true) as Hl by done. revert Hl.
  generalize (Sleeps 0). intros last Hl H0 Hr Hi Hok. revert last Hl s Hr Hi.
  induction answers as [|a answers IH]; intros last Hl s Hr Hi; cbn [drain_passes]; [by intros [= E1 _]|].
  destruct (drain_pass_total deadline a s Hi) as (e & s1 & Hp & Hi1). rewrite Hp.
  destruct (drain_pass_runs _ _ _ _ _ Hp) as [Hr1 Hend].
  destruct (goes_on e) eqn:Hg.
  { apply IH; [intros x Hx; apply Hok; by right|by destruct e|by eapply run_trans|done]. }
  intros [= -> <-]. destruct (Hend true eq_refl eq_refl) as (s2 & Hr2 & Hn & ->).
  assert (system_ok cfg s2) as Hs2 by (apply (system_run_ok cfg OFFSET_INVALID grace_ms invalid_negative s0); [done|by eapply run_trans]).
  destruct (forced_commit_books (pa_final_ok a) (pa_final_now a) s2) as [_ Hpend].
  destruct (forced_commit_only (pa_final_ok a) (pa_final_now a) s2) as (store & cache & counter & Hw & Hdom).
  unfold nothing_left in Hn. apply andb_prop in Hn as [[Hf Hq]%andb_prop Hd].
  assert (zlen (pending_dlq_events (sy_broker s2)) = 0) as Hz by (pose proof (zlen_nonneg (pending_dlq_events (sy_broker s2))); lia).
  apply zlen_nil_iff in Hz. unfold get_total_in_flight_count, get_total_queued_messages in *.
  destruct Hi1 as (_ & _ & [_ [Htotal Hcount _ _ _ _ _ _ _ _ _ _ _ _ _ _ _ _] _ _ _ _]). rewrite Hw in Htotal, Hcount. cbn in Htotal, Hcount.
  pose proof (zlen_nonneg (dispatch_timestamps (wm (sy_broker s2)))).
  assert (dispatch_timestamps (wm (sy_broker s2)) = []) as Hdisp by (apply zlen_nil_iff; lia).
  split; [by eapply run_trans|]. split; [rewrite Hw; cbn; lia|].
  split; [rewrite Hw; cbn; pose proof (total_items_nonneg (queue_topology (wm (sy_broker s2)))); lia|].
  split; [by rewrite Hpend|]. intros tp t. apply forced_commit_settles; [..|done|].
  - apply (bo_ready _ _ _ (so_broker _ _ Hs2)).
  - intros tp' t' Ht'. apply (bo_trackers _ _ _ (so_broker _ _ Hs2) tp' t' Ht').
  - apply Hok. by left.
Qed.
End counted.
End shutdown.

(** ** A drain of one queued message *)

#[local] Instance shutdown_demo_libs : TrackerLibs := vendor_lists.

Definition shutdown_demo_pass (clock : Q) : PassAnswers :=
  mkPass (loop_demo_answers []) (λ _, true) (λ _, true) 1 1 true clock.
Definition shutdown_demo_answers : list PassAnswers := [shutdown_demo_pass 0; shutdown_demo_pass 1; shutdown_demo_pass 5].
Definition shutdown_demo_result : PassEnd * System (E := DemoEngine) :=
  default (DrainRaised, system_demo_2) (drain system_demo_config 5 0 shutdown_demo_answers system_demo_2).

Lemma shutdown_demo_counted : wm_inv (wm (sy_broker system_demo_2)).
Proof.
  apply (dispatch_messages_inv system_demo_config (EL := demo_engine_laws)).
  apply assign_sync_inv.
  - apply (bool_decide_unpack (NoDup (od_keys system_demo_assignments))). by vm_compute.
  - by intros tp _.
  - intros store. apply (new_work_manager_good (mkDemoEngine 10 [] [] false) 5 None KEY_HASH 100 500 None 4 store); [|done..].
    intros w Hw. by apply elem_of_nil in Hw.
Qed.

Lemma shutdown_demo_runs : system_run system_demo_config (-1001) 500 system_demo_0 system_demo_2.
Proof.
  apply (run_more _ _ _ _ system_demo_1).
  { apply (sys_assign _ _ _ system_demo_0 (Some [system_demo_nothing]) [system_demo_nothing] system_demo_assignments).
    - by apply Forall_singleton.
    - apply Forall_singleton. by right.
    - by apply default_some. }
  apply run_one, sys_dispatch.
Qed.

Lemma shutdown_demo_drains :
  drain system_demo_config 5 0 shutdown_demo_answers system_demo_2 = Some (DrainEnded true, shutdown_demo_result.2).
Proof.
  assert (drain system_demo_config 5 0 shutdown_demo_answers system_demo_2 = Some shutdown_demo_result) as H
    by (apply default_some; by vm_compute).
  assert (shutdown_demo_result.1 = DrainEnded true) as H1 by by vm_compute.
  rewrite H. destruct shutdown_demo_result as [e s]. cbn in H1 |- *. by rewrite H1.
Qed.

Lemma shutdown_drained_witness :
  (k_offset <$> sy_sent shutdown_demo_result.2) = [Some 1]
  ∧ current_in_flight_count (wm (sy_broker shutdown_demo_result.2)) = 0
  ∧ pending_dlq_events (sy_broker shutdown_demo_result.2) = [].
Proof.
  split; [by vm_compute|].
  destruct (shutdown_drained system_demo_config (-1001) 500 (Z.le_refl 0) eq_refl system_demo_0 system_demo_2 5 0
    shutdown_demo_answers shutdown_demo_result.2 system_demo_start shutdown_demo_runs shutdown_demo_counted)
    as (_ & H1 & _ & H2 & _); [|exact shutdown_demo_drains|by split].
  by intros a [->|[->|[->|Ha%elem_of_nil]%elem_of_cons]%elem_of_cons]%elem_of_cons.
Defined.

Lemma shutdown_drain_ends_witness :
  ∃ e s', drain system_demo_config 5 0 shutdown_demo_answers system_demo_2 = Some (e, s')
    ∧ goes_on e = false ∧ wm_inv (wm (sy_broker s')).
Proof.
  assert (∃ a, a ∈ shutdown_demo_answers ∧ (0 + Qmax0 5 <= pa_clock a)%Q) as Ha.
  { exists (shutdown_demo_pass 5). split; [right; right; left|vm_compute; discriminate]. }
  exact (proj1 (shutdown_drain_ends system_demo_config (Z.le_refl 0) 5 0 shutdown_demo_answers system_demo_2
    shutdown_demo_counted Ha)).
Defined.
