(* ===== verification/BrokerMetrics.v ===== *)
(** * Metrics and runtime snapshots of the broker
    ([build_system_metrics] and [build_runtime_snapshot] of
    [control_plane/broker_runtime_support.py])

    What the broker tells about itself: a row per partition, read from its tracker and from the work
    manager.  Asking a tracker for its gaps refreshes its cache and its time stamps, so that a
    snapshot returns a new state.  Clock readings are arguments. *)

From S2P Require Import Prelude Vendor Runtime Dto OffsetTracker Adaptive MetricsDto PoisonMessage WorkQueueTopology ExecutionEngine WorkManager WorkManagerInv WorkManagerOps WorkManagerSystem Dlq CommitPlanner Broker BrokerInv BrokerSafety BrokerSystem BrokerTurn BrokerShutdown.

(** [key=lambda current_tp: (current_tp.topic, current_tp.partition)] *)
Definition tp_le (a b : TopicPartition) : Prop :=
  match String.compare (topic a) (topic b) with
  | Lt => True
  | Eq => partition a ≤ partition b
  | Gt => False
  end.

#[export] Instance tp_le_dec a b : Decision (tp_le a b).
Proof. unfold tp_le. destruct (String.compare _ _); apply _. Defined.

Section metrics.
Context {E : Type} `{EE : ExecutionEngine E} `{TL : TrackerLibs} `{RT : Runtime}.
Implicit Types (b : Broker E) (t : OffsetTracker).

(** ** One row *)

(** What both loops read from a tracker: the gaps, the blocking offset and how long it has blocked *)
Definition read_tracker (now : Z → Q) (clock : Q) t : list OffsetRange * option Z * option Q * OffsetTracker :=
  let '(gaps, t') := OffsetTracker.get_gaps now t in
  let blocking_offset := range_start <$> head gaps in
  let durations := get_blocking_offset_durations clock t' in
  (gaps, blocking_offset, blocking_offset ≫= λ o, od_get o durations, t').

Definition true_lag t : Z := Z.max 0 (last_fetched_offset t - last_committed_offset t).

(** [sum(queue_sizes.get(tp, {}).values())] *)
Definition queued_count (queue_sizes : odict TopicPartition (odict PyValue Z)) (tp : TopicPartition) : Z :=
  od_sum id (default [] (od_get tp queue_sizes)).

Definition partition_metrics (now : Z → Q) (clock : Q) b (tp : TopicPartition) t : PartitionMetrics * OffsetTracker :=
  let '(gaps, blocking_offset, duration, t') := read_tracker now clock t in
  (mkPartitionMetrics tp (true_lag t) (zlen gaps) blocking_offset duration
     (queued_count (get_virtual_queue_sizes (queue_topology (wm b))) tp), t').

Definition partition_snapshot (now : Z → Q) (clock : Q) b (tp : TopicPartition) t
    : PartitionRuntimeSnapshot * OffsetTracker :=
  let '(gaps, blocking_offset, duration, t') := read_tracker now clock t in
  (mkPartitionSnapshot tp (get_current_epoch t) (last_committed_offset t) (last_fetched_offset t) (true_lag t)
     gaps blocking_offset duration (queued_count (get_virtual_queue_sizes (queue_topology (wm b))) tp)
     (default 0 (od_get tp (get_in_flight_counts (wm b)))) (get_min_in_flight_offset tp (wm b)), t').

(** ** The loops over the trackers *)

(** [row] reads a tracker of the state it is given, and changes only that tracker. *)
Fixpoint rows_of {R} (row : Broker E → TopicPartition → OffsetTracker → R * OffsetTracker)
    (tps : list TopicPartition) b : list R * Broker E :=
  match tps with
  | [] => ([], b)
  | tp :: rest =>
      match get_tracker tp b with
      | None => rows_of row rest b
      | Some t =>
          let '(r, t') := row b tp t in
          let '(rs, b') := rows_of row rest (update_tracker tp (λ _, t') b) in
          (r :: rs, b')
      end
  end.

(** [build_system_metrics]: [now] stamps new gap heads, [clock] is read for the durations; the
    snapshots of the adaptive controllers are those of [_make_runtime_support] *)
Definition build_system_metrics (now : TopicPartition → Z → Q) (clock : TopicPartition → Q) (is_paused : bool)
    (adaptive_backpressure : option AdaptiveBackpressureSnapshot)
    (adaptive_concurrency : option AdaptiveConcurrencyRuntimeSnapshot) b : SystemMetrics * Broker E :=
  let '(rows, b') := rows_of (λ b tp, partition_metrics (now tp) (clock tp) b tp) (od_keys (trackers b)) b in
  (mkSystemMetrics (get_total_in_flight_count (wm b)) is_paused rows None None adaptive_backpressure
     adaptive_concurrency 0, b').

(** [_project_process_batch_metrics] *)
Definition project_process_batch_metrics (runtime_metrics : option EngineRuntimeDiagnostics)
    : option ProcessBatchMetrics :=
  runtime_metrics ≫= er_process.

(** [BrokerPoller.get_metrics] *)
Definition get_metrics (now : TopicPartition → Z → Q) (clock : TopicPartition → Q) (is_paused : bool)
    (adaptive_backpressure : option AdaptiveBackpressureSnapshot)
    (adaptive_concurrency : option AdaptiveConcurrencyRuntimeSnapshot)
    (runtime_metrics : option EngineRuntimeDiagnostics) b : SystemMetrics * Broker E :=
  let '(metrics, b') := build_system_metrics now clock is_paused adaptive_backpressure adaptive_concurrency b in
  (mkSystemMetrics (sm_total_in_flight metrics) (sm_is_paused metrics) (sm_partitions metrics)
     (project_process_batch_metrics runtime_metrics) None (sm_adaptive_backpressure metrics)
     (sm_adaptive_concurrency metrics) (zlen (completed_offset_skips b')), b').

(** [build_runtime_snapshot], without the copies of settings *)
Definition build_runtime_snapshot (now : TopicPartition → Z → Q) (clock : TopicPartition → Q) (is_paused : bool)
    (max_in_flight_messages configured_max_in_flight_messages : Z) b : RuntimeSnapshot * Broker E :=
  let '(rows, b') := rows_of (λ b tp, partition_snapshot (now tp) (clock tp) b tp)
                       (merge_sort tp_le (od_keys (trackers b))) b in
  (mkRuntimeSnapshot
     (mkQueueSnapshot (get_total_in_flight_count (wm b)) (get_total_queued_messages (wm b)) max_in_flight_messages
        is_paused (rebalancing (wm b)) (ordering_mode (wm b)) configured_max_in_flight_messages)
     (mkDlqSnapshot (message_cache_size_bytes (cache b)) (zlen (message_cache (cache b)))) rows, b').

(** ** What a snapshot says *)

Definition total (l : list Z) : Z := foldr Z.add 0 l.

Lemma total_perm l l' : l ≡ₚ l' → total l = total l'.
Proof. unfold total. induction 1; cbn; lia. Qed.

(** A dictionary is the part under some keys and the rest. *)
Lemma od_sum_split `{EqDecision K} {V} (f : V → Z) (tps : list K) (d : odict K V) :
  NoDup tps → NoDup (od_keys d) →
  total ((λ tp, default 0 (f <$> od_get tp d)) <$> tps) + od_sum f (od_filter (λ tp, tp ∉ tps) d) = od_sum f d.
Proof.
  intros Htps. revert d. induction Htps as [|tp tps Hni Hnd IH]; intros d Hd.
  { assert (od_filter (λ tp, tp ∉ []) d = d) as -> by (apply list_filter_all; intros p _ Hp; by apply elem_of_nil in Hp). done. }
  specialize (IH (od_pop tp d) (NoDup_od_pop _ _ Hd)). rewrite od_sum_pop in IH by done.
  rewrite fmap_cons. cbn [total foldr]. change (foldr Z.add 0 ?l) with (total l).
  assert ((λ k, default 0 (f <$> od_get k (od_pop tp d))) <$> tps = (λ k, default 0 (f <$> od_get k d)) <$> tps) as Heq.
  { apply list_fmap_ext. intros i k Hk%list_elem_of_lookup_2. rewrite od_get_pop_ne; [done|]. by intros ->. }
  assert (od_filter (λ k, k ∉ tp :: tps) d = od_filter (λ k, k ∉ tps) (od_pop tp d)) as Hf.
  { unfold od_filter, od_pop. rewrite list_filter_filter. apply list_filter_iff. intros p. rewrite not_elem_of_cons. tauto. }
  rewrite Hf. rewrite Heq in IH. lia.
Qed.

Lemma od_get_map `{EqDecision K} {V W} (f : V → W) (d : odict K V) k : od_get k (od_map f d) = f <$> od_get k d.
Proof. unfold od_map. induction d as [|[k' v] d IH]; [done|]. cbn. by case_decide. Qed.

Lemma queued_count_items (t : Topology) tp :
  queued_count (get_virtual_queue_sizes t) tp = default 0 (dict_items <$> od_get tp (virtual_partition_queues t)).
Proof.
  unfold queued_count, get_virtual_queue_sizes. rewrite od_get_map. destruct (od_get tp _) as [d|]; [|done]. cbn.
  unfold dict_items, od_map. induction d as [|[k q] d IH]; [done|]. cbn in *. unfold id in *. by rewrite IH.
Qed.

(** Every dispatched item is counted for its partition. *)
Lemma in_flight_counts_sum (wm : WorkManager E) :
  (∀ id, is_Some (od_get id (dispatch_timestamps wm)) → is_Some (od_get id (in_flight_work_items wm))) →
  NoDup (od_keys (get_in_flight_counts wm)) ∧ od_sum id (get_in_flight_counts wm) = zlen (dispatch_timestamps wm).
Proof.
  intros Hlive. unfold get_in_flight_counts.
  assert (∀ ids counts, (∀ i, i ∈ ids → is_Some (od_get i (in_flight_work_items wm))) → NoDup (od_keys counts) →
    let r := fold_left (λ counts i, match od_get i (in_flight_work_items wm) with
      | None => counts
      | Some item => od_set (wi_tp item) (default 0 (od_get (wi_tp item) counts) + 1) counts end) ids counts in
    NoDup (od_keys r) ∧ od_sum id r = od_sum id counts + zlen ids) as H.
  { induction ids as [|i ids IH]; intros counts Hids Hnd; cbn [fold_left]; [split; [done|unfold zlen; cbn; lia]|].
    destruct (Hids i ltac:(by left)) as [item Hi]. rewrite Hi. rewrite zlen_cons.
    destruct (IH (od_set (wi_tp item) (default 0 (od_get (wi_tp item) counts) + 1) counts)) as [H1 H2];
      [intros j Hj; apply Hids; by right|auto with py|]. split; [exact H1|]. rewrite H2, od_sum_set. unfold id at 2 3.
    destruct (od_get (wi_tp item) counts); cbn; lia. }
  destruct (H (od_keys (dispatch_timestamps wm)) []) as [H1 H2]; [|by apply NoDup_nil|].
  { intros i Hi. by apply Hlive, elem_of_od_keys. }
  split; [exact H1|]. etransitivity; [exact H2|]. unfold zlen, od_keys. cbn. by rewrite length_fmap.
Qed.

(** *** The rows *)

Lemma tp_le_total : Total tp_le.
Proof.
  intros a b. unfold tp_le. rewrite (String.compare_antisym (topic a)).
  destruct (String.compare (topic b) (topic a)); cbn; [lia|by right|by left].
Qed.

(** What reading the gaps leaves alone *)
Definition same_books t t' : Prop :=
  last_committed_offset t' = last_committed_offset t ∧ last_fetched_offset t' = last_fetched_offset t
  ∧ completed_offsets t' = completed_offsets t ∧ epoch t' = epoch t.

(** A state that differs in what trackers remember for metrics only *)
Definition only_caches b b' : Prop :=
  (∃ store, b' = b <| wm ::= λ w, w <| tracker_store := store |> |>)
  ∧ ∀ tp t, get_tracker tp b = Some t → ∃ t', get_tracker tp b' = Some t' ∧ same_books t t'.

Lemma only_caches_refl b : only_caches b b.
Proof.
  split; [exists (tracker_store (wm b)); destruct b as [w]; by destruct w|]. intros tp t Ht. exists t. by split.
Qed.

Lemma only_caches_trans b1 b2 b3 : only_caches b1 b2 → only_caches b2 b3 → only_caches b1 b3.
Proof.
  intros [[s1 ->] H1] [[s2 ->] H2]. split; [by exists s2|]. intros tp t Ht.
  destruct (H1 tp t Ht) as (t1 & Ht1 & E1 & E2 & E3 & E4), (H2 tp t1 Ht1) as (t2 & Ht2 & F1 & F2 & F3 & F4).
  exists t2. split; [done|]. unfold same_books. split_and!; congruence.
Qed.

Lemma update_only_caches b tp t t' :
  trackers_wf b → get_tracker tp b = Some t → same_books t t' → only_caches b (update_tracker tp (λ _, t') b).
Proof.
  intros Hwf Ht Hs. split.
  - unfold update_tracker, get_tracker in *. destruct (od_get tp (trackers b)) as [l|]; [|done]. by eexists.
  - intros tp' u Hu. rewrite get_update_tracker by done. case_decide as Heq; [|by exists u].
    subst. exists t'. rewrite Ht. split; [done|]. by simplify_eq.
Qed.

(** A row function reads the work manager's queues and counts, and only refreshes its tracker. *)
Record row_reader {R} (row : Broker E → TopicPartition → OffsetTracker → R * OffsetTracker) : Prop := mkRowReader {
  rr_store b tp t store : row (b <| wm ::= λ w, w <| tracker_store := store |> |>) tp t = row b tp t;
  rr_books b tp t : same_books t (row b tp t).2;
}.

Lemma read_tracker_books now clock t : same_books t (read_tracker now clock t).2.
Proof.
  unfold read_tracker. pose proof (get_gaps_frame now t) as (H1 & H2 & H3 & H4 & _).
  destruct (OffsetTracker.get_gaps now t) as [gaps t']. by split_and!.
Qed.

Lemma metrics_reader now clock : row_reader (λ b tp, partition_metrics (now tp) (clock tp) b tp).
Proof.
  split; [done|]. intros b tp t. unfold partition_metrics. pose proof (read_tracker_books (now tp) (clock tp) t) as H.
  by destruct (read_tracker _ _ _) as [[[g o] d] t'].
Qed.

Lemma snapshot_reader now clock : row_reader (λ b tp, partition_snapshot (now tp) (clock tp) b tp).
Proof.
  split; [done|]. intros b tp t. unfold partition_snapshot. pose proof (read_tracker_books (now tp) (clock tp) t) as H.
  by destruct (read_tracker _ _ _) as [[[g o] d] t'].
Qed.

Lemma rows_of_from {R} (row : Broker E → TopicPartition → OffsetTracker → R * OffsetTracker) tps b0 b :
  row_reader row → trackers_wf b → NoDup tps → only_caches b0 b →
  (∀ tp, tp ∈ tps → get_tracker tp b = get_tracker tp b0 ∧ is_Some (get_tracker tp b0)) →
  Forall2 (λ tp r, ∃ t, get_tracker tp b0 = Some t ∧ r = (row b0 tp t).1) tps (rows_of row tps b).1
  ∧ only_caches b0 (rows_of row tps b).2.
Proof.
  intros Hrow. revert b. induction tps as [|tp tps IH]; intros b Hwf; cbn [rows_of]; [by split|].
  intros [Hni Hnd]%NoDup_cons Hoc Hlive. destruct (Hlive tp) as [Hb [t Ht]]; [by left|]. rewrite Hb, Ht.
  destruct Hoc as [[store ->] Hbooks0]. rewrite (rr_store _ Hrow).
  set (b := b0 <| wm ::= _ |>) in *.
  pose proof (rr_books _ Hrow b0 tp t) as Hbooks. destruct (row b0 tp t) as [r t'] eqn:Hr.
  rewrite Ht in Hb. pose proof (update_only_caches b tp t t' Hwf Hb Hbooks) as Hoc1.
  destruct (IH (update_tracker tp (λ _, t') b)) as [H1 H2]; [by apply update_tracker_wf|done| | |].
  - eapply only_caches_trans; [|exact Hoc1]. split; [by exists store|done].
  - intros tp' Hin. split; [|apply Hlive; by right]. rewrite get_update_tracker by done.
    rewrite decide_False by (by intros <-). apply Hlive. by right.
  - destruct (rows_of row tps _) as [rs b']. cbn [fst snd] in *. split; [|done].
    constructor; [by exists t; rewrite Hr|done].
Qed.

Lemma rows_of_spec {R} (row : Broker E → TopicPartition → OffsetTracker → R * OffsetTracker) tps b :
  row_reader row → trackers_wf b → tps ≡ₚ od_keys (trackers b) →
  Forall2 (λ tp r, ∃ t, get_tracker tp b = Some t ∧ r = (row b tp t).1) tps (rows_of row tps b).1
  ∧ only_caches b (rows_of row tps b).2.
Proof.
  intros Hrow Hwf Hp. apply rows_of_from; [done|done|rewrite Hp; apply Hwf|apply only_caches_refl|].
  intros tp Hin. split; [done|]. rewrite Hp in Hin. apply elem_of_od_keys in Hin as [l Hl].
  unfold get_tracker. rewrite Hl. by apply (tw_live _ Hwf tp).
Qed.

Definition row_truthful b (r : PartitionRuntimeSnapshot) : Prop :=
  ∃ t, get_tracker (ps_tp r) b = Some t
    ∧ (ps_current_epoch r = epoch t ∧ ps_last_committed_offset r = last_committed_offset t
       ∧ ps_last_fetched_offset r = last_fetched_offset t
       ∧ ps_true_lag r = last_fetched_offset t - last_committed_offset t)
    ∧ (∀ o, (∃ g, g ∈ ps_gaps r ∧ in_gap o g) ↔ missing t o)
    ∧ match ps_blocking_offset r with
      | None => ∀ o, ¬ missing t o
      | Some h => missing t h ∧ ∀ o, missing t o → h ≤ o
      end
    ∧ (is_Some (ps_blocking_duration_sec r) ↔ is_Some (ps_blocking_offset r)).

Lemma snapshot_row_truthful now clock b tp t :
  get_tracker tp b = Some t → tracker_inv t → row_truthful b (partition_snapshot now clock b tp t).1.
Proof.
  intros Ht Hi. unfold partition_snapshot, read_tracker.
  pose proof (get_gaps_value now t Hi) as Hv. pose proof (get_gaps_stamps now t) as Hst.
  destruct (OffsetTracker.get_gaps now t) as [gaps t']. cbn [fst snd] in *. subst gaps.
  destruct (scan_gaps_spec t Hi) as (_ & Hcov & Hhead). pose proof (inv_le _ Hi).
  exists t. cbn. split; [done|]. split; [split_and!; [done..|unfold true_lag; lia]|]. split; [exact Hcov|].
  rewrite Hhead, (inv_head _ Hi) in *. pose proof (first_gap_head_spec t) as Hf.
  destruct (calculate_first_gap_head t) as [h|]; [|split; [exact Hf|by split; intros []]].
  destruct Hf as [Hm Hset]. split.
  - split; [done|]. intros o Ho. destruct (decide (h ≤ o)) as [|Hlt]; [done|].
    destruct (Hset o) as [Hs|Hs]; [destruct Ho; lia|destruct Ho; lia|by destruct Ho].
  - split; [done|]. intros _. change (is_Some (od_get h (get_blocking_offset_durations clock t'))).
    unfold get_blocking_offset_durations. rewrite od_get_map, fmap_is_Some.
    apply Hst; [done|]. destruct (scan_gaps t) as [|g gs]; [done|]. cbn in Hhead. injection Hhead as <-. by left.
Qed.

Lemma snapshot_rows now clock b tps rows :
  trackers_sound b →
  Forall2 (λ tp r, ∃ t, get_tracker tp b = Some t ∧ r = (partition_snapshot (now tp) (clock tp) b tp t).1) tps rows →
  ps_tp <$> rows = tps
  ∧ ps_queued_count <$> rows = queued_count (get_virtual_queue_sizes (queue_topology (wm b))) <$> tps
  ∧ ps_in_flight_count <$> rows = (λ tp, default 0 (od_get tp (get_in_flight_counts (wm b)))) <$> tps
  ∧ ∀ r, r ∈ rows → row_truthful b r.
Proof.
  intros Hsound. induction 1 as [|tp r tps rows (t & Ht & ->) _ (IH1 & IH2 & IH3 & IH4)].
  { split_and!; [done..|]. by intros r Hr%elem_of_nil. }
  pose proof (snapshot_row_truthful (now tp) (clock tp) b tp t Ht (Hsound _ _ Ht)) as Hrow.
  rewrite !fmap_cons, IH1, IH2, IH3. revert Hrow. unfold partition_snapshot.
  destruct (read_tracker _ _ _) as [[[g o] d] t']. intros Hrow. split_and!; [done..|].
  intros r [->|Hr]%elem_of_cons; [done|by apply IH4].
Qed.

(** What a runtime snapshot says is so, and taking it disturbs nothing: it has one row per tracked
    partition, in order; a row's gaps are exactly the offsets that are neither committed nor
    completed, its blocking offset is the first of them and has a duration; the rows' queue and
    in-flight counts, with those of partitions no longer tracked, add up to the totals it reports;
    and afterwards the broker differs only in what its trackers remember for metrics. *)
Theorem snapshot_truthful now clock is_paused max_in_flight configured b snap b' :
  wm_inv (wm b) → trackers_wf b → trackers_sound b →
  build_runtime_snapshot now clock is_paused max_in_flight configured b = (snap, b') →
  let rows := rs_partitions snap in
  let untracked := λ tp, tp ∉ od_keys (trackers b) in
  (Sorted tp_le (ps_tp <$> rows) ∧ ps_tp <$> rows ≡ₚ od_keys (trackers b))
  ∧ (∀ r, r ∈ rows → row_truthful b r)
  ∧ total (ps_queued_count <$> rows)
    + od_sum dict_items (od_filter untracked (virtual_partition_queues (queue_topology (wm b))))
    = qs_total_queued (rs_queue snap)
  ∧ total (ps_in_flight_count <$> rows) + od_sum id (od_filter untracked (get_in_flight_counts (wm b)))
    = qs_total_in_flight (rs_queue snap)
  ∧ only_caches b b'.
Proof.
  intros (_ & _ & [Hd [Htot Hcnt _ _ _ _ _ _ _ _ _ Hdisp _ _ _ _ _ _] _ _ _ _]) Hwf Hsound. unfold build_runtime_snapshot.
  pose proof (merge_sort_Permutation tp_le (od_keys (trackers b))) as Hp.
  assert (Total tp_le) as Htotal by apply tp_le_total.
  pose proof (Sorted_merge_sort tp_le (od_keys (trackers b))) as Hsorted.
  pose proof (rows_of_spec _ (merge_sort tp_le (od_keys (trackers b))) b (snapshot_reader now clock) Hwf Hp) as [Hrows Hoc].
  set (tps := merge_sort tp_le (od_keys (trackers b))) in *.
  destruct (rows_of _ tps b) as [rows b1]. intros [= <- <-]. cbn [fst snd rs_partitions rs_queue qs_total_queued qs_total_in_flight] in *.
  destruct (snapshot_rows now clock b tps rows Hsound Hrows) as (Htp & Hq & Hf & Htrue).
  rewrite Htp, Hq, Hf. split; [done|]. split; [done|].
  assert (NoDup (od_keys (trackers b))) as Hnd by apply Hwf.
  split; [|split; [|done]].
  - rewrite (total_perm _ (queued_count (get_virtual_queue_sizes (queue_topology (wm b))) <$> od_keys (trackers b))) by (by apply fmap_Permutation).
    rewrite (list_fmap_ext _ (λ tp, default 0 (dict_items <$> od_get tp (virtual_partition_queues (queue_topology (wm b))))))
      by (intros; apply queued_count_items).
    rewrite od_sum_split by (done || apply Hd). unfold get_total_queued_messages. unfold total_items in Htot. lia.
  - rewrite (total_perm _ ((λ tp, default 0 (od_get tp (get_in_flight_counts (wm b)))) <$> od_keys (trackers b))) by (by apply fmap_Permutation).
    destruct (in_flight_counts_sum (wm b) Hdisp) as [Hk Hs].
    pose proof (od_sum_split id (od_keys (trackers b)) (get_in_flight_counts (wm b)) Hnd Hk) as Hsplit.
    unfold get_total_in_flight_count. rewrite Hcnt, <-Hs, <-Hsplit. do 2 f_equal. apply list_fmap_ext.
    intros _ tp _. by destruct (od_get tp _).
Qed.
End metrics.

(** ** A snapshot of a broker with one queued message *)

#[local] Instance metrics_demo_libs : TrackerLibs := vendor_lists.

Definition metrics_demo_broker : Broker DemoEngine := sy_broker system_demo_2.
Definition metrics_demo_result : RuntimeSnapshot * Broker DemoEngine :=
  build_runtime_snapshot (λ _ _, 1%Q) (λ _, 3%Q) false 5 5 metrics_demo_broker.

Lemma metrics_demo_ok : broker_ok system_demo_config (sy_facts system_demo_2) metrics_demo_broker.
Proof.
  apply (so_broker _ _ (system_run_ok system_demo_config (-1001) 500 eq_refl system_demo_0 system_demo_2
    system_demo_start shutdown_demo_runs)).
Qed.

Definition metrics_demo_tracker : OffsetTracker :=
  default (new_tracker system_demo_tp 0 500 None) (get_tracker system_demo_tp metrics_demo_broker).

Definition metrics_demo_tracker_value : OffsetTracker := Eval vm_compute in metrics_demo_tracker.

Lemma metrics_demo_tracker_is : metrics_demo_tracker = metrics_demo_tracker_value.
Proof. exact (eq_refl metrics_demo_tracker_value <: metrics_demo_tracker = metrics_demo_tracker_value). Qed.

Lemma metrics_demo_tracker_from :
  metrics_demo_tracker_value
  = update_last_fetched_offset 0 (increment_epoch (bump_version (new_tracker system_demo_tp 0 500 None))).
Proof.
  exact (eq_refl metrics_demo_tracker_value <: metrics_demo_tracker_value
    = update_last_fetched_offset 0 (increment_epoch (bump_version (new_tracker system_demo_tp 0 500 None)))).
Qed.

Lemma metrics_demo_sound : trackers_sound metrics_demo_broker.
Proof.
  intros tp t Ht. destruct (decide (tp = system_demo_tp)) as [->|Hne].
  - assert (t = metrics_demo_tracker) as -> by (unfold metrics_demo_tracker; by rewrite Ht).
    rewrite metrics_demo_tracker_is, metrics_demo_tracker_from.
    apply update_last_fetched_inv. refine (tracker_step_inv _ OpEpoch _ _ (step_epoch _)).
    apply bump_version_inv; [vm_compute; discriminate|by intros o Ho%elem_of_nil|done].
  - exfalso. revert Ht. assert (od_keys (trackers metrics_demo_broker) = [system_demo_tp]) as Hk by (vm_compute; reflexivity).
    unfold get_tracker. destruct (od_get tp (trackers metrics_demo_broker)) eqn:E; [|done].
    assert (is_Some (od_get tp (trackers metrics_demo_broker))) as Hs by (by rewrite E).
    apply elem_of_od_keys in Hs. rewrite Hk in Hs. by apply list_elem_of_singleton in Hs.
Qed.

Lemma metrics_demo_rows :
  (λ r, (ps_tp r, ps_true_lag r, ps_blocking_offset r, ps_queued_count r)) <$> rs_partitions metrics_demo_result.1
    = [(system_demo_tp, 1, Some 0, 1)]
  ∧ qs_total_queued (rs_queue metrics_demo_result.1) = 1.
Proof. split; vm_compute; reflexivity. Qed.

Lemma snapshot_truthful_witness :
  (∀ r, r ∈ rs_partitions metrics_demo_result.1 → row_truthful metrics_demo_broker r)
  ∧ only_caches metrics_demo_broker metrics_demo_result.2
  ∧ qs_total_queued (rs_queue metrics_demo_result.1) = 1.
Proof.
  destruct (snapshot_truthful (λ _ _, 1%Q) (λ _, 3%Q) false 5 5 metrics_demo_broker metrics_demo_result.1
    metrics_demo_result.2 shutdown_demo_counted (proj1 (bo_ready _ _ _ metrics_demo_ok)) metrics_demo_sound
    (surjective_pairing _)) as (_ & H1 & _ & _ & H2).
  split; [exact H1|]. split; [exact H2|apply metrics_demo_rows].
Defined.
