(* ===== verification/BrokerDiagnostics.v ===== *)
(** * Pipeline diagnostics of the broker
    ([compose_pipeline_diagnostics] of [control_plane/broker_runtime_support.py], the returned value
    of [WorkManager.get_pipeline_diagnostics], [BrokerPoller.get_pipeline_diagnostics])

    The work manager reports its queues; the broker adds the completions it has not settled, the
    dead-letter events it has not published and its poll counters, and the engine its workers. *)

From S2P Require Import Prelude Vendor Runtime Dto OffsetTracker WorkQueueTopology ExecutionEngine WorkManager WorkManagerDiagnostics Adaptive MetricsDto Dlq Broker BrokerSystem BrokerLoop BrokerMetrics.

(** ** What the work manager reports *)

Section work_manager.
Context {E : Type} `{EE : ExecutionEngine E} `{TL : TrackerLibs} `{RT : Runtime}.
Implicit Types (w : WorkManager E).

Definition no_count : PipelineCount := mkPipelineCount 0 None.

(** [stage_counts], [stage_support] and [section_support], filled as the code fills them *)
Definition manager_stage_counts (queued dispatched : Z) : odict PipelineStage PipelineCount :=
  od_set DISPATCHED (mkPipelineCount dispatched None)
    (od_set QUEUED (mkPipelineCount queued None) ((λ s, (s, no_count)) <$> all_stages)).

Definition manager_stage_support : odict PipelineStage PipelineDiagnosticsSupportState :=
  od_set DISPATCHED SUPPORTED (od_set QUEUED SUPPORTED ((λ s, (s, NOT_IMPLEMENTED)) <$> all_stages)).

Definition manager_section_support : odict PipelineDiagnosticsSection PipelineDiagnosticsSupportState :=
  [(STAGES, SUPPORTED); (BLOCKED, SUPPORTED); (SUBQUEUES, SUPPORTED); (DISPATCH_CAPACITY, SUPPORTED);
   (ADMISSION, NOT_IMPLEMENTED); (WORKERS, NOT_IMPLEMENTED)].

(** The value [get_pipeline_diagnostics] returns, from the counters of its loop *)
Definition pipeline_snapshot (top_k_depths_limit : Z) w : PipelineDiagnosticsSnapshot :=
  let d := get_pipeline_diagnostics top_k_depths_limit w in
  let q := pd_subqueues d in
  {| pds_stage_counts := manager_stage_counts (pd_queued d) (pd_dispatched d);
     pds_blocked_counts := od_map (λ n, mkPipelineCount n None) (pd_blocked_counts d);
     pds_dispatch_capacity := mkDispatchCapacity (pd_capacity_blocked_items d)
                                (if pd_capacity_max_in_flight d then Some MAX_IN_FLIGHT else None);
     pds_workers := mkWorkers 0 0 None [] NOT_IMPLEMENTED;
     pds_subqueues := mkSubqueues (pd_total_subqueues d) (queued_subqueues q) (queued_items q)
                        (eligible_subqueues q) (eligible_items q) (blocked_subqueues q) (blocked_items q)
                        (pd_top_k_depths d);
     pds_stage_support := manager_stage_support;
     pds_section_support := manager_section_support;
     pds_scope := WORK_MANAGER_ONLY;
     pds_settlement := default_settlement;
     pds_poll := default_poll |}.

(** The loop adds to the counts of the reasons it starts with. *)
Lemma diagnose_queue_NoDup w k d q :
  NoDup (od_keys (blocked_counts d)) → NoDup (od_keys (blocked_counts (diagnose_queue w k d q))).
Proof.
  intros Hd. unfold diagnose_queue. destruct (q_size q <=? 0); [done|].
  destruct (classify_queue w k q) as [n [r|]]; cbn -[od_set]; [|done]. destruct (0 <? q_size q - n); [by apply NoDup_od_set|done].
Qed.

Lemma blocked_counts_NoDup w : NoDup (od_keys (blocked_counts (diagnose_queues w))).
Proof.
  unfold diagnose_queues. set (d0 := mkQueueDiagnostics _ _ _ _ _ _ _ _).
  assert (NoDup (od_keys (blocked_counts d0))) as Hd0 by (by apply (bool_decide_unpack (NoDup all_blocked_reasons))).
  revert Hd0. generalize d0. induction (virtual_partition_queues (queue_topology w)) as [|[tp qs] l IH]; intros d Hd; [done|].
  cbn [fold_left]. apply IH. clear IH. cbn [fst snd]. revert d Hd. induction qs as [|[k q] qs IH]; intros d Hd; [done|].
  cbn [fold_left]. apply IH. by apply diagnose_queue_NoDup.
Qed.

(** The counts of all reasons, one by one *)
Lemma blocked_counts_total top_k_depths_limit w :
  foldr Z.add 0 ((λ r, default 0 (pc_count <$> od_get r (pds_blocked_counts (pipeline_snapshot top_k_depths_limit w))))
    <$> all_blocked_reasons)
  = od_sum id (blocked_counts (diagnose_queues w)).
Proof.
  rewrite <-(od_sum_split id all_blocked_reasons (blocked_counts (diagnose_queues w))).
  - assert (od_filter (λ r, r ∉ all_blocked_reasons) (blocked_counts (diagnose_queues w)) = []) as ->.
    { unfold od_filter. induction (blocked_counts (diagnose_queues w)) as [|[r n] d IH]; [done|].
      rewrite filter_cons_False; [exact IH|]. intros Hr. apply Hr. by destruct r; repeat constructor. }
    rewrite Z.add_0_r. unfold total. f_equal. apply list_fmap_ext. intros _ r _.
    change (pds_blocked_counts (pipeline_snapshot top_k_depths_limit w))
      with (od_map (λ n, mkPipelineCount n None) (blocked_counts (diagnose_queues w))).
    rewrite od_get_map. by destruct (od_get r _).
  - by apply (bool_decide_unpack (NoDup all_blocked_reasons)).
  - apply blocked_counts_NoDup.
Qed.
End work_manager.

(** ** What the broker adds *)

Section broker.
Context {E : Type} `{EE : ExecutionEngine E} `{TL : TrackerLibs} `{RT : Runtime}.
Implicit Types (b : Broker E).

(** [sum(unsettled.get(tp, 0) for tp in dirty)] *)
Definition completed_unsettled b : Z :=
  foldr (λ tp acc, default 0 (od_get tp (unsettled_completions b)) + acc) 0 (elements (dirty_commit_partitions b)).

Definition settlement_blocker_reason b : option PipelineSettlementBlockerReason :=
  if 0 <? zlen (pending_dlq_events b) then Some DLQ_PUBLISH_PENDING
  else if 0 <? completed_unsettled b then Some COMMIT_PENDING else None.

(** [compose_pipeline_diagnostics]; [poll] is the broker's poll section *)
Definition compose_pipeline_diagnostics (diagnostics : PipelineDiagnosticsSnapshot)
    (runtime_metrics : option EngineRuntimeDiagnostics) (poll : PipelinePollDiagnostics) b
    : PipelineDiagnosticsSnapshot :=
  let unsettled := completed_unsettled b in
  let stage_counts :=
    od_set STAGE_DLQ (mkPipelineCount (zlen (pending_dlq_events b)) None)
      (od_set COMPLETED_UNSETTLED (mkPipelineCount unsettled None) (pds_stage_counts diagnostics)) in
  let stage_support := od_set STAGE_DLQ SUPPORTED (od_set COMPLETED_UNSETTLED SUPPORTED (pds_stage_support diagnostics)) in
  let section_support := od_set POLL SUPPORTED (od_set SETTLEMENT SUPPORTED (pds_section_support diagnostics)) in
  let '(section_support, workers) :=
    match runtime_metrics ≫= er_workers with
    | None => (section_support, pds_workers diagnostics)
    | Some e => (od_set WORKERS SUPPORTED section_support,
                 mkWorkers (ew_total e) (ew_executing e) (ew_admitted e) (ew_top_k_loads e) SUPPORTED)
    end in
  diagnostics <| pds_stage_counts := stage_counts |> <| pds_stage_support := stage_support |>
    <| pds_settlement := mkSettlement unsettled (settlement_blocker_reason b) SUPPORTED |>
    <| pds_workers := workers |> <| pds_poll := poll |> <| pds_section_support := section_support |>
    <| pds_scope := COMBINED |>.

(** The poll section of a poller whose counters are these *)
Definition poll_section (records nonempty empty errors : Z) b : PipelinePollDiagnostics :=
  mkPoll records nonempty empty errors (zlen (completed_offset_skips b)) "kafka" SUPPORTED.

(** [BrokerPoller.get_pipeline_diagnostics] *)
Definition poller_pipeline_diagnostics (runtime_metrics : option EngineRuntimeDiagnostics) (p : Poller (E := E))
    : PipelineDiagnosticsSnapshot :=
  let b := po_broker p in
  compose_pipeline_diagnostics (pipeline_snapshot 10 (wm b)) runtime_metrics
    (poll_section (po_poll_records_total p) (po_poll_nonempty_total p) (po_poll_empty_total p) (po_poll_error_total p) b) b.

(** ** What the composed diagnostics say *)

Lemma od_sum_counts `{EqDecision K} (d : odict K Z) :
  od_sum pc_count (od_map (λ n, mkPipelineCount n None) d) = od_sum id d.
Proof. unfold od_sum, od_map. induction d as [|[k n] d IH]; [done|]. cbn in *. unfold id in *. lia. Qed.

Lemma composed_sections runtime_metrics (p : Poller (E := E)) s :
  od_get s (pds_section_support (poller_pipeline_diagnostics runtime_metrics p))
  = match s with
    | ADMISSION => Some NOT_IMPLEMENTED
    | WORKERS => Some (match runtime_metrics ≫= er_workers with Some _ => SUPPORTED | None => NOT_IMPLEMENTED end)
    | _ => Some SUPPORTED
    end.
Proof.
  unfold poller_pipeline_diagnostics, compose_pipeline_diagnostics.
  destruct (runtime_metrics ≫= er_workers); by destruct s.
Qed.

(** The parts of the composed diagnostics *)
Lemma composed_fields runtime_metrics (p : Poller (E := E)) :
  let d := poller_pipeline_diagnostics runtime_metrics p in
  let snapshot := pipeline_snapshot 10 (wm (po_broker p)) in
  pds_blocked_counts d = pds_blocked_counts snapshot
  ∧ pds_subqueues d = pds_subqueues snapshot
  ∧ od_get QUEUED (pds_stage_support d) = Some SUPPORTED
  ∧ pc_count <$> od_get QUEUED (pds_stage_counts d) = Some (queued_items (diagnose_queues (wm (po_broker p))))
  ∧ pds_settlement d = mkSettlement (completed_unsettled (po_broker p)) (settlement_blocker_reason (po_broker p)) SUPPORTED.
Proof.
  unfold poller_pipeline_diagnostics, compose_pipeline_diagnostics. by destruct (runtime_metrics ≫= er_workers).
Qed.

Lemma blocker_reason_spec b :
  (settlement_blocker_reason b = Some DLQ_PUBLISH_PENDING ↔ pending_dlq_events b ≠ [])
  ∧ (settlement_blocker_reason b = Some COMMIT_PENDING ↔ pending_dlq_events b = [] ∧ 0 < completed_unsettled b).
Proof.
  unfold settlement_blocker_reason. destruct (pending_dlq_events b) as [|e l].
  - cbn. destruct (Z.ltb_spec 0 (completed_unsettled b)); (split; split; try done); by intros [_ ?]; lia.
  - destruct (Z.ltb_spec 0 (zlen (e :: l))) as [_|H].
    { split; split; try done; by intros []. }
    rewrite zlen_cons in H. pose proof (zlen_nonneg l). lia.
Qed.

(** The composed pipeline diagnostics account for the work of the broker: a section or stage is
    marked supported exactly when somebody measured it; the queued stage counts the items of the
    queues, each either eligible or blocked for a reason; the settlement section blames a
    dead-letter event that is not published before a commit that is not made, and nothing when
    neither waits; and the engine's workers are copied when the engine reports them. *)
Theorem composed_diagnostics_account (runtime_metrics : option EngineRuntimeDiagnostics) (p : Poller (E := E)) :
  let d := poller_pipeline_diagnostics runtime_metrics p in
  let b := po_broker p in
  (∀ s, od_get s (pds_section_support d) =
     match s with
     | ADMISSION => Some NOT_IMPLEMENTED
     | WORKERS => Some (match runtime_metrics ≫= er_workers with Some _ => SUPPORTED | None => NOT_IMPLEMENTED end)
     | _ => Some SUPPORTED
     end)
  ∧ (∀ s, pc_count <$> od_get s (pds_stage_counts d) = Some
       match s with
       | QUEUED => total_items (queue_topology (wm b))
       | DISPATCHED => current_in_flight_count (wm b)
       | COMPLETED_UNSETTLED => completed_unsettled b
       | STAGE_DLQ => zlen (pending_dlq_events b)
       | _ => 0
       end)
  ∧ (sq_eligible_items (pds_subqueues d) + sq_blocked_items (pds_subqueues d) = total_items (queue_topology (wm b))
     ∧ od_sum pc_count (pds_blocked_counts d) = sq_blocked_items (pds_subqueues d))
  ∧ (pst_blocker_reason (pds_settlement d) = Some DLQ_PUBLISH_PENDING ↔ pending_dlq_events b ≠ [])
  ∧ (pst_blocker_reason (pds_settlement d) = Some COMMIT_PENDING ↔
       pending_dlq_events b = [] ∧ 0 < completed_unsettled b)
  ∧ (∀ e, runtime_metrics ≫= er_workers = Some e →
       (pw_total (pds_workers d), pw_executing (pds_workers d), pw_admitted (pds_workers d))
       = (ew_total e, ew_executing e, ew_admitted e)).
Proof.
  cbv zeta. split; [intros s; apply composed_sections|].
  unfold poller_pipeline_diagnostics, compose_pipeline_diagnostics.
  destruct (diagnose_queues_ok (wm (po_broker p))) as [[H1 H2 _ _] H5].
  destruct (blocker_reason_spec (po_broker p)) as [B1 B2].
  destruct (runtime_metrics ≫= er_workers) as [e|]; cbn -[od_set od_get od_sum od_map].
  all: rewrite od_sum_counts, H1, H2, H5.
  all: split; [by intros []|]. all: do 3 (split; [done|]); try done.
  by intros e' [= <-].
Qed.
End broker.
