(* ===== verification/ConsumerFacade.v ===== *)
(** * The consumer facade ([pyrallel_consumer/consumer.py])

    The exporters a process shares between its consumers, one per port and counted, and the start
    and stop of [PyrallelConsumer].  What the poller, the execution engine and the resource provider
    answer are arguments; each section of code between two awaits is one definition, so that the
    sections of several consumers, and of several calls on one consumer, can interleave. *)

From S2P Require Import Prelude Vendor Dto Adaptive MetricsDto Prometheus MetricsExporter MetricsScrape.

Record MetricsConfig := mkMetricsConfig { mc_enabled : bool; mc_port : Z }.

(** How a call ends: it returns, raises an [Exception], or is cancelled ([CancelledError] is no
    [Exception]). *)
Inductive Outcome := Done | RaisesError | Cancelled.

#[export] Instance Outcome_eq_dec : EqDecision Outcome.
Proof. solve_decision. Defined.

Section facade.
Context `{PL : PrometheusLib}.

(** ** The exporters of a process *)

(** An exporter is an index of the store, as a Python reference is an address. *)
Record Registry := mkRegistry {
  rg_exporters : odict Z nat;      (* _PROMETHEUS_EXPORTERS *)
  rg_refcounts : odict Z Z;        (* _PROMETHEUS_EXPORTER_REFCOUNTS *)
  rg_store : list Exporter;        (* every exporter constructed so far *)
}.

#[export] Instance Registry_settable : Settable Registry :=
  λ r, mkRegistry (rg_exporters r) (rg_refcounts r) (rg_store r).

Implicit Types (r : Registry) (cfg : MetricsConfig).

(** [_acquire_prometheus_exporter]; [server] is the reply of [start_http_server], [None] when it
    raises (the port is in use) *)
Definition acquire_exporter cfg (server : option ServerReply) r : Outcome * option nat * Registry :=
  if negb (mc_enabled cfg) then (Done, None, r)
  else
    let constructed :=
      match od_get (mc_port cfg) (rg_exporters r) with
      | Some i => Some (i, r)
      | None =>
          match server with
          | None => None
          | Some reply =>
              let i := length (rg_store r) in
              Some (i, r <| rg_store ::= λ l, l ++ [new_exporter true reply] |>
                         <| rg_exporters ::= od_set (mc_port cfg) i |>)
          end
      end in
    match constructed with
    | None => (RaisesError, None, r)
    | Some (i, r1) =>
        (Done, Some i,
         r1 <| rg_refcounts ::= λ c, od_set (mc_port cfg) (default 0 (od_get (mc_port cfg) c) + 1) c |>)
    end.

(** [_release_prometheus_exporter] *)
Definition release_exporter cfg (exporter : option nat) r : Registry :=
  match exporter with
  | None => r
  | Some _ =>
      if negb (mc_enabled cfg) then r
      else
        let port := mc_port cfg in
        let refcount := default 0 (od_get port (rg_refcounts r)) in
        if refcount <=? 1 then
          let r1 := r <| rg_refcounts ::= od_pop port |> in
          match od_get port (rg_exporters r) with
          | None => r1
          | Some i => r1 <| rg_exporters ::= od_pop port |> <| rg_store ::= alter close i |>
          end
        else r <| rg_refcounts ::= od_set port (refcount - 1) |>
  end.

(** ** A consumer *)

Record Facade := mkFacade {
  fc_config : MetricsConfig;
  fc_mode : string;                     (* execution.mode.value *)
  fc_exporter : option nat;             (* _metrics_exporter *)
  fc_task : bool;                       (* _metrics_task is not None *)
  fc_manager_exporter : option nat;     (* what the work manager was given *)
  fc_poller_exporter : option nat;      (* what the poller was given *)
  fc_poller_stopped : bool;             (* poller.stop() ran to its end *)
  fc_engine_down : bool;                (* execution_engine.shutdown() ran to its end *)
}.

#[export] Instance Facade_settable : Settable Facade :=
  λ f, mkFacade (fc_config f) (fc_mode f) (fc_exporter f) (fc_task f) (fc_manager_exporter f) (fc_poller_exporter f)
         (fc_poller_stopped f) (fc_engine_down f).

Implicit Types (f : Facade).

(** The first section of [start]: take an exporter and hand it on *)
Definition start_begin (server : option ServerReply) f r : Outcome * Facade * Registry :=
  match fc_exporter f with
  | Some _ => (Done, f, r)
  | None =>
      let '(o, exporter, r1) := acquire_exporter (fc_config f) server r in
      match o with
      | Done => (Done, f <| fc_exporter := exporter |> <| fc_manager_exporter := exporter |>
                         <| fc_poller_exporter := exporter |>, r1)
      | _ => (o, f, r1)
      end
  end.

(** What [_publish_metrics_snapshot] reads: [None] is a call that raises *)
Record Reading := mkReading {
  rd_metrics : option SystemMetrics;                      (* poller.get_metrics() *)
  rd_signal : option ResourceSignalSnapshot;              (* resource_signal_provider.snapshot() *)
  rd_diagnostics : option PipelineDiagnosticsSnapshot;    (* poller.get_pipeline_diagnostics() *)
}.

(** The updates of the exporter; an exception of the second is logged *)
Definition publish_to (mode : string) (metrics : SystemMetrics) (rd : Reading) (e : Exporter) : Exporter :=
  let signal := default (mkResourceSignal UNAVAILABLE None None) (rd_signal rd) in
  let e1 := update_from_system_metrics (metrics <| sm_resource_signal := Some signal |>) e in
  match rd_diagnostics rd with
  | None => e1
  | Some d => (update_pipeline_diagnostics d mode e1).2
  end.

(** [_publish_metrics_snapshot] *)
Definition publish_metrics_snapshot (rd : Reading) f r : Outcome * Registry :=
  match fc_exporter f with
  | None => (Done, r)
  | Some i =>
      match rd_metrics rd with
      | None => (RaisesError, r)
      | Some metrics => (Done, r <| rg_store ::= alter (publish_to (fc_mode f) metrics rd) i |>)
      end
  end.

(** The last section of [start], after [poller.start()] *)
Definition start_end (rd : Reading) f r : Outcome * Facade * Registry :=
  if bool_decide (is_Some (fc_exporter f)) && negb (fc_task f) then
    let '(o, r1) := publish_metrics_snapshot rd f r in
    match o with
    | Done => (Done, f <| fc_task := true |>, r1)
    | _ => (o, f, r1)
    end
  else (Done, f, r).

(** [_stop_metrics_loop] *)
Definition stop_metrics_loop f : Facade := f <| fc_task := false |>.

(** [_release_metrics_exporter] *)
Definition release_metrics_exporter f r : Facade * Registry :=
  let f1 := f <| fc_manager_exporter := None |> <| fc_poller_exporter := None |> in
  (f1 <| fc_exporter := None |>, release_exporter (fc_config f1) (fc_exporter f1) r).

(** ** Start and stop, with what each awaited call answers *)

Record Answers := mkAnswers {
  an_server : option ServerReply;   (* start_http_server *)
  an_poller_start : Outcome;
  an_poller_stop : Outcome;
  an_engine_shutdown : Outcome;
  an_reading : Reading;
}.

Definition poller_stop (o : Outcome) f : Facade := if decide (o = Done) then f <| fc_poller_stopped := true |> else f.
Definition engine_shutdown (o : Outcome) f : Facade := if decide (o = Done) then f <| fc_engine_down := true |> else f.

(** [await self._execution_engine.shutdown()] and the release that follows it *)
Definition shutdown_and_release (a : Answers) f r : Outcome * Facade * Registry :=
  let f1 := engine_shutdown (an_engine_shutdown a) f in
  match an_engine_shutdown a with
  | Done => let '(f2, r1) := release_metrics_exporter f1 r in (Done, f2, r1)
  | o => (o, f1, r)
  end.

(** [_cleanup_failed_start] *)
Definition cleanup_failed_start (a : Answers) f r : Outcome * Facade * Registry :=
  let f1 := poller_stop (an_poller_stop a) (stop_metrics_loop f) in
  match an_poller_stop a with
  | Cancelled => (Cancelled, f1, r)
  | _ => shutdown_and_release a f1 r
  end.

(** [start]: an [Exception] is re-raised after the cleanup, unless the cleanup raises *)
Definition start_body (a : Answers) f r : Outcome * Facade * Registry :=
  let '(o, f1, r1) := start_begin (an_server a) f r in
  match o with
  | Done =>
      match an_poller_start a with
      | Done => start_end (an_reading a) f1 r1
      | o' => (o', f1, r1)
      end
  | _ => (o, f1, r1)
  end.

Definition start (a : Answers) f r : Outcome * Facade * Registry :=
  let '(o, f1, r1) := start_body a f r in
  match o with
  | RaisesError =>
      let '(o', f2, r2) := cleanup_failed_start a f1 r1 in
      (if decide (o' = Done) then RaisesError else o', f2, r2)
  | _ => (o, f1, r1)
  end.

(** [stop] *)
Definition stop (a : Answers) f r : Outcome * Facade * Registry :=
  let f1 := poller_stop (an_poller_stop a) (stop_metrics_loop f) in
  match an_poller_stop a with
  | Cancelled => (Cancelled, f1, r)
  | poller_result =>
      let '(o, r1) := publish_metrics_snapshot (an_reading a) f1 r in
      match o with
      | Done =>
          let '(o', f2, r2) := shutdown_and_release a f1 r1 in
          (if decide (o' = Done) then poller_result else o', f2, r2)
      | _ => (o, f1, r1)
      end
  end.
End facade.

(** ** Several consumers of one process *)

Section world.
Context `{PL : PrometheusLib}.
Implicit Types (r : Registry) (cfg : MetricsConfig) (f : Facade) (cs : list Facade).

(** A section of some call on a consumer *)
Inductive Segment :=
  | SegStartBegin (server : option ServerReply)
  | SegStartEnd (rd : Reading)
  | SegPublish (rd : Reading)
  | SegStopLoop
  | SegPollerStop (o : Outcome)
  | SegEngineShutdown (o : Outcome)
  | SegRelease.

Definition run_segment (s : Segment) f r : Facade * Registry :=
  match s with
  | SegStartBegin server => let '(_, f', r') := start_begin server f r in (f', r')
  | SegStartEnd rd => let '(_, f', r') := start_end rd f r in (f', r')
  | SegPublish rd => let '(_, r') := publish_metrics_snapshot rd f r in (f, r')
  | SegStopLoop => (stop_metrics_loop f, r)
  | SegPollerStop o => (poller_stop o f, r)
  | SegEngineShutdown o => (engine_shutdown o f, r)
  | SegRelease => release_metrics_exporter f r
  end.

Record World := mkWorld { wd_registry : Registry; wd_consumers : list Facade }.

Definition world_step (w : World) (c : nat) (s : Segment) : World :=
  match wd_consumers w !! c with
  | None => w
  | Some f => let '(f', r') := run_segment s f (wd_registry w) in mkWorld r' (<[c := f']> (wd_consumers w))
  end.

Definition world_run (w : World) (sections : list (nat * Segment)) : World :=
  fold_left (λ w s, world_step w s.1 s.2) sections w.

Definition new_facade (cfg : MetricsConfig) (mode : string) : Facade :=
  mkFacade cfg mode None false None None false false.

Definition new_world (configs : list (MetricsConfig * string)) : World :=
  mkWorld (mkRegistry [] [] []) ((λ c, new_facade c.1 c.2) <$> configs).

(** *** Who holds an exporter *)

Definition holds (port : Z) f : bool :=
  mc_enabled (fc_config f) && (mc_port (fc_config f) =? port) && bool_decide (is_Some (fc_exporter f)).

Definition holders (port : Z) cs : Z := foldr (λ f acc, Z.b2z (holds port f) + acc) 0 cs.

Lemma holders_cons port f cs : holders port (f :: cs) = Z.b2z (holds port f) + holders port cs.
Proof. done. Qed.

Lemma holders_nonneg port cs : 0 ≤ holders port cs.
Proof. induction cs as [|f cs IH]; [done|]. rewrite holders_cons. destruct (holds port f); cbn; lia. Qed.

Lemma holders_pos port f cs : f ∈ cs → holds port f = true → 0 < holders port cs.
Proof.
  intros Hf Hh. induction Hf as [f cs|f g cs Hf IH]; rewrite holders_cons.
  - rewrite Hh. pose proof (holders_nonneg port cs). cbn. lia.
  - specialize (IH Hh). destruct (holds port g); cbn; lia.
Qed.

Lemma holders_insert port c f f' cs :
  cs !! c = Some f → holders port (<[c := f']> cs) = holders port cs - Z.b2z (holds port f) + Z.b2z (holds port f').
Proof.
  revert c. induction cs as [|g cs IH]; intros [|c] Hc; [done|done|injection Hc as ->|].
  - change (<[0%nat := f']> (f :: cs)) with (f' :: cs). rewrite !holders_cons. lia.
  - change (<[S c := f']> (g :: cs)) with (g :: <[c := f']> cs). rewrite !holders_cons, (IH c) by done. lia.
Qed.

Lemma replaced_elem c f' g cs : g ∈ <[c := f']> cs → g = f' ∨ g ∈ cs.
Proof.
  intros [i Hi]%list_elem_of_lookup. apply list_lookup_insert_Some in Hi as [(_ & <- & _)|[_ Hi]]; [by left|right].
  by eapply list_elem_of_lookup_2.
Qed.

(** *** The invariant of the registry *)

Record registry_ok r cs : Prop := mkRegistryOk {
  ro_counts port : default 0 (od_get port (rg_refcounts r)) = holders port cs;
  ro_cached port : is_Some (od_get port (rg_exporters r)) ↔ 0 < holders port cs;
  ro_holds f i : f ∈ cs → fc_exporter f = Some i →
    mc_enabled (fc_config f) = true ∧ od_get (mc_port (fc_config f)) (rg_exporters r) = Some i;
  ro_refs f : f ∈ cs → fc_manager_exporter f = fc_exporter f ∧ fc_poller_exporter f = fc_exporter f;
  ro_inj port port' i : od_get port (rg_exporters r) = Some i → od_get port' (rg_exporters r) = Some i → port = port';
  ro_open port i : od_get port (rg_exporters r) = Some i → ∃ e, rg_store r !! i = Some e ∧ ex_server_calls e = [];
  ro_closed i e : rg_store r !! i = Some e → (∀ port, od_get port (rg_exporters r) ≠ Some i) → ex_http_server e = false;
}.

(** A consumer replaced by one with the same exporter *)
Lemma registry_ok_same r cs c f f' :
  cs !! c = Some f → fc_config f' = fc_config f → fc_exporter f' = fc_exporter f →
  fc_manager_exporter f' = fc_manager_exporter f → fc_poller_exporter f' = fc_poller_exporter f →
  registry_ok r cs → registry_ok r (<[c := f']> cs).
Proof.
  intros Hc Ec Ee Em Ep [H1 H2 H3 H4 H5 H6 H7].
  assert (f ∈ cs) as Hf by (by eapply list_elem_of_lookup_2).
  assert (∀ port, holders port (<[c := f']> cs) = holders port cs) as Hh.
  { intros port. rewrite (holders_insert _ _ _ _ _ Hc). unfold holds. rewrite Ec, Ee. lia. }
  split; try done.
  - intros port. by rewrite Hh.
  - intros port. by rewrite Hh.
  - intros g i [->|Hg]%replaced_elem Hi; [|by apply H3]. rewrite Ec. apply H3; [done|congruence].
  - intros g [->|Hg]%replaced_elem; [|by apply H4]. destruct (H4 f Hf). split; congruence.
Qed.

(** *** The sections preserve it *)

Definition server_same (e e' : Exporter) : Prop :=
  ex_http_server e' = ex_http_server e ∧ ex_server_calls e' = ex_server_calls e.

Lemma server_same_trans e1 e2 e3 : server_same e1 e2 → server_same e2 e3 → server_same e1 e3.
Proof. intros [? ?] [? ?]. split; congruence. Qed.

Lemma writes_server ws e : server_same e (run_writes ws e).
Proof.
  unfold run_writes. revert e. induction ws as [|w ws IH]; intros e; [done|]. cbn [fold_left].
  eapply server_same_trans; [|apply IH]. by destruct w.
Qed.

Lemma advance_all_server totals ok e : server_same e (fold_left (λ acc t, and_then acc (advance_counter t.1.1 t.1.2 t.2)) totals (ok, e)).2.
Proof.
  revert ok e. induction totals as [|t totals IH]; intros ok e; [done|]. cbn [fold_left]. unfold and_then at 2. cbn [fst snd].
  destruct ok; [|apply IH]. destruct (advance_counter t.1.1 t.1.2 t.2 e) as [ok e1] eqn:Ha.
  eapply server_same_trans; [|apply IH]. unfold advance_counter in Ha. destruct (positive_counter_delta _ _ _) as [n seen].
  destruct (0 <? n); [|by injection Ha as <- <-]. unfold inc in Ha. destruct (counter_inc _ _ _). by injection Ha as <- <-.
Qed.

Lemma publish_to_server mode m rd e : server_same e (publish_to mode m rd e).
Proof.
  unfold publish_to. set (e1 := update_from_system_metrics _ e). assert (server_same e e1) as H1 by apply writes_server.
  destruct (rd_diagnostics rd) as [d|]; [|done]. eapply server_same_trans; [exact H1|].
  unfold update_pipeline_diagnostics, with_engine_type, update_pipeline_poll_counts. case_decide; [|done].
  eapply server_same_trans; [apply writes_server|]. destruct (negb _); [done|]. case_decide; [|done].
  apply advance_all_server.
Qed.

Lemma publish_ok rd f r o r' cs :
  publish_metrics_snapshot rd f r = (o, r') → registry_ok r cs → registry_ok r' cs.
Proof.
  unfold publish_metrics_snapshot. destruct (fc_exporter f) as [i|]; [|by intros [= _ <-]].
  destruct (rd_metrics rd) as [m|]; [|by intros [= _ <-]]. intros [= _ <-] [H1 H2 H3 H4 H5 H6 H7].
  split; cbn -[alter]; try done.
  - intros port j Hj. destruct (H6 port j Hj) as (e & He & Hc). rewrite list_lookup_alter. case_decide as Hij; [subst j|by exists e].
    rewrite He. eexists. split; [done|]. by rewrite (proj2 (publish_to_server (fc_mode f) m rd e)).
  - intros j e. rewrite list_lookup_alter. case_decide as Hij; [subst j|by apply H7].
    destruct (rg_store r !! i) as [e0|] eqn:He; [|done]. intros [= <-] Hn.
    rewrite (proj1 (publish_to_server (fc_mode f) m rd e0)). by apply (H7 i).
Qed.

Lemma holds_none port f : fc_exporter f = None → holds port f = false.
Proof. unfold holds. intros ->. rewrite bool_decide_eq_false_2 by (by intros []). by rewrite andb_false_r. Qed.

Lemma holds_some port f i :
  fc_exporter f = Some i → mc_enabled (fc_config f) = true → holds port f = (mc_port (fc_config f) =? port).
Proof. unfold holds. intros -> ->. rewrite bool_decide_eq_true_2 by done. by rewrite andb_true_r. Qed.

(** A consumer that takes the cached exporter, or a new one *)
Lemma acquire_ok r r1 cs c f i (port := mc_port (fc_config f)) :
  cs !! c = Some f → fc_exporter f = None → mc_enabled (fc_config f) = true → registry_ok r cs →
  (od_get port (rg_exporters r) = Some i ∧ r1 = r)
  ∨ (od_get port (rg_exporters r) = None ∧ i = length (rg_store r) ∧
     ∃ reply, r1 = r <| rg_store ::= λ l, l ++ [new_exporter true reply] |> <| rg_exporters ::= od_set port i |>) →
  registry_ok (r1 <| rg_refcounts ::= λ n, od_set port (default 0 (od_get port n) + 1) n |>)
    (<[c := f <| fc_exporter := Some i |> <| fc_manager_exporter := Some i |> <| fc_poller_exporter := Some i |>]> cs).
Proof.
  intros Hc He Hen [H1 H2 H3 H4 H5 H6 H7] Hr. set (f' := f <| fc_exporter := _ |> <| fc_manager_exporter := _ |> <| fc_poller_exporter := _ |>).
  assert (∀ p, holders p (<[c := f']> cs) = holders p cs + Z.b2z (port =? p)) as Hh.
  { intros p. rewrite (holders_insert _ _ _ _ _ Hc), (holds_none _ f He), (holds_some _ f' i) by done.
    change (mc_port (fc_config f')) with port. change (Z.b2z false) with 0. lia. }
  assert (rg_refcounts r1 = rg_refcounts r) as Hcounts by (destruct Hr as [[_ ->]|(_ & _ & reply & ->)]; done).
  assert (∀ p, od_get p (rg_exporters r1) = if decide (p = port) then Some i else od_get p (rg_exporters r)) as Hx.
  { intros p. destruct Hr as [[Hr ->]|(_ & _ & reply & ->)]; cbn; [case_decide; by subst|]. rewrite od_get_set. by repeat case_decide; subst. }
  assert (∀ p j, p ≠ port → od_get p (rg_exporters r) = Some j → j ≠ i) as Hfresh.
  { intros p j Hp Hj ->. destruct Hr as [[Hr _]|(_ & -> & _)]; [by eapply Hp, H5|].
    destruct (H6 p _ Hj) as (e & He' & _). apply lookup_lt_Some in He'. lia. }
  split.
  - intros p. cbn. rewrite od_get_set, Hh, Hcounts, <-!H1. fold port.
    destruct (Z.eqb_spec port p) as [<-|Hne]; case_decide; try done; cbn; lia.
  - intros p. cbn. rewrite Hx, Hh. pose proof (holders_nonneg p cs). case_decide as Hp.
    + subst p. rewrite Z.eqb_refl. cbn. split; [lia|by eexists].
    + rewrite H2, (proj2 (Z.eqb_neq port p)) by done. cbn. split; lia.
  - intros g j [->|Hg]%replaced_elem; cbn; rewrite Hx.
    + intros [= <-]. by rewrite decide_True.
    + intros Hj. destruct (H3 g j Hg Hj) as [Hen' Hj']. split; [done|]. case_decide as Hp; [|done].
      destruct Hr as [[Hr _]|(Hr & _)]; rewrite Hp in Hj'; congruence.
  - intros g [->|Hg]%replaced_elem; [done|by apply H4].
  - intros p p' j. cbn. rewrite !Hx. intros Hp Hp'.
    destruct (decide (p = port)) as [->|Hn], (decide (p' = port)) as [->|Hn']; [done|..|by eapply H5].
    + simplify_eq. by destruct (Hfresh p' j).
    + simplify_eq. by destruct (Hfresh p j).
  - intros p j. cbn. rewrite Hx. destruct Hr as [[Hr ->]|(Hr & -> & reply & ->)]; cbn.
    + intros Hj. case_decide; [simplify_eq; by apply (H6 port)|by apply (H6 p)].
    + case_decide as Hp.
      * intros [= <-]. eexists. split; [apply list_lookup_middle; done|]. by destruct reply.
      * intros Hj. destruct (H6 p j Hj) as (e & He' & Hcalls). exists e. split; [|done]. by apply lookup_app_l_Some.
  - intros j e. cbn. destruct Hr as [[Hr ->]|(Hr & -> & reply & ->)]; cbn; intros Hj Hn.
    + by apply (H7 j).
    + apply lookup_app_Some in Hj as [Hj|[Hlen Hj]].
      * apply (H7 j); [done|]. intros p Hp. apply (Hn p). rewrite od_get_set. case_decide as Hpp; [|done]. subst. congruence.
      * exfalso. apply list_lookup_singleton_Some in Hj as [Hj _]. apply (Hn port). rewrite od_get_set_eq. f_equal. lia.
Qed.

Lemma close_spec e : ex_http_server (close e) = false ∧ (ex_http_server e = false → close e = e).
Proof. unfold close. by destruct (ex_http_server e) eqn:He. Qed.

Lemma release_ok r cs c f f' r' :
  cs !! c = Some f → registry_ok r cs → release_metrics_exporter f r = (f', r') → registry_ok r' (<[c := f']> cs).
Proof.
  intros Hc Hok. pose proof Hok as [H1 H2 H3 H4 H5 H6 H7]. unfold release_metrics_exporter, release_exporter. cbn -[alter od_pop od_get od_set].
  assert (f ∈ cs) as Hf by (by eapply list_elem_of_lookup_2).
  destruct (fc_exporter f) as [i|] eqn:He.
  2:{ intros [= <- <-]. destruct (H4 f Hf) as [Hm Hp]. eapply registry_ok_same; [done..|cbn; congruence| | |done]; cbn; congruence. }
  destruct (H3 f i Hf He) as [Hen Hi]. rewrite Hen, Hi. cbn -[alter od_pop od_get od_set]. set (port := mc_port (fc_config f)) in *.
  set (f1 := f <| fc_manager_exporter := None |> <| fc_poller_exporter := None |> <| fc_exporter := None |>).
  assert (∀ p, holders p (<[c := f1]> cs) = holders p cs - Z.b2z (port =? p)) as Hh.
  { intros p. rewrite (holders_insert _ _ _ _ _ Hc), (holds_none _ f1) by done. rewrite (holds_some _ f i) by done.
    change (Z.b2z false) with 0. fold port. lia. }
  assert (0 < holders port cs) as Hpos by (by apply H2; eexists).
  rewrite H1. destruct (Z.leb_spec (holders port cs) 1) as [Hle|Hgt]; intros [= <- <-].
  - assert (∀ g, g ∈ <[c := f1]> cs → fc_exporter g ≠ None → mc_enabled (fc_config g) = true → mc_port (fc_config g) ≠ port) as Hnone.
    { intros g Hg Hne Hge Hp. destruct (fc_exporter g) as [j|] eqn:Hj; [|done].
      pose proof (holders_pos port g _ Hg) as Hpp. rewrite (holds_some port g j Hj Hge), Hp, Z.eqb_refl, Hh, Z.eqb_refl in Hpp.
      cbn in Hpp. specialize (Hpp eq_refl). lia. }
    split; cbn -[alter od_pop od_get od_set].
    + intros p. rewrite od_get_pop, Hh, <-H1. destruct (Z.eqb_spec port p) as [<-|Hne]; case_decide; try done; cbn; [|lia].
      rewrite H1. lia.
    + intros p. rewrite od_get_pop, Hh. destruct (Z.eqb_spec port p) as [<-|Hne]; case_decide; try done; cbn.
      * split; [by intros []|lia].
      * rewrite H2. split; lia.
    + intros g j Hg Hj. pose proof Hg as [->|Hg']%replaced_elem; [done|]. destruct (H3 g j Hg' Hj) as [Hge Hgj].
      split; [done|]. rewrite od_get_pop_ne; [done|]. intros Heq. by apply (Hnone g Hg); [rewrite Hj| |].
    + intros g [->|Hg]%replaced_elem; [done|by apply H4].
    + intros p p' j. rewrite !od_get_pop. repeat case_decide; try done. apply H5.
    + intros p j. rewrite od_get_pop. case_decide as Hp; [done|]. intros Hj. destruct (H6 p j Hj) as (e & Hse & Hcalls).
      exists e. split; [|done]. rewrite list_lookup_alter_ne; [done|]. intros ->. apply Hp. by eapply H5.
    + intros j e. rewrite list_lookup_alter. case_decide as Hij.
      * destruct (rg_store r !! i) as [e0|]; [|done]. intros [= <-] _. apply close_spec.
      * intros Hj Hn. apply (H7 j); [done|]. intros p Hp. apply (Hn p). rewrite od_get_pop_ne; [done|].
        intros <-. rewrite Hi in Hp. by injection Hp.
  - split; cbn -[od_get od_set]; try done.
    + intros p. rewrite od_get_set, Hh. destruct (Z.eqb_spec port p) as [<-|Hne]; case_decide; try done; cbn. rewrite H1. lia.
    + intros p. rewrite Hh, H2. destruct (Z.eqb_spec port p) as [<-|Hne]; cbn; split; lia.
    + intros g j [->|Hg]%replaced_elem; [done|by apply H3].
    + intros g [->|Hg]%replaced_elem; [done|by apply H4].
Qed.

Lemma start_begin_ok server f r cs c o f' r' :
  cs !! c = Some f → registry_ok r cs → start_begin server f r = (o, f', r') → registry_ok r' (<[c := f']> cs).
Proof.
  intros Hc Hok. assert (f ∈ cs) as Hf by (by eapply list_elem_of_lookup_2).
  assert (registry_ok r (<[c := f]> cs)) as Hsame by (by apply (registry_ok_same r cs c f)).
  unfold start_begin, acquire_exporter. destruct (fc_exporter f) as [i|] eqn:He; [by intros [= <- <- <-]|].
  destruct (mc_enabled (fc_config f)) eqn:Hen; cbn [negb].
  2:{ intros [= <- <- <-]. destruct (ro_refs _ _ Hok f Hf) as [Hm Hp]. eapply registry_ok_same; [done..| | | |done]; cbn; congruence. }
  destruct (od_get (mc_port (fc_config f)) (rg_exporters r)) as [i|] eqn:Hx.
  - intros [= <- <- <-]. apply (acquire_ok r r cs c f i); try done. by left.
  - destruct server as [reply|]; [|by intros [= <- <- <-]]. intros [= <- <- <-].
    eapply (acquire_ok r _ cs c f (length (rg_store r))); try done. right. split; [done|]. split; [done|]. by exists reply.
Qed.

Lemma segment_ok s f r cs c f' r' :
  cs !! c = Some f → registry_ok r cs → run_segment s f r = (f', r') → registry_ok r' (<[c := f']> cs).
Proof.
  intros Hc Hok. destruct s; cbn [run_segment].
  - destruct (start_begin server f r) as [[o f1] r1] eqn:Hs. intros [= <- <-]. by eapply start_begin_ok.
  - unfold start_end. destruct (_ && _); [|intros [= <- <-]; by eapply registry_ok_same].
    destruct (publish_metrics_snapshot rd f r) as [o r1] eqn:Hp. apply (publish_ok _ _ _ _ _ cs) in Hp; [|done].
    destruct o; intros [= <- <-]; by eapply registry_ok_same.
  - destruct (publish_metrics_snapshot rd f r) as [o r1] eqn:Hp. apply (publish_ok _ _ _ _ _ cs) in Hp; [|done].
    intros [= <- <-]; by eapply registry_ok_same.
  - intros [= <- <-]; by eapply registry_ok_same.
  - intros [= <- <-]. unfold poller_stop. case_decide; by eapply registry_ok_same.
  - intros [= <- <-]. unfold engine_shutdown. case_decide; by eapply registry_ok_same.
  - by eapply release_ok.
Qed.

Lemma new_world_ok configs : registry_ok (wd_registry (new_world configs)) (wd_consumers (new_world configs)).
Proof.
  assert (∀ p, holders p (wd_consumers (new_world configs)) = 0) as Hh.
  { intros p. unfold new_world, wd_consumers. induction configs as [|[cfg mode] configs IH]; [done|].
    rewrite fmap_cons, holders_cons, IH, holds_none by done. done. }
  assert (∀ g, g ∈ wd_consumers (new_world configs) → ∃ cfg mode, g = new_facade cfg mode) as Hg.
  { intros g Hg. apply list_elem_of_fmap in Hg as ([cfg mode] & -> & _). by exists cfg, mode. }
  split.
  - intros p. rewrite Hh. reflexivity.
  - intros p. rewrite Hh. split; [by intros []|lia].
  - intros g i Hin Hi. destruct (Hg g Hin) as (cfg & mode & ->). discriminate Hi.
  - intros g Hin. by destruct (Hg g Hin) as (cfg & mode & ->).
  - intros p p' i Hp. discriminate Hp.
  - intros p i Hp. discriminate Hp.
  - intros i e Hi. discriminate Hi.
Qed.

Lemma world_run_ok configs sections :
  let w := world_run (new_world configs) sections in registry_ok (wd_registry w) (wd_consumers w).
Proof.
  cbv zeta. unfold world_run. pose proof (new_world_ok configs) as Hok. revert Hok. generalize (new_world configs).
  induction sections as [|[c s] sections IH]; intros w Hok; [done|]. apply IH. unfold world_step. cbn [fst snd].
  destruct (wd_consumers w !! c) as [f|] eqn:Hc; [|done].
  destruct (run_segment s f (wd_registry w)) as [f' r'] eqn:Hs. by eapply segment_ok.
Qed.

(** C39. Consumers of one process share exporters soundly: in whatever way the sections of their starts,
    failed starts, metrics loops and stops interleave, the reference count of a port is the number
    of consumers that hold its exporter; an exporter is cached exactly while somebody holds it; a
    consumer, its work manager and its poller hold the same exporter, the one cached for its port,
    whose server has not been shut down; and an exporter nobody holds has no server left. *)
Theorem exporters_shared_soundly configs sections :
  let w := world_run (new_world configs) sections in
  let r := wd_registry w in
  (∀ port, default 0 (od_get port (rg_refcounts r)) = holders port (wd_consumers w)
     ∧ (is_Some (od_get port (rg_exporters r)) ↔ 0 < holders port (wd_consumers w)))
  ∧ (∀ f i, f ∈ wd_consumers w → fc_exporter f = Some i →
       fc_manager_exporter f = Some i ∧ fc_poller_exporter f = Some i
       ∧ od_get (mc_port (fc_config f)) (rg_exporters r) = Some i
       ∧ ∃ e, rg_store r !! i = Some e ∧ ex_server_calls e = [])
  ∧ (∀ i e, rg_store r !! i = Some e → (∀ f, f ∈ wd_consumers w → fc_exporter f ≠ Some i) → ex_http_server e = false).
Proof.
  cbv zeta. pose proof (world_run_ok configs sections) as [H1 H2 H3 H4 H5 H6 H7].
  set (w := world_run (new_world configs) sections) in *.
  split; [by intros port|]. split.
  - intros f i Hf Hi. destruct (H3 f i Hf Hi) as [_ Hc]. destruct (H4 f Hf) as [-> ->]. split_and!; try done. by eapply H6.
  - intros i e He Hn. apply (H7 i e He). intros port Hp.
    assert (0 < holders port (wd_consumers w)) as Hpos by (by apply H2; eexists).
    assert (∃ f, f ∈ wd_consumers w ∧ holds port f = true) as (f & Hf & Hh).
    { clear -Hpos. induction (wd_consumers w) as [|f cs IH]; [done|]. rewrite holders_cons in Hpos.
      destruct (holds port f) eqn:Hh; [exists f; split; [left|done]|]. cbn in Hpos. destruct IH as (g & ? & ?); [lia|].
      exists g. split; [by right|done]. }
    unfold holds in Hh. apply andb_prop in Hh as [[Hen Hport]%andb_prop Hs]. apply bool_decide_eq_true in Hs as [j Hj].
    apply (Hn f Hf). destruct (H3 f j Hf Hj) as [_ Hjc]. apply Z.eqb_eq in Hport. rewrite Hport in Hjc. congruence.
Qed.
End world.

(** ** Start and stop *)

Section lifecycle.
Context `{PL : PrometheusLib}.
Implicit Types (r : Registry) (f : Facade) (a : Answers).

(** Nothing is left of a run: no task, no exporter, and the engine is down. *)
Definition at_rest f : Prop :=
  fc_task f = false ∧ fc_exporter f = None ∧ fc_manager_exporter f = None ∧ fc_poller_exporter f = None
  ∧ fc_engine_down f = true.

Definition same_counts r r' : Prop :=
  ∀ port, default 0 (od_get port (rg_refcounts r')) = default 0 (od_get port (rg_refcounts r)).

Lemma same_counts_refl r : same_counts r r.
Proof. done. Qed.

Lemma shutdown_and_release_rest a f r o f' r' :
  shutdown_and_release a f r = (o, f', r') → an_engine_shutdown a = Done → fc_task f = false →
  o = Done ∧ at_rest f' ∧ r' = release_exporter (fc_config f) (fc_exporter f) r ∧ fc_poller_stopped f' = fc_poller_stopped f.
Proof.
  unfold shutdown_and_release. intros Hs Hd Ht. rewrite Hd in Hs. unfold engine_shutdown in Hs. cbn in Hs.
  injection Hs as <- <- <-. by split_and!.
Qed.

(** A stop takes everything down and reports what happened: when the poller's stop returns or
    raises and the engine's shutdown returns, the engine is down, the metrics task and the exporter
    are released, the work manager and the poller have dropped the exporter, and the poller's
    exception, if any, is raised after that; when the stop is cut short by a cancellation, a failing
    metrics read or a failing shutdown, the consumer still holds its exporter, so that stopping it
    again releases it. *)
Theorem stop_releases a f r o f' r' :
  stop a f r = (o, f', r') →
  (an_poller_stop a ≠ Cancelled → an_engine_shutdown a = Done → (fc_exporter f = None ∨ is_Some (rd_metrics (an_reading a))) →
     o = an_poller_stop a ∧ at_rest f' ∧ (an_poller_stop a = Done → fc_poller_stopped f' = true))
  ∧ (at_rest f' ∨ (o ≠ Done ∧ fc_exporter f' = fc_exporter f ∧ fc_task f' = false)).
Proof.
  intros Hs. unfold stop in Hs. set (f1 := poller_stop (an_poller_stop a) (stop_metrics_loop f)) in *.
  assert (fc_exporter f1 = fc_exporter f ∧ fc_task f1 = false ∧ (an_poller_stop a = Done → fc_poller_stopped f1 = true)) as (E1 & E2 & E3).
  { unfold f1, poller_stop. by case_decide. }
  destruct (decide (an_poller_stop a = Cancelled)) as [Hc|Hc].
  { rewrite Hc in Hs. injection Hs as <- <- <-. split; [done|]. by right. }
  destruct (publish_metrics_snapshot (an_reading a) f1 r) as [op r1] eqn:Hp.
  assert (match an_poller_stop a with Cancelled => (Cancelled, f1, r)
    | pr => match op with Done => let '(o', f2, r2) := shutdown_and_release a f1 r1 in (if decide (o' = Done) then pr else o', f2, r2)
            | _ => (op, f1, r1) end end = (o, f', r')) as Hs' by exact Hs.
  assert (op = Done ∨ (op = RaisesError ∧ fc_exporter f ≠ None ∧ rd_metrics (an_reading a) = None)) as Hop.
  { revert Hp. unfold publish_metrics_snapshot. rewrite E1. destruct (fc_exporter f); [|intros [= <- _]; by left].
    destruct (rd_metrics (an_reading a)); intros [= <- _]; [by left|by right]. }
  destruct Hop as [->|(-> & Hne & Hnr)].
  2:{ assert (o = RaisesError ∧ f' = f1) as [-> ->] by (destruct (an_poller_stop a); [injection Hs' as <- <- _; by split..|done]).
      split; [|by right]. intros _ _ [?|[? Hr]]; congruence. }
  destruct (shutdown_and_release a f1 r1) as [[o2 f2] r2] eqn:Hd.
  assert (o = (if decide (o2 = Done) then an_poller_stop a else o2) ∧ f' = f2) as [-> ->]
    by (destruct (an_poller_stop a); [injection Hs' as <- <- _; by split..|done]).
  destruct (an_engine_shutdown a) eqn:Hed.
  - destruct (shutdown_and_release_rest a f1 r1 _ _ _ Hd Hed E2) as (-> & H1 & _ & H2). rewrite decide_True by done.
    split; [|by left]. intros _ _ _. split; [done|]. split; [done|]. rewrite H2. exact E3.
  - unfold shutdown_and_release, engine_shutdown in Hd. rewrite Hed in Hd. cbn in Hd. injection Hd as <- <- <-.
    split; [done|]. by right.
  - unfold shutdown_and_release, engine_shutdown in Hd. rewrite Hed in Hd. cbn in Hd. injection Hd as <- <- <-.
    split; [done|]. by right.
Qed.

(** What [start] holds after its first section, and what its failure gives back *)
Lemma start_begin_spec server f r o f1 r1 :
  start_begin server f r = (o, f1, r1) → fc_exporter f = None → fc_manager_exporter f = None → fc_poller_exporter f = None →
  fc_config f1 = fc_config f ∧ fc_task f1 = fc_task f ∧ fc_engine_down f1 = fc_engine_down f
  ∧ match o with
    | Done =>
        bool_decide (is_Some (fc_exporter f1)) = mc_enabled (fc_config f)
        ∧ ∀ port, default 0 (od_get port (rg_refcounts r1))
            = default 0 (od_get port (rg_refcounts r)) + Z.b2z (mc_enabled (fc_config f) && (mc_port (fc_config f) =? port))
    | RaisesError => f1 = f ∧ r1 = r
    | Cancelled => False
    end.
Proof.
  unfold start_begin, acquire_exporter. intros Hs He _ _. rewrite He in Hs. revert Hs.
  destruct (mc_enabled (fc_config f)); cbn [negb].
  2:{ intros [= <- <- <-]. split_and!; try done. intros port. cbn. lia. }
  assert (∀ (n : odict Z Z) port p, default 0 (od_get p (od_set port (default 0 (od_get port n) + 1) n))
    = default 0 (od_get p n) + Z.b2z (port =? p)) as Hset.
  { intros n port p. rewrite od_get_set. destruct (Z.eqb_spec port p) as [<-|Hne]; case_decide; try done; cbn; lia. }
  destruct (od_get _ (rg_exporters r)) as [i|].
  - intros [= <- <- <-]. split_and!; try done. intros port. apply Hset.
  - destruct server as [reply|]; intros [= <- <- <-]; split_and!; try done. intros port. apply Hset.
Qed.

Lemma publish_counts rd f r o r1 : publish_metrics_snapshot rd f r = (o, r1) → rg_refcounts r1 = rg_refcounts r ∧ o ≠ Cancelled.
Proof.
  unfold publish_metrics_snapshot. destruct (fc_exporter f); [|by intros [= <- <-]].
  destruct (rd_metrics rd); by intros [= <- <-].
Qed.

Lemma release_counts cfg exporter r port :
  0 ≤ default 0 (od_get (mc_port cfg) (rg_refcounts r)) →
  default 0 (od_get port (rg_refcounts (release_exporter cfg exporter r)))
  = if bool_decide (is_Some exporter) && mc_enabled cfg && (mc_port cfg =? port)
    then Z.max 0 (default 0 (od_get port (rg_refcounts r)) - 1) else default 0 (od_get port (rg_refcounts r)).
Proof.
  intros Hn. unfold release_exporter. destruct exporter as [i|]; [|done]. cbn [bool_decide].
  rewrite bool_decide_eq_true_2 by done. cbn [andb]. destruct (mc_enabled cfg); [|done]. cbn [negb andb].
  destruct (Z.leb_spec (default 0 (od_get (mc_port cfg) (rg_refcounts r))) 1) as [Hle|Hgt].
  - assert (rg_refcounts match od_get (mc_port cfg) (rg_exporters r) with
      | Some j => (r <| rg_refcounts ::= od_pop (mc_port cfg) |>) <| rg_exporters ::= od_pop (mc_port cfg) |> <| rg_store ::= alter close j |>
      | None => r <| rg_refcounts ::= od_pop (mc_port cfg) |> end = od_pop (mc_port cfg) (rg_refcounts r)) as ->
      by (by destruct (od_get (mc_port cfg) (rg_exporters r))).
    destruct (Z.eqb_spec (mc_port cfg) port) as [<-|Hne]; [rewrite od_get_pop_eq; cbn; lia|by rewrite od_get_pop_ne].
  - cbn -[od_set]. rewrite od_get_set. destruct (Z.eqb_spec (mc_port cfg) port) as [<-|Hne]; case_decide; try done. cbn. lia.
Qed.

End lifecycle.

(** ** A consumer with metrics on port 9091 *)

Definition facade_demo_config : MetricsConfig := mkMetricsConfig true 9091.
Definition facade_demo : Facade := new_facade facade_demo_config "async".
Definition facade_demo_metrics : SystemMetrics := mkSystemMetrics 0 false [] None None None None 0.

Definition facade_demo_answers (poller_start poller_stop : Outcome) : Answers :=
  mkAnswers (Some (ServerAndThread true)) poller_start poller_stop Done (mkReading (Some facade_demo_metrics) None None).

Definition facade_demo_started : Outcome * Facade * Registry :=
  start (facade_demo_answers Done RaisesError) facade_demo (mkRegistry [] [] []).

(** The poller fails to start: everything is undone. *)
Definition facade_demo_failed : Outcome * Facade * Registry :=
  start (facade_demo_answers RaisesError Done) facade_demo (mkRegistry [] [] []).


(** Stopping the started consumer while its poller raises *)
Definition facade_demo_stopped : Outcome * Facade * Registry :=
  stop (facade_demo_answers Done RaisesError) facade_demo_started.1.2 facade_demo_started.2.

Lemma stop_releases_witness :
  fc_exporter facade_demo_started.1.2 = Some 0%nat
  ∧ facade_demo_stopped.1.1 = RaisesError ∧ at_rest facade_demo_stopped.1.2
  ∧ (ex_server_calls <$> rg_store facade_demo_stopped.2) = [[CallShutdown; CallServerClose; CallJoin]].
Proof.
  destruct (stop_releases (facade_demo_answers Done RaisesError) facade_demo_started.1.2 facade_demo_started.2
    facade_demo_stopped.1.1 facade_demo_stopped.1.2 facade_demo_stopped.2 eq_refl) as [H _].
  destruct H as (H1 & H2 & _); [discriminate|reflexivity|right; by eexists|].
  split; [reflexivity|]. split; [exact H1|]. split; [exact H2|reflexivity].
Defined.

(** Two consumers share the port; the first stops. *)
Lemma shared_exporter_demo :
  let w := world_run (new_world [(facade_demo_config, "async"); (facade_demo_config, "process")])%string
    [(0, SegStartBegin (Some ServerAlone)); (1, SegStartBegin None); (0, SegStopLoop); (0, SegRelease)]%nat in
  rg_refcounts (wd_registry w) = [(9091, 1)] ∧ (fc_exporter <$> wd_consumers w) = [None; Some 0%nat]
  ∧ (ex_server_calls <$> rg_store (wd_registry w)) = [[]].
Proof. by vm_compute. Qed.
