(* ===== verification/ConsumerPublish.v ===== *)
(** * What a consumer publishes about its broker
    ([_publish_metrics_snapshot] of [pyrallel_consumer/consumer.py] over [BrokerPoller.get_metrics]
    and [get_pipeline_diagnostics])

    The composition of the broker's rows, the composed diagnostics and the exporter: what a scrape
    shows is true of the broker. *)

From S2P Require Import Prelude Vendor Runtime Dto OffsetTracker WorkQueueTopology ExecutionEngine WorkManager WorkManagerDiagnostics Adaptive MetricsDto Prometheus MetricsExporter MetricsScrape Broker BrokerInv BrokerSafety BrokerSystem BrokerLoop BrokerMetrics BrokerDiagnostics ConsumerFacade.

Section published.
Context `{PL : PrometheusLib}.
Context {E : Type} `{EE : ExecutionEngine E} `{TL : TrackerLibs} `{RT : Runtime}.
Implicit Types (b : Broker E).

(** The rows of [get_metrics], partition by partition *)
Lemma metrics_rows now clock is_paused ab ac rm b :
  trackers_wf b →
  let m := (get_metrics now clock is_paused ab ac rm b).1 in
  pm_tp <$> sm_partitions m = od_keys (trackers b)
  ∧ sm_total_in_flight m = current_in_flight_count (wm b)
  ∧ ∀ tp t, get_tracker tp b = Some t → (partition_metrics (now tp) (clock tp) b tp t).1 ∈ sm_partitions m.
Proof.
  intros Hwf. unfold get_metrics, build_system_metrics.
  pose proof (rows_of_spec _ (od_keys (trackers b)) b (metrics_reader now clock) Hwf (reflexivity _)) as [Hrows _].
  destruct (rows_of _ _ b) as [rows b1]. cbn [fst sm_partitions sm_total_in_flight] in *. split; [|split; [done|]].
  - clear -Hrows. induction Hrows as [|tp p tps rows (t & _ & ->) _ IH]; [done|]. rewrite fmap_cons, IH.
    unfold partition_metrics. by destruct (read_tracker _ _ _) as [[[g o] d] t'].
  - intros tp t Ht. assert (tp ∈ od_keys (trackers b)) as Hin.
    { apply elem_of_od_keys. unfold get_tracker in Ht. by destruct (od_get tp (trackers b)). }
    apply list_elem_of_lookup in Hin as [i Hi]. destruct (Forall2_lookup_l _ _ _ _ _ Hrows Hi) as (p & Hp & u & Hu & ->).
    rewrite Ht in Hu. injection Hu as <-. by eapply list_elem_of_lookup_2.
Qed.

Lemma partition_row now clock b tp t :
  tracker_inv t →
  let p := (partition_metrics now clock b tp t).1 in
  pm_tp p = tp ∧ pm_true_lag p = last_fetched_offset t - last_committed_offset t ∧ pm_gap_count p = zlen (scan_gaps t)
  ∧ pm_queued_count p = default 0 (dict_items <$> od_get tp (virtual_partition_queues (queue_topology (wm b)))).
Proof.
  intros Hi. unfold partition_metrics, read_tracker. pose proof (get_gaps_value now t Hi) as Hv.
  destruct (OffsetTracker.get_gaps now t) as [gaps t']. cbn in *. subst. pose proof (inv_le _ Hi).
  split_and!; [done|unfold true_lag; lia|done|apply queued_count_items].
Qed.

(** Gauges of the system metrics are not touched by the pipeline diagnostics. *)
Lemma publish_to_system mode m rd e f ls :
  (∀ engine_type, (f, ls) ∉ pipeline_targets engine_type) →
  sample (publish_to mode m rd e) f ls
  = sample (update_from_system_metrics (m <| sm_resource_signal := Some (default (mkResourceSignal UNAVAILABLE None None) (rd_signal rd)) |>) e) f ls.
Proof.
  intros Hn. unfold publish_to. destruct (rd_diagnostics rd) as [d|]; [|done]. apply pipeline_frame, Hn.
Qed.

Lemma partition_gauge_system f ls engine_type : f ∈ in_flight_gauge :: partition_gauges → (f, ls) ∉ pipeline_targets engine_type.
Proof.
  intros Hf Hin. unfold pipeline_targets in Hin. apply list_elem_of_bind in Hin as ([g lss] & Hin & Hg).
  apply list_elem_of_fmap in Hin as (ls' & [= -> ->] & _). apply (list_elem_of_fmap_2 fst) in Hg.
  assert (Forall (λ h, h ∉ in_flight_gauge :: partition_gauges) (fst <$> pipeline_series [engine_type])) as Hd.
  { change (fst <$> pipeline_series [engine_type]) with (fst <$> pipeline_series [""%string]).
    apply (bool_decide_unpack (Forall (λ h, h ∉ in_flight_gauge :: partition_gauges) (fst <$> pipeline_series [""%string]))).
    by vm_compute. }
  rewrite Forall_forall in Hd. exact (Hd _ Hg Hf).
Qed.

Lemma section_shown rm (p : Poller (E := E)) s :
  s ∈ [STAGES; BLOCKED; SUBQUEUES; SETTLEMENT] → section_supported (poller_pipeline_diagnostics rm p) s = true.
Proof.
  intros Hs. unfold section_supported. rewrite composed_sections. apply bool_decide_eq_true_2.
  destruct s; try done; set_solver.
Qed.

(** C37. A scrape after a published snapshot is true of the broker: each assigned partition shows its true
    lag, the number of its gaps and of its queued items, and the in-flight gauge shows the dispatched
    items; the diagnostics balance - the eligible items and the items blocked for each reason add up to
    the items of the queues that the queued stage shows; a pending dead-letter event shows as the
    settlement blocker; and the series of a partition that is not assigned stay what they were. *)
Theorem published_snapshot_truthful f r i e now clock is_paused ab ac rm signal b (p : Poller (E := E)) o r' :
  fc_exporter f = Some i → rg_store r !! i = Some e → fc_mode f ∈ PIPELINE_ENGINE_TYPES →
  trackers_wf b → trackers_sound b → po_broker p = (get_metrics now clock is_paused ab ac rm b).2 →
  publish_metrics_snapshot
    (mkReading (Some (get_metrics now clock is_paused ab ac rm b).1) signal (Some (poller_pipeline_diagnostics rm p))) f r
  = (o, r') →
  ∃ e', o = Done ∧ rg_store r' !! i = Some e'
  ∧ (∀ tp t, get_tracker tp b = Some t →
       ∃ blocked, shows_partition e' tp (last_fetched_offset t - last_committed_offset t) (zlen (scan_gaps t))
         (default 0 (dict_items <$> od_get tp (virtual_partition_queues (queue_topology (wm b))))) blocked)
  ∧ sample e' in_flight_gauge [] = Some (inject_Z (current_in_flight_count (wm b)))
  ∧ (∃ eligible n,
       sample e' stage_messages_gauge ["queued"%string; fc_mode f] = Some (inject_Z (total_items (queue_topology (wm (po_broker p)))))
       ∧ sample e' subqueue_items_gauge ["eligible"%string; fc_mode f] = Some (inject_Z eligible)
       ∧ (∀ reason, sample e' blocked_messages_gauge [blocked_reason_value reason; fc_mode f] = Some (inject_Z (n reason)))
       ∧ eligible + foldr Z.add 0 (n <$> all_blocked_reasons) = total_items (queue_topology (wm (po_broker p))))
  ∧ (pending_dlq_events (po_broker p) ≠ [] →
       sample e' settlement_blocker_state_gauge ["dlq_publish_pending"%string; fc_mode f] = Some 1%Q)
  ∧ (∀ g tp, g ∈ partition_gauges → tp ∉ od_keys (trackers b) →
       sample e' g (partition_labels tp) = sample e g (partition_labels tp)).
Proof.
  intros Hf He Hmode Hwf Hsound Hp. unfold publish_metrics_snapshot. rewrite Hf. intros [= <- <-].
  destruct (metrics_rows now clock is_paused ab ac rm b Hwf) as (Htps & Hfl & Hrows).
  set (m := (get_metrics now clock is_paused ab ac rm b).1) in *.
  set (rd := mkReading _ _ _). eexists. split; [done|]. split; [cbn -[alter]; by rewrite list_lookup_alter_eq, He|].
  set (m' := m <| sm_resource_signal := Some (default (mkResourceSignal UNAVAILABLE None None) (rd_signal rd)) |>).
  assert (NoDup (pm_tp <$> sm_partitions m')) as Hnd by (change (sm_partitions m') with (sm_partitions m); rewrite Htps; apply Hwf).
  assert (∀ g ls, g ∈ in_flight_gauge :: partition_gauges →
    sample (publish_to (fc_mode f) m rd e) g ls = sample (update_from_system_metrics m' e) g ls) as Hsys.
  { intros g ls Hg. apply publish_to_system. intros et. by apply partition_gauge_system. }
  destruct (update_shows_partitions m' e Hnd) as [Hshow Hstay]. destruct (update_shows_system m' e Hnd) as (Hin & _).
  split; [|split; [|split; [|split]]].
  - intros tp t Ht. pose proof (Hrows tp t Ht) as Hrow. specialize (Hshow _ Hrow).
    destruct (partition_row (now tp) (clock tp) b tp t (Hsound _ _ Ht)) as (E1 & E2 & E3 & E4).
    rewrite E1, E2, E3, E4 in Hshow. destruct Hshow as (S1 & S2 & S3 & S4).
    eexists. unfold shows_partition. rewrite !Hsys by (unfold partition_gauges; set_solver). by split_and!.
  - rewrite Hsys by (by left). rewrite Hin. by rewrite <-Hfl.
  - change (publish_to (fc_mode f) m rd e)
      with (update_pipeline_diagnostics (poller_pipeline_diagnostics rm p) (fc_mode f) (update_from_system_metrics m' e)).2.
    destruct (diagnose_queues_ok (wm (po_broker p))) as [[D1 D2 _ _] D5].
    destruct (composed_fields rm p) as (F1 & F2 & F3 & F4 & _).
    exists (eligible_items (diagnose_queues (wm (po_broker p)))),
      (λ reason, default 0 (pc_count <$> od_get reason (pds_blocked_counts (pipeline_snapshot 10 (wm (po_broker p)))))).
    split; [|split; [|split]].
    + rewrite (pipeline_shown _ _ _ _ _ _ _ Hmode (stage_write _ _ QUEUED)), section_shown, F3, F4, <-D5 by set_solver. done.
    + rewrite (pipeline_shown _ _ _ _ _ _ _ Hmode (subqueue_item_write _ _ "eligible" (eligible_items (diagnose_queues (wm (po_broker p)))) ltac:(unfold subqueue_item_values; rewrite F2; right; left))).
      by rewrite section_shown by set_solver.
    + intros reason. rewrite (pipeline_shown _ _ _ _ _ _ _ Hmode (blocked_write _ _ reason)), section_shown, F1 by set_solver. done.
    + rewrite blocked_counts_total. lia.
  - intros Hd. change (publish_to (fc_mode f) m rd e)
      with (update_pipeline_diagnostics (poller_pipeline_diagnostics rm p) (fc_mode f) (update_from_system_metrics m' e)).2.
    destruct (composed_fields rm p) as (_ & _ & _ & _ & F5).
    rewrite (pipeline_shown _ _ _ _ _ _ _ Hmode (blocker_write _ _ DLQ_PUBLISH_PENDING)), section_shown, F5 by set_solver. cbn.
    by rewrite (proj2 (proj1 (blocker_reason_spec (po_broker p))) Hd).
  - intros g tp Hg Htp. rewrite Hsys by (by right). apply Hstay; [done|]. change (sm_partitions m') with (sm_partitions m). by rewrite Htps.
Qed.
End published.

(** The broker of the snapshot example, published by the started consumer *)

#[local] Instance facade_demo_libs : TrackerLibs := vendor_lists.

Definition published_demo_metrics : SystemMetrics * Broker DemoEngine :=
  get_metrics (λ _ _, 1%Q) (λ _, 3%Q) false None None None metrics_demo_broker.

Definition published_demo_poller : Poller (E := DemoEngine) :=
  mkPoller
    (mkLimits 5 5 3 0 0 false (new_backpressure_controller 5 demo_backpressure_config)
       (new_concurrency_controller demo_concurrency_config 5) (system_demo_2 <| sy_broker := published_demo_metrics.2 |>) [])
    LoopTop MonitorTop true 1 1 0 0 {[system_demo_tp]} ∅ false.

Definition published_demo_facade : Facade := facade_demo_started.1.2.
Definition published_demo_registry : Registry := facade_demo_started.2.
Definition published_demo_exporter : Exporter := default (new_exporter true NoServer) (rg_store published_demo_registry !! 0%nat).
Definition published_demo_reading : Reading :=
  mkReading (Some published_demo_metrics.1) None (Some (poller_pipeline_diagnostics None published_demo_poller)).
Definition published_demo_result : Outcome * Registry :=
  publish_metrics_snapshot published_demo_reading published_demo_facade published_demo_registry.

Lemma published_snapshot_truthful_witness :
  ∃ e', rg_store published_demo_result.2 !! 0%nat = Some e'
  ∧ sample e' lag_gauge (partition_labels system_demo_tp)
    = Some (inject_Z (last_fetched_offset metrics_demo_tracker - last_committed_offset metrics_demo_tracker))
  ∧ sample e' lag_gauge ["other"; "3"]%string = None.
Proof.
  assert (rg_store published_demo_registry !! 0%nat = Some published_demo_exporter) as He by reflexivity.
  destruct (published_snapshot_truthful published_demo_facade published_demo_registry 0 published_demo_exporter
    (λ _ _, 1%Q) (λ _, 3%Q) false None None None None metrics_demo_broker published_demo_poller
    published_demo_result.1 published_demo_result.2 eq_refl He ltac:(left) (proj1 (bo_ready _ _ _ metrics_demo_ok))
    metrics_demo_sound eq_refl (surjective_pairing _)) as (e' & _ & H1 & H2 & _ & _ & _ & H6).
  exists e'. split; [exact H1|]. split.
  - destruct (H2 system_demo_tp metrics_demo_tracker) as (blocked & [H _]); [|exact H].
    unfold metrics_demo_tracker. apply default_some. by vm_compute.
  - change ["other"; "3"]%string with (partition_labels (mkTp "other" 3)). etransitivity.
    + apply (H6 lag_gauge (mkTp "other" 3)); [left|].
      assert (od_keys (trackers metrics_demo_broker) = [system_demo_tp]) as -> by (vm_compute; reflexivity).
      by intros [=]%list_elem_of_singleton.
    + reflexivity.
Defined.
