(* ===== verification/BrokerLifecycle.v ===== *)
(** * Start, stop and the end of the consumer task
    ([control_plane/broker_lifecycle_support.py], [broker_task_lifecycle_support.py] and the
    [finally] clause of [_run_consumer] in [broker_poller.py])

    The consumer task, one caller in [stop] (callers hold the stop lock one after the other) and
    any number of callers of [wait_closed], cut where they wait.  What the loop itself does is in
    [BrokerLoop]; here it ends, fails or is cancelled at any moment.  Kafka clients appear as the
    number of times the runtime was cleaned up. *)

From S2P Require Import Prelude.

(** Where the task that runs [_run_consumer] is *)
Inductive TaskAt :=
  | NoTask
  | InLoop                       (* in the [try] block *)
  | Leaving                      (* in the [finally] clause, waiting for the cancelled monitor *)
  | CleaningUp                   (* in [_cleanup] *)
  | TaskReturned                 (* the [finally] clause was run to its end *)
  | TaskRaised (error : string)  (* an exception left the [finally] clause *)
  | TaskCancelled.               (* [CancelledError] left the [finally] clause *)

(** Where the caller of [stop] is; [cleanup] is [cleanup_after_drain] *)
Inductive StopAt :=
  | NotStopping
  | AwaitTask (cleanup : bool)                                (* [wait_for(consumer_task, timeout)] *)
  | AwaitCancelled (cleanup : bool)                           (* [wait_for] cancelled the task *)
  | AwaitEvent (cleanup : bool)                               (* [shutdown_event.wait()] *)
  | Draining (cleanup : bool)                                 (* [_drain_shutdown_work] *)
  | StopCleanup (error : option string).                      (* [cleanup] in the [finally] clause *)

(** How [stop] and [wait_closed] have ended *)
Inductive Outcome := StopReturned | StopRaised (error : string) | WaitReturned | WaitRaised (error : string).

Record Lifecycle := mkLifecycle {
  lc_running : bool;                       (* _running *)
  lc_shutdown_event : bool;                (* _shutdown_event.is_set() *)
  lc_fatal_error : option string;          (* _fatal_error *)
  lc_consumer_task : bool;                 (* _consumer_task is not None *)
  lc_monitor_task : bool;                  (* _completion_monitor_task is not None *)
  lc_defer_cleanup : bool;                 (* _defer_consumer_cleanup_for_stop *)
  lc_task : TaskAt;
  lc_stop : StopAt;
  lc_cleanups : nat;                       (* cleanups begun since the last start *)
  lc_outcomes : list Outcome;              (* of this start, newest last *)
}.

#[export] Instance Lifecycle_settable : Settable Lifecycle :=
  λ l, mkLifecycle (lc_running l) (lc_shutdown_event l) (lc_fatal_error l) (lc_consumer_task l) (lc_monitor_task l)
         (lc_defer_cleanup l) (lc_task l) (lc_stop l) (lc_cleanups l) (lc_outcomes l).

Definition new_lifecycle : Lifecycle := mkLifecycle false false None false false false NoTask NotStopping 0 [].

Definition task_over (t : TaskAt) : bool :=
  match t with NoTask | TaskReturned | TaskRaised _ | TaskCancelled => true | _ => false end.

Section lifecycle.
(** [_shutdown_policy() == "graceful"] and [strict_completion_monitor_enabled] *)
Context (graceful strict_monitor : bool).

(** ** Starting *)

(** [start]; the clients and the tasks are created in [start_runtime] *)
Definition start (l : Lifecycle) : Lifecycle :=
  if lc_running l then l
  else mkLifecycle true false None true strict_monitor (lc_defer_cleanup l) InLoop (lc_stop l) 0 [].

(** ** The [finally] clause of [_run_consumer] *)

Definition finish_task (l : Lifecycle) : Lifecycle :=
  l <| lc_shutdown_event := true |> <| lc_consumer_task := false |> <| lc_task := TaskReturned |>.

Definition after_monitor (l : Lifecycle) : Lifecycle :=
  let l1 := l <| lc_monitor_task := false |> in
  if lc_defer_cleanup l1 then finish_task l1 else l1 <| lc_task := CleaningUp |> <| lc_cleanups ::= S |>.

Definition leave_loop (l : Lifecycle) : Lifecycle :=
  let l1 := l <| lc_running := false |> in
  if lc_monitor_task l1 then l1 <| lc_task := Leaving |> else after_monitor l1.

(** The loop's [except] clause *)
Definition loop_failed (error : string) (l : Lifecycle) : Lifecycle := leave_loop (l <| lc_fatal_error := Some error |>).

(** [CancelledError] in the loop runs the [finally] clause; in that clause it leaves it *)
Definition cancel_task (l : Lifecycle) : Lifecycle :=
  match lc_task l with
  | InLoop => leave_loop l
  | Leaving | CleaningUp => l <| lc_task := TaskCancelled |>
  | _ => l
  end.

(** ** Stopping *)

Definition end_stop (o : Outcome) (l : Lifecycle) : Lifecycle :=
  l <| lc_stop := NotStopping |> <| lc_outcomes ::= λ os, os ++ [o] |>.

(** The [finally] clause of [stop] *)
Definition leave_stop (cleanup : bool) (error : option string) (l : Lifecycle) : Lifecycle :=
  if cleanup then l <| lc_defer_cleanup := false |> <| lc_stop := StopCleanup error |> <| lc_cleanups ::= S |>
  else end_stop (match error with Some e => StopRaised e | None => StopReturned end) l.

(** [_raise_if_failed] *)
Definition raise_if_failed (l : Lifecycle) : option string * Lifecycle := (lc_fatal_error l, l <| lc_fatal_error := None |>).

(** From [_raise_if_failed] on *)
Definition after_runtime_stopped (cleanup : bool) (l : Lifecycle) : Lifecycle :=
  match raise_if_failed l with
  | (Some e, l1) => leave_stop cleanup (Some e) l1
  | (None, l1) => if graceful then l1 <| lc_stop := Draining cleanup |> else leave_stop cleanup None l1
  end.

(** [stop] up to its first wait *)
Definition stop_begins (l : Lifecycle) : Lifecycle :=
  if negb (lc_running l) && negb (lc_consumer_task l) then
    if lc_shutdown_event l then
      match raise_if_failed l with
      | (Some e, l1) => end_stop (StopRaised e) l1
      | (None, l1) => end_stop StopReturned l1
      end
    else end_stop StopReturned l
  else
    let l1 := l <| lc_running := false |> in
    if lc_consumer_task l1
    then l1 <| lc_defer_cleanup := graceful |> <| lc_stop := AwaitTask graceful |>
    else after_runtime_stopped false l1.

(** [wait_closed], when it does not have to wait or need not any more *)
Definition wait_ends (l : Lifecycle) : Lifecycle :=
  let return_or_raise :=
    match raise_if_failed l with
    | (Some e, l1) => l1 <| lc_outcomes ::= λ os, os ++ [WaitRaised e] |>
    | (None, l1) => l1 <| lc_outcomes ::= λ os, os ++ [WaitReturned] |>
    end in
  if negb (lc_running l) && negb (lc_consumer_task l)
  then if lc_shutdown_event l then return_or_raise else l <| lc_outcomes ::= λ os, os ++ [WaitReturned] |>
  else return_or_raise.

(** ** Events *)

Inductive Event :=
  | Starts
  | LoopReturns                      (* the loop sees [_running] false *)
  | LoopFails (error : string)
  | MonitorFails (error : string)    (* the completion monitor stores its error and clears [_running] *)
  | MonitorGone                      (* the cancelled monitor has ended *)
  | CleanupReturns
  | CleanupRaises (error : string)
  | StopBegins
  | TaskWaited                       (* [stop] sees the end of the consumer task *)
  | TimesOut                         (* [wait_for] gives up and cancels the consumer task *)
  | EventSeen
  | DrainReturns
  | DrainRaises (error : string)
  | StopCleanupReturns
  | StopCleanupRaises (error : string)
  | WaitEnds.

(** [None]: the event cannot happen in this state *)
Definition happens (e : Event) (l : Lifecycle) : option Lifecycle :=
  match e with
  | Starts =>
      match lc_stop l with
      | NotStopping => if task_over (lc_task l) then Some (start l) else None
      | _ => None
      end
  | LoopReturns => match lc_task l with InLoop => if lc_running l then None else Some (leave_loop l) | _ => None end
  | LoopFails error => match lc_task l with InLoop => Some (loop_failed error l) | _ => None end
  | MonitorFails error =>
      match lc_task l with
      | InLoop => if lc_monitor_task l then Some (l <| lc_fatal_error := Some error |> <| lc_running := false |>) else None
      | _ => None
      end
  | MonitorGone => match lc_task l with Leaving => Some (after_monitor l) | _ => None end
  | CleanupReturns => match lc_task l with CleaningUp => Some (finish_task l) | _ => None end
  | CleanupRaises error => match lc_task l with CleaningUp => Some (l <| lc_task := TaskRaised error |>) | _ => None end
  | StopBegins => match lc_stop l with NotStopping => Some (stop_begins l) | _ => None end
  | TaskWaited =>
      match lc_stop l with
      | AwaitTask cleanup =>
          match lc_task l with
          | TaskReturned => Some (l <| lc_stop := AwaitEvent cleanup |>)
          | TaskRaised error => Some (leave_stop cleanup (Some error) l)
          | _ => None
          end
      | AwaitCancelled cleanup =>
          match lc_task l with
          | TaskReturned | TaskCancelled => Some (l <| lc_stop := AwaitEvent cleanup |>)
          | TaskRaised error => Some (leave_stop cleanup (Some error) l)
          | _ => None
          end
      | _ => None
      end
  | TimesOut =>
      match lc_stop l with
      | AwaitTask cleanup =>
          if task_over (lc_task l) then None else Some ((cancel_task l) <| lc_stop := AwaitCancelled cleanup |>)
      | _ => None
      end
  | EventSeen =>
      match lc_stop l with
      | AwaitEvent cleanup =>
          if lc_shutdown_event l then Some (after_runtime_stopped cleanup (l <| lc_consumer_task := false |>)) else None
      | _ => None
      end
  | DrainReturns => match lc_stop l with Draining cleanup => Some (leave_stop cleanup None l) | _ => None end
  | DrainRaises error => match lc_stop l with Draining cleanup => Some (leave_stop cleanup (Some error) l) | _ => None end
  | StopCleanupReturns =>
      match lc_stop l with
      | StopCleanup error =>
          Some (end_stop (match error with Some e => StopRaised e | None => StopReturned end) l)
      | _ => None
      end
  | StopCleanupRaises error =>
      match lc_stop l with StopCleanup _ => Some (end_stop (StopRaised error) l) | _ => None end
  | WaitEnds =>
      if (negb (lc_running l) && negb (lc_consumer_task l)) || lc_shutdown_event l then Some (wait_ends l) else None
  end.

Fixpoint runs (es : list Event) (l : Lifecycle) : option Lifecycle :=
  match es with
  | [] => Some l
  | e :: rest => match happens e l with None => None | Some l1 => runs rest l1 end
  end.

(** ** What holds in every reachable state *)

Definition waiting (s : StopAt) : option bool :=
  match s with AwaitTask c | AwaitCancelled c | AwaitEvent c | Draining c => Some c | _ => None end.

(** The cleanups a state can have seen *)
Definition cleanups_ok (t : TaskAt) (s : StopAt) (n : nat) : Prop :=
  match t with
  | NoTask => s = NotStopping
  | InLoop | Leaving => n = 0%nat
  | CleaningUp => n = 1%nat
  | TaskReturned =>
      if waiting s is Some _ then (n ≤ 1)%nat ∧ (graceful = false → n = 1%nat) else (1 ≤ n ≤ 2)%nat
  | _ => True
  end.

(** What the place where [stop] waits says about the task *)
Definition stop_ok (t : TaskAt) (s : StopAt) : Prop :=
  match s with
  | AwaitEvent _ => t = TaskReturned ∨ t = TaskCancelled
  | Draining _ | StopCleanup None => t = TaskReturned
  | StopCleanup (Some _) => task_over t = true
  | _ => True
  end.

Record lifecycle_inv (l : Lifecycle) : Prop := mkLifecycleInv {
  li_event : lc_shutdown_event l = match lc_task l with TaskReturned => true | _ => false end;
  li_consumer : lc_consumer_task l = match lc_task l with NoTask | TaskReturned => false | _ => true end;
  li_running : lc_running l = true → lc_task l = InLoop ∧ lc_stop l = NotStopping;
  li_cleanups : cleanups_ok (lc_task l) (lc_stop l) (lc_cleanups l);
  li_stop : stop_ok (lc_task l) (lc_stop l);
  li_defer : lc_defer_cleanup l = true → graceful = true ∧ is_Some (waiting (lc_stop l));
  li_waiting c : waiting (lc_stop l) = Some c → c = graceful;
  li_fatal : match lc_stop l with Draining _ | StopCleanup None => lc_fatal_error l = None | _ => True end;
}.

Lemma new_lifecycle_inv : lifecycle_inv new_lifecycle.
Proof. by split. Qed.

(** The cases of one event, and what is left of the hypotheses in a case *)
Ltac split_event H :=
  unfold happens, start, loop_failed, leave_loop, cancel_task, stop_begins, after_runtime_stopped, raise_if_failed,
    leave_stop, wait_ends, end_stop, after_monitor, finish_task in H; cbn in H;
  repeat (match type of H with
          | context [match ?x with _ => _ end] => first [is_var x; tryif constr_eq x graceful then fail else destruct x | destruct x eqn:?]
          end; cbn in H; try discriminate H);
  injection H as H; subst.

Ltac spent :=
  repeat match goal with
    | H : ?x = ?x |- _ => clear H
    | H : ?x = ?x → _ |- _ => specialize (H eq_refl)
    | H : true = false → _ |- _ => clear H
    | H : false = true → _ |- _ => clear H
    | H : _ ∧ _ |- _ => destruct H
    | H : ∀ c, Some ?x = Some c → _ |- _ => pose proof (H _ eq_refl); clear H
    | H : is_Some _ |- _ => destruct H
    end; simplify_eq.

Lemma happens_inv e l l' : lifecycle_inv l → happens e l = Some l' → lifecycle_inv l'.
Proof.
  destruct l as [running event fatal consumer monitor defer task stop cleanups outcomes].
  intros [H1 H2 H3 H4 H5 H6 H7 H8] He. cbn in *. subst event consumer.
  destruct e, task, stop as [| | | | |[]]; cbn in *; try discriminate He; split_event He; spent; cbn in *; spent;
    (split; cbn); try done; try lia; try (intros; spent; done).
  all: try solve [repeat split; intros; try destruct running; try destruct defer; spent; try done; try lia;
    repeat match goal with H : _ ∨ _ |- _ => destruct H end; try (left; congruence); congruence || eauto].
Qed.

Lemma runs_inv es l l' : lifecycle_inv l → runs es l = Some l' → lifecycle_inv l'.
Proof.
  revert l; induction es as [|e es IH]; intros l HI H; cbn in H; [by simplify_eq|].
  destruct (happens e l) as [l1|] eqn:He; [|done]. eauto using happens_inv.
Qed.


(** ** Every stop comes to an end, unless its time-out hits the clean-up of the task *)

Definition task_weight (t : TaskAt) : nat := match t with InLoop => 3 | Leaving => 2 | CleaningUp => 1 | _ => 0 end.

Definition stop_weight (s : StopAt) : nat :=
  match s with
  | AwaitTask _ => 5 | AwaitCancelled _ => 4 | AwaitEvent _ => 3 | Draining _ => 2 | StopCleanup _ => 1 | NotStopping => 0
  end.

Definition weight (l : Lifecycle) : nat := task_weight (lc_task l) + stop_weight (lc_stop l).

(** What the task and [stop] do, as opposed to calls, failures of the monitor and [wait_closed] *)
Definition progress (e : Event) : bool :=
  match e with Starts | StopBegins | MonitorFails _ | WaitEnds => false | _ => true end.

(** No event but a new call begins a task or a stop, and a time-out spares a task that is cleaning up *)
Fixpoint orderly (es : list Event) (l : Lifecycle) : bool :=
  match es with
  | [] => true
  | e :: rest =>
      match e with
      | Starts | StopBegins => false
      | TimesOut => match lc_task l with Leaving | CleaningUp => false | _ => true end
      | _ => true
      end && match happens e l with None => true | Some l1 => orderly rest l1 end
  end.

Lemma happens_weight e l l' :
  e ≠ Starts → e ≠ StopBegins → happens e l = Some l' →
  if progress e then (weight l' < weight l)%nat else weight l' = weight l.
Proof.
  destruct l as [running event fatal consumer monitor defer task stop cleanups outcomes]. intros N1 N2 He.
  unfold weight. destruct e, task, stop; cbn in *; try discriminate He; try done; split_event He; cbn; lia.
Qed.

Lemma happens_spared e l l' :
  orderly [e] l = true → lc_task l ≠ TaskCancelled → happens e l = Some l' → lc_task l' ≠ TaskCancelled.
Proof.
  destruct l as [running event fatal consumer monitor defer task stop cleanups outcomes]. intros Ho Ht He.
  destruct e, task, stop; cbn in *; try discriminate He; try done; split_event He; done.
Qed.

(** While a [stop] waits, something it waits for can happen *)
Lemma stopping_enabled l :
  lifecycle_inv l → lc_stop l ≠ NotStopping → lc_task l ≠ TaskCancelled →
  ∃ e, progress e = true ∧ e ≠ TimesOut ∧ is_Some (happens e l).
Proof.
  destruct l as [running event fatal consumer monitor defer task stop cleanups outcomes].
  intros [H1 H2 H3 H4 H5 H6 H7 H8] Hs Ht; cbn in *; subst event consumer.
  assert (running = false) as -> by (destruct running; [destruct H3|]; done).
  destruct stop; [done|destruct task; try done..|exists DrainReturns|exists StopCleanupReturns]; try by eauto.
  all: try by (destruct H5).
  all: first [by exists LoopReturns; eauto|by exists MonitorGone; eauto|by exists CleanupReturns; eauto
    |by exists TaskWaited; eauto|by exists EventSeen; eauto].
Qed.

(** C5. A [stop] that waits comes to an end.  From any reachable state in which it waits, take any
    run in which nobody starts the broker or calls [stop] again and the time-out of the consumer
    task does not hit it in its [finally] clause: at most eight events of the task and of [stop]
    happen, whatever fails in them and however often the monitor fails or [wait_closed] returns,
    and as long as [stop] has not ended one more of them, other than the time-out, can happen. *)
Theorem stop_ends es0 es l l' :
  runs es0 new_lifecycle = Some l →
  lc_stop l ≠ NotStopping →
  lc_task l ≠ TaskCancelled →
  orderly es l = true →
  runs es l = Some l' →
  (length (filter (λ e, progress e = true) es) ≤ weight l - weight l' ∧ weight l ≤ 8)%nat
  ∧ (lc_stop l' = NotStopping ∨ ∃ e, progress e = true ∧ e ≠ TimesOut ∧ is_Some (happens e l')).
Proof.
  intros H0 Hs Ht Ho Hr. pose proof (runs_inv _ _ _ new_lifecycle_inv H0) as HI. clear H0.
  assert (weight l ≤ 8)%nat as Hw by (unfold weight; destruct (lc_task l), (lc_stop l); cbn; lia).
  cut (lifecycle_inv l' ∧ lc_task l' ≠ TaskCancelled
       ∧ (length (filter (λ e, progress e = true) es) + weight l' ≤ weight l)%nat).
  { intros (HI' & Ht' & Hl). split; [lia|]. destruct (lc_stop l') eqn:E; [by left|..];
      right; apply stopping_enabled; try done; by rewrite E. }
  clear Hs Hw. revert l HI Ht Ho Hr. induction es as [|e es IH]; intros l HI Ht Ho Hr; cbn in Ho, Hr.
  - by simplify_eq.
  - destruct (happens e l) as [l1|] eqn:He; [|done]. apply andb_true_iff in Ho as [Ho1 Ho2].
    destruct (IH l1) as (HI' & Ht' & Hl); eauto using happens_inv.
    { eapply happens_spared; [|done..]. cbn. rewrite He. by rewrite andb_true_r. }
    split_and!; [done..|]. assert (e ≠ Starts ∧ e ≠ StopBegins) as [N1 N2] by by destruct e.
    pose proof (happens_weight _ _ _ N1 N2 He) as Hp. rewrite filter_cons.
    case_decide; destruct (progress e); try done; cbn; lia.
Qed.

(** ** Where it does not *)

(** [stop] waits for an event nobody will set *)
Definition hung (l : Lifecycle) : bool :=
  match lc_task l, lc_stop l with
  | TaskCancelled, AwaitEvent _ | TaskCancelled, AwaitCancelled _ => negb (lc_shutdown_event l)
  | _, _ => false
  end.

Lemma happens_hung e l l' : hung l = true → happens e l = Some l' → hung l' = true.
Proof.
  destruct l as [running event fatal consumer monitor defer task stop cleanups outcomes]. unfold hung.
  intros Hh He. destruct event; [by destruct task, stop|].
  destruct e, task, stop; cbn in *; try done; split_event He; done.
Qed.

(** The exception to it: when [wait_for] gives up while the consumer task is in its [finally]
    clause - with the default settings both [producer.flush] in the clean-up and the time-out take
    five seconds - the cancellation leaves that clause before the shutdown event is set.  Nothing
    sets it any more: [stop] never ends, the clients stay open and every later [stop] waits for the
    stop lock. *)
Theorem timeout_in_cleanup_hangs_stop es0 es c l l1 l' :
  runs es0 new_lifecycle = Some l →
  lc_stop l = AwaitTask c →
  lc_task l = Leaving ∨ lc_task l = CleaningUp →
  happens TimesOut l = Some l1 →
  runs es l1 = Some l' →
  lc_stop l' ≠ NotStopping ∧ lc_shutdown_event l' = false ∧ lc_task l' = TaskCancelled.
Proof.
  intros H0 Hs Ht Ho Hr. pose proof (runs_inv _ _ _ new_lifecycle_inv H0) as [HI _ _ _ _ _ _ _].
  assert (hung l1 = true) as Hh.
  { destruct l; cbn in *; subst. destruct Ht; subst; cbn in Ho; by simplify_eq. }
  clear Ho. assert (hung l' = true) as Hh'.
  { revert l1 Hh Hr. induction es as [|e es IH]; intros l1 Hh Hr; cbn in Hr; [by simplify_eq|].
    destruct (happens e l1) eqn:He; [|done]. eauto using happens_hung. }
  unfold hung in Hh'. by destruct (lc_task l'), (lc_stop l'), (lc_shutdown_event l').
Qed.
End lifecycle.

(** ** Concrete runs *)

(** Graceful: the loop and the monitor end, the drain returns, [stop] cleans up *)
Definition graceful_stop : list Event := [Starts; StopBegins; LoopReturns; MonitorGone; TaskWaited; EventSeen; DrainReturns].

Definition graceful_before : Lifecycle := Eval vm_compute in default new_lifecycle (runs true true graceful_stop new_lifecycle).
Definition graceful_after : Lifecycle :=
  Eval vm_compute in default new_lifecycle (happens true true StopCleanupReturns graceful_before).


(** Abort, the loop does not end in time and is cancelled *)
Definition abort_stop_begun : list Event := [Starts; StopBegins].
Definition abort_stop_rest : list Event := [TimesOut; MonitorGone; CleanupReturns; WaitEnds; TaskWaited].

Definition abort_waiting : Lifecycle := Eval vm_compute in default new_lifecycle (runs false true abort_stop_begun new_lifecycle).
Definition abort_later : Lifecycle :=
  Eval vm_compute in default new_lifecycle (runs false true abort_stop_rest abort_waiting).

Lemma stop_ends_witness :
  (length (filter (λ e, progress e = true) abort_stop_rest) ≤ weight abort_waiting - weight abort_later
    ∧ weight abort_waiting ≤ 8)%nat
  ∧ (lc_stop abort_later = NotStopping ∨ ∃ e, progress e = true ∧ e ≠ TimesOut ∧ is_Some (happens false true e abort_later)).
Proof.
  apply (stop_ends false true abort_stop_begun abort_stop_rest abort_waiting abort_later);
    [vm_compute; reflexivity|discriminate|discriminate|vm_compute; reflexivity..].
Defined.

(** With the abort policy the time-out of [stop] during the flush of its own clean-up *)
Example abort_stop_hangs :
  option_map hung (runs false true [Starts; StopBegins; LoopReturns; MonitorGone; TimesOut; TaskWaited] new_lifecycle)
  = Some true.
Proof. reflexivity. Qed.

(** [wait_closed] returns while [stop] still drains and the clients are open *)
Example wait_closed_before_cleanup :
  option_map (λ l, (lc_outcomes l, lc_stop l, lc_cleanups l))
    (runs true true [Starts; StopBegins; LoopReturns; MonitorGone; WaitEnds; TaskWaited; EventSeen] new_lifecycle)
  = Some ([WaitReturned], Draining true, 0%nat).
Proof. reflexivity. Qed.

(** A clean-up that raises in the [finally] clause leaves the event unset: [stop] raises each time
    it is called and [wait_closed] does not end *)
Example failed_cleanup_never_closes :
  (l ← runs false true
         [Starts; LoopFails "poll"; MonitorGone; CleanupRaises "close"; StopBegins; TaskWaited; StopBegins; TaskWaited]
         new_lifecycle;
   Some (lc_outcomes l, lc_stop l, lc_fatal_error l, happens false true WaitEnds l))
  = Some ([StopRaised "close"; StopRaised "close"], NotStopping, Some "poll"%string, None).
Proof. reflexivity. Qed.
