(* ===== verification/RebalanceBridge.v ===== *)
(** * The rebalance bridge ([control_plane/broker_rebalance_bridge.py])

    A Kafka callback runs on its own thread and must change state that belongs to the event
    loop: the bridge schedules the change there and waits for it, at most for a time-out.
    The two threads share the flags of [_BridgeCallState].  The assign, prepare and cleanup
    calls have the same shape; the model has the body they run as a parameter. *)

From S2P Require Import Prelude.

(** ** The shared flags *)

Record BridgeCallState := mkCallState { started : bool; cancelled : bool }.

Definition mark_started (s : BridgeCallState) : bool * BridgeCallState :=
  if cancelled s then (false, s) else (true, mkCallState true (cancelled s)).

Definition cancel_if_not_started (s : BridgeCallState) : bool * BridgeCallState :=
  if started s then (false, s) else (true, mkCallState (started s) true).

Section bridge.
Context {S R : Type}.

(** The synchronous body: [None] when it raises *)
Context (body : S → option R * S).

(** The coroutine on the event loop: waiting for the control lock, past [mark_started], done,
    or ended by [CancelledError] *)
Inductive LoopSide := Queued | Entered | Returned (r : option R) | Refused.

(** The callback's thread: in [future.result(timeout)], in the unbounded [future.result()] after
    a time-out, or done; [None] is the answer of a failure *)
Inductive CallbackSide := Waiting | Draining | Answered (r : option R).

Record BridgeRun := mkBridgeRun {
  br_state : S;
  br_flags : BridgeCallState;
  br_loop : LoopSide;
  br_callback : CallbackSide;
  br_runs : nat;                  (* how often the body ran *)
}.

Definition bridge_start (s : S) : BridgeRun := mkBridgeRun s (mkCallState false false) Queued Waiting 0.

(** Without a running event loop the body runs in place. *)
Definition bridge_direct (s : S) : option R * S := body s.

(** The coroutine gets the control lock and looks at the flags *)
Definition loop_enter (r : BridgeRun) : BridgeRun :=
  let '(ok, flags) := mark_started (br_flags r) in
  mkBridgeRun (br_state r) flags (if ok then Entered else Refused) (br_callback r) (br_runs r).

Definition loop_body (r : BridgeRun) : BridgeRun :=
  let '(result, s) := body (br_state r) in
  mkBridgeRun s (br_flags r) (Returned result) (br_callback r) (1 + br_runs r)%nat.

(** The wait ends with a time-out: drain a body that has started, cancel one that has not *)
Definition callback_timeout (r : BridgeRun) : BridgeRun :=
  let '(was_cancelled, flags) := cancel_if_not_started (br_flags r) in
  mkBridgeRun (br_state r) flags (br_loop r) (if was_cancelled then Answered None else Draining) (br_runs r).

Definition callback_answer (result : option R) (r : BridgeRun) : BridgeRun :=
  mkBridgeRun (br_state r) (br_flags r) (br_loop r) (Answered result) (br_runs r).

Inductive BridgeOp := LoopEnter | LoopBody | CallbackTimeout | CallbackResult | OtherTask.

Inductive bridge_step (r : BridgeRun) : BridgeOp → BridgeRun → Prop :=
  | bs_enter : br_loop r = Queued → bridge_step r LoopEnter (loop_enter r)
  | bs_body : br_loop r = Entered → bridge_step r LoopBody (loop_body r)
  | bs_timeout : br_callback r = Waiting → bridge_step r CallbackTimeout (callback_timeout r)
  | bs_result result :
      br_callback r = Waiting ∨ br_callback r = Draining → br_loop r = Returned result →
      bridge_step r CallbackResult (callback_answer result r)
  | bs_other s :
      br_loop r ≠ Entered →
      bridge_step r OtherTask (mkBridgeRun s (br_flags r) (br_loop r) (br_callback r) (br_runs r)).

(** ** Invariant *)

Record bridge_inv (r : BridgeRun) : Prop := mkBridgeInv {
  bi_cancelled : cancelled (br_flags r) = true → started (br_flags r) = false;
  bi_started : started (br_flags r) = true ↔ br_loop r = Entered ∨ ∃ x, br_loop r = Returned x;
  bi_refused : br_loop r = Refused → cancelled (br_flags r) = true;
  bi_runs : br_runs r = match br_loop r with Returned _ => 1%nat | _ => 0%nat end;
  bi_callback : match br_callback r with
                | Waiting => cancelled (br_flags r) = false
                | Draining => started (br_flags r) = true
                | Answered a => br_loop r = Returned a ∨ a = None ∧ cancelled (br_flags r) = true
                end;
}.

Lemma bridge_start_inv s : bridge_inv (bridge_start s).
Proof. constructor; cbn; try done. split; [done|]. by intros [|[]]. Qed.

Lemma bridge_step_inv r op r' : bridge_inv r → bridge_step r op r' → bridge_inv r'.
Proof.
  intros [H1 H2 H3 H4 H5] Hs. destruct r as [s [st ca] lp cb n]. cbn in *.
  destruct Hs as [Hl|Hl|Hc|res Hc Hl|s' Hl]; cbn in *; subst.
  - assert (st = false) as ->.
    { destruct st; [|done]. destruct (proj1 H2 eq_refl) as [?|[? ?]]; done. }
    unfold loop_enter, mark_started. cbn. destruct ca; constructor; cbn; try done; try (destruct cb; naive_solver).
  - unfold loop_body. cbn. destruct (body s) as [result s1]. assert (st = true) as -> by (apply H2; by left).
    constructor; cbn; try done; [split; [eauto|done]|]. destruct cb as [| |a]; try done.
    right. destruct H5 as [?|[_ ?]]; [done|]. by apply H1 in H.
  - unfold callback_timeout, cancel_if_not_started. cbn. destruct st; constructor; cbn; try done; naive_solver.
  - constructor; cbn; try done. by left.
  - by constructor.
Qed.

Lemma bridge_run_inv r ops r' : bridge_inv r → steps bridge_step r ops r' → bridge_inv r'.
Proof. intros Hr. apply (steps_invariant _ bridge_inv); [|done]. intros s e s' Hi Hs. by eapply bridge_step_inv. Qed.

Lemma cancelled_forever r ops r' :
  bridge_inv r → steps bridge_step r ops r' → cancelled (br_flags r) = true → cancelled (br_flags r') = true.
Proof.
  intros Hr Hs Hc. revert Hs. apply (steps_invariant _ (λ r, cancelled (br_flags r) = true)); [|done].
  intros s e s' Hi Hst. destruct Hst; cbn; try done.
  - unfold loop_enter, mark_started. rewrite Hi. done.
  - unfold loop_body. by destruct (body (br_state s)).
  - unfold callback_timeout, cancel_if_not_started. by destruct (started (br_flags s)).
Qed.

(** C17. The answer of the bridge is the truth, however the time-out and the event loop interleave:
    a result means the body ran exactly once and returned it; a failure means that the body raised,
    or that it has not run and never will, whatever still happens on the event loop. *)
Theorem bridge_answer_truthful s ops r a :
  steps bridge_step (bridge_start s) ops r → br_callback r = Answered a →
  match a with
  | Some x => br_loop r = Returned (Some x) ∧ br_runs r = 1%nat
  | None => br_loop r = Returned None ∧ br_runs r = 1%nat
            ∨ ∀ ops' r', steps bridge_step r ops' r' → br_runs r' = 0%nat
  end.
Proof.
  intros Hs Ha. pose proof (bridge_run_inv _ _ _ (bridge_start_inv s) Hs) as Hi.
  pose proof (bi_callback _ Hi) as Hc. rewrite Ha in Hc. pose proof (bi_runs _ Hi) as Hn.
  destruct a as [x|]; [destruct Hc as [Hc|[? _]]; [|done]; by rewrite Hc in *|].
  destruct Hc as [Hc|[_ Hc]]; [left; by rewrite Hc in *|right].
  intros ops' r' Hs'. pose proof (bridge_run_inv _ _ _ Hi Hs') as Hi'.
  pose proof (cancelled_forever _ _ _ Hi Hs' Hc) as Hc'. pose proof (bi_cancelled _ Hi' Hc') as Hst.
  rewrite (bi_runs _ Hi'). destruct (br_loop r') as [| |x|] eqn:Hl; try done.
  assert (started (br_flags r') = true) by (apply (bi_started _ Hi'); eauto). congruence.
Qed.

(** The unbounded wait after a time-out is for a body that has started: the next step of the event
    loop or of the callback is always possible. *)
Lemma draining_ends s ops r :
  steps bridge_step (bridge_start s) ops r → br_callback r = Draining →
  (∃ r1 r2, bridge_step r LoopBody r1 ∧ bridge_step r1 CallbackResult r2) ∨ ∃ r1, bridge_step r CallbackResult r1.
Proof.
  intros Hs Hd. pose proof (bridge_run_inv _ _ _ (bridge_start_inv s) Hs) as Hi.
  pose proof (bi_callback _ Hi) as Hc. rewrite Hd in Hc. apply (bi_started _ Hi) in Hc as [Hl|[x Hl]].
  - left. destruct (body (br_state r)) as [result s'] eqn:Hb. exists (loop_body r). eexists.
    split; [by constructor|]. unfold loop_body. rewrite Hb. by eapply bs_result; [right|].
  - right. eexists. by eapply bs_result; [right|].
Qed.
End bridge.

(** ** Witness: the time-out comes after the body has started, and before *)

Definition demo_body (n : nat) : option nat * nat := (Some n, S n).

Definition demo_drained : BridgeRun :=
  callback_answer (Some 7%nat) (loop_body demo_body (callback_timeout (loop_enter (bridge_start 7%nat)))).

Lemma demo_drained_steps :
  steps (bridge_step demo_body) (bridge_start 7%nat) [LoopEnter; CallbackTimeout; LoopBody; CallbackResult] demo_drained.
Proof.
  eapply steps_cons; [by apply bs_enter|]. eapply steps_cons; [by apply bs_timeout|].
  eapply steps_cons; [by apply bs_body|]. eapply steps_cons; [|apply steps_nil]. apply bs_result; [by right|done].
Qed.

Lemma bridge_answer_truthful_witness :
  br_loop demo_drained = Returned (Some 7%nat) ∧ br_runs demo_drained = 1%nat ∧ br_state demo_drained = 8%nat.
Proof.
  destruct (bridge_answer_truthful demo_body 7%nat _ demo_drained (Some 7%nat) demo_drained_steps eq_refl) as [H1 H2].
  split; [exact H1|]. split; [exact H2|reflexivity].
Defined.
