(* ===== verification/AsyncEngine.v ===== *)
(** * The asyncio execution engine ([execution_plane/async_engine.py])

    The semaphore is a counter of free permits and a task is its work item.  Tasks end while the
    event loop is with them: during the waits of [submit] and [wait_for_completion], and between
    the control plane's calls; which ones is read from an oracle in the state.  The user's worker
    function is a parameter.  The engine is proved to keep the contract of [ExecutionEngine]. *)

From S2P Require Import Prelude Dto MetricsDto ExecutionEngine.

Record AsyncEngine := mkAsyncEngine {
  permits : Z;                                    (* the semaphore's counter *)
  in_flight_tasks : list WorkItem;
  ae_queue : list CompletionEvent;                (* _completion_queue *)
  prefetched : list CompletionEvent;
  shutdown_event : bool;
  oracle : list (list nat);                       (* the tasks that end, in turn, at each wait *)
  accepted : list WorkItem;                       (* every item ever accepted; not code *)
  delivered : list CompletionEvent;               (* every event ever returned; not code *)
  cancelled_items : list WorkItem;                (* the items of cancelled tasks; not code *)
}.

#[export] Instance AsyncEngine_settable : Settable AsyncEngine :=
  λ e, mkAsyncEngine (permits e) (in_flight_tasks e) (ae_queue e) (prefetched e) (shutdown_event e)
         (oracle e) (accepted e) (delivered e) (cancelled_items e).

Section async_engine.
Context (cfg : ExecutionConfig) (worker_fn : WorkItem → Z → AttemptResult) (timeout_text : Z → string).

Definition new_async_engine (o : list (list nat)) : AsyncEngine :=
  mkAsyncEngine (ec_max_in_flight cfg) [] [] [] false o [] [] [].

(** ** The task *)

(** The loop of [_execute_worker_task] from [attempt] on, [left] iterations before the range ends *)
Fixpoint attempt_loop (work_item : WorkItem) (attempt : Z) (left : nat)
    (status : CompletionStatus) (error : option string) (last : Z) : CompletionStatus * option string * Z :=
  match left with
  | O => (status, error, last)
  | S left' =>
      match worker_fn work_item attempt with
      | Returns => (SUCCESS, None, attempt)
      | TimesOut =>
          attempt_loop work_item (attempt + 1) left' FAILURE (Some (timeout_text (wi_offset work_item))) attempt
      | Raises message => attempt_loop work_item (attempt + 1) left' FAILURE (Some message) attempt
      end
  end.

Definition execute_worker_task (work_item : WorkItem) : CompletionEvent :=
  let '(status, error, attempt) :=
    attempt_loop work_item 1 (Z.to_nat (ec_max_retries cfg)) SUCCESS None 0 in
  mkCompletion (wi_id work_item) (wi_tp work_item) (wi_offset work_item) (wi_epoch work_item) status error attempt.

(** [_apply_backoff]: the delay in milliseconds; [jitter] is [random.uniform(0, retry_jitter_ms)] *)
Definition apply_backoff (attempt : Z) (jitter : Q) : Q :=
  let base_delay_ms := ec_retry_backoff_ms cfg in
  let delay_ms :=
    if ec_exponential_backoff cfg then Z.min (base_delay_ms * 2 ^ (attempt - 1)) (ec_max_retry_backoff_ms cfg)
    else base_delay_ms in
  if 0 <? ec_retry_jitter_ms cfg then (inject_Z delay_ms + jitter)%Q else inject_Z delay_ms.

(** ** The event loop *)

(** [_task_done_callback] *)
Definition task_done_callback (i : nat) (e : AsyncEngine) : AsyncEngine :=
  e <| in_flight_tasks ::= λ l, delete i l |> <| permits ::= λ n, n + 1 |>.

(** A task ends with its completion event *)
Definition task_ends (e : AsyncEngine) (i : nat) : AsyncEngine :=
  match in_flight_tasks e !! i with
  | None => e
  | Some w => task_done_callback i (e <| ae_queue ::= λ q, q ++ [execute_worker_task w] |>)
  end.

(** A task is cancelled: no event *)
Definition task_cancelled (e : AsyncEngine) (i : nat) : AsyncEngine :=
  match in_flight_tasks e !! i with
  | None => e
  | Some w => task_done_callback i (e <| cancelled_items ::= λ l, l ++ [w] |>)
  end.

(** The next entry of the oracle: the tasks that end meanwhile *)
Definition event_loop_runs (e : AsyncEngine) : AsyncEngine :=
  match oracle e with
  | [] => e
  | ends :: rest => fold_left task_ends ends (e <| oracle := rest |>)
  end.

(** ** Methods *)

(** [await self._semaphore.acquire()]: the wait is over once a task has ended; when none of those
    the oracle names is running, the first one is the one *)
Definition semaphore_acquire (e : AsyncEngine) : AsyncEngine :=
  let e1 := if 0 <? permits e then e
            else let e' := event_loop_runs e in
                 if 0 <? permits e' then e' else task_ends e' 0 in
  e1 <| permits ::= λ n, n - 1 |>.

Definition submit (work_item : WorkItem) (e : AsyncEngine) : SubmitOutcome * AsyncEngine :=
  if shutdown_event e then (SubmitError, e)
  else
    (SubmitOk, (semaphore_acquire e) <| in_flight_tasks ::= λ l, l ++ [work_item] |>
                                     <| accepted ::= λ l, l ++ [work_item] |>).

(** [poll_completed_events] proper, and after what ended since the last call *)
Definition poll_now (batch_limit : Z) (e : AsyncEngine) : list CompletionEvent * AsyncEngine :=
  let events := py_take batch_limit (prefetched e) in
  let room := batch_limit - zlen events in
  let more := py_take room (ae_queue e) in
  (events ++ more,
   e <| prefetched ::= py_drop batch_limit |> <| ae_queue ::= py_drop room |>
     <| delivered ::= λ l, l ++ events ++ more |>).

Definition poll_completed_events (batch_limit : Z) (e : AsyncEngine) : list CompletionEvent * AsyncEngine :=
  poll_now batch_limit (event_loop_runs e).

(** [wait_for_completion]: the oracle's next entry ends, or the time-out comes first *)
Definition wait_for_completion (e : AsyncEngine) : bool * AsyncEngine :=
  if decide (prefetched e ≠ [] ∨ ae_queue e ≠ []) then (true, e)
  else
    let e1 := event_loop_runs e in
    match ae_queue e1 with
    | [] => (false, e1)
    | event :: rest => (true, e1 <| ae_queue := rest |> <| prefetched ::= λ l, l ++ [event] |>)
    end.

Definition get_in_flight_count (e : AsyncEngine) : Z := zlen (in_flight_tasks e).

Definition get_runtime_metrics (e : AsyncEngine) : EngineRuntimeDiagnostics :=
  mkEngineRuntime None (Some (mkEngineWorkers (ec_max_in_flight cfg) (zlen (in_flight_tasks e)) None [])).

Definition get_min_inflight_offset (tp : TopicPartition) (e : AsyncEngine) : option Z := None.

(** [shutdown]: the tasks that end within the grace time, then the rest is cancelled *)
Definition shutdown (e : AsyncEngine) : AsyncEngine :=
  let e1 := event_loop_runs (e <| shutdown_event := true |>) in
  fold_left (λ acc _, task_cancelled acc 0) (in_flight_tasks e1) e1.

(** ** Invariant *)

(** The permits and the tasks make up the limit, and every accepted item is running, cancelled, or
    has its one event delivered or waiting *)
Record async_inv (e : AsyncEngine) : Prop := mkAsyncInv {
  as_permits : permits e + zlen (in_flight_tasks e) = ec_max_in_flight cfg;
  as_free : 0 ≤ permits e;
  as_events : execute_worker_task <$> accepted e ≡ₚ
    (execute_worker_task <$> in_flight_tasks e ++ cancelled_items e) ++ delivered e ++ prefetched e ++ ae_queue e;
}.

Lemma new_async_engine_inv o : 0 ≤ ec_max_in_flight cfg → async_inv (new_async_engine o).
Proof. intros H. constructor; cbn; [unfold zlen; cbn; lia|done|done]. Qed.

(** Only the listed fields matter. *)
Lemma async_inv_frame e e' :
  permits e' = permits e → in_flight_tasks e' = in_flight_tasks e → cancelled_items e' = cancelled_items e →
  accepted e' = accepted e → delivered e' ++ prefetched e' ++ ae_queue e' = delivered e ++ prefetched e ++ ae_queue e →
  async_inv e → async_inv e'.
Proof. intros E1 E2 E3 E4 E5 []. constructor; by rewrite ?E1, ?E2, ?E3, ?E4, ?E5. Qed.

Lemma remove_task (e : AsyncEngine) i w :
  async_inv e → in_flight_tasks e !! i = Some w →
  permits e + 1 + zlen (delete i (in_flight_tasks e)) = ec_max_in_flight cfg ∧
  in_flight_tasks e ≡ₚ w :: delete i (in_flight_tasks e).
Proof.
  intros [H1 _ _] Hi. pose proof (delete_Permutation _ _ _ Hi) as Hp. split; [|done].
  rewrite <-H1. unfold zlen. rewrite (Permutation_length Hp). cbn. lia.
Qed.

Lemma task_ends_inv e i : async_inv e → async_inv (task_ends e i).
Proof.
  intros He. unfold task_ends. destruct (in_flight_tasks e !! i) as [w|] eqn:Hi; [|done].
  destruct (remove_task e i w He Hi) as [H1 H2]. destruct He as [_ Hf Hev].
  constructor; cbn; [lia|lia|]. set (rest := delete i (in_flight_tasks e)) in *. clearbody rest.
  rewrite Hev, H2. cbn. rewrite !app_assoc, Permutation_cons_append. done.
Qed.

Lemma task_cancelled_inv e i : async_inv e → async_inv (task_cancelled e i).
Proof.
  intros He. unfold task_cancelled. destruct (in_flight_tasks e !! i) as [w|] eqn:Hi; [|done].
  destruct (remove_task e i w He Hi) as [H1 H2]. destruct He as [_ Hf Hev].
  constructor; cbn; [lia|lia|]. set (rest := delete i (in_flight_tasks e)) in *. clearbody rest.
  rewrite Hev. apply Permutation_app; [|done]. apply fmap_Permutation.
  rewrite H2, app_assoc. cbn. by rewrite Permutation_cons_append.
Qed.

Lemma event_loop_runs_inv e : async_inv e → async_inv (event_loop_runs e).
Proof.
  intros He. unfold event_loop_runs. destruct (oracle e) as [|ends rest]; [done|].
  apply (fold_left_inv async_inv); [|by apply (async_inv_frame e)]. intros s i. apply task_ends_inv.
Qed.

(** *** Everything but the running tasks and their events stays as it was. *)

Definition static_view (e : AsyncEngine) :=
  (accepted e, shutdown_event e, delivered e, prefetched e, cancelled_items e).

Lemma task_ends_static e i : static_view (task_ends e i) = static_view e.
Proof. unfold task_ends. by destruct (in_flight_tasks e !! i). Qed.

Lemma event_loop_runs_static e : static_view (event_loop_runs e) = static_view e.
Proof.
  unfold event_loop_runs. destruct (oracle e) as [|ends rest]; [done|].
  apply (fold_left_inv (λ s, static_view s = static_view e)); [|done]. intros s i <-. apply task_ends_static.
Qed.

Lemma acquire_spec e :
  1 ≤ ec_max_in_flight cfg → async_inv e →
  let e' := semaphore_acquire e in
  async_inv (e' <| permits ::= λ n, n + 1 |>) ∧ 0 ≤ permits e' ∧ static_view e' = static_view e.
Proof.
  intros Hmax He e'. unfold e', semaphore_acquire.
  set (e1 := if 0 <? permits e then e else _).
  assert (async_inv e1 ∧ 0 < permits e1 ∧ static_view e1 = static_view e) as (H1 & H2 & H3).
  { unfold e1. destruct (Z.ltb_spec 0 (permits e)); [done|].
    pose proof (event_loop_runs_inv e He) as Hi. pose proof (event_loop_runs_static e) as Hs.
    set (e2 := event_loop_runs e) in *. clearbody e2. destruct (Z.ltb_spec 0 (permits e2)) as [|Hle]; [done|].
    split; [by apply task_ends_inv|]. split; [|by rewrite task_ends_static].
    pose proof (as_permits _ Hi) as Hp. pose proof (as_free _ Hi). unfold task_ends.
    destruct (in_flight_tasks e2 !! 0%nat) as [w|] eqn:Hw; [cbn; lia|].
    apply lookup_ge_None in Hw. unfold zlen in Hp. lia. }
  clearbody e1. split; [|split; [cbn; lia|done]].
  destruct H1 as [A1 A2 A3]. constructor; cbn; [lia|lia|done].
Qed.

Lemma submit_inv w e :
  1 ≤ ec_max_in_flight cfg → async_inv e → async_inv (submit w e).2.
Proof.
  intros Hmax He. unfold submit. destruct (shutdown_event e); [done|]. cbn [snd].
  destruct (acquire_spec e Hmax He) as ([H1 _ H3] & H4 & _). cbn in H1, H3.
  constructor; cbn; [rewrite zlen_app; unfold zlen at 2; cbn; lia|done|].
  rewrite fmap_app. cbn. rewrite H3, !fmap_app, <-!app_assoc. cbn.
  apply Permutation_app; [done|]. etransitivity; [|symmetry; apply Permutation_cons_append]. by rewrite <-!app_assoc.
Qed.

(** Taking [n] elements from one list and then from another takes them from their concatenation. *)
Lemma take_from_two {A} n (p q : list A) :
  let ev := take n p in
  let r := (n - length ev)%nat in
  (ev ++ take r q) ++ drop n p ++ drop r q = p ++ q.
Proof.
  cbn zeta. rewrite length_take. destruct (decide (length p ≤ n)%nat).
  - rewrite (take_ge p), (drop_ge p) by lia. cbn. by rewrite <-app_assoc, take_drop.
  - replace (n - min n (length p))%nat with 0%nat by lia. cbn. by rewrite app_nil_r, app_assoc, take_drop.
Qed.

Lemma poll_now_inv n e : async_inv e → async_inv (poll_now n e).2.
Proof.
  apply async_inv_frame; try done. cbn. unfold py_take, py_drop, zlen.
  replace (Z.to_nat (n - Z.of_nat (length (take (Z.to_nat n) (prefetched e)))))
    with (Z.to_nat n - length (take (Z.to_nat n) (prefetched e)))%nat by lia.
  rewrite <-(app_assoc (delivered e)). f_equal. apply take_from_two.
Qed.

Lemma wait_for_completion_inv e : async_inv e → async_inv (wait_for_completion e).2.
Proof.
  intros He. unfold wait_for_completion. destruct (decide _) as [|Hd]; [done|].
  pose proof (event_loop_runs_inv e He) as Hi. pose proof (event_loop_runs_static e) as Hs.
  set (e1 := event_loop_runs e) in *. clearbody e1.
  destruct (ae_queue e1) as [|event rest] eqn:Hq; [done|]. cbn [snd]. revert Hi. apply async_inv_frame; try done.
  cbn. rewrite Hq. assert (prefetched e1 = []) as ->; [|done].
  injection Hs as _ _ _ -> _. destruct (prefetched e); [done|]. destruct Hd. by left.
Qed.

Lemma shutdown_inv e : async_inv e → async_inv (shutdown e).
Proof.
  intros He. unfold shutdown. apply (fold_left_inv async_inv); [intros s x; apply task_cancelled_inv|].
  apply event_loop_runs_inv. by apply (async_inv_frame e).
Qed.

(** ** The engine keeps the contract of the control plane *)

Definition async_ok (e : AsyncEngine) : Prop := 1 ≤ ec_max_in_flight cfg ∧ async_inv e.

Definition async_execution_engine : ExecutionEngine AsyncEngine := {|
  engine_submit := submit;
  engine_submit_batch := base_submit_batch submit;
  engine_poll_completed_events := poll_completed_events;
  supports_ordered_route_batch := λ _, false;
  engine_log := accepted;
  engine_ok := async_ok;
|}.

Lemma submit_spec w e o e' :
  async_ok e → submit w e = (o, e') →
  async_ok e' ∧ outcome_ok o [w] ∧ accepted e' = accepted e ++ accepted_items o [w] ∧ false = false.
Proof.
  intros [Hmax He] Hs. pose proof (submit_inv w e Hmax He) as Hi. rewrite Hs in Hi. cbn in Hi.
  split; [done|]. unfold submit in Hs. destruct (shutdown_event e); injection Hs as <- <-; cbn.
  - by rewrite app_nil_r.
  - destruct (acquire_spec e Hmax He) as (_ & _ & H3). injection H3 as H3. cbn in H3. by rewrite H3.
Qed.

Lemma event_accepted e event :
  async_inv e → event ∈ delivered e ++ prefetched e ++ ae_queue e → ∃ w, w ∈ accepted e ∧ event = execute_worker_task w.
Proof.
  intros He Hin. assert (event ∈ execute_worker_task <$> accepted e) as (w & -> & Hw)%list_elem_of_fmap; [|eauto].
  rewrite (as_events _ He). apply elem_of_app. by right.
Qed.

Lemma execute_completes w : completes w (execute_worker_task w).
Proof. unfold execute_worker_task. by destruct (attempt_loop _ _ _ _ _ _) as [[status error] attempt]. Qed.

#[local] Existing Instance async_execution_engine.

#[export] Instance async_engine_laws : ExecutionEngineLaws AsyncEngine.
Proof.
  split; cbn.
  - apply submit_spec.
  - apply (base_submit_batch_spec submit accepted (λ _, false) async_ok submit_spec).
  - intros n e es e' [Hmax He] Hp. unfold poll_completed_events in Hp.
    pose proof (event_loop_runs_inv e He) as H1. pose proof (event_loop_runs_static e) as Hs. injection Hs as Ha _ _ _ _.
    pose proof (poll_now_inv n _ H1) as H2. rewrite Hp in H2. cbn in H2.
    assert (accepted e' = accepted e) as Hacc by (injection Hp as _ <-; cbn; done).
    split; [done|]. split; [done|]. split; [done|]. intros event Hin.
    destruct (event_accepted e' event H2) as (w & Hw & ->).
    { injection Hp as <- <-. cbn. rewrite !elem_of_app in *. tauto. }
    exists w. rewrite <-Hacc. split; [done|apply execute_completes].
Qed.

(** ** Runs *)

Inductive AsyncOp :=
  | OpSubmit (w : WorkItem) | OpTaskEnds (i : nat) | OpPoll (batch_limit : Z) | OpWait | OpShutdown.

Definition async_apply (e : AsyncEngine) (op : AsyncOp) : AsyncEngine :=
  match op with
  | OpSubmit w => (submit w e).2
  | OpTaskEnds i => task_ends e i
  | OpPoll n => (poll_completed_events n e).2
  | OpWait => (wait_for_completion e).2
  | OpShutdown => shutdown e
  end.

Definition async_run (o : list (list nat)) (ops : list AsyncOp) : AsyncEngine :=
  fold_left async_apply ops (new_async_engine o).

Lemma async_run_inv o ops : 1 ≤ ec_max_in_flight cfg → async_inv (async_run o ops).
Proof.
  intros Hmax. apply (fold_left_inv async_inv); [|apply new_async_engine_inv; lia].
  intros e op He. destruct op; cbn.
  - by apply submit_inv.
  - by apply task_ends_inv.
  - apply poll_now_inv. by apply event_loop_runs_inv.
  - by apply wait_for_completion_inv.
  - by apply shutdown_inv.
Qed.

Lemma no_shutdown_no_cancel o ops : OpShutdown ∉ ops → cancelled_items (async_run o ops) = [].
Proof.
  intros Hn. unfold async_run. assert (cancelled_items (new_async_engine o) = []) as H0 by done. revert H0.
  generalize (new_async_engine o) as e. induction ops as [|op ops IH]; intros e He; [done|].
  apply not_elem_of_cons in Hn as [Hne Hn]. cbn [fold_left]. apply IH; [done|].
  pose proof (event_loop_runs_static e) as Hs. injection Hs as _ _ _ _ Hc.
  destruct op as [w|i|n| |]; cbn; [| | | |done].
  - unfold submit. destruct (shutdown_event e); [done|]. cbn. unfold semaphore_acquire. cbn.
    destruct (0 <? permits e); [done|]. destruct (0 <? permits (event_loop_runs e)); [congruence|].
    pose proof (task_ends_static (event_loop_runs e) 0) as Ht. injection Ht as _ _ _ _ Ht. congruence.
  - pose proof (task_ends_static e i) as Ht. injection Ht as _ _ _ _ Ht. congruence.
  - congruence.
  - unfold wait_for_completion. destruct (decide _); [done|]. destruct (ae_queue (event_loop_runs e)); cbn; congruence.
Qed.


(** ** Retries *)

Definition attempt_error (w : WorkItem) (a : Z) : option string :=
  match worker_fn w a with
  | Returns => None
  | TimesOut => Some (timeout_text (wi_offset w))
  | Raises message => Some message
  end.

Lemma attempt_loop_spec w a left st er last :
  let '(status, error, attempt) := attempt_loop w a left st er last in
  (status = SUCCESS ∧ error = None ∧ a ≤ attempt < a + Z.of_nat left ∧ worker_fn w attempt = Returns
     ∧ ∀ a', a ≤ a' < attempt → worker_fn w a' ≠ Returns)
  ∨ ((∀ a', a ≤ a' < a + Z.of_nat left → worker_fn w a' ≠ Returns)
     ∧ if decide (left = 0%nat) then (status, error, attempt) = (st, er, last)
       else status = FAILURE ∧ attempt = a + Z.of_nat left - 1 ∧ error = attempt_error w attempt).
Proof.
  revert a st er last. induction left as [|left IH]; intros a st er last; cbn [attempt_loop].
  { right. split; [intros a' ?; lia|done]. }
  assert (∀ er', worker_fn w a ≠ Returns → er' = attempt_error w a →
    let '(status, error, attempt) := attempt_loop w (a + 1) left FAILURE er' a in
    (status = SUCCESS ∧ error = None ∧ a ≤ attempt < a + Z.of_nat (S left) ∧ worker_fn w attempt = Returns
       ∧ ∀ a', a ≤ a' < attempt → worker_fn w a' ≠ Returns)
    ∨ ((∀ a', a ≤ a' < a + Z.of_nat (S left) → worker_fn w a' ≠ Returns)
       ∧ if decide (S left = 0%nat) then (status, error, attempt) = (st, er, last)
         else status = FAILURE ∧ attempt = a + Z.of_nat (S left) - 1 ∧ error = attempt_error w attempt)) as Hnext.
  { intros er' Hno Her. specialize (IH (a + 1) FAILURE er' a).
    destruct (attempt_loop w (a + 1) left FAILURE er' a) as [[status error] attempt].
    destruct IH as [(H1 & H2 & H3 & H4 & H5)|[H1 H2]].
    - left. repeat (split; [done || lia|]). intros a' Ha. destruct (decide (a' = a)) as [->|]; [done|]. apply H5. lia.
    - right. split.
      + intros a' Ha. destruct (decide (a' = a)) as [->|]; [done|]. apply H1. lia.
      + rewrite decide_False by done. destruct (decide (left = 0%nat)) as [->|].
        * injection H2 as -> -> ->. split; [done|]. split; [lia|done].
        * destruct H2 as (-> & -> & ->). split; [done|]. split; [lia|done]. }
  destruct (worker_fn w a) eqn:Hw.
  - left. repeat (split; [done || lia|]). intros a' ?; lia.
  - apply Hnext; [done|]. unfold attempt_error. by rewrite Hw.
  - apply Hnext; [done|]. unfold attempt_error. by rewrite Hw.
Qed.

(** A task reports the outcome of its retries faithfully: success exactly when one of the
    [max_retries] attempts returned, with the number of the first that did; otherwise a failure that
    carries the number and the error of the last attempt. *)
Theorem async_retry_exact w :
  1 ≤ ec_max_retries cfg →
  let event := execute_worker_task w in
  completes w event
  ∧ (ce_status event = SUCCESS ↔ ∃ a, 1 ≤ a ≤ ec_max_retries cfg ∧ worker_fn w a = Returns)
  ∧ (ce_status event = SUCCESS → ce_error event = None ∧ worker_fn w (ce_attempt event) = Returns
      ∧ 1 ≤ ce_attempt event ≤ ec_max_retries cfg ∧ ∀ a, 1 ≤ a < ce_attempt event → worker_fn w a ≠ Returns)
  ∧ (ce_status event = FAILURE →
      ce_attempt event = ec_max_retries cfg ∧ ce_error event = attempt_error w (ec_max_retries cfg)).
Proof.
  intros Hmax event. split; [apply execute_completes|]. unfold event, execute_worker_task.
  pose proof (attempt_loop_spec w 1 (Z.to_nat (ec_max_retries cfg)) SUCCESS None 0) as Hl.
  destruct (attempt_loop _ _ _ _ _ _) as [[status error] attempt]. cbn.
  destruct Hl as [(-> & -> & H3 & H4 & H5)|[H1 H2]].
  - split; [split; [intros _; exists attempt; split; [lia|done]|done]|]. split; [|done].
    intros _. repeat (split; [done || lia|]). intros a Ha. apply H5. lia.
  - rewrite decide_False in H2 by lia. destruct H2 as (-> & -> & ->). split; [|split; [done|]].
    + split; [done|]. intros (a & Ha & Hr). exfalso. apply (H1 a); [lia|done].
    + intros _. replace (1 + Z.of_nat (Z.to_nat (ec_max_retries cfg)) - 1) with (ec_max_retries cfg) by lia. done.
Qed.

(** With [max_retries = 0], which the configuration admits, the loop does not run: the message is
    reported as processed, whatever the worker function would have done. *)
Lemma zero_retries_reports_success w :
  ec_max_retries cfg ≤ 0 →
  ce_status (execute_worker_task w) = SUCCESS ∧ ce_error (execute_worker_task w) = None
  ∧ ce_attempt (execute_worker_task w) = 0.
Proof. intros H. unfold execute_worker_task. by replace (Z.to_nat (ec_max_retries cfg)) with 0%nat by lia. Qed.

(** The delay between attempts *)
Lemma backoff_bounds attempt jitter :
  0 ≤ ec_retry_backoff_ms cfg → 1 ≤ attempt → (0 <= jitter)%Q → (jitter <= inject_Z (ec_retry_jitter_ms cfg))%Q →
  0 ≤ ec_max_retry_backoff_ms cfg → ec_exponential_backoff cfg = true →
  (0 <= apply_backoff attempt jitter)%Q
  ∧ (apply_backoff attempt jitter <= inject_Z (ec_max_retry_backoff_ms cfg + Z.max 0 (ec_retry_jitter_ms cfg)))%Q.
Proof.
  intros Hb Ha Hj0 Hj Hm He. unfold apply_backoff. rewrite He.
  pose proof (Z.pow_nonneg 2 (attempt - 1) ltac:(lia)) as Hp.
  set (d := Z.min (ec_retry_backoff_ms cfg * 2 ^ (attempt - 1)) (ec_max_retry_backoff_ms cfg)).
  assert (0 ≤ d ≤ ec_max_retry_backoff_ms cfg) as Hd by (unfold d; nia).
  assert (0 <= inject_Z d)%Q as Hd0 by (rewrite <-(Zle_Qle 0); lia).
  destruct (Z.ltb_spec 0 (ec_retry_jitter_ms cfg)).
  - split; [apply (Qle_trans _ (0 + 0)); [discriminate|by apply Qplus_le_compat]|].
    rewrite Z.max_r, inject_Z_plus by lia. apply Qplus_le_compat; [rewrite <-Zle_Qle; lia|done].
  - split; [done|]. rewrite <-Zle_Qle. lia.
Qed.
End async_engine.

(** ** Witnesses: a worker that fails once on every item, two tasks at a time *)

Definition async_demo_config : ExecutionConfig := mkExecutionConfig 2 3 100 true 1000 50.
Definition async_demo_worker (w : WorkItem) (a : Z) : AttemptResult := if a =? 1 then TimesOut else Returns.
Definition async_demo_item (o : Z) : WorkItem := mkWorkItem "id" (mkTp "orders" 0) o 1 PyNone PyNone 0 None.

Definition async_demo_ops : list AsyncOp :=
  [OpSubmit (async_demo_item 0); OpSubmit (async_demo_item 1); OpSubmit (async_demo_item 2); OpWait; OpPoll 1000].

Definition async_demo : AsyncEngine :=
  async_run async_demo_config async_demo_worker (λ _, "timed out"%string) [[1%nat]; [0%nat]] async_demo_ops.

Example async_demo_values :
  ce_offset <$> delivered async_demo = [1; 0] ∧ wi_offset <$> in_flight_tasks async_demo = [2].
Proof. vm_compute. split; reflexivity. Qed.


Lemma async_retry_exact_witness :
  let event := execute_worker_task async_demo_config async_demo_worker (λ _, "timed out"%string) (async_demo_item 7) in
  ce_status event = SUCCESS ∧ ce_attempt event = 2 ∧ ∃ a, 1 ≤ a ≤ 3 ∧ async_demo_worker (async_demo_item 7) a = Returns.
Proof.
  split; [vm_compute; reflexivity|]. split; [vm_compute; reflexivity|].
  exact (proj1 (proj1 (proj2 (async_retry_exact async_demo_config async_demo_worker (λ _, "timed out"%string)
    (async_demo_item 7) ltac:(vm_compute; discriminate))) ) ltac:(vm_compute; reflexivity)).
Defined.
