(* ===== verification/ProcessBatching.v ===== *)
(** * Batching for worker processes ([execution_plane/process_batching.py])

    [BatchAccumulator] collects work items under a lock and hands them to the task queue in
    batches: when a batch is full, when the timer of its oldest item fires, when the policy
    flushes on demand, or when it is closed.  Every public method runs under the lock, so a run
    is a sequence of them.  Serialisation is [process_codec]'s: the queue holds the batches. *)

From S2P Require Import Prelude Dto.

Inductive FlushReason := FlushSize | FlushTimer | FlushClose | FlushDemand.

Record BatchAccumulator := mkAccumulator {
  batch_size : Z;
  flush_policy : string;
  demand_min_residence : Q;            (* _demand_flush_min_residence_sec *)
  task_queue : list (list WorkItem);   (* the batches put so far *)
  buffer : list WorkItem;
  first_item_time : option Q;
  flush_timer : bool;                  (* a timer is set *)
  closed : bool;
  size_flush_count : Z;
  timer_flush_count : Z;
  close_flush_count : Z;
  demand_flush_count : Z;
  total_flushed_items : Z;
  last_flush_size : Z;
  last_flush_wait_seconds : Q;
}.

#[export] Instance BatchAccumulator_settable : Settable BatchAccumulator :=
  λ a, mkAccumulator (batch_size a) (flush_policy a) (demand_min_residence a) (task_queue a) (buffer a)
         (first_item_time a) (flush_timer a) (closed a) (size_flush_count a) (timer_flush_count a)
         (close_flush_count a) (demand_flush_count a) (total_flushed_items a) (last_flush_size a)
         (last_flush_wait_seconds a).

Definition new_accumulator (size : Z) (policy : string) (residence_ms : Z) : BatchAccumulator :=
  mkAccumulator size policy (ms_to_seconds residence_ms) [] [] None false false 0 0 0 0 0 0 0.

(** [_flush_locked]; [now] is [time.monotonic()] *)
Definition flush_locked (reason : FlushReason) (now : Q) (a : BatchAccumulator) : BatchAccumulator :=
  match buffer a with
  | [] => a
  | _ =>
      let wait_seconds := match first_item_time a with None => 0%Q | Some t => Qmax0 (now - t) end in
      let batch := buffer a in
      let a1 := a <| buffer := [] |> <| first_item_time := None |> <| flush_timer := false |> in
      let a2 := match reason with
                | FlushSize => a1 <| size_flush_count ::= λ n, n + 1 |>
                | FlushTimer => a1 <| timer_flush_count ::= λ n, n + 1 |>
                | FlushClose => a1 <| close_flush_count ::= λ n, n + 1 |>
                | FlushDemand => a1 <| demand_flush_count ::= λ n, n + 1 |>
                end in
      a2 <| total_flushed_items ::= λ n, n + zlen batch |> <| last_flush_size := zlen batch |>
         <| last_flush_wait_seconds := wait_seconds |> <| task_queue ::= λ q, q ++ [batch] |>
  end.

(** [_should_flush_on_demand_locked] *)
Definition should_flush_on_demand (now : Q) (a : BatchAccumulator) : bool :=
  if decide (buffer a = []) then false
  else if decide (flush_policy a = "demand"%string) then true
  else if decide (flush_policy a ≠ "demand_min_residence"%string) then false
  else match first_item_time a with
       | None => false
       | Some t => demand_min_residence a <=q Qmax0 (now - t)
       end.

(** [add_nowait_fast_path]; [has_room] is whether the task queue takes the batch *)
Definition add_nowait_fast_path (has_room : bool) (w : WorkItem) (a : BatchAccumulator) : bool * BatchAccumulator :=
  if negb (batch_size a =? 1) then (false, a)
  else if closed a then (false, a)
  else if decide (buffer a ≠ []) then (false, a)
  else if negb has_room then (false, a)
  else (true, a <| size_flush_count ::= λ n, n + 1 |> <| total_flushed_items ::= λ n, n + 1 |>
                <| last_flush_size := 1 |> <| last_flush_wait_seconds := 0%Q |>
                <| task_queue ::= λ q, q ++ [[w]] |>).

Definition add (now : Q) (w : WorkItem) (a : BatchAccumulator) : BatchAccumulator :=
  if closed a then a
  else
    let a1 := if should_flush_on_demand now a then flush_locked FlushDemand now a else a in
    let a2 := a1 <| buffer ::= λ l, l ++ [w] |> in
    let a3 := match first_item_time a2 with
              | None => a2 <| first_item_time := Some now |> <| flush_timer := true |>
              | Some _ => a2
              end in
    if batch_size a3 <=? zlen (buffer a3) then flush_locked FlushSize now a3 else a3.

(** [_timer_flush] *)
Definition timer_flush (now : Q) (a : BatchAccumulator) : BatchAccumulator :=
  if decide (buffer a ≠ [] ∧ closed a = false) then flush_locked FlushTimer now a else a.

Definition close (now : Q) (a : BatchAccumulator) : BatchAccumulator :=
  let a1 := a <| closed := true |> <| flush_timer := false |> in
  if decide (buffer a1 = []) then a1 else flush_locked FlushClose now a1.

(** ** Runs *)

Inductive BatchOp :=
  | OpAdd (now : Q) (w : WorkItem) | OpFast (has_room : bool) (w : WorkItem)
  | OpTimer (now : Q) | OpClose (now : Q).

Definition batch_apply (a : BatchAccumulator) (op : BatchOp) : BatchAccumulator :=
  match op with
  | OpAdd now w => add now w a
  | OpFast has_room w => (add_nowait_fast_path has_room w a).2
  | OpTimer now => timer_flush now a
  | OpClose now => close now a
  end.

(** The items an operation takes over: those added before the accumulator was closed *)
Definition taken (a : BatchAccumulator) (op : BatchOp) : list WorkItem :=
  match op with
  | OpAdd _ w => if closed a then [] else [w]
  | OpFast has_room w => if (add_nowait_fast_path has_room w a).1 then [w] else []
  | _ => []
  end.

Fixpoint taken_by (ops : list BatchOp) (a : BatchAccumulator) : list WorkItem :=
  match ops with [] => [] | op :: rest => taken a op ++ taken_by rest (batch_apply a op) end.

(** ** Invariant *)

Record batch_inv (a : BatchAccumulator) : Prop := mkBatchInv {
  bt_size : 1 ≤ batch_size a;
  bt_room : zlen (buffer a) < batch_size a;
  bt_batches batch : batch ∈ task_queue a → 1 ≤ zlen batch ≤ batch_size a;
  bt_first : first_item_time a = None ↔ buffer a = [];
  bt_timer : closed a = false → flush_timer a = negb (bool_decide (buffer a = []));
  bt_closed : closed a = true → buffer a = [];
  bt_total : total_flushed_items a = zlen (concat (task_queue a));
  bt_counts : size_flush_count a + timer_flush_count a + close_flush_count a + demand_flush_count a
              = zlen (task_queue a);
}.

Lemma new_accumulator_inv size policy ms : 1 ≤ size → batch_inv (new_accumulator size policy ms).
Proof.
  intros H. constructor; cbn; try done; try (unfold zlen; cbn; lia).
  intros b Hb. by apply elem_of_nil in Hb.
Qed.

(** A batch leaves with everything that was waiting. *)
Lemma flush_items reason now a :
  concat (task_queue (flush_locked reason now a)) ++ buffer (flush_locked reason now a)
  = concat (task_queue a) ++ buffer a.
Proof.
  unfold flush_locked. destruct (buffer a) as [|w l] eqn:Hb; [by rewrite Hb|].
  destruct reason; cbn; by rewrite concat_app; cbn; rewrite !app_nil_r.
Qed.

Lemma flush_empties reason now a :
  buffer (flush_locked reason now a) = [] ∧ closed (flush_locked reason now a) = closed a
  ∧ batch_size (flush_locked reason now a) = batch_size a.
Proof.
  unfold flush_locked. destruct (buffer a) as [|w l] eqn:Hb; [done|]. by destruct reason.
Qed.

(** What a flush needs: [add] is in such a state between the append and the size check. *)
Record flushable (a : BatchAccumulator) : Prop := mkFlushable {
  fl_size : 1 ≤ batch_size a;
  fl_room : zlen (buffer a) ≤ batch_size a;
  fl_batches batch : batch ∈ task_queue a → 1 ≤ zlen batch ≤ batch_size a;
  fl_total : total_flushed_items a = zlen (concat (task_queue a));
  fl_counts : size_flush_count a + timer_flush_count a + close_flush_count a + demand_flush_count a
              = zlen (task_queue a);
}.

Lemma flush_inv reason now a : flushable a → buffer a ≠ [] → batch_inv (flush_locked reason now a).
Proof.
  intros [H1 H2 H3 H4 H5] Hne. unfold flush_locked. destruct (buffer a) as [|w l] eqn:Hb; [done|].
  assert (1 ≤ zlen (w :: l)) by (rewrite zlen_cons; pose proof (zlen_nonneg l); lia).
  constructor; destruct reason; cbn; try done; try (unfold zlen at 1; cbn; lia).
  all: try (intros b [Hin| ->%list_elem_of_singleton]%elem_of_app; [by apply H3|lia]).
  all: try (rewrite concat_app, !zlen_app, H4; cbn; rewrite app_nil_r; done).
  all: rewrite zlen_app; unfold zlen at 2; cbn; lia.
Qed.

Lemma inv_flushable a : batch_inv a → flushable a.
Proof. intros []. constructor; try done. lia. Qed.

Lemma add_inv now w a : batch_inv a → batch_inv (add now w a).
Proof.
  intros Ha. unfold add. destruct (closed a) eqn:Hc; [done|].
  set (a1 := if should_flush_on_demand now a then flush_locked FlushDemand now a else a).
  assert (batch_inv a1 ∧ closed a1 = false) as [Ha1 Hc1].
  { unfold a1. destruct (should_flush_on_demand now a) eqn:Hs; [|done].
    destruct (flush_empties FlushDemand now a) as (_ & Hcl & _). split; [|congruence].
    apply flush_inv; [by apply inv_flushable|]. unfold should_flush_on_demand in Hs. by case_decide. }
  clearbody a1. set (a2 := a1 <| buffer ::= λ l, l ++ [w] |>). cbn zeta.
  set (a3 := match first_item_time a2 with None => _ | Some _ => _ end).
  assert (buffer a3 = buffer a1 ++ [w] ∧ flushable a3 ∧ closed a3 = false ∧ batch_size a3 = batch_size a1
    ∧ is_Some (first_item_time a3) ∧ flush_timer a3 = true) as (Hb & Hf & Hc3 & Hbs & Hfi & Ht).
  { destruct Ha1. unfold a3. change (first_item_time a2) with (first_item_time a1).
    destruct (first_item_time a1) as [t|] eqn:Hfi; cbn.
    - split; [done|]. split; [constructor; cbn; try done; rewrite zlen_app; unfold zlen at 2; cbn; lia|].
      repeat (split; [done || eauto|]). rewrite bt_timer0 by done.
      destruct (decide (buffer a1 = [])) as [He|]; [apply bt_first0 in He; congruence|by rewrite bool_decide_false].
    - split; [done|]. split; [constructor; cbn; try done; rewrite zlen_app; unfold zlen at 2; cbn; lia|].
      eauto. }
  clearbody a3. assert (buffer a3 ≠ []) as Hne by (rewrite Hb; by destruct (buffer a1)).
  destruct (Z.leb_spec (batch_size a3) (zlen (buffer a3))) as [|Hlt]; [by apply flush_inv|].
  destruct Hf. constructor; try done.
  - destruct Hfi as [t Hfi]. rewrite Hfi. split; [done|]. intros ?. done.
  - intros _. by rewrite Ht, bool_decide_false.
  - intros. congruence.
Qed.

Lemma fast_path_inv room w a : batch_inv a → batch_inv (add_nowait_fast_path room w a).2.
Proof.
  intros Ha. unfold add_nowait_fast_path. destruct (Z.eqb_spec (batch_size a) 1) as [Hs|]; cbn [negb]; [|done].
  destruct (closed a) eqn:Hc; [done|]. case_decide; [done|]. destruct room; cbn [negb]; [|done]. destruct Ha.
  constructor; cbn; try done.
  - intros b [Hin| ->%list_elem_of_singleton]%elem_of_app; [by apply bt_batches0|]. unfold zlen; cbn. lia.
  - rewrite concat_app, zlen_app, bt_total0. cbn. unfold zlen at 3. cbn. lia.
  - rewrite zlen_app. unfold zlen at 2. cbn. lia.
Qed.

Lemma timer_inv now a : batch_inv a → batch_inv (timer_flush now a).
Proof. intros Ha. unfold timer_flush. case_decide as Hd; [|done]. apply flush_inv; [by apply inv_flushable|apply Hd]. Qed.

Lemma close_inv now a : batch_inv a → batch_inv (close now a).
Proof.
  intros Ha. unfold close. case_decide as Hd; cbn in Hd.
  - destruct Ha. constructor; cbn; try done.
  - apply flush_inv; [|done]. apply inv_flushable in Ha. destruct Ha. by constructor.
Qed.

Lemma batch_apply_inv a op : batch_inv a → batch_inv (batch_apply a op).
Proof. intros Ha. destruct op; cbn; [by apply add_inv|by apply fast_path_inv|by apply timer_inv|by apply close_inv]. Qed.

(** Each operation passes on what was there and what it takes. *)
Lemma batch_apply_items a op :
  concat (task_queue (batch_apply a op)) ++ buffer (batch_apply a op)
  = (concat (task_queue a) ++ buffer a) ++ taken a op.
Proof.
  destruct op as [now w|room w|now|now]; cbn.
  - unfold add. destruct (closed a); [by rewrite app_nil_r|].
    set (a1 := if should_flush_on_demand now a then flush_locked FlushDemand now a else a).
    assert (concat (task_queue a1) ++ buffer a1 = concat (task_queue a) ++ buffer a) as H1
      by (unfold a1; destruct (should_flush_on_demand now a); [apply flush_items|done]).
    clearbody a1. cbn zeta.
    match goal with |- context [match first_item_time ?x with None => ?y | Some _ => _ end] =>
      set (a3 := match first_item_time x with None => y | Some _ => x end) end.
    assert (concat (task_queue a3) ++ buffer a3 = (concat (task_queue a) ++ buffer a) ++ [w]) as H3.
    { rewrite <-H1. unfold a3. cbn. destruct (first_item_time a1); cbn; by rewrite app_assoc. }
    destruct (batch_size a3 <=? zlen (buffer a3)); [by rewrite flush_items|done].
  - unfold add_nowait_fast_path. destruct (negb (batch_size a =? 1)); [by rewrite app_nil_r|].
    destruct (closed a); [by rewrite app_nil_r|]. case_decide as Hd; [by rewrite app_nil_r|].
    destruct (negb room); [by rewrite app_nil_r|]. cbn. rewrite Hd, concat_app. cbn.
    by rewrite !app_nil_r.
  - unfold timer_flush. case_decide; [rewrite flush_items|]; by rewrite app_nil_r.
  - unfold close. case_decide; [|rewrite flush_items]; cbn; by rewrite app_nil_r.
Qed.

Lemma batch_run_items ops a :
  let a' := fold_left batch_apply ops a in
  concat (task_queue a') ++ buffer a' = (concat (task_queue a) ++ buffer a) ++ taken_by ops a.
Proof.
  revert a. induction ops as [|op ops IH]; intros a; cbn; [by rewrite app_nil_r|].
  cbn in IH. by rewrite IH, batch_apply_items, <-app_assoc.
Qed.

(** C30. The accumulator neither loses, duplicates nor reorders work: in every run the batches handed
    over, in order, followed by the items still waiting are exactly the items taken; batches are
    never empty nor over the configured size; waiting items always have a timer running, so none is
    stranded; and nothing waits once it is closed. *)
Theorem batching_preserves_work size policy ms ops :
  1 ≤ size →
  let a0 := new_accumulator size policy ms in
  let a := fold_left batch_apply ops a0 in
  concat (task_queue a) ++ buffer a = taken_by ops a0
  ∧ (∀ batch, batch ∈ task_queue a → 1 ≤ zlen batch ≤ batch_size a)
  ∧ (buffer a ≠ [] → flush_timer a = true ∧ closed a = false)
  ∧ total_flushed_items a = zlen (concat (task_queue a)).
Proof.
  intros Hs a0 a. assert (batch_inv a) as Ha.
  { apply (fold_left_inv batch_inv); [intros; by apply batch_apply_inv|by apply new_accumulator_inv]. }
  split; [exact (batch_run_items ops a0)|]. split; [apply Ha|]. split; [|apply Ha].
  intros Hne. assert (closed a = false) as Hc.
  { destruct (closed a) eqn:Hc; [|done]. by destruct Hne; apply (bt_closed _ Ha). }
  split; [|done]. by rewrite (bt_timer _ Ha Hc), bool_decide_false.
Qed.

(** An item added after the close is dropped without a word. *)
Lemma add_after_close_drops now w a : closed a = true → add now w a = a.
Proof. intros H. unfold add. by rewrite H. Qed.

(** ** Witness: three items in batches of two *)

Definition batch_demo_item (o : Z) : WorkItem := mkWorkItem "id" (mkTp "orders" 0) o 1 PyNone PyNone 0 None.
Definition batch_demo_ops : list BatchOp :=
  [OpAdd 0%Q (batch_demo_item 0); OpAdd 1%Q (batch_demo_item 1); OpAdd 2%Q (batch_demo_item 2); OpClose 3%Q].

Example batch_demo_batches :
  (λ batch : list WorkItem, wi_offset <$> batch) <$> task_queue (fold_left batch_apply batch_demo_ops (new_accumulator 2 "size_or_timer" 0))
  = [[0; 1]; [2]].
Proof. vm_compute. reflexivity. Qed.

Lemma batching_preserves_work_witness :
  total_flushed_items (fold_left batch_apply batch_demo_ops (new_accumulator 2 "size_or_timer" 0)) = 3
  ∧ (∀ batch, batch ∈ task_queue (fold_left batch_apply batch_demo_ops (new_accumulator 2 "size_or_timer" 0)) →
       1 ≤ zlen batch ≤ 2).
Proof.
  destruct (batching_preserves_work 2 "size_or_timer" 0 batch_demo_ops ltac:(lia)) as (_ & H & _).
  split; [vm_compute; reflexivity|exact H].
Defined.
