(* ===== verification/ProcessCompletionBuffer.v ===== *)
(** * The process engine's completion buffer ([execution_plane/process_completion_buffer.py])

    Completions come back from worker processes through a queue, possibly more than once (a
    worker that died after reporting is recovered and reports again).  The buffer decodes them,
    drops those whose identity it has seen among the last [max_seen_identities], tells the
    in-flight registry of each one it accepts and keeps what a poll has no room for.  Decoding
    is [process_codec]'s and a parameter; the queue's items and the callbacks are lists. *)

From S2P Require Import Prelude Dto.

Abbreviation CompletionIdentity := (string * string * Z * Z * Z)%type.

Definition identity_of (e : CompletionEvent) : CompletionIdentity :=
  (ce_id e, topic (ce_tp e), partition (ce_tp e), ce_offset e, ce_epoch e).

Definition is_synthetic_failure_event (e : CompletionEvent) : bool :=
  bool_decide (ce_status e = FAILURE) && bool_decide (ce_id e = ""%string)
  && bool_decide (topic (ce_tp e) = ""%string) && (ce_offset e <? 0) && (ce_epoch e =? 0).

Section buffer.
Context {Raw : Type} (decode_queue_item_events : Raw → list CompletionEvent).

Record CompletionBuffer := mkBuffer {
  completion_queue : list Raw;
  prefetched_events : list CompletionEvent;
  seen_identities : gset CompletionIdentity;
  seen_identity_order : list CompletionIdentity;
  max_seen_identities : Z;
  discarded : list CompletionEvent;      (* the calls of discard_registry_entry_for_completion *)
  decrements : Z;                        (* the calls of decrement_in_flight *)
  arrived : list Raw;                    (* every item ever queued; not code *)
  accepted_events : list CompletionEvent; (* every event ever accepted; not code *)
  delivered_events : list CompletionEvent; (* every event ever returned; not code *)
}.

#[export] Instance CompletionBuffer_settable : Settable CompletionBuffer :=
  λ b, mkBuffer (completion_queue b) (prefetched_events b) (seen_identities b) (seen_identity_order b)
         (max_seen_identities b) (discarded b) (decrements b) (arrived b) (accepted_events b) (delivered_events b).

Definition new_buffer (max_seen : Z) : CompletionBuffer :=
  mkBuffer [] [] ∅ [] (Z.max 1 max_seen) [] 0 [] [] [].

(** The eviction loop of [is_duplicate_event] *)
Fixpoint evict_identities (max_seen : Z) (order : list CompletionIdentity) (seen : gset CompletionIdentity)
    : list CompletionIdentity * gset CompletionIdentity :=
  match order with
  | [] => ([], seen)
  | oldest :: rest =>
      if max_seen <? zlen order then evict_identities max_seen rest (seen ∖ {[oldest]}) else (order, seen)
  end.

Definition is_duplicate_event (e : CompletionEvent) (b : CompletionBuffer) : bool * CompletionBuffer :=
  if is_synthetic_failure_event e then (false, b)
  else if decide (identity_of e ∈ seen_identities b) then (true, b)
  else
    let '(order, seen) := evict_identities (max_seen_identities b)
                            (seen_identity_order b ++ [identity_of e]) ({[identity_of e]} ∪ seen_identities b) in
    (false, b <| seen_identity_order := order |> <| seen_identities := seen |>).

(** What an accepted event does besides being kept or returned *)
Definition note_accepted (e : CompletionEvent) (b : CompletionBuffer) : CompletionBuffer :=
  b <| discarded ::= λ l, l ++ [e] |> <| accepted_events ::= λ l, l ++ [e] |>.

Definition prefetch_event (e : CompletionEvent) (b : CompletionBuffer) : bool * CompletionBuffer :=
  let '(duplicate, b1) := is_duplicate_event e b in
  if (duplicate : bool) then (false, b1)
  else (true, note_accepted e (b1 <| prefetched_events ::= λ l, l ++ [e] |>)).

Fixpoint prefetch_events (es : list CompletionEvent) (accepted : bool) (b : CompletionBuffer) : bool * CompletionBuffer :=
  match es with
  | [] => (accepted, b)
  | e :: rest => let '(ok, b1) := prefetch_event e b in prefetch_events rest (ok || accepted) b1
  end.

Definition prefetch_queue_item (raw : Raw) (b : CompletionBuffer) : bool * CompletionBuffer :=
  prefetch_events (decode_queue_item_events raw) false b.

(** The one item that [wait_for_completion] takes off the queue *)
Definition prefetch_next (b : CompletionBuffer) : bool * CompletionBuffer :=
  match completion_queue b with
  | [] => (false, b)
  | raw :: rest => prefetch_queue_item raw (b <| completion_queue := rest |>)
  end.

(** [drain_queue]: the loop over the items visible now *)
Fixpoint drain_items (items : list Raw) (prefetched : Z) (b : CompletionBuffer) : Z * CompletionBuffer :=
  match items with
  | [] => (prefetched, b)
  | raw :: rest =>
      let '(ok, b1) := prefetch_queue_item raw (b <| completion_queue := rest |>) in
      drain_items rest (if (ok : bool) then prefetched + 1 else prefetched) b1
  end.

Definition drain_queue (b : CompletionBuffer) : Z * CompletionBuffer := drain_items (completion_queue b) 0 b.

Definition poll_prefetched (batch_limit : Z) (b : CompletionBuffer) : list CompletionEvent * CompletionBuffer :=
  let events := py_take batch_limit (prefetched_events b) in
  (events, b <| prefetched_events ::= py_drop batch_limit |> <| decrements ::= λ n, n + zlen events |>
             <| delivered_events ::= λ l, l ++ events |>).

(** The inner loop of [poll_available]: the events of one item *)
Fixpoint poll_events (batch_limit : Z) (es : list CompletionEvent) (completed : list CompletionEvent)
    (b : CompletionBuffer) : list CompletionEvent * CompletionBuffer :=
  match es with
  | [] => (completed, b)
  | e :: rest =>
      let '(duplicate, b1) := is_duplicate_event e b in
      if (duplicate : bool) then poll_events batch_limit rest completed b1
      else if batch_limit <=? zlen completed
      then poll_events batch_limit rest completed (note_accepted e (b1 <| prefetched_events ::= λ l, l ++ [e] |>))
      else poll_events batch_limit rest (completed ++ [e])
             (note_accepted e (b1 <| decrements ::= λ n, n + 1 |> <| delivered_events ::= λ l, l ++ [e] |>))
  end.

Fixpoint poll_items (batch_limit : Z) (items : list Raw) (completed : list CompletionEvent) (b : CompletionBuffer)
    : list CompletionEvent * CompletionBuffer :=
  match items with
  | [] => (completed, b)
  | raw :: rest =>
      if zlen completed <? batch_limit then
        let '(completed1, b1) :=
          poll_events batch_limit (decode_queue_item_events raw) completed (b <| completion_queue := rest |>) in
        poll_items batch_limit rest completed1 b1
      else (completed, b)
  end.

Definition poll_available (batch_limit : Z) (b : CompletionBuffer) : list CompletionEvent * CompletionBuffer :=
  poll_items batch_limit (completion_queue b) [] b.

(** ** Runs: workers put items, the engine drains and polls *)

Inductive BufferOp :=
  | OpArrive (raw : Raw) | OpDrain | OpPrefetchNext | OpPollPrefetched (n : Z) | OpPollAvailable (n : Z).

Definition buffer_apply (b : CompletionBuffer) (op : BufferOp) : CompletionBuffer :=
  match op with
  | OpArrive raw => b <| completion_queue ::= λ q, q ++ [raw] |> <| arrived ::= λ l, l ++ [raw] |>
  | OpDrain => (drain_queue b).2
  | OpPrefetchNext => (prefetch_next b).2
  | OpPollPrefetched n => (poll_prefetched n b).2
  | OpPollAvailable n => (poll_available n b).2
  end.

(** ** Invariant *)

(** The identities accepted so far, oldest first *)
Definition accepted_identities (b : CompletionBuffer) : list CompletionIdentity :=
  identity_of <$> filter (λ e, is_synthetic_failure_event e = false) (accepted_events b).

(** The last [n] elements *)
Definition window {A} (n : Z) (l : list A) : list A := drop (length l - Z.to_nat n) l.

(** Repetitions are more than [n] apart *)
Definition spaced {A} (n : Z) (l : list A) : Prop :=
  ∀ i j x, l !! i = Some x → l !! j = Some x → (i < j)%nat → n < Z.of_nat (j - i).

(** [e] was accepted, or one with its identity was *)
Definition covered (b : CompletionBuffer) (e : CompletionEvent) : Prop :=
  e ∈ accepted_events b ∨ ∃ e', e' ∈ accepted_events b ∧ identity_of e' = identity_of e.

Record core_inv (b : CompletionBuffer) : Prop := mkCoreInv {
  cb_max : 1 ≤ max_seen_identities b;
  cb_order : seen_identity_order b = window (max_seen_identities b) (accepted_identities b);
  cb_seen : seen_identities b = list_to_set (seen_identity_order b);
  cb_nodup : NoDup (seen_identity_order b);
  cb_spaced : spaced (max_seen_identities b) (accepted_identities b);
  cb_discarded : discarded b = accepted_events b;
  cb_decrements : decrements b = zlen (delivered_events b);
  cb_events : accepted_events b ≡ₚ delivered_events b ++ prefetched_events b;
}.

(** Every item that left the queue has been dealt with *)
Definition handled (b : CompletionBuffer) (raw : Raw) : Prop := ∀ e, e ∈ decode_queue_item_events raw → covered b e.

Definition buffer_inv (b : CompletionBuffer) : Prop :=
  core_inv b ∧ ∀ raw, raw ∈ arrived b → raw ∈ completion_queue b ∨ handled b raw.

(** *** The window of identities *)

Lemma window_snoc {A} n (l : list A) x :
  1 ≤ n → window n (l ++ [x]) = (if n <=? zlen l then tail (window n l) else window n l) ++ [x].
Proof.
  intros Hn. unfold window, zlen. rewrite length_app. cbn.
  destruct (Z.leb_spec n (Z.of_nat (length l))).
  - rewrite drop_app_le by lia. f_equal. replace (length l + 1 - Z.to_nat n)%nat with (S (length l - Z.to_nat n)) by lia.
    generalize (length l - Z.to_nat n)%nat as k. intros k. clear. revert k.
    induction l as [|y l IH]; intros [|k]; cbn; done || apply IH.
  - replace (length l + 1 - Z.to_nat n)%nat with 0%nat by lia. by replace (length l - Z.to_nat n)%nat with 0%nat by lia.
Qed.

Lemma window_length {A} n (l : list A) : 0 ≤ n → zlen (window n l) = Z.min n (zlen l).
Proof. intros Hn. unfold window, zlen. rewrite length_drop. lia. Qed.

Lemma lookup_window {A} n (l : list A) i x :
  l !! i = Some x → Z.of_nat (length l) - n ≤ Z.of_nat i → x ∈ window n l.
Proof.
  intros Hi Hn. unfold window. apply list_elem_of_lookup. exists (i - (length l - Z.to_nat n))%nat.
  rewrite lookup_drop. replace (_ + _)%nat with i; [done|]. lia.
Qed.

Lemma spaced_snoc {A} n (l : list A) x : 1 ≤ n → spaced n l → x ∉ window n l → spaced n (l ++ [x]).
Proof.
  intros Hn Hs Hx i j y Hi Hj Hij. destruct (decide (j = length l)) as [->|Hne].
  - rewrite lookup_app_r, Nat.sub_diag in Hj by lia. injection Hj as <-. rewrite lookup_app_l in Hi by lia.
    destruct (decide (Z.of_nat (length l - i) ≤ n)); [|lia]. exfalso. apply Hx.
    eapply lookup_window; [done|]. lia.
  - assert (j < length l)%nat.
    { apply lookup_lt_Some in Hj as Hlt. rewrite length_app in Hlt. cbn in Hlt. lia. }
    rewrite lookup_app_l in Hi, Hj by lia. eauto.
Qed.

(** Appending a new identity and evicting keeps the window. *)
Lemma evict_identities_spec max l x :
  1 ≤ max → NoDup (window max l) → x ∉ window max l →
  evict_identities max (window max l ++ [x]) ({[x]} ∪ list_to_set (window max l))
  = (window max (l ++ [x]), list_to_set (window max (l ++ [x]))) ∧ NoDup (window max (l ++ [x])).
Proof.
  intros Hm Hnd Hx. pose proof (window_length max l ltac:(lia)) as Hlen. rewrite window_snoc by done.
  set (w := window max l) in *. clearbody w. destruct (Z.leb_spec max (zlen l)).
  - destruct w as [|y w]; [rewrite zlen_nil_0 in Hlen; lia|]. cbn [tail app evict_identities].
    apply NoDup_cons in Hnd as [Hy Hnd]. apply not_elem_of_cons in Hx as [Hne Hx].
    rewrite zlen_cons in Hlen. assert (zlen (y :: w ++ [x]) = max + 1) as Hz.
    { rewrite zlen_cons, zlen_app. change (zlen [x]) with 1. lia. }
    rewrite Hz. destruct (Z.ltb_spec max (max + 1)); [|lia]. split.
    + assert (zlen (w ++ [x]) = max) as Hz2 by (rewrite zlen_cons in Hz; lia).
      assert (({[x]} ∪ (list_to_set (y :: w) : gset CompletionIdentity)) ∖ {[y]} = list_to_set (w ++ [x])) as ->.
      { rewrite list_to_set_cons, list_to_set_app_L. cbn. rewrite union_empty_r_L. apply set_eq. intros z.
        rewrite elem_of_difference, !elem_of_union, !elem_of_singleton, elem_of_list_to_set. naive_solver. }
      destruct (w ++ [x]) as [|z l'] eqn:Hw; [done|]. cbn [evict_identities]. rewrite Hz2.
      destruct (Z.ltb_spec max max); [lia|done].
    + apply NoDup_app. split; [done|]. split; [|apply NoDup_singleton].
      intros z Hz3 ->%list_elem_of_singleton. done.
  - split.
    + assert (zlen (w ++ [x]) ≤ max) as Hz by (rewrite zlen_app; change (zlen [x]) with 1; lia).
      assert (({[x]} ∪ list_to_set w : gset CompletionIdentity) = list_to_set (w ++ [x])) as ->.
      { rewrite list_to_set_app_L. cbn. rewrite union_empty_r_L. apply (comm_L (∪)). }
      destruct (w ++ [x]) as [|z l'] eqn:Hw; [done|]. cbn [evict_identities].
      destruct (Z.ltb_spec max (zlen (z :: l'))); [lia|done].
    + apply NoDup_app. split; [done|]. split; [|apply NoDup_singleton].
      intros z Hz3 ->%list_elem_of_singleton. done.
Qed.

(** *** Accepting an event *)

Lemma accepted_identities_snoc b e :
  accepted_identities (note_accepted e b)
  = accepted_identities b ++ (if is_synthetic_failure_event e then [] else [identity_of e]).
Proof.
  unfold accepted_identities. cbn. rewrite filter_app, filter_cons, filter_nil.
  destruct (is_synthetic_failure_event e); [rewrite decide_False by done; by rewrite !app_nil_r|].
  rewrite decide_True by done. by rewrite fmap_app.
Qed.

Lemma window_sub {A} n (l : list A) x : x ∈ window n l → x ∈ l.
Proof.
  unfold window. rewrite !list_elem_of_lookup. intros [i Hi]. rewrite lookup_drop in Hi. eauto.
Qed.

(** An event is a duplicate of an accepted one, or accepting it keeps the invariant: [keep] is where
    it goes. *)
Lemma is_duplicate_spec e b :
  core_inv b →
  let '(duplicate, b1) := is_duplicate_event e b in
  if (duplicate : bool) then b1 = b ∧ covered b e
  else ∀ b2, accepted_events b2 = accepted_events b → discarded b2 = discarded b →
       max_seen_identities b2 = max_seen_identities b →
       seen_identity_order b2 = seen_identity_order b1 → seen_identities b2 = seen_identities b1 →
       decrements b2 = zlen (delivered_events b2) →
       accepted_events b ++ [e] ≡ₚ delivered_events b2 ++ prefetched_events b2 →
       core_inv (note_accepted e b2).
Proof.
  intros [H1 H2 H3 H4 H5 H6 H7 H8]. unfold is_duplicate_event.
  assert (∀ b2, accepted_events b2 = accepted_events b → discarded b2 = discarded b →
    max_seen_identities b2 = max_seen_identities b → decrements b2 = zlen (delivered_events b2) →
    accepted_events b ++ [e] ≡ₚ delivered_events b2 ++ prefetched_events b2 →
    let ids := accepted_identities b ++ (if is_synthetic_failure_event e then [] else [identity_of e]) in
    seen_identity_order b2 = window (max_seen_identities b) ids →
    seen_identities b2 = list_to_set (seen_identity_order b2) → NoDup (seen_identity_order b2) →
    spaced (max_seen_identities b) ids → core_inv (note_accepted e b2)) as Hmk.
  { intros b2 E1 E2 E3 E4 E5 ids E6 E7 E8 E9.
    assert (accepted_identities (note_accepted e b2) = ids) as Hids.
    { rewrite accepted_identities_snoc. unfold ids, accepted_identities. by rewrite E1. }
    constructor; rewrite ?Hids; cbn; rewrite ?E1, ?E2, ?E3, ?H6; done. }
  destruct (is_synthetic_failure_event e) eqn:Hsyn.
  { intros b2 E1 E2 E3 E4 E5 E6 E7. apply Hmk; try done; by rewrite ?app_nil_r, ?E5, ?E4. }
  case_decide as Hin.
  { split; [done|]. right. rewrite H3, elem_of_list_to_set, H2 in Hin. apply window_sub in Hin.
    unfold accepted_identities in Hin. apply list_elem_of_fmap in Hin as (e' & Heq & Hin).
    apply list_elem_of_filter in Hin as [_ Hin]. exists e'. by split. }
  rewrite H3, elem_of_list_to_set, H2 in Hin. rewrite H3, H2. rewrite H2 in H4.
  destruct (evict_identities_spec _ _ _ H1 H4 Hin) as [-> Hnd].
  intros b2 E1 E2 E3 E4 E5 E6 E7. cbn in E4, E5. apply Hmk; try done; [by rewrite E5, E4|by rewrite E4|by apply spaced_snoc].
Qed.

(** The accepted events only grow, and the queue and the arrivals are left alone. *)
Definition grows (b b' : CompletionBuffer) : Prop :=
  (∃ l, accepted_events b' = accepted_events b ++ l) ∧ completion_queue b' = completion_queue b ∧ arrived b' = arrived b.

#[local] Instance grows_preorder : PreOrder grows.
Proof.
  split.
  - intros b. split; [exists []; by rewrite app_nil_r|done].
  - intros b1 b2 b3 ((l1 & H1) & H2 & H3) ((l2 & H4) & H5 & H6). split; [|split; congruence].
    exists (l1 ++ l2). by rewrite H4, H1, app_assoc.
Qed.

Lemma grows_covered b b' e : grows b b' → covered b e → covered b' e.
Proof.
  intros [(l & Hl) _]. unfold covered. rewrite Hl. intros [H|(e' & H & He)];
    [left|right; exists e'; split; [|done]]; apply elem_of_app; by left.
Qed.

Lemma is_duplicate_grows e b : grows b (is_duplicate_event e b).2.
Proof.
  unfold is_duplicate_event. destruct (is_synthetic_failure_event e); [reflexivity|].
  case_decide; [reflexivity|]. destruct (evict_identities _ _ _) as [order seen].
  split; [exists []; cbn; by rewrite app_nil_r|done].
Qed.

Lemma is_duplicate_frame e b :
  let b1 := (is_duplicate_event e b).2 in
  accepted_events b1 = accepted_events b ∧ discarded b1 = discarded b
  ∧ max_seen_identities b1 = max_seen_identities b ∧ decrements b1 = decrements b
  ∧ delivered_events b1 = delivered_events b ∧ prefetched_events b1 = prefetched_events b.
Proof.
  unfold is_duplicate_event. destruct (is_synthetic_failure_event e); [done|].
  case_decide; [done|]. by destruct (evict_identities _ _ _) as [order seen].
Qed.

Lemma note_accepted_covers b e : covered (note_accepted e b) e.
Proof. left. cbn. apply elem_of_app. right. by left. Qed.

Lemma prefetch_event_spec e b :
  core_inv b → let b' := (prefetch_event e b).2 in core_inv b' ∧ grows b b' ∧ covered b' e.
Proof.
  intros Hb. unfold prefetch_event. pose proof (is_duplicate_spec e b Hb) as Hd.
  pose proof (is_duplicate_grows e b) as Hg. pose proof (is_duplicate_frame e b) as Hf.
  destruct (is_duplicate_event e b) as [[] b1]; cbn [snd] in *.
  - destruct Hd as [-> ?]. done.
  - destruct Hf as (F1 & F2 & F3 & F4 & F5 & F6). split; [|split; [|apply note_accepted_covers]].
    + apply Hd; try done; cbn; [by rewrite F4, F5; apply Hb|].
      rewrite F5, F6, (cb_events _ Hb), app_assoc. done.
    + etransitivity; [exact Hg|]. split; [by exists [e]|done].
Qed.

Lemma prefetch_events_spec es acc b :
  core_inv b →
  let b' := (prefetch_events es acc b).2 in core_inv b' ∧ grows b b' ∧ ∀ e, e ∈ es → covered b' e.
Proof.
  revert acc b. induction es as [|e es IH]; intros acc b Hb; cbn [prefetch_events].
  { split; [done|]. split; [reflexivity|]. intros e He. by apply elem_of_nil in He. }
  destruct (prefetch_event_spec e b Hb) as (H1 & H2 & H3). destruct (prefetch_event e b) as [ok b1]. cbn in *.
  destruct (IH (ok || acc) b1 H1) as (H4 & H5 & H6). split; [done|]. split; [by etransitivity|].
  intros e' [->|He]%elem_of_cons; [by eapply grows_covered|by apply H6].
Qed.

Lemma poll_events_spec n es completed b :
  core_inv b →
  let b' := (poll_events n es completed b).2 in core_inv b' ∧ grows b b' ∧ ∀ e, e ∈ es → covered b' e.
Proof.
  revert completed b. induction es as [|e es IH]; intros completed b Hb; cbn [poll_events].
  { split; [done|]. split; [reflexivity|]. intros e He. by apply elem_of_nil in He. }
  pose proof (is_duplicate_spec e b Hb) as Hd. pose proof (is_duplicate_grows e b) as Hg.
  pose proof (is_duplicate_frame e b) as Hf. destruct (is_duplicate_event e b) as [[] b1]; cbn [snd] in *.
  { destruct Hd as [-> Hcov]. destruct (IH completed b Hb) as (H4 & H5 & H6). split; [done|]. split; [done|].
    intros e' [->|He]%elem_of_cons; [by eapply grows_covered|by apply H6]. }
  destruct Hf as (F1 & F2 & F3 & F4 & F5 & F6).
  assert (∀ completed' b2, core_inv (note_accepted e b2) → grows b (note_accepted e b2) →
    let b' := (poll_events n es completed' (note_accepted e b2)).2 in
    core_inv b' ∧ grows b b' ∧ ∀ e', e' ∈ e :: es → covered b' e') as Hrest.
  { intros completed' b2 Hc2 Hg2. destruct (IH completed' _ Hc2) as (H4 & H5 & H6). split; [done|].
    split; [by etransitivity|]. intros e' [->|He]%elem_of_cons; [|by apply H6].
    eapply grows_covered; [done|apply note_accepted_covers]. }
  destruct (n <=? zlen completed); apply Hrest.
  - apply Hd; try done; cbn; [by rewrite F4, F5; apply Hb|]. rewrite F5, F6, (cb_events _ Hb), app_assoc. done.
  - etransitivity; [exact Hg|]. split; [by exists [e]|done].
  - apply Hd; try done; cbn; rewrite ?F4, ?F5, ?F6.
    + rewrite zlen_app, (cb_decrements _ Hb). done.
    + rewrite (cb_events _ Hb), <-!app_assoc. apply Permutation_app; [done|]. apply Permutation_app_comm.
  - etransitivity; [exact Hg|]. split; [by exists [e]|done].
Qed.

(** *** The loops over the queue *)

(** Taking the first item off the queue and handling it *)
Lemma take_item b raw rest b1 :
  buffer_inv b → completion_queue b = raw :: rest →
  core_inv b1 → grows (b <| completion_queue := rest |>) b1 → (∀ e, e ∈ decode_queue_item_events raw → covered b1 e) →
  buffer_inv b1 ∧ completion_queue b1 = rest.
Proof.
  intros [_ Ha] Hq Hc (Hg1 & Hg2 & Hg3) Hcov. cbn in Hg1, Hg2, Hg3. split; [|done]. split; [done|]. rewrite Hg2, Hg3.
  intros raw' Hin. destruct (Ha raw' Hin) as [Hq'|Hh].
  - rewrite Hq in Hq'. apply elem_of_cons in Hq' as [->|Hq']; [by right|by left].
  - right. intros e He. destruct Hg1 as [l Hl]. destruct (Hh e He) as [Hx|(e' & Hx & Heq)].
    + left. rewrite Hl. apply elem_of_app. by left.
    + right. exists e'. rewrite Hl. split; [apply elem_of_app; by left|done].
Qed.

Lemma core_queue b q : core_inv b → core_inv (b <| completion_queue := q |>).
Proof. intros []. by constructor. Qed.

Lemma drain_items_inv items k b :
  completion_queue b = items → buffer_inv b →
  buffer_inv (drain_items items k b).2 ∧ completion_queue (drain_items items k b).2 = [].
Proof.
  revert k b. induction items as [|raw items IH]; intros k b Hq Hb; cbn [drain_items]; [done|].
  unfold prefetch_queue_item.
  destruct (prefetch_events_spec (decode_queue_item_events raw) false (b <| completion_queue := items |>))
    as (H1 & H2 & H3); [by apply core_queue, Hb|].
  destruct (prefetch_events _ _ _) as [ok b1]. cbn [snd] in *.
  destruct (take_item b raw items b1 Hb Hq H1 H2 H3) as [H4 H5]. by apply IH.
Qed.

Lemma prefetch_next_inv b : buffer_inv b → buffer_inv (prefetch_next b).2.
Proof.
  intros Hb. unfold prefetch_next. destruct (completion_queue b) as [|raw rest] eqn:Hq; [done|].
  unfold prefetch_queue_item.
  destruct (prefetch_events_spec (decode_queue_item_events raw) false (b <| completion_queue := rest |>))
    as (H1 & H2 & H3); [by apply core_queue, Hb|].
  destruct (prefetch_events _ _ _) as [ok b1]. cbn [snd] in *. by apply (take_item b raw rest b1).
Qed.

Lemma poll_items_inv n items completed b :
  completion_queue b = items → buffer_inv b → buffer_inv (poll_items n items completed b).2.
Proof.
  revert completed b. induction items as [|raw items IH]; intros completed b Hq Hb; cbn [poll_items]; [done|].
  destruct (zlen completed <? n); [|done].
  destruct (poll_events_spec n (decode_queue_item_events raw) completed (b <| completion_queue := items |>))
    as (H1 & H2 & H3); [by apply core_queue, Hb|].
  destruct (poll_events _ _ _ _) as [completed1 b1]. cbn [snd] in *.
  destruct (take_item b raw items b1 Hb Hq H1 H2 H3) as [H4 H5]. by apply IH.
Qed.

Lemma buffer_apply_inv b op : buffer_inv b → buffer_inv (buffer_apply b op).
Proof.
  intros Hb. destruct op as [raw| | |n|n]; cbn.
  - destruct Hb as [Hc Ha]. split; [destruct Hc; by constructor|]. intros raw'. cbn. rewrite !elem_of_app.
    intros [Hin|Hin]; [|by left; right]. destruct (Ha raw' Hin); [by left; left|by right].
  - by apply drain_items_inv.
  - by apply prefetch_next_inv.
  - destruct Hb as [Hc Ha]. split; [|exact Ha]. destruct Hc. constructor; cbn; try done.
    + rewrite zlen_app. lia.
    + rewrite cb_events0, <-app_assoc. unfold py_take, py_drop. by rewrite take_drop.
  - by apply poll_items_inv.
Qed.

(** The window's size is fixed. *)
Lemma poll_events_max n es completed b :
  max_seen_identities (poll_events n es completed b).2 = max_seen_identities b.
Proof.
  revert completed b. induction es as [|e es IH]; intros completed b; cbn [poll_events]; [done|].
  destruct (is_duplicate_frame e b) as (_ & _ & F & _). destruct (is_duplicate_event e b) as [[] b1]; cbn [snd] in *.
  - by rewrite IH.
  - destruct (n <=? zlen completed); rewrite IH; exact F.
Qed.

Lemma prefetch_events_max es acc b : max_seen_identities (prefetch_events es acc b).2 = max_seen_identities b.
Proof.
  revert acc b. induction es as [|e es IH]; intros acc b; cbn [prefetch_events]; [done|]. unfold prefetch_event.
  destruct (is_duplicate_frame e b) as (_ & _ & F & _). destruct (is_duplicate_event e b) as [[] b1]; cbn [snd] in *;
    rewrite IH; exact F.
Qed.

Lemma buffer_apply_max b op : max_seen_identities (buffer_apply b op) = max_seen_identities b.
Proof.
  destruct op as [raw| | |n|n]; cbn; [done| | |done|].
  - unfold drain_queue. generalize 0 as k. generalize (completion_queue b) as items. intros items k. revert k b.
    induction items as [|raw items IH]; intros k b; cbn [drain_items]; [done|]. unfold prefetch_queue_item.
    pose proof (prefetch_events_max (decode_queue_item_events raw) false (b <| completion_queue := items |>)) as Hm.
    destruct (prefetch_events _ _ _) as [ok b1]. cbn [snd] in Hm. by rewrite IH.
  - unfold prefetch_next. destruct (completion_queue b) as [|raw rest]; [done|].
    exact (prefetch_events_max (decode_queue_item_events raw) false (b <| completion_queue := rest |>)).
  - unfold poll_available. generalize (@nil CompletionEvent) as completed. generalize (completion_queue b) as items.
    intros items completed. revert completed b.
    induction items as [|raw items IH]; intros completed b; cbn [poll_items]; [done|].
    destruct (zlen completed <? n); [|done].
    pose proof (poll_events_max n (decode_queue_item_events raw) completed (b <| completion_queue := items |>)) as Hm.
    destruct (poll_events _ _ _ _) as [c1 b1]. cbn [snd] in Hm. by rewrite IH.
Qed.

(** *** Where accepted events come from *)

Lemma prefetch_events_only es acc b e :
  e ∈ accepted_events (prefetch_events es acc b).2 → e ∈ accepted_events b ∨ e ∈ es.
Proof.
  revert acc b. induction es as [|e' es IH]; intros acc b; cbn [prefetch_events]; [by left|]. unfold prefetch_event.
  destruct (is_duplicate_frame e' b) as (F & _). destruct (is_duplicate_event e' b) as [[] b1]; cbn [snd] in *.
  - intros [?|?]%IH; [rewrite <-F; by left|right; apply elem_of_cons; by right].
  - intros [[Hin|Hin%list_elem_of_singleton]%elem_of_app|?]%IH; [rewrite <-F; by left|right; apply elem_of_cons; by left|right; apply elem_of_cons; by right].
Qed.

Lemma poll_events_only n es completed b e :
  e ∈ accepted_events (poll_events n es completed b).2 → e ∈ accepted_events b ∨ e ∈ es.
Proof.
  revert completed b. induction es as [|e' es IH]; intros completed b; cbn [poll_events]; [by left|].
  destruct (is_duplicate_frame e' b) as (F & _). destruct (is_duplicate_event e' b) as [[] b1]; cbn [snd] in *.
  - intros [?|?]%IH; [rewrite <-F; by left|right; apply elem_of_cons; by right].
  - destruct (n <=? zlen completed);
      (intros [[Hin|Hin%list_elem_of_singleton]%elem_of_app|?]%IH; [rewrite <-F; by left|right; apply elem_of_cons; by left|right; apply elem_of_cons; by right]).
Qed.

(** From [b] to [b'] events of the items in [items] were accepted, and no item was added. *)
Definition consumes (items : list Raw) (b b' : CompletionBuffer) : Prop :=
  arrived b' = arrived b ∧ (∃ l, accepted_events b' = accepted_events b ++ l)
  ∧ (∀ raw, raw ∈ completion_queue b' → raw ∈ items)
  ∧ ∀ e, e ∈ accepted_events b' → e ∈ accepted_events b ∨ ∃ raw, raw ∈ items ∧ e ∈ decode_queue_item_events raw.

Lemma consumes_refl b : consumes (completion_queue b) b b.
Proof. split; [done|]. split; [exists []; by rewrite app_nil_r|]. split; [done|]. intros e. by left. Qed.

(** The first item, then the others *)
Lemma consumes_cons raw items b b1 b2 :
  grows (b <| completion_queue := items |>) b1 →
  (∀ e, e ∈ accepted_events b1 → e ∈ accepted_events b ∨ e ∈ decode_queue_item_events raw) →
  consumes items b1 b2 → consumes (raw :: items) b b2.
Proof.
  intros ((l1 & G1) & G2 & G3) Ho (C1 & (l2 & C2) & C3 & C4). cbn in *. split; [congruence|]. split.
  { exists (l1 ++ l2). by rewrite C2, G1, app_assoc. }
  split; [intros r Hr; right; by apply C3|]. intros e [[?|?]%Ho|(r & ? & ?)]%C4; [by left|right|right].
  - exists raw. split; [left|done].
  - exists r. split; [by right|done].
Qed.

Lemma drain_items_consumes items k b :
  completion_queue b = items → buffer_inv b → consumes items b (drain_items items k b).2.
Proof.
  revert k b. induction items as [|raw items IH]; intros k b Hq Hb; cbn [drain_items].
  { rewrite <-Hq. apply consumes_refl. }
  unfold prefetch_queue_item.
  destruct (prefetch_events_spec (decode_queue_item_events raw) false (b <| completion_queue := items |>))
    as (H1 & H2 & H3); [by apply core_queue, Hb|].
  pose proof (prefetch_events_only (decode_queue_item_events raw) false (b <| completion_queue := items |>)) as Ho.
  destruct (prefetch_events _ _ _) as [ok b1]. cbn [snd] in *.
  destruct (take_item b raw items b1 Hb Hq H1 H2 H3) as [H4 H5].
  apply (consumes_cons raw items b b1); [done|exact Ho|by apply IH].
Qed.

Lemma poll_items_consumes n items completed b :
  completion_queue b = items → buffer_inv b → consumes items b (poll_items n items completed b).2.
Proof.
  revert completed b. induction items as [|raw items IH]; intros completed b Hq Hb; cbn [poll_items].
  { rewrite <-Hq. apply consumes_refl. }
  destruct (zlen completed <? n); [|rewrite <-Hq; apply consumes_refl].
  destruct (poll_events_spec n (decode_queue_item_events raw) completed (b <| completion_queue := items |>))
    as (H1 & H2 & H3); [by apply core_queue, Hb|].
  pose proof (poll_events_only n (decode_queue_item_events raw) completed (b <| completion_queue := items |>)) as Ho.
  destruct (poll_events _ _ _ _) as [completed1 b1]. cbn [snd] in *.
  destruct (take_item b raw items b1 Hb Hq H1 H2 H3) as [H4 H5].
  apply (consumes_cons raw items b b1); [done|exact Ho|by apply IH].
Qed.

(** Every queued item arrived, and every accepted event is of an item that did. *)
Definition sourced (b : CompletionBuffer) : Prop :=
  (∀ raw, raw ∈ completion_queue b → raw ∈ arrived b)
  ∧ ∀ e, e ∈ accepted_events b → ∃ raw, raw ∈ arrived b ∧ e ∈ decode_queue_item_events raw.

Lemma consumes_sourced b b' : consumes (completion_queue b) b b' → sourced b → sourced b'.
Proof.
  intros (C1 & _ & C3 & C4) [S1 S2]. split; rewrite C1.
  - intros raw Hr. by apply S1, C3.
  - intros e [He|(raw & Hr & He)]%C4; [by apply S2|]. exists raw. split; [by apply S1|done].
Qed.

Lemma drain_queue_consumes b : buffer_inv b → consumes (completion_queue b) b (drain_queue b).2.
Proof. by apply drain_items_consumes. Qed.

Lemma prefetch_next_consumes b : buffer_inv b → consumes (completion_queue b) b (prefetch_next b).2.
Proof.
  intros Hb. unfold prefetch_next. destruct (completion_queue b) as [|raw rest] eqn:Hq.
  { rewrite <-Hq. apply consumes_refl. }
  unfold prefetch_queue_item.
  destruct (prefetch_events_spec (decode_queue_item_events raw) false (b <| completion_queue := rest |>))
    as (H1 & H2 & H3); [by apply core_queue, Hb|].
  pose proof (prefetch_events_only (decode_queue_item_events raw) false (b <| completion_queue := rest |>)) as Ho.
  destruct (prefetch_events _ _ _) as [ok b1]. cbn [snd] in *.
  destruct (take_item b raw rest b1 Hb Hq H1 H2 H3) as [H4 H5].
  apply (consumes_cons raw rest b b1); [done|exact Ho|]. rewrite <-H5. apply consumes_refl.
Qed.

Lemma poll_available_consumes n b : buffer_inv b → consumes (completion_queue b) b (poll_available n b).2.
Proof. by apply poll_items_consumes. Qed.

Lemma poll_prefetched_consumes n b : consumes (completion_queue b) b (poll_prefetched n b).2.
Proof. apply (consumes_refl b). Qed.

Lemma new_buffer_inv max_seen : buffer_inv (new_buffer max_seen).
Proof.
  split; [constructor; cbn; try done; try lia; apply NoDup_nil; exact I|].
  intros raw Hr. by apply elem_of_nil in Hr.
Qed.

Definition buffer_run (max_seen : Z) (ops : list BufferOp) : CompletionBuffer :=
  fold_left buffer_apply ops (new_buffer max_seen).

Lemma buffer_run_inv max_seen ops : buffer_inv (buffer_run max_seen ops).
Proof.
  apply (fold_left_inv buffer_inv); [intros; by apply buffer_apply_inv|apply new_buffer_inv].
Qed.

End buffer.

(** ** A run: an item is reported twice, once before and once after a poll *)

Definition buffer_demo_event (o : Z) : CompletionEvent := mkCompletion "id" (mkTp "orders" 0) o 1 SUCCESS None 1.

Example buffer_demo :
  let b := buffer_run (λ o : Z, [buffer_demo_event o]) 100
             [OpArrive 1; OpArrive 2; OpPollAvailable 1; OpArrive 1; OpDrain; OpPollPrefetched 10] in
  ce_offset <$> delivered_events b = [1; 2] ∧ decrements b = 2.
Proof. vm_compute. split; reflexivity. Qed.
