(* ===== verification/ProcessTransport.v ===== *)
(** * The worker-pipe transport
    ([execution_plane/process_transport.py],
    [execution_plane/process_transport_worker_pipes.py])

    The parent sends work to worker processes through one pipe each, always the same pipe for the
    same route.  What it has sent and not yet seen started is in [pending_dispatch], so that it
    can be recovered when the worker dies; a bounded semaphore limits the messages not yet
    started.  Payloads are the work items they stand for (the wire format is [ProcessCodec]'s).
    Hashing a route, and whether a pipe takes a message, are parameters. *)

From S2P Require Import Prelude Dto.

(** ** Identities *)

Record RouteIdentity := mkRoute { rt_topic : string; rt_partition : Z; rt_key : PyValue }.

#[export] Instance RouteIdentity_eq_dec : EqDecision RouteIdentity.
Proof. solve_decision. Defined.

Record LogicalWorkIdentity := mkIdentity {
  li_topic : string;
  li_partition : Z;
  li_offset : Z;
  li_id : string;
  li_epoch : Z;
}.

#[export] Instance LogicalWorkIdentity_eq_dec : EqDecision LogicalWorkIdentity.
Proof. solve_decision. Defined.

(** [WorkerExecutionIdentity]: the worker's index and the work *)
Abbreviation WorkerExecutionIdentity := (Z * LogicalWorkIdentity)%type.

(** [InFlightRegistryKey]: worker index, topic, partition, offset *)
Abbreviation InFlightRegistryKey := (Z * string * Z * Z)%type.

(** A [SerializedWorkItem] in the parent: a work item and, once it timed out, [timeout_error] and
    [attempt] *)
Record Payload := mkPayload { pl_item : WorkItem; pl_timed_out : option (string * Z) }.

#[export] Instance Payload_settable : Settable Payload := λ p, mkPayload (pl_item p) (pl_timed_out p).

Definition work_item_payload (w : WorkItem) : Payload := mkPayload w None.

Definition pl_requeue_attempts (p : Payload) : Z := wi_requeue_attempts (pl_item p).

(** [dict(payload)] with [requeue_attempts] raised by one *)
Definition raise_requeue_attempts (p : Payload) : Payload :=
  let w := pl_item p in
  mkPayload (mkWorkItem (wi_id w) (wi_tp w) (wi_offset w) (wi_epoch w) (wi_key w) (wi_payload w)
               (wi_requeue_attempts w + 1) (wi_poison_key w)) (pl_timed_out p).

Definition resolve_route_identity (w : WorkItem) : RouteIdentity :=
  mkRoute (topic (wi_tp w)) (partition (wi_tp w)) (wi_key w).

Definition work_identity (w : WorkItem) : LogicalWorkIdentity :=
  mkIdentity (topic (wi_tp w)) (partition (wi_tp w)) (wi_offset w) (wi_id w) (wi_epoch w).

Definition logical_work_identity_from_payload (p : Payload) : LogicalWorkIdentity := work_identity (pl_item p).

Definition logical_work_identity_from_completion_event (e : CompletionEvent) : LogicalWorkIdentity :=
  mkIdentity (topic (ce_tp e)) (partition (ce_tp e)) (ce_offset e) (ce_id e) (ce_epoch e).

Definition logical_work_identity_from_registry_entry (key : InFlightRegistryKey) (p : Payload) : LogicalWorkIdentity :=
  let '(_, t, n, o) := key in mkIdentity t n o (wi_id (pl_item p)) (wi_epoch (pl_item p)).

Definition worker_execution_identity_from_payload (worker_index : Z) (p : Payload) : WorkerExecutionIdentity :=
  (worker_index, logical_work_identity_from_payload p).

Definition registry_entry_matches_payload (key : InFlightRegistryKey) (registry_payload expected : Payload) : bool :=
  bool_decide (logical_work_identity_from_registry_entry key registry_payload = logical_work_identity_from_payload expected).

(** ** State *)

(** What goes through a pipe: single items, or one ordered route batch *)
Record Message := mkMessage { msg_batch : option string; msg_items : list WorkItem }.

(** [PendingDispatchKey] *)
Inductive PendingKey :=
  | ItemKey (identity : WorkerExecutionIdentity)
  | BatchKey (worker_index : Z) (batch_id : string).

#[export] Instance PendingKey_eq_dec : EqDecision PendingKey.
Proof. solve_decision. Defined.

Definition key_worker (k : PendingKey) : Z := match k with ItemKey i => i.1 | BatchKey n _ => n end.

Inductive Pending :=
  | PendingItem (p : Payload)
  | PendingBatch (batch_id : string) (items : list Payload) (slot_released : bool).

Definition pending_payloads (x : Pending) : list Payload :=
  match x with PendingItem p => [p] | PendingBatch _ items _ => items end.

(** An entry that still holds a queue slot *)
Definition holds_slot (x : Pending) : bool := match x with PendingItem _ => true | PendingBatch _ _ r => negb r end.

(** The senders are the pipes: what was written and not yet received, [None] for a closed end *)
Record WorkerPipes := mkPipes {
  process_count : Z;
  queue_size : Z;
  slots : Z;                                     (* _worker_pipe_queue_slots *)
  shutdown_event : bool;
  pending_dispatch : odict PendingKey Pending;
  senders : list (list Message);                 (* _get_worker_pipe_senders() *)
}.

#[export] Instance WorkerPipes_settable : Settable WorkerPipes :=
  λ t, mkPipes (process_count t) (queue_size t) (slots t) (shutdown_event t) (pending_dispatch t) (senders t).

(** How a dispatch ends; [Waits]: no queue slot is free yet *)
Inductive Dispatch := Dispatched (t : WorkerPipes) | DispatchRaises (t : WorkerPipes) | Waits.

Section transport.
Context (route_digest : RouteIdentity → Z) (pipe_takes : Z → Message → bool).
Implicit Types (t : WorkerPipes) (p : Payload).

Definition new_pipes (processes size : Z) : WorkerPipes := mkPipes processes size size false [] [].

Definition stable_worker_index_for_route (r : RouteIdentity) (process_count : Z) : Z := route_digest r mod process_count.

(** ** Slots *)

Definition release_worker_pipe_queue_slot t : WorkerPipes :=
  if slots t <? queue_size t then t <| slots ::= λ n, n + 1 |> else t.

(** [_acquire_worker_pipe_queue_slot]: [None] is one more round of waiting *)
Definition acquire_worker_pipe_queue_slot t : option (WorkerPipes + WorkerPipes) :=
  if shutdown_event t then Some (inl t)
  else if 0 <? slots t then Some (inr (t <| slots ::= λ n, n - 1 |>)) else None.

(** ** Dispatch *)

(** [_send_packed_payload] and [_send_packed_route_batch], after packing: a missing or broken
    sender, or a message over the size limit, raises *)
Definition send_packed (worker_idx : Z) (m : Message) t : option WorkerPipes :=
  match senders t !! Z.to_nat worker_idx with
  | None => None
  | Some pipe =>
      if pipe_takes worker_idx m then Some (t <| senders ::= <[Z.to_nat worker_idx := pipe ++ [m]]> |>) else None
  end.

(** The common part of both dispatches: slot, pending entry, send, and the way back *)
Definition dispatch_entry (worker_idx : Z) (key : PendingKey) (x : Pending) (m : Message) t : Dispatch :=
  match acquire_worker_pipe_queue_slot t with
  | None => Waits
  | Some (inl t1) => DispatchRaises t1
  | Some (inr t1) =>
      let t2 := t1 <| pending_dispatch ::= od_set key x |> in
      match send_packed worker_idx m t2 with
      | Some t3 => Dispatched t3
      | None => DispatchRaises (release_worker_pipe_queue_slot (t2 <| pending_dispatch ::= od_pop key |>))
      end
  end.

Definition dispatch_payload p (r : RouteIdentity) t : Dispatch :=
  let worker_idx := stable_worker_index_for_route r (process_count t) in
  dispatch_entry worker_idx (ItemKey (worker_execution_identity_from_payload worker_idx p)) (PendingItem p)
    (mkMessage None [pl_item p]) t.

(** [dispatch_route_batch] of a batch with identifier [batch_id] *)
Definition dispatch_route_batch (batch_id : string) (items : list WorkItem) (r : RouteIdentity) t : Dispatch :=
  let worker_idx := stable_worker_index_for_route r (process_count t) in
  dispatch_entry worker_idx (BatchKey worker_idx batch_id) (PendingBatch batch_id (work_item_payload <$> items) false)
    (mkMessage (Some batch_id) items) t.

(** [start_worker_task_source]: a fresh pipe for worker [idx] *)
Definition start_worker_task_source (idx : nat) t : WorkerPipes :=
  if decide (idx < length (senders t))%nat then t <| senders ::= <[idx := []]> |>
  else t <| senders ::= λ l, l ++ [[]] |>.

(** ** Events of the workers *)

Definition key_of_payload (worker_idx : Z) (p : Payload) : InFlightRegistryKey :=
  (worker_idx, topic (wi_tp (pl_item p)), partition (wi_tp (pl_item p)), wi_offset (pl_item p)).

(** [_pending_dispatch_key_for_registry_start] *)
Definition pending_dispatch_key_for_registry_start (key : InFlightRegistryKey) p : option PendingKey :=
  let '(worker_idx, _, _, _) := key in
  if decide (key_of_payload worker_idx p = key)
  then Some (ItemKey (worker_execution_identity_from_payload worker_idx p)) else None.

(** [_pending_route_batch_key_for_registry_start]: the first route batch of the worker with the item *)
Definition pending_route_batch_for_registry_start (key : InFlightRegistryKey) p (d : odict PendingKey Pending)
    : option (PendingKey * (string * list Payload * bool)) :=
  let '(worker_idx, _, _, _) := key in
  head (omap (λ kx : PendingKey * Pending,
    match kx.2 with
    | PendingBatch id items released =>
        if bool_decide (key_worker kx.1 = worker_idx)
           && existsb (λ q, bool_decide (pending_dispatch_key_for_registry_start key q
                = Some (ItemKey (worker_execution_identity_from_payload worker_idx p)))) items
        then Some (kx.1, (id, items, released)) else None
    | PendingItem _ => None
    end) d).

(** [_remove_started_item_from_pending_route_batch], the items left *)
Definition without_item p (items : list Payload) : list Payload :=
  filter (λ q, logical_work_identity_from_payload q ≠ logical_work_identity_from_payload p) items.

Definition put_batch (key : PendingKey) (id : string) (items : list Payload) (released : bool) t : WorkerPipes :=
  match items with
  | [] => t <| pending_dispatch ::= od_pop key |>
  | _ => t <| pending_dispatch ::= od_set key (PendingBatch id items released) |>
  end.

(** [handle_registry_event] for a [start] event *)
Definition handle_start_event (key : InFlightRegistryKey) p t : WorkerPipes :=
  let single := match pending_dispatch_key_for_registry_start key p with
                | Some k => if od_has k (pending_dispatch t) then Some k else None
                | None => None
                end in
  match single with
  | Some k => release_worker_pipe_queue_slot (t <| pending_dispatch ::= od_pop k |>)
  | None =>
      match pending_route_batch_for_registry_start key p (pending_dispatch t) with
      | None => t
      | Some (k, (id, items, released)) =>
          let t1 := put_batch k id (without_item p items) true t in
          if released : bool then t1 else release_worker_pipe_queue_slot t1
      end
  end.

(** [_handle_not_started_route_batch_event]: whether a pending batch matched *)
Definition handle_not_started_event (batch_id : string) (payloads : list Payload) t : bool * WorkerPipes :=
  match head (omap (λ kx : PendingKey * Pending,
          match kx.2 with
          | PendingBatch id items released => if decide (id = batch_id) then Some (kx.1, (items, released)) else None
          | PendingItem _ => None
          end) (pending_dispatch t)) with
  | None => (false, t)
  | Some (k, (items, released)) =>
      (true, put_batch k batch_id (fold_left (λ acc p, without_item p acc) payloads items) released t)
  end.

(** ** Recovery and shutdown *)

Definition recover_entry t (kx : PendingKey * Pending) : WorkerPipes :=
  let t1 := t <| pending_dispatch ::= od_pop kx.1 |> in
  if holds_slot kx.2 then release_worker_pipe_queue_slot t1 else t1.

(** [recover_pending_dispatches]: everything sent to a dead worker and not started *)
Definition recover_pending_dispatches (idx : Z) t : list Payload * WorkerPipes :=
  let mine := filter (λ kx : PendingKey * Pending, key_worker kx.1 = idx) (pending_dispatch t) in
  (mine ≫= λ kx, pending_payloads kx.2, fold_left recover_entry mine t).

Definition clear_pending_dispatches t : WorkerPipes := t <| pending_dispatch := [] |>.

(** [signal_shutdown], without the sentinels *)
Definition signal_shutdown t : WorkerPipes := t <| shutdown_event := true |> <| slots := queue_size t |>.

Definition snapshot_pending_worker_loads t : list Z :=
  (λ n, od_sum (λ x : Z, x) (omap (λ kx : PendingKey * Pending,
     if decide (key_worker kx.1 = n) then Some (n, zlen (pending_payloads kx.2)) else None) (pending_dispatch t)))
  <$> py_range 0 (process_count t).

(** [requeue_payloads], one payload *)
Definition requeue_payload p t : Dispatch := dispatch_payload p (resolve_route_identity (pl_item p)) t.
End transport.
