(* ===== verification/ProcessTransportInv.v ===== *)
(** * What the transport keeps

    The table of pending dispatches is well formed, every slot is accounted for, and no
    operation drops a pending payload without saying so: it is started, in the hands of a
    recovery, or part of a dispatch that raised. *)

From S2P Require Import Prelude Dto ProcessTransport.

Section invariant.
Context (size : Z) (P : Payload → Prop).
Implicit Types (t : WorkerPipes) (p q : Payload) (k : PendingKey) (x : Pending) (i : LogicalWorkIdentity).

(** A key and its entry agree. *)
Definition entry_ok k x : Prop :=
  match k, x with
  | ItemKey (_, i), PendingItem p => logical_work_identity_from_payload p = i
  | BatchKey _ _, PendingBatch _ _ _ => True
  | _, _ => False
  end.

Definition slots_held (d : odict PendingKey Pending) : Z := od_sum (λ x, if holds_slot x then 1 else 0) d.

Record pipes_inv t : Prop := mkPipesInv {
  pi_keys : NoDup (od_keys (pending_dispatch t));
  pi_entries : ∀ k x, od_get k (pending_dispatch t) = Some x → entry_ok k x ∧ Forall P (pending_payloads x);
  pi_pipes : Forall (Forall (λ m, Forall (λ w, P (work_item_payload w)) (msg_items m))) (senders t);
  pi_slots : 0 ≤ slots t;
  pi_size : queue_size t = size;
  pi_held : slots t + slots_held (pending_dispatch t) ≤ size;
}.

(** The work [i] is pending. *)
Definition pends t i : Prop :=
  ∃ k x p, od_get k (pending_dispatch t) = Some x ∧ p ∈ pending_payloads x ∧ logical_work_identity_from_payload p = i.

Lemma slots_held_nonneg d : 0 ≤ slots_held d.
Proof.
  induction d as [|[k x] d IH]; [done|].
  change (0 ≤ (if holds_slot x then 1 else 0) + slots_held d). destruct (holds_slot x); lia.
Qed.

Lemma slots_held_set k x d :
  slots_held (od_set k x d)
  = slots_held d - default 0 ((λ x, if holds_slot x then 1 else 0) <$> od_get k d) + (if holds_slot x then 1 else 0).
Proof. apply od_sum_set. Qed.

Lemma slots_held_pop k d :
  NoDup (od_keys d) → slots_held (od_pop k d) = slots_held d - default 0 ((λ x, if holds_slot x then 1 else 0) <$> od_get k d).
Proof. apply od_sum_pop. Qed.

Lemma old_slot_range k d : 0 ≤ default 0 ((λ x, if holds_slot x then 1 else 0) <$> od_get k d) ≤ 1.
Proof. destruct (od_get k d) as [x|]; cbn; [destruct (holds_slot x)|]; lia. Qed.

(** Changing the table *)

Lemma pipes_inv_set t k x s :
  pipes_inv t → entry_ok k x → Forall P (pending_payloads x) → 0 ≤ s →
  s + slots_held (od_set k x (pending_dispatch t)) ≤ size →
  pipes_inv (t <| slots := s |> <| pending_dispatch ::= od_set k x |>).
Proof.
  intros [] Hk Hp Hs Hh. constructor; cbn -[od_pop]; try done; [by apply NoDup_od_set|].
  intros k' x'. rewrite od_get_set. destruct (decide (k = k')) as [<-|]; [by intros [= <-]|apply pi_entries0].
Qed.

Lemma pipes_inv_pop t k s :
  pipes_inv t → 0 ≤ s → s + slots_held (od_pop k (pending_dispatch t)) ≤ size →
  pipes_inv (t <| slots := s |> <| pending_dispatch ::= od_pop k |>).
Proof.
  intros [] Hs Hh. constructor; cbn -[od_pop]; try done; [by apply NoDup_od_pop|].
  intros k' x'. rewrite od_get_pop. destruct (decide (k = k')); [done|apply pi_entries0].
Qed.

Lemma slots_self t : t <| slots := slots t |> = t.
Proof. by destruct t. Qed.

(** Releasing a slot that was held *)
Lemma release_inv t :
  pipes_inv t → slots t + 1 + slots_held (pending_dispatch t) ≤ size →
  pipes_inv (release_worker_pipe_queue_slot t).
Proof.
  intros [] Hh. unfold release_worker_pipe_queue_slot. case_bool; [|done].
  constructor; cbn -[od_pop]; try done; lia.
Qed.

Lemma release_pending t : pending_dispatch (release_worker_pipe_queue_slot t) = pending_dispatch t.
Proof. unfold release_worker_pipe_queue_slot. by case_bool. Qed.

Lemma pends_same t t' i : pending_dispatch t' = pending_dispatch t → pends t i → pends t' i.
Proof. intros Heq. unfold pends. by rewrite Heq. Qed.

(** What a removed or replaced entry stood for *)
Lemma pends_pop t t' k i :
  pending_dispatch t' = od_pop k (pending_dispatch t) → pends t i →
  pends t' i ∨ ∃ x, od_get k (pending_dispatch t) = Some x
                 ∧ i ∈ logical_work_identity_from_payload <$> pending_payloads x.
Proof.
  intros Heq (k' & x & p & Hx & Hp & <-). destruct (decide (k = k')) as [<-|].
  - right. exists x. split; [done|]. by apply list_elem_of_fmap_2.
  - left. exists k', x, p. by rewrite Heq, od_get_pop_ne.
Qed.

Lemma pends_set t t' k x i :
  pending_dispatch t' = od_set k x (pending_dispatch t) → pends t i →
  pends t' i ∨ ∃ y, od_get k (pending_dispatch t) = Some y
                 ∧ i ∈ logical_work_identity_from_payload <$> pending_payloads y.
Proof.
  intros Heq (k' & y & p & Hx & Hp & <-). destruct (decide (k = k')) as [<-|].
  - right. exists y. split; [done|]. by apply list_elem_of_fmap_2.
  - left. exists k', y, p. by rewrite Heq, od_get_set_ne.
Qed.

Lemma pends_new t t' k x p :
  pending_dispatch t' = od_set k x (pending_dispatch t) → p ∈ pending_payloads x →
  pends t' (logical_work_identity_from_payload p).
Proof. intros Heq Hp. exists k, x, p. by rewrite Heq, od_get_set_eq. Qed.

(** Dropping an entry, with or without its slot *)
Lemma pop_spec k x t :
  pipes_inv t → od_get k (pending_dispatch t) = Some x →
  let t' := t <| pending_dispatch ::= od_pop k |> in
  pipes_inv t' ∧ slots t' + (if holds_slot x then 1 else 0) + slots_held (pending_dispatch t') ≤ size
  ∧ ∀ i, pends t i → pends t' i ∨ i ∈ logical_work_identity_from_payload <$> pending_payloads x.
Proof.
  intros Ht Hx t'.
  assert (slots_held (od_pop k (pending_dispatch t)) = slots_held (pending_dispatch t) - (if holds_slot x then 1 else 0)) as Hs.
  { rewrite slots_held_pop by apply Ht. by rewrite Hx. }
  pose proof (pi_held _ Ht). split; [|split].
  - apply (pipes_inv_pop t k (slots t)); [done|apply Ht|]. rewrite Hs. destruct (holds_slot x); lia.
  - unfold t'. cbn -[od_pop slots_held]. rewrite Hs. destruct (holds_slot x); lia.
  - intros i Hi. destruct (pends_pop t t' k i eq_refl Hi) as [?|(y & Hy & ?)]; [by left|]. simplify_eq. by right.
Qed.

Lemma pop_release_spec k x t :
  pipes_inv t → od_get k (pending_dispatch t) = Some x → holds_slot x = true →
  let t' := release_worker_pipe_queue_slot (t <| pending_dispatch ::= od_pop k |>) in
  pipes_inv t' ∧ ∀ i, pends t i → pends t' i ∨ i ∈ logical_work_identity_from_payload <$> pending_payloads x.
Proof.
  intros Ht Hx Hh t'. destruct (pop_spec k x t Ht Hx) as (H1 & H2 & H3). rewrite Hh in H2.
  split; [by apply release_inv|]. intros i [Hi|?]%H3; [left|by right].
  eapply pends_same; [|done]. apply release_pending.
Qed.

(** ** Dispatch *)

Lemma dispatch_entry_spec takes n k x m t :
  pipes_inv t → entry_ok k x → Forall P (pending_payloads x) → holds_slot x = true →
  Forall (λ w, P (work_item_payload w)) (msg_items m) →
  let ids := logical_work_identity_from_payload <$> pending_payloads x in
  (∀ y i, od_get k (pending_dispatch t) = Some y → i ∈ logical_work_identity_from_payload <$> pending_payloads y → i ∈ ids) →
  match dispatch_entry takes n k x m t with
  | Dispatched t' => pipes_inv t' ∧ (∀ i, pends t i ∨ i ∈ ids → pends t' i)
  | DispatchRaises t' => pipes_inv t' ∧ (∀ i, pends t i → pends t' i ∨ i ∈ ids)
  | Waits => True
  end.
Proof.
  intros Ht Hk Hx Hh Hm ids Hold. unfold dispatch_entry, acquire_worker_pipe_queue_slot.
  destruct (shutdown_event t); [by eauto|]. destruct (Z.ltb_spec 0 (slots t)); [|done].
  set (t2 := (t <| slots ::= _ |>) <| pending_dispatch ::= od_set k x |>).
  assert (∀ i, pends t i ∨ i ∈ ids → pends t2 i) as Hkeep.
  { assert (∀ i, i ∈ ids → pends t2 i) as Hnew.
    { intros i (p & -> & Hp)%list_elem_of_fmap. by apply (pends_new t t2 k x). }
    intros i [Hi|Hi]; [|by apply Hnew].
    destruct (pends_set t t2 k x i eq_refl Hi) as [?|(y & Hy & Hin)]; [done|]. by apply Hnew, (Hold y). }
  pose proof (old_slot_range k (pending_dispatch t)) as Hr.
  pose proof (slots_held_set k x (pending_dispatch t)) as Hset. rewrite Hh in Hset.
  assert (pipes_inv t2) as Ht2.
  { apply (pipes_inv_set t k x (slots t - 1)); try done; [lia|]. pose proof (pi_held _ Ht). lia. }
  unfold send_packed. destruct (senders t2 !! Z.to_nat n) as [pipe|] eqn:Hpipe.
  1: destruct (takes n m).
  - split; [|exact Hkeep]. destruct Ht2. constructor; try done. cbn. apply Forall_insert; [done|].
    apply Forall_app. split; [by eapply Forall_lookup_1|]. by constructor.
  - apply (pop_release_spec k x t2) in Ht2 as [? Hp]; [|apply od_get_set_eq|done].
    split; [done|]. intros i Hi. by apply Hp, Hkeep; left.
  - apply (pop_release_spec k x t2) in Ht2 as [? Hp]; [|apply od_get_set_eq|done].
    split; [done|]. intros i Hi. by apply Hp, Hkeep; left.
Qed.

(** ** Events *)

Lemma elem_of_without_item p q items :
  q ∈ items → q ∈ without_item p items ∨ logical_work_identity_from_payload q = logical_work_identity_from_payload p.
Proof.
  intros Hq. unfold without_item.
  destruct (decide (logical_work_identity_from_payload q = logical_work_identity_from_payload p)); [by right|left].
  by apply list_elem_of_filter.
Qed.

Lemma without_item_sub p items : Forall P items → Forall P (without_item p items).
Proof. intros H. apply Forall_forall. intros q [_ Hq]%list_elem_of_filter. by eapply Forall_forall in H. Qed.

Lemma without_items_sub ps items :
  Forall P items → Forall P (fold_left (λ acc p, without_item p acc) ps items).
Proof. apply (fold_left_inv (Forall P)). intros; by apply without_item_sub. Qed.

Lemma elem_of_without_items ps q items :
  q ∈ items → q ∈ fold_left (λ acc p, without_item p acc) ps items
    ∨ logical_work_identity_from_payload q ∈ logical_work_identity_from_payload <$> ps.
Proof.
  revert items. induction ps as [|p ps IH]; intros items Hq; cbn [fold_left fmap list_fmap]; [by left|].
  destruct (elem_of_without_item p q items Hq) as [H|H]; [|right; rewrite H; left].
  destruct (IH _ H); [by left|right; by right].
Qed.

(** Shrinking a batch: [gone] are the identities taken out *)
Lemma put_batch_spec k id id' items items' released released' t (gone : LogicalWorkIdentity → Prop) :
  pipes_inv t → od_get k (pending_dispatch t) = Some (PendingBatch id items released) →
  Forall P items' → (released = true → released' = true) →
  (∀ q, q ∈ items → q ∈ items' ∨ gone (logical_work_identity_from_payload q)) →
  let t' := put_batch k id' items' released' t in
  pipes_inv t' ∧ (released = false → released' = true ∨ items' = [] → slots t' + 1 + slots_held (pending_dispatch t') ≤ size)
  ∧ ∀ i, pends t i → pends t' i ∨ gone i.
Proof.
  intros Ht Hx Hi' Hr Hgone t'. unfold t', put_batch. destruct items' as [|p items'].
  - destruct (pop_spec k _ t Ht Hx) as (H1 & H2 & H3). split; [done|]. split.
    + intros -> _. exact H2.
    + intros i [?|(q & -> & Hq)%list_elem_of_fmap]%H3; [by left|]. destruct (Hgone q Hq) as [Hn|]; [by apply elem_of_nil in Hn|by right].
  - set (x := PendingBatch id' (p :: items') released').
    pose proof (slots_held_set k x (pending_dispatch t)) as Hs. rewrite Hx in Hs. cbn [fmap option_fmap option_map default holds_slot x] in Hs.
    pose proof (pi_held _ Ht). destruct (pi_entries _ Ht _ _ Hx) as [Hok _]. split; [|split].
    + apply (pipes_inv_set t k x (slots t)); try done; [apply Ht|].
      rewrite Hs. destruct released; [rewrite Hr by done|destruct released']; cbn; lia.
    + intros -> [->|[=]]. cbn -[od_set slots_held]. fold x. rewrite Hs. cbn. lia.
    + set (t2 := t <| pending_dispatch ::= od_set k x |>). change (∀ i, pends t i → pends t2 i ∨ gone i).
      assert (pending_dispatch t2 = od_set k x (pending_dispatch t)) as E2 by done.
      intros i Hi. destruct (pends_set t t2 k x i E2 Hi) as [?|(y & Hy & Hin)]; [by left|].
      simplify_eq. apply list_elem_of_fmap in Hin as (q & -> & Hq). destruct (Hgone q Hq) as [Hn|]; [left|by right].
      by apply (pends_new t t2 k x q).
Qed.

Lemma route_batch_for_start_spec key p t k id items released :
  pending_route_batch_for_registry_start key p (pending_dispatch t) = Some (k, (id, items, released)) →
  (k, PendingBatch id items released) ∈ pending_dispatch t.
Proof.
  unfold pending_route_batch_for_registry_start. destruct key as [[[n ?] ?] ?]. intros Hh.
  apply head_Some_elem_of in Hh. apply list_elem_of_omap in Hh as ([k' x] & Hin & Hx). cbn in Hx.
  destruct x as [|id' items' released']; [done|]. destruct (_ && _); [|done]. by simplify_eq.
Qed.

Lemma handle_start_spec key p t :
  pipes_inv t →
  let t' := handle_start_event key p t in
  pipes_inv t' ∧ ∀ i, pends t i → pends t' i ∨ i = logical_work_identity_from_payload p.
Proof.
  intros Ht. cbn zeta. unfold handle_start_event.
  set (single := match pending_dispatch_key_for_registry_start key p with Some k => _ | None => None end).
  assert (∀ k, single = Some k → ∃ n q, k = ItemKey (n, logical_work_identity_from_payload p)
            ∧ od_get k (pending_dispatch t) = Some (PendingItem q)
            ∧ logical_work_identity_from_payload q = logical_work_identity_from_payload p) as Hsingle.
  { unfold single, pending_dispatch_key_for_registry_start. destruct key as [[[n ?] ?] ?]. intros k.
    destruct (decide _); [|done]. unfold od_has. destruct (od_get _ (pending_dispatch t)) as [x|] eqn:Hx; [|done].
    intros [= <-]. destruct (pi_entries _ Ht _ _ Hx) as [Hok _]. destruct x as [q|]; [|done]. by exists n, q. }
  destruct single as [k|].
  { destruct (Hsingle k eq_refl) as (n & q & -> & Hq & Heq).
    destruct (pop_release_spec _ _ t Ht Hq eq_refl) as [H1 H2]. split; [done|].
    intros i [?|Hi]%H2; [by left|right]. cbn in Hi. rewrite Heq in Hi. by apply list_elem_of_singleton in Hi. }
  destruct (pending_route_batch_for_registry_start key p (pending_dispatch t)) as [[k [[id items] released]]|] eqn:Hb; [|by eauto].
  apply route_batch_for_start_spec in Hb. apply od_elem_get in Hb; [|apply Ht].
  destruct (pi_entries _ Ht _ _ Hb) as [_ Hit].
  destruct (put_batch_spec k id id items (without_item p items) released true t (λ i, i = logical_work_identity_from_payload p))
    as (H1 & H2 & H3); try done; [by apply without_item_sub|intros q; apply elem_of_without_item|].
  destruct released; [done|]. split; [apply release_inv; [done|apply H2; [done|by left]]|].
  intros i [Hi|?]%H3; [left|by right]. eapply pends_same; [|done]. apply release_pending.
Qed.

Lemma handle_not_started_spec id ps t :
  pipes_inv t →
  let '(pending_match, t') := handle_not_started_event id ps t in
  pipes_inv t' ∧ (pending_match = false → t' = t)
  ∧ ∀ i, pends t i → pends t' i ∨ i ∈ logical_work_identity_from_payload <$> ps.
Proof.
  intros Ht. unfold handle_not_started_event.
  destruct (head _) as [[k [items released]]|] eqn:Hh; [|by eauto].
  apply head_Some_elem_of in Hh. apply list_elem_of_omap in Hh as ([k' x] & Hin & Hx). cbn in Hx.
  destruct x as [|id' items' released']; [done|]. destruct (decide (id' = id)) as [->|]; [|done]. simplify_eq.
  apply od_elem_get in Hin; [|apply Ht]. destruct (pi_entries _ Ht _ _ Hin) as [_ Hit].
  destruct (put_batch_spec k id id items (fold_left (λ acc p, without_item p acc) ps items) released released t
    (λ i, i ∈ logical_work_identity_from_payload <$> ps)) as (H1 & _ & H3);
    try done; [by apply without_items_sub|intros q; apply elem_of_without_items].
Qed.

(** ** Recovery *)

Lemma recover_entries_spec l t :
  pipes_inv t → NoDup (od_keys l) → (∀ k x, (k, x) ∈ l → od_get k (pending_dispatch t) = Some x) →
  let t' := fold_left recover_entry l t in
  pipes_inv t' ∧ (∀ i, pends t i → pends t' i ∨ i ∈ logical_work_identity_from_payload <$> l ≫= λ kx, pending_payloads kx.2)
  ∧ senders t' = senders t.
Proof.
  revert t. induction l as [|[k x] l IH]; intros t Ht Hnd Hl; cbn [fold_left].
  { split; [done|]. split; [by left|done]. }
  unfold od_keys in Hnd. cbn in Hnd. apply NoDup_cons in Hnd as [Hk Hnd].
  assert (od_get k (pending_dispatch t) = Some x) as Hx by (apply Hl; left).
  assert (pipes_inv (recover_entry t (k, x)) ∧ (∀ i, pends t i → pends (recover_entry t (k, x)) i
            ∨ i ∈ logical_work_identity_from_payload <$> pending_payloads x)
          ∧ pending_dispatch (recover_entry t (k, x)) = od_pop k (pending_dispatch t)
          ∧ senders (recover_entry t (k, x)) = senders t) as (H1 & H2 & H3 & H4).
  { unfold recover_entry. cbn [fst snd]. destruct (holds_slot x) eqn:Hh.
    - destruct (pop_release_spec k x t Ht Hx Hh) as [? ?]. rewrite release_pending.
      split; [done|]. split; [done|]. split; [done|]. unfold release_worker_pipe_queue_slot. by case_bool.
    - by destruct (pop_spec k x t Ht Hx) as (? & _ & ?). }
  destruct (IH (recover_entry t (k, x)) H1 Hnd) as (H5 & H6 & H7).
  { intros k' x' Hin. rewrite H3, od_get_pop_ne; [apply Hl; by right|]. intros <-. apply Hk.
    apply list_elem_of_fmap. by exists (k, x'). }
  split; [done|]. split; [|congruence]. intros i Hi. cbn. rewrite fmap_app, elem_of_app.
  destruct (H2 i Hi) as [Hi2|?]; [|right; by left]. destruct (H6 i Hi2); [by left|right; by right].
Qed.

Lemma recover_pending_spec idx t :
  pipes_inv t →
  let '(ps, t') := recover_pending_dispatches idx t in
  Forall P ps ∧ pipes_inv t' ∧ (∀ i, pends t i → pends t' i ∨ i ∈ logical_work_identity_from_payload <$> ps)
  ∧ senders t' = senders t.
Proof.
  intros Ht. unfold recover_pending_dispatches. set (mine := filter _ _).
  assert (∀ k x, (k, x) ∈ mine → od_get k (pending_dispatch t) = Some x) as Hm.
  { intros k x [_ Hin]%list_elem_of_filter. by apply od_elem_get; [apply Ht|]. }
  split.
  - apply Forall_forall. intros p ([k x] & Hp & Hin)%list_elem_of_bind.
    destruct (pi_entries _ Ht _ _ (Hm _ _ Hin)) as [_ Hf]. by eapply Forall_forall in Hf.
  - apply recover_entries_spec; try done. unfold mine.
    pose proof (od_keys_filter (λ k, key_worker k = idx) (pending_dispatch t)) as Hk.
    unfold od_filter in Hk. rewrite Hk. apply NoDup_filter, Ht.
Qed.

(** ** Pipes *)

Lemma start_source_spec idx t :
  pipes_inv t → let t' := start_worker_task_source idx t in
  pipes_inv t' ∧ ∀ i, pends t i → pends t' i.
Proof.
  intros []. unfold start_worker_task_source. destruct (decide _); (split; [|done]); constructor; try done; cbn.
  - by apply Forall_insert.
  - apply Forall_app. split; [done|]. by repeat constructor.
Qed.

Lemma receive_spec (i : nat) m pipe t :
  pipes_inv t → senders t !! i = Some (m :: pipe) →
  Forall (λ w, P (work_item_payload w)) (msg_items m)
  ∧ pipes_inv (t <| senders ::= <[i := pipe]> |>).
Proof.
  intros [] Hi. pose proof (Forall_lookup_1 _ _ _ _ pi_pipes0 Hi) as Hp. apply Forall_cons in Hp as [Hm Hp].
  split; [done|]. constructor; try done. cbn. by apply Forall_insert.
Qed.

Lemma new_pipes_inv n pipes : 0 ≤ size → pipes_inv ((new_pipes n size) <| senders := replicate pipes [] |>).
Proof.
  intros Hs. constructor; cbn; try done; [apply NoDup_nil_2|apply Forall_replicate; constructor|].
  unfold slots_held. cbn. lia.
Qed.
End invariant.

(** A dispatch that raises leaves nothing new behind. *)
Lemma dispatch_raises_sub takes n k x m t t' :
  dispatch_entry takes n k x m t = DispatchRaises t' →
  senders t' = senders t ∧ ∀ k' y, od_get k' (pending_dispatch t') = Some y → od_get k' (pending_dispatch t) = Some y.
Proof.
  unfold dispatch_entry, acquire_worker_pipe_queue_slot. destruct (shutdown_event t); [by intros [= <-]|].
  destruct (0 <? slots t); [|done]. set (t2 := (t <| slots ::= _ |>) <| pending_dispatch ::= od_set k x |>).
  destruct (send_packed takes n m t2); [done|]. intros [= <-]. split.
  - unfold release_worker_pipe_queue_slot. by case_bool.
  - rewrite release_pending. intros k' y. cbn -[od_pop od_set]. rewrite od_get_pop, od_get_set.
    by destruct (decide (k = k')).
Qed.

Lemma pipes_inv_sub size (P Q : Payload → Prop) t t' :
  pipes_inv size P t' → pipes_inv size Q t → senders t' = senders t →
  (∀ k y, od_get k (pending_dispatch t') = Some y → od_get k (pending_dispatch t) = Some y) → pipes_inv size Q t'.
Proof.
  intros [] [] Hs Hsub. constructor; try done; [|by rewrite Hs]. intros k x Hx. by apply pi_entries1, Hsub.
Qed.
