(* ===== verification/ProcessRegistry.v ===== *)
(** * The in-flight registry of the process engine
    ([execution_plane/process_registry_support.py])

    The parent's picture of what its workers are executing, kept up to date by the events the
    workers send.  When a worker dies its entries are requeued, or reported as failures once
    their retries are used up or their time-out was seen. *)

From S2P Require Import Prelude Dto ProcessTransport.

Inductive RegistryEvent :=
  | EvStart (key : InFlightRegistryKey) (p : Payload)
  | EvTimeout (key : InFlightRegistryKey) (p : Payload) (attempt : Z) (timeout_error : string)
  | EvDone (key : InFlightRegistryKey) (p : Payload)
  | EvNotStarted (batch_id : string) (payloads : list Payload)
  | EvBatchReceived
  | EvBatchCompleted
  | EvBatchCompletionSendFailed (batch_id : string).

Abbreviation InFlightRegistry := (odict InFlightRegistryKey Payload).

Implicit Types (r : InFlightRegistry) (p : Payload) (key : InFlightRegistryKey).

(** [_event_matches_registry_entry]: every event of the workers carries a well-formed payload *)
Definition event_matches_registry_entry p key registry_payload : bool :=
  registry_entry_matches_payload key registry_payload p.

(** [_start_event_supersedes_registry_entry] *)
Definition start_event_supersedes_registry_entry p key registry_payload : bool :=
  let existing := logical_work_identity_from_registry_entry key registry_payload in
  let incoming := logical_work_identity_from_payload p in
  bool_decide (li_topic incoming = li_topic existing ∧ li_partition incoming = li_partition existing
               ∧ li_offset incoming = li_offset existing)
  && (li_epoch existing <? li_epoch incoming).

(** The event concerns the entry under its key, or there is none *)
Definition entry_matches p key r : bool :=
  match od_get key r with None => true | Some q => event_matches_registry_entry p key q end.

Definition apply_registry_event (e : RegistryEvent) r : InFlightRegistry :=
  match e with
  | EvStart key p =>
      match od_get key r with
      | Some q =>
          if event_matches_registry_entry p key q || start_event_supersedes_registry_entry p key q
          then od_set key p r else r
      | None => od_set key p r
      end
  | EvTimeout key p attempt timeout_error =>
      match od_get key r with
      | Some q =>
          if event_matches_registry_entry p key q
          then od_set key (q <| pl_timed_out := Some (timeout_error, attempt) |>) r else r
      | None => r
      end
  | EvDone key p => if entry_matches p key r then od_pop key r else r
  | EvNotStarted _ _ | EvBatchReceived | EvBatchCompleted | EvBatchCompletionSendFailed _ => r
  end.

(** The event [_emit_worker_recovery_failure] sends *)
Definition worker_recovery_failure (error : string) (attempt : Z) p : CompletionEvent :=
  let w := pl_item p in
  mkCompletion (wi_id w) (wi_tp w) (wi_offset w) (wi_epoch w) FAILURE (Some error) attempt.

(** What becomes of one entry of a dead worker: a failure or a payload to requeue *)
Definition recover_item (max_retries : Z) p : CompletionEvent + Payload :=
  match pl_timed_out p with
  | Some (timeout_error, attempt) => inl (worker_recovery_failure timeout_error attempt p)
  | None =>
      if max_retries <=? pl_requeue_attempts p
      then inl (worker_recovery_failure "worker_died_max_retries" (pl_requeue_attempts p) p)
      else inr (raise_requeue_attempts p)
  end.

Definition failures_of (l : list (CompletionEvent + Payload)) : list CompletionEvent :=
  omap (λ x, match x with inl e => Some e | inr _ => None end) l.

Definition requeued_of (l : list (CompletionEvent + Payload)) : list Payload :=
  omap (λ x, match x with inl _ => None | inr p => Some p end) l.

(** [recover_dead_worker_items]: payloads to requeue, failures emitted, and the registry left *)
Definition recover_dead_worker_items (worker_index max_retries : Z) r
    : list Payload * list CompletionEvent * InFlightRegistry :=
  let mine := filter (λ kp : InFlightRegistryKey * Payload, kp.1.1.1.1 = worker_index) r in
  let results := (λ kp : InFlightRegistryKey * Payload, recover_item max_retries kp.2) <$> mine in
  (requeued_of results, failures_of results, od_filter (λ k, k.1.1.1 ≠ worker_index) r).

(** [filter_recoverable_pending_pipe_dispatches] of [process_worker_supervisor.py]: the same
    decision for what was sent and not started; such payloads carry no time-out *)
Definition filter_recoverable_pending (max_retries : Z) (payloads : list Payload)
    : list Payload * list CompletionEvent :=
  let results := (λ p, if max_retries <=? pl_requeue_attempts p
                       then inl (worker_recovery_failure "worker_died_max_retries" (pl_requeue_attempts p) p)
                       else inr (raise_requeue_attempts p)) <$> payloads in
  (requeued_of results, failures_of results).

(** [discard_completion_from_registry] *)
Definition discard_completion_from_registry (e : CompletionEvent) r : InFlightRegistry :=
  filter (λ kp : InFlightRegistryKey * Payload,
    logical_work_identity_from_registry_entry kp.1 kp.2 ≠ logical_work_identity_from_completion_event e) r.

(** [get_min_inflight_offset] *)
Definition get_min_inflight_offset (tp : TopicPartition) r : option Z :=
  fold_left (λ acc (kp : InFlightRegistryKey * Payload),
    let '((_, t, n, _), p) := kp in
    if decide (t = topic tp ∧ n = partition tp) then min_step acc (wi_offset (pl_item p)) else acc) r None.
