(* ===== verification/ProcessWorker.v ===== *)
(** * The worker process ([execution_plane/process_worker_runtime.py])

    What a worker does with one message from its pipe: it runs the items in turn, each with its
    retries, and tells the parent through the registry queue what it starts and finishes and
    through the completion queue what came out.  [run_message] is the list of everything it puts
    on the two queues, in the order of its puts.  The user's worker function and whether msgpack
    can encode a completion are parameters; recycling is off, as the worker-pipe transport
    requires. *)

From S2P Require Import Prelude Dto ExecutionEngine ProcessTransport ProcessRegistry.

Inductive Emission :=
  | ToRegistry (e : RegistryEvent)
  | ToCompletion (es : list CompletionEvent).

Section worker.
Context (cfg : ExecutionConfig) (worker_fn : WorkItem → Z → AttemptResult) (timeout_text : Z → string)
  (packs : list CompletionEvent → bool).

(** The retry loop: status, error, number of the last attempt and [fatal_timeout]; the worker
    function is never interrupted by an attempt that only raises *)
Fixpoint attempt_loop (w : WorkItem) (attempt : Z) (left : nat) (error : option string) (last : Z)
    : CompletionStatus * option string * Z * bool :=
  match left with
  | O => (FAILURE, error, last, false)
  | S left' =>
      match worker_fn w attempt with
      | Returns => (SUCCESS, None, attempt, false)
      | TimesOut => (FAILURE, Some (timeout_text (wi_offset w)), attempt, true)
      | Raises message => attempt_loop w (attempt + 1) left' (Some message) attempt
      end
  end.

Definition run_attempts (w : WorkItem) : CompletionStatus * option string * Z * bool :=
  attempt_loop w 1 (Z.to_nat (ec_max_retries cfg)) None 0.

(** [_calculate_backoff], in milliseconds; [jitter] is [random.randint(0, retry_jitter_ms)] *)
Definition calculate_backoff (attempt jitter : Z) : Z :=
  let backoff_ms := if ec_exponential_backoff cfg then ec_retry_backoff_ms cfg * 2 ^ (attempt - 1)
                    else ec_retry_backoff_ms cfg in
  Z.min backoff_ms (ec_max_retry_backoff_ms cfg) + (if 0 <? ec_retry_jitter_ms cfg then jitter else 0).

Definition worker_completion (w : WorkItem) : CompletionEvent :=
  let '(status, error, attempt, _) := run_attempts w in
  mkCompletion (wi_id w) (wi_tp w) (wi_offset w) (wi_epoch w) status error attempt.

Definition fatal_timeout (w : WorkItem) : bool := (run_attempts w).2.

(** An attempt was made: [batch_run_started_at] is set *)
Definition attempts_made : bool := 1 <=? ec_max_retries cfg.

(** [_flush_route_batch_completion] *)
Definition flush_route_batch_completion (batch_id : string) (results : list CompletionEvent) : list Emission :=
  match results with
  | [] => []
  | _ =>
      if packs results then [ToCompletion results]
      else ToRegistry (EvBatchCompletionSendFailed batch_id)
             :: ((λ e, ToCompletion [e]) <$> filter (λ e, packs [e] = true) results)
  end.

Section message.
Context (idx : Z) (batch : option string).

Definition start_event (w : WorkItem) : Emission :=
  ToRegistry (EvStart (key_of_payload idx (work_item_payload w)) (work_item_payload w)).

Definition done_event (w : WorkItem) : RegistryEvent :=
  EvDone (key_of_payload idx (work_item_payload w)) (work_item_payload w).

Definition timeout_event (w : WorkItem) : Emission :=
  let '(_, error, attempt, _) := run_attempts w in
  ToRegistry (EvTimeout (key_of_payload idx (work_item_payload w)) (work_item_payload w) attempt (default "" error)).

Definition flush_batch (results : list CompletionEvent) (deferred_done_events : list RegistryEvent) : list Emission :=
  match batch with
  | Some id => flush_route_batch_completion id results ++ (ToRegistry <$> deferred_done_events)
  | None => []
  end.

(** After the loop over the items *)
Definition end_of_message (started sent : bool) (results : list CompletionEvent)
    (deferred_done_events : list RegistryEvent) : list Emission :=
  (if started && negb sent then [ToRegistry EvBatchCompleted] else [])
  ++ match results with [] => [] | _ => flush_batch results deferred_done_events end.

(** The loop over the items; the flag tells whether the process exits *)
Fixpoint run_items (items : list WorkItem) (started sent : bool) (results : list CompletionEvent)
    (deferred_done_events : list RegistryEvent) : list Emission * bool :=
  match items with
  | [] => (end_of_message started sent results deferred_done_events, false)
  | w :: rest =>
      let started' := started || attempts_made in
      if fatal_timeout w then (start_event w :: timeout_event w :: flush_batch results deferred_done_events, true)
      else
        let e := worker_completion w in
        let sent' := started' && bool_decide (rest = []) in
        let batch_completed := if sent' then [ToRegistry EvBatchCompleted] else [] in
        match batch with
        | None =>
            if packs [e] then
              let '(es, exits) := run_items rest started' sent' results deferred_done_events in
              (start_event w :: batch_completed ++ [ToCompletion [e]; ToRegistry (done_event w)] ++ es, exits)
            else (start_event w :: batch_completed, true)
        | Some id =>
            let results' := results ++ [e] in
            let dones' := deferred_done_events ++ [done_event w] in
            if decide (ce_status e = FAILURE) then
              (start_event w :: batch_completed
                 ++ (match rest with [] => [] | _ => [ToRegistry (EvNotStarted id (work_item_payload <$> rest))] end)
                 ++ end_of_message started' sent' results' dones', false)
            else
              let '(es, exits) := run_items rest started' sent' results' dones' in
              (start_event w :: batch_completed ++ es, exits)
        end
  end.
End message.

(** One message: [flush_enqueued_at] is always there *)
Definition run_message (idx : Z) (m : Message) : list Emission * bool :=
  let '(es, exits) := run_items idx (msg_batch m) (msg_items m) false false [] [] in
  (ToRegistry EvBatchReceived :: es, exits).

(** ** What the parent can read off *)

Definition completions_of (es : list Emission) : list CompletionEvent :=
  es ≫= λ x, match x with ToCompletion l => l | ToRegistry _ => [] end.

Definition started_of (es : list Emission) : list WorkItem :=
  omap (λ x, match x with ToRegistry (EvStart _ p) => Some (pl_item p) | _ => None end) es.

Definition not_started_of (es : list Emission) : list WorkItem :=
  es ≫= λ x, match x with ToRegistry (EvNotStarted _ ps) => pl_item <$> ps | _ => [] end.

Definition dones_of (es : list Emission) : list WorkItem :=
  omap (λ x, match x with ToRegistry (EvDone _ p) => Some (pl_item p) | _ => None end) es.

Lemma completions_app es es' : completions_of (es ++ es') = completions_of es ++ completions_of es'.
Proof. apply bind_app. Qed.
Lemma started_app es es' : started_of (es ++ es') = started_of es ++ started_of es'.
Proof. apply omap_app. Qed.
Lemma not_started_app es es' : not_started_of (es ++ es') = not_started_of es ++ not_started_of es'.
Proof. apply bind_app. Qed.
Lemma dones_app es es' : dones_of (es ++ es') = dones_of es ++ dones_of es'.
Proof. apply omap_app. Qed.
Hint Rewrite completions_app started_app not_started_app dones_app : py.

(** Every [done] comes after the completion it stands for; [C]: the work completed before *)
Fixpoint dones_covered (C : LogicalWorkIdentity → Prop) (es : list Emission) : Prop :=
  match es with
  | [] => True
  | ToCompletion l :: es' =>
      dones_covered (λ i, C i ∨ i ∈ logical_work_identity_from_completion_event <$> l) es'
  | ToRegistry (EvDone _ p) :: es' => C (logical_work_identity_from_payload p) ∧ dones_covered C es'
  | ToRegistry _ :: es' => dones_covered C es'
  end.

Lemma dones_covered_mono (C C' : LogicalWorkIdentity → Prop) es :
  (∀ i, C i → C' i) → dones_covered C es → dones_covered C' es.
Proof.
  revert C C'. induction es as [|[[]|l] es IH]; intros C C' HC; cbn; try done; try by apply IH.
  - intros [? ?]. split; [by apply HC|by eapply IH].
  - apply IH. intros i [?|?]; [left; by apply HC|by right].
Qed.

Lemma dones_covered_dones (C : LogicalWorkIdentity → Prop) idx ws :
  (∀ w, w ∈ ws → C (work_identity w)) → dones_covered C (ToRegistry <$> (done_event idx <$> ws)).
Proof.
  intros HC. induction ws as [|w ws IH]; cbn; [done|]. split; [apply HC, list_elem_of_here|].
  apply IH. intros w' ?. apply HC. by apply list_elem_of_further.
Qed.

Lemma worker_completion_identity w : logical_work_identity_from_completion_event (worker_completion w) = work_identity w.
Proof. unfold worker_completion. by destruct (run_attempts w) as [[[? ?] ?] ?]. Qed.

(** ** What one message does *)

Section run.
Context (packs_all : ∀ l, packs l = true) (idx : Z).
Implicit Types (ws items : list WorkItem) (es : list Emission).

(** [es] is what follows once the items [ws] of a route batch have run *)
Definition runs_as (batch : option string) ws items es (exits : bool) : Prop :=
  ∃ ran, Forall (λ w, fatal_timeout w = false) ran
    ∧ (if exits then ∃ w rest, items = ran ++ w :: rest ∧ fatal_timeout w = true
                        ∧ started_of es = ran ++ [w] ∧ not_started_of es = []
       else items = ran ++ not_started_of es ∧ started_of es = ran)
    ∧ completions_of es = worker_completion <$> ws ++ ran ∧ dones_of es = ws ++ ran
    ∧ (is_Some batch → ∀ i w, ran !! i = Some w → (S i < length ran)%nat ∨ exits = true →
         ce_status (worker_completion w) = SUCCESS)
    ∧ (not_started_of es ≠ [] → is_Some batch ∧ ∃ w, last ran = Some w ∧ ce_status (worker_completion w) = FAILURE).

Lemma flush_batch_spec id ws :
  let es := flush_batch (Some id) (worker_completion <$> ws) (done_event idx <$> ws) in
  started_of es = [] ∧ not_started_of es = [] ∧ completions_of es = worker_completion <$> ws ∧ dones_of es = ws
  ∧ ∀ C, dones_covered C es.
Proof.
  assert (∀ l, started_of (ToRegistry <$> (done_event idx <$> l)) = []
    ∧ not_started_of (ToRegistry <$> (done_event idx <$> l)) = []
    ∧ completions_of (ToRegistry <$> (done_event idx <$> l)) = []
    ∧ dones_of (ToRegistry <$> (done_event idx <$> l)) = l) as Hd.
  { induction l as [|w l (I1 & I2 & I3 & I4)]; [done|]. unfold dones_of in *. cbn in *. repeat split; try done.
    f_equal. exact I4. }
  destruct (decide (ws = [])) as [->|Hne]; [done|].
  assert (flush_batch (Some id) (worker_completion <$> ws) (done_event idx <$> ws)
    = ToCompletion (worker_completion <$> ws) :: (ToRegistry <$> (done_event idx <$> ws))) as ->.
  { destruct ws; [done|]. cbn. by rewrite packs_all. }
  destruct (Hd ws) as (H1 & H2 & H3 & H4). split; [done|]. split; [done|]. split; [|split; [done|]].
  - unfold completions_of in *. cbn. rewrite H3. by rewrite app_nil_r.
  - intros C. cbn [dones_covered]. apply dones_covered_dones. intros w Hw. right.
    rewrite <-worker_completion_identity. by do 2 apply list_elem_of_fmap_2.
Qed.

Lemma end_of_message_spec id started sent ws :
  let es := end_of_message (Some id) started sent (worker_completion <$> ws) (done_event idx <$> ws) in
  started_of es = [] ∧ not_started_of es = [] ∧ completions_of es = worker_completion <$> ws ∧ dones_of es = ws
  ∧ ∀ C, dones_covered C es.
Proof.
  cbn zeta. unfold end_of_message.
  assert (match worker_completion <$> ws with [] => [] | _ :: _ => flush_batch (Some id) (worker_completion <$> ws) (done_event idx <$> ws) end
    = flush_batch (Some id) (worker_completion <$> ws) (done_event idx <$> ws)) as -> by by destruct ws.
  destruct (flush_batch_spec id ws) as (H1 & H2 & H3 & H4 & H5). cbn zeta in *.
  destruct (started && negb sent); [|done]. cbn [app]. by repeat split.
Qed.
(** How the emissions of one item enter the four views *)
Lemma views_start w es :
  started_of (start_event idx w :: es) = w :: started_of es ∧ not_started_of (start_event idx w :: es) = not_started_of es
  ∧ completions_of (start_event idx w :: es) = completions_of es ∧ dones_of (start_event idx w :: es) = dones_of es.
Proof. done. Qed.

Lemma views_batch_completed (b : bool) es :
  let es' := (if b then [ToRegistry EvBatchCompleted] else []) ++ es in
  started_of es' = started_of es ∧ not_started_of es' = not_started_of es
  ∧ completions_of es' = completions_of es ∧ dones_of es' = dones_of es.
Proof. by destruct b. Qed.

Lemma covered_batch_completed C (b : bool) es :
  dones_covered C ((if b then [ToRegistry EvBatchCompleted] else []) ++ es) ↔ dones_covered C es.
Proof. by destruct b. Qed.

Lemma runs_as_nil batch ws es :
  started_of es = [] → not_started_of es = [] → completions_of es = worker_completion <$> ws → dones_of es = ws →
  runs_as batch ws [] es false.
Proof.
  intros H1 H2 H3 H4. exists []. rewrite app_nil_r, H2. split; [constructor|]. split; [done|].
  split; [done|]. split; [done|]. split; [by intros _ [] ?|done].
Qed.

(** The process exits in the first item *)
Lemma runs_as_fatal batch ws w rest es :
  fatal_timeout w = true → started_of es = [w] → not_started_of es = [] →
  completions_of es = worker_completion <$> ws → dones_of es = ws → runs_as batch ws (w :: rest) es true.
Proof.
  intros Hf H1 H2 H3 H4. exists []. rewrite app_nil_r. split; [constructor|]. split; [by exists w, rest|].
  split; [done|]. split; [done|]. split; [by intros _ [] ?|]. by rewrite H2.
Qed.

(** One item runs before the others; in a batch it succeeds *)
Lemma runs_as_cons batch ws pre ws' w rest es es' exits :
  ws ++ [w] = pre ++ ws' → fatal_timeout w = false → (is_Some batch → ce_status (worker_completion w) = SUCCESS) →
  started_of es' = w :: started_of es → not_started_of es' = not_started_of es →
  completions_of es' = (worker_completion <$> pre) ++ completions_of es → dones_of es' = pre ++ dones_of es →
  runs_as batch ws' rest es exits → runs_as batch ws (w :: rest) es' exits.
Proof.
  intros Hcut Hf Hs H1 H2 H3 H4 (ran & R1 & R2 & R3 & R4 & R5 & R6). exists (w :: ran).
  assert (ws ++ w :: ran = pre ++ ws' ++ ran) as Hall.
  { rewrite app_assoc, <-Hcut, <-app_assoc. done. }
  rewrite H2, H3, H4, R3, R4, Hall, <-fmap_app. split; [by constructor|]. split.
  { destruct exits; [|by destruct R2 as [-> R2]; rewrite H1, R2].
    destruct R2 as (w' & rest' & -> & ? & R2 & ?). exists w', rest'. by rewrite H1, R2. }
  split; [done|]. split; [done|]. split.
  - intros Hb [|i] w' Hi; cbn in Hi; [injection Hi as <-; intros _; by apply Hs|].
    intros Ho. apply (R5 Hb i w' Hi). cbn in Ho. destruct Ho; [left; lia|by right].
  - intros Hne. destruct (R6 Hne) as (Hb & w' & Hl & Hw). split; [done|]. exists w'. split; [|done].
    destruct ran; [done|]. exact Hl.
Qed.

Lemma run_items_single items : ∀ started sent es exits,
  run_items idx None items started sent [] [] = (es, exits) →
  runs_as None [] items es exits ∧ ∀ C, dones_covered C es.
Proof.
  induction items as [|w rest IH]; intros started sent es exits; cbn [run_items].
  { intros [= <- <-]. unfold end_of_message. rewrite app_nil_r.
    split; [by destruct (started && negb sent); apply runs_as_nil|by destruct (started && negb sent)]. }
  destruct (fatal_timeout w) eqn:Hf.
  { intros [= <- <-]. unfold timeout_event. destruct (run_attempts w) as [[[? ?] ?] ?].
    split; [by apply runs_as_fatal|done]. }
  rewrite packs_all. destruct (run_items _ _ _ _ _ _ _) as [es1 exits1] eqn:E. intros [= <- <-].
  destruct (IH _ _ _ _ E) as [HR HC].
  destruct (views_start w ((if (started || attempts_made) && bool_decide (rest = []) then [ToRegistry EvBatchCompleted] else [])
    ++ [ToCompletion [worker_completion w]; ToRegistry (done_event idx w)] ++ es1)) as (V1 & V2 & V3 & V4).
  destruct (views_batch_completed ((started || attempts_made) && bool_decide (rest = []))
    ([ToCompletion [worker_completion w]; ToRegistry (done_event idx w)] ++ es1)) as (W1 & W2 & W3 & W4).
  split.
  - apply (runs_as_cons None [] [w] [] w rest es1); try done; try (by destruct ((started || attempts_made) && bool_decide (rest = []))); by intros [? [=]].
  - intros C. apply covered_batch_completed. split; [|apply HC]. right. cbn.
    rewrite worker_completion_identity. apply list_elem_of_here.
Qed.

Lemma run_items_batch id items : ∀ started sent ws es exits,
  run_items idx (Some id) items started sent (worker_completion <$> ws) (done_event idx <$> ws) = (es, exits) →
  runs_as (Some id) ws items es exits ∧ ∀ C, dones_covered C es.
Proof.
  induction items as [|w rest IH]; intros started sent ws es exits; cbn [run_items].
  { intros [= <- <-]. destruct (end_of_message_spec id started sent ws) as (H1 & H2 & H3 & H4 & H5).
    split; [by apply runs_as_nil|done]. }
  destruct (fatal_timeout w) eqn:Hf.
  { intros [= <- <-]. unfold timeout_event. destruct (run_attempts w) as [[[? ?] ?] ?].
    destruct (flush_batch_spec id ws) as (H1 & H2 & H3 & H4 & H5).
    split; [apply runs_as_fatal; try done|exact H5]. unfold started_of in *. cbn. by f_equal. }
  set (s' := started || attempts_made). set (b := s' && bool_decide (rest = [])).
  replace ((worker_completion <$> ws) ++ [worker_completion w]) with (worker_completion <$> ws ++ [w]) by by rewrite fmap_app.
  replace ((done_event idx <$> ws) ++ [done_event idx w]) with (done_event idx <$> ws ++ [w]) by by rewrite fmap_app.
  destruct (decide (ce_status (worker_completion w) = FAILURE)) as [Hs|Hs].
  - intros [= <- <-]. destruct (end_of_message_spec id s' b (ws ++ [w])) as (H1 & H2 & H3 & H4 & H5).
    set (tl := end_of_message _ _ _ _ _) in *.
    set (ns := match rest with [] => [] | _ => _ end).
    assert (started_of (ns ++ tl) = [] ∧ not_started_of (ns ++ tl) = rest ∧ completions_of (ns ++ tl) = worker_completion <$> ws ++ [w]
            ∧ dones_of (ns ++ tl) = ws ++ [w] ∧ ∀ C, dones_covered C (ns ++ tl)) as (N1 & N2 & N3 & N4 & N5).
    { destruct rest as [|w' rest']; [done|]. subst ns. rewrite started_app, not_started_app, completions_app, dones_app, H1, H2, H3, H4.
      split; [done|]. split; [|done]. unfold not_started_of. cbn. rewrite !app_nil_r. f_equal.
      rewrite <-list_fmap_compose. apply list_fmap_id. }
    destruct (views_start w ((if b then [ToRegistry EvBatchCompleted] else []) ++ ns ++ tl)) as (V1 & V2 & V3 & V4).
    destruct (views_batch_completed b (ns ++ tl)) as (W1 & W2 & W3 & W4).
    split; [|intros C; by apply covered_batch_completed].
    exists [w]. rewrite V1, V2, V3, V4, W1, W2, W3, W4, N1, N2, N3, N4.
    split; [by repeat constructor|]. split; [done|]. split; [done|]. split; [done|]. split.
    + intros _ [|[]] w'; cbn; intros [= <-] [?|?]; lia || done.
    + intros _. split; [done|]. by exists w.
  - destruct (run_items _ _ _ _ _ _ _) as [es1 exits1] eqn:E. intros [= <- <-].
    destruct (IH _ _ _ _ _ E) as [HR HC].
    destruct (views_start w ((if b then [ToRegistry EvBatchCompleted] else []) ++ es1)) as (V1 & V2 & V3 & V4).
    destruct (views_batch_completed b es1) as (W1 & W2 & W3 & W4).
    split; [|intros C; by apply covered_batch_completed].
    apply (runs_as_cons (Some id) ws [] (ws ++ [w]) w rest es1); try done; try (by destruct b).
    intros _. by destruct (ce_status (worker_completion w)).
Qed.

Lemma run_message_spec m es exits :
  run_message idx m = (es, exits) → runs_as (msg_batch m) [] (msg_items m) es exits ∧ ∀ C, dones_covered C es.
Proof.
  unfold run_message. destruct (run_items _ _ _ _ _ _ _) as [es1 exits1] eqn:E. intros [= <- <-].
  destruct m as [[id|] items]; cbn in *.
  - exact (run_items_batch id items false false [] es1 exits1 E).
  - exact (run_items_single items false false es1 exits1 E).
Qed.

End run.

End worker.

(** ** Witness: a route batch of three whose second item fails *)

Definition worker_demo_config : ExecutionConfig := mkExecutionConfig 4 2 100 true 1000 0.
Definition worker_demo_fn (w : WorkItem) (attempt : Z) : AttemptResult :=
  if wi_offset w =? 1 then Raises "boom" else Returns.
Definition worker_demo_item (o : Z) : WorkItem := mkWorkItem "id" (mkTp "orders" 0) o 1 (PyStr [107]) PyNone 0 None.
Definition worker_demo_batch : Message := mkMessage (Some "b") (worker_demo_item <$> [0; 1; 2]).

