(* ===== verification/ProcessEngine.v ===== *)
(** * The process engine: supervision and recovery
    ([execution_plane/process_engine.py], [execution_plane/process_worker_supervisor.py])

    The parent dispatches work to worker processes, follows their events, collects completions
    and replaces workers that die.  The parent runs one operation at a time; a requeue of
    recovered work may have to wait for a queue slot in the middle of an operation, so the
    payloads a recovery still has in hand are part of the state and are sent one by one in later
    steps.  A worker process receives a message and then puts on its queues what [ProcessWorker]
    says, one put at a time; it may die between any two of them, and what it has not put by then
    is lost.  Shutdown is in [ProcessShutdown]. *)

From S2P Require Import Prelude Dto ExecutionEngine ProcessTransport ProcessRegistry ProcessWorker ProcessCompletionBuffer.

(** A worker process: what it is still going to put, and whether it exits then *)
Record WorkerProcess := mkWorker { alive : bool; script : list Emission; exits : bool }.

(** The payloads a recovery has in hand, and how it deals with a failing requeue *)
Inductive RequeueSource := FromDeadWorker (idx : Z) | FromBatchTail (batch_id : string).
Abbreviation RequeueCall := (RequeueSource * list Payload)%type.

Record ProcessEngine := mkProcessEngine {
  transport : WorkerPipes;
  in_flight_registry : InFlightRegistry;
  registry_event_queue : list RegistryEvent;
  completions : CompletionBuffer (Raw := list CompletionEvent);
  workers : list WorkerProcess;
  recovering : list RequeueCall;
  in_flight_count : Z;
  last_worker_liveness_check : Q;
  submitted : list WorkItem;                    (* every item ever accepted; not code *)
}.

#[export] Instance ProcessEngine_settable : Settable ProcessEngine :=
  λ e, mkProcessEngine (transport e) (in_flight_registry e) (registry_event_queue e) (completions e) (workers e)
         (recovering e) (in_flight_count e) (last_worker_liveness_check e) (submitted e).

Definition worker_liveness_check_interval_seconds : Q := 5 # 100.
Definition MAX_SEEN_COMPLETION_IDENTITIES : Z := 100000.

(** Whether replacing a dead worker works: its pipe may fail to open, or its process to start *)
Inductive Restart := Restarted | StartFails | PipeFails.

Section process_engine.
Context (cfg : ExecutionConfig) (worker_fn : WorkItem → Z → AttemptResult) (timeout_text : Z → string)
  (packs : list CompletionEvent → bool) (route_digest : RouteIdentity → Z).
Implicit Types (e : ProcessEngine).

Definition decode_events (raw : list CompletionEvent) : list CompletionEvent := raw.

(** [_start_workers] for [processes] workers *)
Definition new_process_engine (processes : nat) (queue_size : Z) : ProcessEngine :=
  mkProcessEngine
    ((new_pipes (Z.of_nat processes) queue_size) <| senders := replicate processes [] |>)
    [] [] (new_buffer MAX_SEEN_COMPLETION_IDENTITIES) (replicate processes (mkWorker true [] false)) [] 0 0%Q [].

(** ** Completions *)

(** An operation on the completion buffer, with its two callbacks: the accepted events leave the
    registry and each delivered one lowers the in-flight count *)
Definition with_buffer (f : CompletionBuffer (Raw := list CompletionEvent) → CompletionBuffer (Raw := list CompletionEvent)) e
    : ProcessEngine :=
  let b := completions e in
  let b' := f b in
  e <| completions := b' |>
    <| in_flight_registry ::= λ r,
         fold_left (λ r ev, discard_completion_from_registry ev r) (drop (length (discarded b)) (discarded b')) r |>
    <| in_flight_count ::= λ n, n - (decrements b' - decrements b) |>.

(** [_emit_completion_event], for each event *)
Definition emit_completion_events (events : list CompletionEvent) e : ProcessEngine :=
  e <| completions ::= λ b, fold_left (λ b ev, buffer_apply decode_events b (OpArrive [ev])) events b |>.

(** ** Registry events *)

Definition hold (source : RequeueSource) (payloads : list Payload) e : ProcessEngine :=
  match payloads with
  | [] => e
  | _ => e <| recovering ::= λ l, l ++ [(source, payloads)] |>
  end.

(** [_apply_registry_event], with [_recover_not_started_payloads] *)
Definition engine_apply_registry_event e (event : RegistryEvent) : ProcessEngine :=
  match event with
  | EvNotStarted batch_id payloads =>
      let '(pending_match, t) := handle_not_started_event batch_id payloads (transport e) in
      let e1 := e <| transport := t |> in
      if pending_match then hold (FromBatchTail batch_id) payloads e1 else e1
  | EvStart key p =>
      e <| transport ::= handle_start_event key p |> <| in_flight_registry ::= apply_registry_event event |>
  | _ => e <| in_flight_registry ::= apply_registry_event event |>
  end.

Definition drain_registry_events e : ProcessEngine :=
  fold_left engine_apply_registry_event (registry_event_queue e) (e <| registry_event_queue := [] |>).

Definition drain_visible_worker_events e : ProcessEngine :=
  with_buffer (λ b, (drain_queue decode_events b).2) (drain_registry_events e).

(** ** Recovery of dead workers *)

(** [collect_recoverable_worker_payloads] *)
Definition collect_recoverable_worker_payloads (idx : Z) e : list Payload * ProcessEngine :=
  let '(from_registry, failures, r) := recover_dead_worker_items idx (ec_max_retries cfg) (in_flight_registry e) in
  let e1 := emit_completion_events failures (e <| in_flight_registry := r |>) in
  let '(dispatches, t) := recover_pending_dispatches idx (transport e1) in
  let '(from_pipe, failures') := filter_recoverable_pending (ec_max_retries cfg) dispatches in
  (from_registry ++ from_pipe, emit_completion_events failures' (e1 <| transport := t |>)).

(** One dead worker of [ensure_workers_alive]; a failed restart fails everything recovered *)
Definition recover_dead_worker (restart : nat → Restart) e (idx : nat) : ProcessEngine :=
  let '(to_requeue, e1) := collect_recoverable_worker_payloads (Z.of_nat idx) e in
  let e2 := match restart idx with
            | PipeFails => e1
            | _ => e1 <| transport ::= start_worker_task_source idx |>
            end in
  match restart idx with
  | Restarted =>
      hold (FromDeadWorker (Z.of_nat idx)) to_requeue (e2 <| workers ::= <[idx := mkWorker true [] false]> |>)
  | _ => emit_completion_events
           ((λ p, worker_recovery_failure "worker_restart_failed" (ec_max_retries cfg) p) <$> to_requeue) e2
  end.

Definition collect_dead_worker_recovery_candidates e : list nat :=
  omap (λ iw : nat * WorkerProcess, if alive iw.2 then None else Some iw.1) (imap pair (workers e)).

(** [should_run_liveness_scan] *)
Definition should_run_liveness_scan (force : bool) (now : Q) e : bool * ProcessEngine :=
  if force then (true, e <| last_worker_liveness_check := now |>)
  else if (now - last_worker_liveness_check e <q worker_liveness_check_interval_seconds) then (false, e)
  else (true, e <| last_worker_liveness_check := now |>).

Definition ensure_workers_alive (restart : nat → Restart) (force : bool) (now : Q) e : ProcessEngine :=
  let '(scan, e1) := should_run_liveness_scan force now (drain_visible_worker_events e) in
  if (scan : bool) then fold_left (recover_dead_worker restart) (collect_dead_worker_recovery_candidates e1) e1 else e1.

(** The next requeue of a recovery: [None] while it waits for a queue slot.  A dead worker's
    payload that cannot be sent fails alone, a batch tail fails from there on. *)
Definition requeue_recovered_payload (takes : bool) e : option ProcessEngine :=
  match recovering e with
  | [] => None
  | (_, []) :: calls => Some (e <| recovering := calls |>)
  | (source, p :: rest) :: calls =>
      let next := match rest with [] => calls | _ => (source, rest) :: calls end in
      match requeue_payload route_digest (λ _ _, takes) p (transport e) with
      | Waits => None
      | Dispatched t => Some (e <| transport := t |> <| recovering := next |>)
      | DispatchRaises t =>
          let e1 := e <| transport := t |> in
          match source with
          | FromDeadWorker _ =>
              Some (emit_completion_events [worker_recovery_failure "worker_requeue_failed" (ec_max_retries cfg) p]
                      (e1 <| recovering := next |>))
          | FromBatchTail _ =>
              Some (emit_completion_events
                      (worker_recovery_failure "not_started_requeue_failed" (ec_max_retries cfg) <$> p :: rest)
                      (e1 <| recovering := calls |>))
          end
      end
  end.

(** ** The engine's interface *)

(** [submit] after its liveness check: [None] while it waits for a queue slot *)
Definition dispatch_item (takes : bool) (w : WorkItem) e : option (bool * ProcessEngine) :=
  match dispatch_payload route_digest (λ _ _, takes) (work_item_payload w) (resolve_route_identity w) (transport e) with
  | Waits => None
  | DispatchRaises t => Some (false, e <| transport := t |>)
  | Dispatched t =>
      Some (true, e <| transport := t |> <| in_flight_count ::= λ n, n + 1 |> <| submitted ::= λ l, l ++ [w] |>)
  end.

(** [submit_batch] of items of one route, after its liveness check; other batches are submitted
    one by one *)
Definition one_route (work_items : list WorkItem) : Prop :=
  ∃ w rest, work_items = w :: rest ∧ Forall (λ x, resolve_route_identity x = resolve_route_identity w) rest.

Definition dispatch_items (takes : bool) (batch_id : string) (work_items : list WorkItem) e : option (bool * ProcessEngine) :=
  match work_items with
  | [] => None
  | w :: _ =>
      match dispatch_route_batch route_digest (λ _ _, takes) batch_id work_items (resolve_route_identity w) (transport e) with
      | Waits => None
      | DispatchRaises t => Some (false, e <| transport := t |>)
      | Dispatched t =>
          Some (true, e <| transport := t |> <| in_flight_count ::= λ n, n + zlen work_items |>
                        <| submitted ::= λ l, l ++ work_items |>)
      end
  end.

(** [wait_for_completion] takes one item off the queue; [ProcessWait] has the method *)
Definition prefetch_completion e : ProcessEngine := with_buffer (λ b, (prefetch_next decode_events b).2) e.

Definition process_poll_completed_events (restart : nat → Restart) (now : Q) (batch_limit : Z) e
    : list CompletionEvent * ProcessEngine :=
  let e1 := drain_registry_events (ensure_workers_alive restart false now e) in
  let events := (poll_prefetched batch_limit (completions e1)).1 in
  let e2 := with_buffer (λ b, (poll_prefetched batch_limit b).2) e1 in
  let more := (poll_available decode_events (batch_limit - zlen events) (completions e2)).1 in
  (events ++ more, with_buffer (λ b, (poll_available decode_events (batch_limit - zlen events) b).2) e2).

(** ** The worker processes *)

Definition set_worker (i : nat) (p : WorkerProcess) e : ProcessEngine := e <| workers ::= <[i := p]> |>.

(** A put of a worker *)
Definition put_emission (x : Emission) e : ProcessEngine :=
  match x with
  | ToRegistry event => e <| registry_event_queue ::= λ q, q ++ [event] |>
  | ToCompletion events => e <| completions ::= λ b, buffer_apply decode_events b (OpArrive events) |>
  end.

(** ** Steps

    The callers hand every offset over once, and batch identifiers ([uuid4]) are fresh. *)

Definition fresh_items (ws : list WorkItem) e : Prop :=
  NoDup ((λ w, (wi_tp w, wi_offset w)) <$> ws)
  ∧ ∀ w w', w ∈ ws → w' ∈ submitted e → (wi_tp w, wi_offset w) ≠ (wi_tp w', wi_offset w').

Definition fresh_batch (batch_id : string) e : Prop :=
  ∀ idx, od_get (BatchKey idx batch_id) (pending_dispatch (transport e)) = None.

Inductive EngineOp :=
  | OpEnsure (force : bool) | OpDrain | OpPrefetch | OpRequeue | OpSubmit (w : WorkItem) | OpSubmitBatch (batch_id : string) (ws : list WorkItem)
  | OpPoll (n : Z) | OpReceive (i : nat) | OpPut (i : nat) | OpExit (i : nat) | OpDie (i : nat).

Inductive engine_step : ProcessEngine → EngineOp → ProcessEngine → Prop :=
  | step_ensure e force restart now : engine_step e (OpEnsure force) (ensure_workers_alive restart force now e)
  | step_drain e : engine_step e OpDrain (drain_registry_events e)
  | step_prefetch e : engine_step e OpPrefetch (prefetch_completion e)
  | step_requeue e takes e' : requeue_recovered_payload takes e = Some e' → engine_step e OpRequeue e'
  | step_submit e takes w ok e' :
      fresh_items [w] e → wi_requeue_attempts w = 0 → dispatch_item takes w e = Some (ok, e') →
      engine_step e (OpSubmit w) e'
  | step_submit_batch e takes id ws ok e' :
      fresh_items ws e → fresh_batch id e → one_route ws → Forall (λ w, wi_requeue_attempts w = 0) ws →
      dispatch_items takes id ws e = Some (ok, e') → engine_step e (OpSubmitBatch id ws) e'
  | step_poll e restart now n : engine_step e (OpPoll n) (process_poll_completed_events restart now n e).2
  | step_receive e i m pipe :
      workers e !! i = Some (mkWorker true [] false) → senders (transport e) !! i = Some (m :: pipe) →
      engine_step e (OpReceive i)
        (let '(es, ex) := run_message cfg worker_fn timeout_text packs (Z.of_nat i) m in
         set_worker i (mkWorker true es ex) (e <| transport ::= λ t, t <| senders ::= <[i := pipe]> |> |>))
  | step_put e i x rest ex :
      workers e !! i = Some (mkWorker true (x :: rest) ex) →
      engine_step e (OpPut i) (put_emission x (set_worker i (mkWorker true rest ex) e))
  | step_exit e i :
      workers e !! i = Some (mkWorker true [] true) → engine_step e (OpExit i) (set_worker i (mkWorker false [] false) e)
  | step_die e i p :
      workers e !! i = Some p → engine_step e (OpDie i) (set_worker i (mkWorker false [] false) e).
End process_engine.
