(* ===== verification/ProcessEngineInv.v ===== *)
(** * No work is lost by the process engine

    Every accepted item is, at any moment, either completed (a completion of it is on its way to
    the control plane or was delivered), or pending in the transport, or in the registry of what
    the workers are running, or in the hands of a recovery, whenever workers die and however
    their events interleave with the parent's operations. *)

From S2P Require Import Prelude Dto ExecutionEngine ProcessTransport ProcessTransportInv ProcessRegistry ProcessWorker ProcessCompletionBuffer ProcessEngine.

Abbreviation identity_of_payload := logical_work_identity_from_payload.
Abbreviation identity_of_completion := logical_work_identity_from_completion_event.

(** ** Payloads *)

(** The payloads an event of a worker carries, and whether it is under the right key *)
Definition event_payloads (ev : RegistryEvent) : list Payload :=
  match ev with
  | EvStart _ p | EvTimeout _ p _ _ | EvDone _ p => [p]
  | EvNotStarted _ ps => ps
  | _ => []
  end.

Definition event_keyed (ev : RegistryEvent) : Prop :=
  match ev with
  | EvStart k p | EvTimeout k p _ _ | EvDone k p => k = key_of_payload k.1.1.1 p
  | _ => True
  end.

Section payloads.
Context (max_retries : Z) (P : Payload → Prop).
Context (P_raise : ∀ p, P p → pl_requeue_attempts p < max_retries → P (raise_requeue_attempts p)).
Context (P_item : ∀ p x, P p → P (mkPayload (pl_item p) x)).
Context (P_distinct : ∀ p q, P p → P q → key_of_payload 0 p = key_of_payload 0 q → identity_of_payload p = identity_of_payload q).
Implicit Types (r : InFlightRegistry) (p q : Payload) (i : LogicalWorkIdentity).

Lemma key_distinct n p q : P p → P q → key_of_payload n p = key_of_payload n q → identity_of_payload p = identity_of_payload q.
Proof. unfold key_of_payload. intros Hp Hq [=]. apply P_distinct; [done|done|]. unfold key_of_payload. congruence. Qed.

(** ** The registry *)

Definition registry_inv r : Prop :=
  NoDup (od_keys r) ∧ ∀ k p, od_get k r = Some p → P p ∧ k = key_of_payload k.1.1.1 p.

Definition runs r i : Prop := ∃ k p, od_get k r = Some p ∧ identity_of_payload p = i.

Lemma registry_identity k p : k = key_of_payload k.1.1.1 p → logical_work_identity_from_registry_entry k p = identity_of_payload p.
Proof. intros ->. done. Qed.

(** An entry under the key of a payload stands for the same work. *)
Lemma entry_identity r k p q :
  registry_inv r → P p → k = key_of_payload k.1.1.1 p → od_get k r = Some q →
  identity_of_payload q = identity_of_payload p ∧ event_matches_registry_entry p k q = true.
Proof.
  intros [_ Hr] Hp Hk Hq. destruct (Hr k q Hq) as [HPq Hkq].
  assert (identity_of_payload q = identity_of_payload p) as Heq by (apply (key_distinct k.1.1.1); congruence).
  split; [done|]. apply bool_decide_eq_true. by rewrite (registry_identity k q Hkq).
Qed.

Lemma registry_set r k p :
  registry_inv r → P p → k = key_of_payload k.1.1.1 p →
  registry_inv (od_set k p r) ∧ runs (od_set k p r) (identity_of_payload p) ∧ ∀ i, runs r i → runs (od_set k p r) i.
Proof.
  intros Hr Hp Hk. split; [|split].
  - destruct Hr as [Hn Hr]. split; [by apply NoDup_od_set|]. intros k' p'. rewrite od_get_set.
    destruct (decide (k = k')) as [<-|]; [by intros [= <-]|apply Hr].
  - exists k, p. by rewrite od_get_set_eq.
  - intros i (k' & q & Hq & <-). destruct (decide (k = k')) as [<-|].
    + exists k, p. rewrite od_get_set_eq. split; [done|]. symmetry. by apply (entry_identity r k p q).
    + exists k', q. by rewrite od_get_set_ne.
Qed.

Lemma registry_start r k p :
  registry_inv r → P p → k = key_of_payload k.1.1.1 p →
  apply_registry_event (EvStart k p) r = od_set k p r.
Proof.
  intros Hr Hp Hk. cbn [apply_registry_event]. destruct (od_get k r) as [q|] eqn:Hq; [|done].
  destruct (entry_identity r k p q Hr Hp Hk Hq) as [_ ->]. done.
Qed.

Lemma registry_timeout r k p attempt error :
  registry_inv r → let r' := apply_registry_event (EvTimeout k p attempt error) r in
  registry_inv r' ∧ ∀ i, runs r i → runs r' i.
Proof.
  intros Hr. cbn [apply_registry_event]. destruct (od_get k r) as [q|] eqn:Hq; [|done].
  destruct (event_matches_registry_entry p k q); [|done]. destruct (proj2 Hr k q Hq) as [HP Hk].
  destruct (registry_set r k (mkPayload (pl_item q) (Some (error, attempt))) Hr) as (H1 & _ & H3);
    [by apply P_item|exact Hk|done].
Qed.

Lemma registry_pop r k :
  registry_inv r → registry_inv (od_pop k r) ∧ ∀ i, runs r i → runs (od_pop k r) i ∨ ∃ q, od_get k r = Some q ∧ i = identity_of_payload q.
Proof.
  intros [Hn Hr]. split.
  - split; [by apply NoDup_od_pop|]. intros k' p'. rewrite od_get_pop. destruct (decide (k = k')); [done|apply Hr].
  - intros i (k' & q & Hq & <-). destruct (decide (k = k')) as [<-|]; [right; eauto|left].
    exists k', q. by rewrite od_get_pop_ne.
Qed.

Lemma registry_done r k p :
  registry_inv r → P p → k = key_of_payload k.1.1.1 p →
  let r' := apply_registry_event (EvDone k p) r in
  registry_inv r' ∧ ∀ i, runs r i → runs r' i ∨ i = identity_of_payload p.
Proof.
  intros Hr Hp Hk. cbn [apply_registry_event]. destruct (entry_matches p k r); [|by eauto].
  destruct (registry_pop r k Hr) as [H1 H2]. split; [done|]. intros i [?|(q & Hq & ->)]%H2; [by left|right].
  by apply (entry_identity r k p q).
Qed.

Lemma registry_filter r (Q : InFlightRegistryKey * Payload → Prop) `{∀ x, Decision (Q x)} :
  registry_inv r → registry_inv (filter Q r) ∧ ∀ i, runs r i → runs (filter Q r) i ∨ ∃ k p, od_get k r = Some p ∧ ¬ Q (k, p) ∧ identity_of_payload p = i.
Proof.
  intros [Hn Hr].
  assert (NoDup (od_keys (filter Q r))) as Hn'.
  { unfold od_keys in *. clear Hr. induction r as [|x r IH]; [done|]. cbn in Hn. apply NoDup_cons in Hn as [Hx Hn].
    rewrite filter_cons. destruct (decide (Q x)); [|by apply IH]. cbn. apply NoDup_cons. split; [|by apply IH].
    intros (y & Hy & Hin)%list_elem_of_fmap. apply Hx. apply list_elem_of_filter in Hin as [_ Hin].
    rewrite Hy. by apply list_elem_of_fmap_2. }
  split.
  - split; [done|]. intros k p Hk. apply od_get_elem in Hk. apply list_elem_of_filter in Hk as [_ Hk].
    apply Hr. by apply od_elem_get.
  - intros i (k & p & Hk & <-). destruct (decide (Q (k, p))); [left|right; by exists k, p].
    exists k, p. split; [|done]. apply od_elem_get; [done|]. apply list_elem_of_filter. split; [done|]. by apply od_get_elem.
Qed.

Lemma registry_discard r ev :
  registry_inv r → registry_inv (discard_completion_from_registry ev r)
  ∧ ∀ i, runs r i → runs (discard_completion_from_registry ev r) i ∨ i = identity_of_completion ev.
Proof.
  intros Hr. unfold discard_completion_from_registry.
  edestruct (registry_filter r) as [H1 H2]; [exact Hr|]. split; [exact H1|].
  intros i [?|(k & p & Hk & Hn & <-)]%H2; [by left|right]. cbn in Hn. apply dec_stable in Hn.
  rewrite <-Hn. symmetry. apply registry_identity. by apply Hr.
Qed.

(** ** Recovery of the registry *)

Lemma recovery_failure_identity error attempt p :
  identity_of_completion (worker_recovery_failure error attempt p) = identity_of_payload p.
Proof. done. Qed.

(** A list of payloads, each requeued with one more attempt or failed *)
Lemma recovered_spec (f : Payload → CompletionEvent + Payload) ps :
  (∀ p, P p → match f p with
              | inl ev => identity_of_completion ev = identity_of_payload p
              | inr q => P q ∧ identity_of_payload q = identity_of_payload p
              end) →
  Forall P ps →
  Forall P (requeued_of (f <$> ps))
  ∧ ∀ p, p ∈ ps → identity_of_payload p ∈ identity_of_payload <$> requeued_of (f <$> ps)
                  ∨ identity_of_payload p ∈ identity_of_completion <$> failures_of (f <$> ps).
Proof.
  intros Hf. induction ps as [|p ps IH]; intros Hps.
  { split; [constructor|]. intros p Hp. by apply elem_of_nil in Hp. }
  apply Forall_cons in Hps as [Hp Hps]. destruct (IH Hps) as [H1 H2]. specialize (Hf p Hp).
  unfold requeued_of, failures_of in *. cbn. destruct (f p) as [ev|q].
  - split; [done|]. intros p' [->|Hin]%elem_of_cons; [right; rewrite <-Hf; left|].
    destruct (H2 p' Hin); [by left|right; by right].
  - destruct Hf as [Hq Heq]. split; [by constructor|]. intros p' [->|Hin]%elem_of_cons; [left; rewrite <-Heq; left|].
    destruct (H2 p' Hin); [left; by right|by right].
Qed.

Lemma recover_item_spec p :
  P p → match recover_item max_retries p with
        | inl ev => identity_of_completion ev = identity_of_payload p
        | inr q => P q ∧ identity_of_payload q = identity_of_payload p
        end.
Proof.
  intros Hp. unfold recover_item. destruct (pl_timed_out p) as [[? ?]|]; [done|].
  destruct (Z.leb_spec max_retries (pl_requeue_attempts p)); [done|]. split; [by apply P_raise|done].
Qed.

Lemma recover_registry_spec idx r :
  registry_inv r →
  let '(ps, failures, r') := recover_dead_worker_items idx max_retries r in
  Forall P ps ∧ registry_inv r'
  ∧ ∀ i, runs r i → runs r' i ∨ i ∈ identity_of_payload <$> ps ∨ i ∈ identity_of_completion <$> failures.
Proof.
  intros Hr. unfold recover_dead_worker_items. set (mine := filter _ r).
  assert ((λ kp : InFlightRegistryKey * Payload, recover_item max_retries kp.2) <$> mine
    = recover_item max_retries <$> (snd <$> mine)) as -> by by rewrite <-list_fmap_compose.
  assert (Forall P (snd <$> mine)) as Hm.
  { apply Forall_forall. intros p ([k q] & -> & [_ Hin]%list_elem_of_filter)%list_elem_of_fmap.
    apply (proj2 Hr k). apply od_elem_get; [apply Hr|done]. }
  destruct (recovered_spec (recover_item max_retries) (snd <$> mine) recover_item_spec Hm) as [H1 H2].
  split; [exact H1|]. unfold od_filter.
  edestruct (registry_filter r (λ kp, kp.1.1.1.1 ≠ idx)) as [H3 H4]; [exact Hr|]. split; [exact H3|].
  intros i [?|(k & p & Hk & Hn & <-)]%H4; [by left|right]. cbn in Hn. apply dec_stable in Hn.
  apply H2. apply list_elem_of_fmap. exists (k, p). split; [done|]. apply list_elem_of_filter. split; [done|].
  by apply od_get_elem.
Qed.

Lemma filter_recoverable_spec ps :
  Forall P ps →
  let '(qs, failures) := filter_recoverable_pending max_retries ps in
  Forall P qs ∧ ∀ p, p ∈ ps → identity_of_payload p ∈ identity_of_payload <$> qs
                             ∨ identity_of_payload p ∈ identity_of_completion <$> failures.
Proof.
  intros Hps. unfold filter_recoverable_pending. apply recovered_spec; [|done].
  intros p Hp. destruct (Z.leb_spec max_retries (pl_requeue_attempts p)); [done|]. split; [by apply P_raise|done].
Qed.
End payloads.

(** ** The engine *)

Section engine.
Context (cfg : ExecutionConfig) (worker_fn : WorkItem → Z → AttemptResult) (timeout_text : Z → string)
  (packs : list CompletionEvent → bool) (route_digest : RouteIdentity → Z) (packs_all : ∀ l, packs l = true) (size : Z).
Implicit Types (e : ProcessEngine) (i : LogicalWorkIdentity).

(** A completion of [i] reached the parent's queue at some time. *)
Definition completed e i : Prop :=
  ∃ raw ev, raw ∈ arrived (completions e) ∧ ev ∈ raw ∧ identity_of_completion ev = i.

Definition in_recovery e i : Prop :=
  ∃ c p, c ∈ recovering e ∧ p ∈ c.2 ∧ identity_of_payload p = i.

(** Where accepted work can be *)
Definition held e i : Prop :=
  completed e i ∨ pends (transport e) i ∨ runs (in_flight_registry e) i ∨ in_recovery e i.

Section kept.
Context (P : Payload → Prop).
Context (P_raise : ∀ p, P p → pl_requeue_attempts p < ec_max_retries cfg → P (raise_requeue_attempts p)).
Context (P_item : ∀ p x, P p → P (mkPayload (pl_item p) x)).
Context (P_distinct : ∀ p q, P p → P q → key_of_payload 0 p = key_of_payload 0 q → identity_of_payload p = identity_of_payload q).

Definition event_ok (C : LogicalWorkIdentity → Prop) (ev : RegistryEvent) : Prop :=
  Forall P (event_payloads ev) ∧ event_keyed ev
  ∧ match ev with EvDone _ p => C (identity_of_payload p) | _ => True end.

Definition script_ok (es : list Emission) : Prop :=
  Forall (λ x, match x with ToRegistry ev => Forall P (event_payloads ev) ∧ event_keyed ev | ToCompletion _ => True end) es.

Record engine_inv e : Prop := mkEngineInv {
  ei_pipes : pipes_inv size P (transport e);
  ei_registry : registry_inv P (in_flight_registry e);
  ei_queue : Forall (event_ok (completed e)) (registry_event_queue e);
  ei_workers : Forall (λ w, script_ok (script w) ∧ dones_covered (completed e) (script w)) (workers e);
  ei_recovering : Forall (λ c, Forall P c.2) (recovering e);
  ei_buffer : buffer_inv decode_events (completions e) ∧ sourced decode_events (completions e);
  ei_count : in_flight_count e = zlen (submitted e) - decrements (completions e);
}.

(** [e'] follows from [e] and what was held is still held, except for [gone]. *)
Definition moves (gone : LogicalWorkIdentity → Prop) e e' : Prop :=
  engine_inv e' ∧ submitted e' = submitted e ∧ (∀ i, completed e i → completed e' i) ∧ ∀ i, held e i → held e' i ∨ gone i.

Definition keeps e e' : Prop := moves (λ _, False) e e'.

Lemma moves_refl e gone : engine_inv e → moves gone e e.
Proof. intros He. split; [done|]. split; [done|]. split; [done|]. by left. Qed.

Lemma keeps_moves e1 e2 e3 gone : keeps e1 e2 → (engine_inv e2 → moves gone e2 e3) → moves gone e1 e3.
Proof.
  intros (H1 & H2 & H3 & H4) H. destruct (H H1) as (H5 & H6 & H7 & H8). split; [done|]. split; [congruence|].
  split; [by eauto|]. intros i Hi. destruct (H4 i Hi) as [?|[]]. by apply H8.
Qed.

(** A loop of steps that keep everything *)
Lemma keeps_fold {A} (f : ProcessEngine → A → ProcessEngine) l e :
  engine_inv e → (∀ e x, engine_inv e → keeps e (f e x)) → keeps e (fold_left f l e).
Proof.
  intros He Hf. revert e He. induction l as [|x l IH]; intros e He; cbn [fold_left]; [by apply moves_refl|].
  eapply keeps_moves; [by apply Hf|]. intros H1. by apply IH.
Qed.

Lemma event_ok_mono (C C' : LogicalWorkIdentity → Prop) ev : (∀ i, C i → C' i) → event_ok C ev → event_ok C' ev.
Proof. intros HC (H1 & H2 & H3). split; [done|]. split; [done|]. destruct ev; auto. Qed.

(** Changing the transport only *)
Lemma transport_moves gone e t :
  engine_inv e → pipes_inv size P t → (∀ i, pends (transport e) i → pends t i ∨ gone i) →
  moves gone e (e <| transport := t |>).
Proof.
  intros He Ht Hp. split; [destruct He; by constructor|]. split; [done|]. split; [done|].
  intros i [?|[Hi|[?|?]]]; [by left; left| |by left; right; right; left|by left; right; right; right].
  destruct (Hp i Hi); [left; right; by left|by right].
Qed.

(** Changing the registry only *)
Lemma registry_moves gone e r :
  engine_inv e → registry_inv P r → (∀ i, runs (in_flight_registry e) i → runs r i ∨ gone i) →
  moves gone e (e <| in_flight_registry := r |>).
Proof.
  intros He Hr Hp. split; [destruct He; by constructor|]. split; [done|]. split; [done|].
  intros i [?|[?|[Hi|?]]]; [by left; left|by left; right; left| |by left; right; right; right].
  destruct (Hp i Hi); [left; right; right; by left|by right].
Qed.

(** ** Completions *)

Lemma completed_arrive e e' events i :
  arrived (completions e') = arrived (completions e) ++ [events] →
  completed e i ∨ i ∈ identity_of_completion <$> events → completed e' i.
Proof.
  intros Ha [(raw & ev & Hr & Hev & <-)|(ev & -> & Hev)%list_elem_of_fmap].
  - exists raw, ev. rewrite Ha. split; [by apply elem_of_app; left|done].
  - exists events, ev. rewrite Ha. split; [apply elem_of_app; right; by left|done].
Qed.

(** An item put on the completion queue *)
Lemma arrive_keeps events e :
  engine_inv e →
  let e' := e <| completions ::= λ b, buffer_apply decode_events b (OpArrive events) |> in
  keeps e e' ∧ ∀ i, i ∈ identity_of_completion <$> events → completed e' i.
Proof.
  intros He e'. assert (∀ i, completed e i ∨ i ∈ identity_of_completion <$> events → completed e' i) as Hc.
  { intros i. by apply completed_arrive. }
  split; [|intros i Hi; apply Hc; by right].
  split; [|split; [done|split; [intros i ?; apply Hc; by left|]]].
  - destruct He as [? ? Hq Hw ? [Hb [S1 S2]] ?]. constructor; try done.
    + eapply Forall_impl; [exact Hq|]. intros ev. apply event_ok_mono. intros i ?. apply Hc. by left.
    + eapply Forall_impl; [exact Hw|]. intros w [? ?]. split; [done|]. eapply dones_covered_mono; [|done].
      intros i ?. apply Hc. by left.
    + split; [by apply buffer_apply_inv|]. split; cbn.
      * intros raw [?|?]%elem_of_app; apply elem_of_app; [left; by apply S1|by right].
      * intros ev Hev. destruct (S2 ev Hev) as (raw & ? & ?). exists raw. split; [apply elem_of_app; by left|done].
  - intros i [?|Hi]; left; [left; apply Hc; by left|by right].
Qed.

Lemma emit_keeps events e :
  engine_inv e → keeps e (emit_completion_events events e)
  ∧ ∀ i, i ∈ identity_of_completion <$> events → completed (emit_completion_events events e) i.
Proof.
  revert e. induction events as [|ev events IH]; intros e He.
  { split; [by destruct e; apply moves_refl|]. intros i Hi. by apply elem_of_nil in Hi. }
  destruct (arrive_keeps [ev] e He) as [H1 H2].
  set (e1 := e <| completions ::= λ b, buffer_apply decode_events b (OpArrive [ev]) |>) in *.
  change (emit_completion_events (ev :: events) e) with (emit_completion_events events e1).
  destruct (IH e1 (proj1 H1)) as [H3 H4]. split; [by apply (keeps_moves e e1)|].
  intros i [->|Hi]%elem_of_cons; [|by apply H4]. destruct H3 as (_ & _ & H3 & _). apply H3, H2. left.
Qed.

Lemma emit_frame events e :
  transport (emit_completion_events events e) = transport e
  ∧ recovering (emit_completion_events events e) = recovering e
  ∧ in_flight_registry (emit_completion_events events e) = in_flight_registry e
  ∧ workers (emit_completion_events events e) = workers e.
Proof. done. Qed.

(** Accepted events leave the registry; they are completed. *)
Lemma discards_spec l r :
  registry_inv P r →
  let r' := fold_left (λ r ev, discard_completion_from_registry ev r) l r in
  registry_inv P r' ∧ ∀ i, runs r i → runs r' i ∨ i ∈ identity_of_completion <$> l.
Proof.
  revert r. induction l as [|ev l IH]; intros r Hr; cbn [fold_left fmap list_fmap]; [by eauto|].
  destruct (registry_discard P r ev Hr) as [H1 H2]. destruct (IH _ H1) as [H3 H4]. split; [done|].
  intros i Hi. destruct (H2 i Hi) as [Hi2| ->]; [|right; left]. destruct (H4 i Hi2); [by left|right; by right].
Qed.

Lemma with_buffer_keeps f e :
  engine_inv e →
  buffer_inv decode_events (f (completions e)) →
  consumes decode_events (completion_queue (completions e)) (completions e) (f (completions e)) →
  keeps e (with_buffer f e).
Proof.
  intros He Hf Hc. set (b := completions e) in *. set (b' := f b) in *.
  destruct (ei_buffer _ He) as [Hb Hs]. fold b in Hb, Hs.
  pose proof (consumes_sourced decode_events b b' Hc Hs) as Hs'.
  destruct (discards_spec (drop (length (discarded b)) (discarded b')) (in_flight_registry e)) as [Hr1 Hr2]; [apply He|].
  assert (∀ i, completed e i ↔ completed (with_buffer f e) i) as Hcomp.
  { intros i. unfold completed, with_buffer. cbn. fold b. fold b'. by rewrite (proj1 Hc). }
  split; [|split; [done|split; [intros i; apply Hcomp|]]].
  - destruct He as [? ? Hq Hw ? ? Hn]. constructor; try done.
    + eapply Forall_impl; [exact Hq|]. intros ev. apply event_ok_mono. intros i. apply Hcomp.
    + eapply Forall_impl; [exact Hw|]. intros w [? ?]. split; [done|]. eapply dones_covered_mono; [|done].
      intros i. apply Hcomp.
    + unfold with_buffer. cbn -[zlen]. fold b. fold b'. fold b in Hn. lia.
  - intros i [?|[?|[Hi|?]]]; left; [left; by apply Hcomp|by right; left| |by right; right; right].
    destruct (Hr2 i Hi) as [?|Hin]; [by right; right; left|left].
    apply list_elem_of_fmap in Hin as (ev & -> & Hev).
    assert (ev ∈ accepted_events b') as Hacc.
    { rewrite <-(cb_discarded _ (proj1 Hf)). unfold b' in *. apply list_elem_of_lookup in Hev as [j Hj].
      rewrite lookup_drop in Hj. by eapply list_elem_of_lookup_2. }
    destruct (proj2 Hs' ev Hacc) as (raw & Hraw & Hin). exists raw, ev. by split.
Qed.
(** ** Recoveries in hand *)

Lemma hold_moves source ps gone e e1 :
  Forall P ps → moves (λ i, gone i ∨ i ∈ identity_of_payload <$> ps) e e1 → moves gone e (hold source ps e1).
Proof.
  intros Hps (H1 & H2 & H3 & H4). destruct ps as [|p ps].
  { split; [done|]. split; [done|]. split; [done|]. intros i Hi.
    destruct (H4 i Hi) as [?|[?|Hn]]; [by left|by right|by apply elem_of_nil in Hn]. }
  split; [|split; [done|split; [done|]]].
  - destruct H1. constructor; try done. cbn. apply Forall_app. split; [done|]. by apply Forall_singleton.
  - intros i Hi. destruct (H4 i Hi) as [Hh|[?|(q & -> & Hq)%list_elem_of_fmap]]; [left|by right|left].
    + destruct Hh as [?|[?|[?|(c & q & Hc & Hq)]]]; [by left|by right; left|by right; right; left|].
      right; right; right. exists c, q. split; [|done]. cbn. apply elem_of_app. by left.
    + right; right; right. exists (source, p :: ps), q. split; [|done]. cbn. apply elem_of_app. right. left.
Qed.

(** ** Registry events *)

(** What left the transport is in the registry. *)
Lemma start_keeps key p e :
  engine_inv e → P p → key = key_of_payload key.1.1.1 p →
  keeps e (engine_apply_registry_event e (EvStart key p)).
Proof.
  intros He Hp Hk. destruct (handle_start_spec size P key p (transport e) (ei_pipes _ He)) as [H1 H2].
  destruct (registry_set P P_distinct (in_flight_registry e) key p (ei_registry _ He) Hp Hk) as (H3 & H4 & H5).
  pose proof (registry_start P P_distinct (in_flight_registry e) key p (ei_registry _ He) Hp Hk) as Heq.
  split; [|split; [done|split; [done|]]].
  - destruct He. constructor; try done. cbn -[apply_registry_event]. by rewrite Heq.
  - unfold held. cbn -[apply_registry_event]. rewrite Heq. intros i [?|[Hi|[Hi|?]]]; left.
    + by left.
    + destruct (H2 i Hi) as [Hi2| ->]; [right; left; exact Hi2|right; right; left; exact H4].
    + right; right; left. by apply H5.
    + by right; right; right.
Qed.

Lemma apply_event_keeps e ev : engine_inv e → event_ok (completed e) ev → keeps e (engine_apply_registry_event e ev).
Proof.
  intros He (Hp & Hk & Hc).
  destruct ev as [key p|key p attempt error|key p|id ps| | |id]; cbn [event_payloads] in Hp.
  - apply Forall_cons in Hp as [Hp _]. by apply start_keeps.
  - destruct (registry_timeout P P_item P_distinct (in_flight_registry e) key p attempt error (ei_registry _ He)) as [H1 H2].
    exact (registry_moves (λ _, False) e _ He H1 (λ i Hi, or_introl (H2 i Hi))).
  - apply Forall_cons in Hp as [Hp _].
    destruct (registry_done P P_distinct (in_flight_registry e) key p (ei_registry _ He) Hp Hk) as [H1 H2].
    destruct (registry_moves (λ i, i = identity_of_payload p) e _ He H1 H2) as (M1 & M2 & M3 & M4).
    split; [exact M1|]. split; [exact M2|]. split; [exact M3|]. intros i Hi. left.
    destruct (M4 i Hi) as [?| ->]; [done|]. left. by apply M3.
  - unfold engine_apply_registry_event. pose proof (handle_not_started_spec size P id ps (transport e) (ei_pipes _ He)) as H.
    destruct (handle_not_started_event id ps (transport e)) as [[] t].
    + destruct H as (H1 & _ & H2). apply hold_moves; [exact Hp|].
      apply transport_moves; [done|done|]. intros i Hi. destruct (H2 i Hi); [by left|right; by right].
    + destruct H as (_ & Heq & _). rewrite (Heq eq_refl).
      exact (transport_moves (λ _, False) e _ He (ei_pipes _ He) (λ i Hi, or_introl Hi)).
  - exact (registry_moves (λ _, False) e _ He (ei_registry _ He) (λ i Hi, or_introl Hi)).
  - exact (registry_moves (λ _, False) e _ He (ei_registry _ He) (λ i Hi, or_introl Hi)).
  - exact (registry_moves (λ _, False) e _ He (ei_registry _ He) (λ i Hi, or_introl Hi)).
Qed.

Lemma apply_events_keeps evs e :
  engine_inv e → Forall (event_ok (completed e)) evs → keeps e (fold_left engine_apply_registry_event evs e).
Proof.
  revert e. induction evs as [|ev evs IH]; intros e He Hevs; cbn [fold_left]; [by apply moves_refl|].
  apply Forall_cons in Hevs as [Hev Hevs]. pose proof (apply_event_keeps e ev He Hev) as Hk.
  eapply keeps_moves; [exact Hk|]. intros H1. apply IH; [done|]. eapply Forall_impl; [exact Hevs|].
  intros ev'. apply event_ok_mono, Hk.
Qed.

Lemma drain_registry_keeps e : engine_inv e → keeps e (drain_registry_events e).
Proof.
  intros He. unfold drain_registry_events.
  assert (keeps e (e <| registry_event_queue := [] |>)) as H1.
  { split; [destruct He; constructor; done|]. split; [done|]. split; [done|]. by left. }
  eapply keeps_moves; [exact H1|]. intros He1. apply apply_events_keeps; [done|]. apply He.
Qed.

Lemma prefetch_completion_keeps e : engine_inv e → keeps e (prefetch_completion e).
Proof.
  intros He. destruct (ei_buffer _ He) as [Hb _]. apply with_buffer_keeps; [done| |].
  - by apply prefetch_next_inv.
  - by apply prefetch_next_consumes.
Qed.

Lemma drain_visible_keeps e : engine_inv e → keeps e (drain_visible_worker_events e).
Proof.
  intros He. eapply keeps_moves; [by apply drain_registry_keeps|]. intros He1.
  destruct (ei_buffer _ He1) as [Hb _]. apply with_buffer_keeps; [done| |].
  - exact (buffer_apply_inv decode_events _ ProcessCompletionBuffer.OpDrain Hb).
  - by apply drain_queue_consumes.
Qed.

(** ** Dead workers *)

Lemma collect_spec idx e :
  engine_inv e →
  let '(ps, e') := collect_recoverable_worker_payloads cfg idx e in
  Forall P ps ∧ moves (λ i, i ∈ identity_of_payload <$> ps) e e'.
Proof.
  intros He. unfold collect_recoverable_worker_payloads.
  pose proof (recover_registry_spec (ec_max_retries cfg) P P_raise idx (in_flight_registry e) (ei_registry _ He)) as Hr.
  destruct (recover_dead_worker_items _ _ _) as [[ps failures] r]. destruct Hr as (Hps & Hr & Hruns).
  set (e0 := e <| in_flight_registry := r |>).
  destruct (registry_moves _ e r He Hr Hruns) as (M1 & M2 & M3 & M4). fold e0 in M1, M2, M3, M4.
  destruct (emit_keeps failures e0 M1) as [E1 E2]. set (e1 := emit_completion_events failures e0) in *.
  pose proof (recover_pending_spec size P idx (transport e1) (ei_pipes _ (proj1 E1))) as Ht.
  destruct (recover_pending_dispatches idx (transport e1)) as [ds t]. destruct Ht as (Hds & Ht & Hpend & _).
  pose proof (filter_recoverable_spec (ec_max_retries cfg) P P_raise ds Hds) as Hf.
  destruct (filter_recoverable_pending _ ds) as [qs failures']. destruct Hf as [Hqs Hfil].
  destruct (transport_moves _ e1 t (proj1 E1) Ht Hpend) as (T1 & T2 & T3 & T4).
  destruct (emit_keeps failures' (e1 <| transport := t |>) T1) as [F1 F2].
  split; [by apply Forall_app|]. destruct E1 as (E1 & E3 & E4 & E5). destruct F1 as (F1 & F3 & F4 & F5).
  split; [done|]. split; [congruence|]. split; [by eauto|]. intros i Hi. rewrite fmap_app, elem_of_app.
  destruct (M4 i Hi) as [H1|[?|H1]]; [|by right; left|left; left; by apply F4, T3, E2].
  destruct (E5 i H1) as [H2|[]]. destruct (T4 i H2) as [H3|(q & -> & Hq)%list_elem_of_fmap].
  - destruct (F5 i H3) as [?|[]]. by left.
  - destruct (Hfil q Hq) as [?|Hin]; [right; by right|left; left; by apply F2].
Qed.

Lemma set_worker_keeps (n : nat) p e :
  engine_inv e → script_ok (script p) → dones_covered (completed e) (script p) → keeps e (set_worker n p e).
Proof.
  intros [] H1 H2. split; [constructor; try done; by apply Forall_insert|]. split; [done|]. split; [done|]. by left.
Qed.

Lemma fresh_pipe_keeps idx e : engine_inv e → keeps e (e <| transport ::= start_worker_task_source idx |>).
Proof.
  intros He. destruct (start_source_spec size P idx (transport e) (ei_pipes _ He)) as [H1 H2].
  apply (transport_moves (λ _, False) e _ He H1). intros i Hi. left. by apply H2.
Qed.

Lemma recover_dead_worker_keeps restart e idx : engine_inv e → keeps e (recover_dead_worker cfg restart e idx).
Proof.
  intros He. unfold recover_dead_worker. pose proof (collect_spec (Z.of_nat idx) e He) as Hc.
  destruct (collect_recoverable_worker_payloads cfg (Z.of_nat idx) e) as [ps e1]. destruct Hc as (Hps & M1 & M2 & M3 & M4).
  set (e2 := match restart idx with PipeFails => e1 | _ => _ end).
  assert (keeps e1 e2) as (K1 & K2 & K3 & K4).
  { subst e2. destruct (restart idx); [by apply fresh_pipe_keeps|by apply fresh_pipe_keeps|by apply moves_refl]. }
  assert (∀ i, held e i → held e2 i ∨ i ∈ identity_of_payload <$> ps) as Hheld.
  { intros i Hi. destruct (M4 i Hi) as [H|?]; [|by right]. destruct (K4 i H) as [?|[]]. by left. }
  assert (keeps e (emit_completion_events
    ((λ p, worker_recovery_failure "worker_restart_failed" (ec_max_retries cfg) p) <$> ps) e2)) as Hfail.
  { destruct (emit_keeps ((λ p, worker_recovery_failure "worker_restart_failed" (ec_max_retries cfg) p) <$> ps) e2 K1)
      as [(E1 & E2 & E3 & E4) E5].
    split; [done|]. split; [congruence|]. split; [by eauto|]. intros i Hi. left.
    destruct (Hheld i Hi) as [H|(q & -> & Hq)%list_elem_of_fmap].
    - by destruct (E4 i H) as [?|[]].
    - left. apply E5. apply list_elem_of_fmap. exists (worker_recovery_failure "worker_restart_failed" (ec_max_retries cfg) q).
      split; [done|]. by apply list_elem_of_fmap_2. }
  destruct (restart idx); [|exact Hfail|exact Hfail]. apply hold_moves; [done|].
  destruct (set_worker_keeps idx (mkWorker true [] false) e2 K1) as (W1 & W2 & W3 & W4); [constructor|done|].
  split; [exact W1|]. split; [change (submitted e2 = submitted e); congruence|].
  split; [intros i Hi; by apply W3, K3, M3|]. intros i Hi. destruct (Hheld i Hi) as [H|?]; [|right; by right].
  destruct (W4 i H) as [?|[]]. by left.
Qed.

Lemma ensure_keeps restart force now e : engine_inv e → keeps e (ensure_workers_alive cfg restart force now e).
Proof.
  intros He. unfold ensure_workers_alive. pose proof (drain_visible_keeps e He) as Hd.
  set (e1 := drain_visible_worker_events e) in *.
  assert (keeps e1 (should_run_liveness_scan force now e1).2) as Hs.
  { unfold should_run_liveness_scan.
    assert (keeps e1 (e1 <| last_worker_liveness_check := now |>)) as H.
    { destruct Hd as [[] _]. split; [constructor; done|]. split; [done|]. split; [done|]. by left. }
    destruct force; [done|]. destruct (_ <q _); [apply moves_refl, Hd|done]. }
  destruct (should_run_liveness_scan force now e1) as [scan e2]. cbn [snd] in Hs.
  eapply keeps_moves; [exact Hd|]. intros _. destruct scan; [|exact Hs].
  eapply keeps_moves; [exact Hs|]. intros He2. apply keeps_fold; [done|]. intros. by apply recover_dead_worker_keeps.
Qed.

Lemma poll_keeps restart now n e : engine_inv e → keeps e (process_poll_completed_events cfg restart now n e).2.
Proof.
  intros He. unfold process_poll_completed_events. cbn [snd].
  eapply keeps_moves; [by apply (ensure_keeps restart false now)|]. intros H1.
  eapply keeps_moves; [by apply drain_registry_keeps|]. intros H2.
  eapply keeps_moves.
  - apply (with_buffer_keeps (λ b, (poll_prefetched n b).2)); [done| |by apply poll_prefetched_consumes].
    exact (buffer_apply_inv decode_events _ (OpPollPrefetched n) (proj1 (ei_buffer _ H2))).
  - intros H3. destruct (ei_buffer _ H3) as [Hb _]. apply with_buffer_keeps; [done| |].
    + exact (buffer_apply_inv decode_events _ (OpPollAvailable _) Hb).
    + by apply poll_available_consumes.
Qed.

(** ** Requeues *)

Lemma recovering_moves gone l e :
  engine_inv e → Forall (λ c, Forall P c.2) l →
  (∀ c p, c ∈ recovering e → p ∈ c.2 → (∃ c', c' ∈ l ∧ p ∈ c'.2) ∨ gone (identity_of_payload p)) →
  moves gone e (e <| recovering := l |>).
Proof.
  intros He Hl Hg. split; [destruct He; by constructor|]. split; [done|]. split; [done|].
  intros i [?|[?|[?|(c & p & Hc & Hp & <-)]]]; [by left; left|by left; right; left|by left; right; right; left|].
  destruct (Hg c p Hc Hp) as [(c' & ? & ?)|?]; [left|by right]. right; right; right. by exists c', p.
Qed.

(** What [gone] stood for is held afterwards. *)
Lemma moves_held gone e1 e2 : moves gone e1 e2 → (∀ i, gone i → held e2 i) → keeps e1 e2.
Proof.
  intros (H1 & H2 & H3 & H4) Hg. split; [done|]. split; [done|]. split; [done|].
  intros i Hi. left. destruct (H4 i Hi); auto.
Qed.

Lemma moves_trans gone gone' e1 e2 e3 :
  moves gone e1 e2 → (engine_inv e2 → moves gone' e2 e3) → moves (λ i, gone i ∨ gone' i) e1 e3.
Proof.
  intros (H1 & H2 & H3 & H4) H. destruct (H H1) as (H5 & H6 & H7 & H8). split; [done|]. split; [congruence|].
  split; [by eauto|]. intros i Hi. destruct (H4 i Hi) as [Hi2|?]; [|right; by left].
  destruct (H8 i Hi2); [by left|right; by right].
Qed.

(** An entry pending under the key of a payload is the same work. *)
Lemma same_item_entry n p t y i :
  pipes_inv size P t → od_get (ItemKey (n, identity_of_payload p)) (pending_dispatch t) = Some y →
  i ∈ identity_of_payload <$> pending_payloads y → i ∈ identity_of_payload <$> [p].
Proof.
  intros Ht Hy. destruct (pi_entries _ _ _ Ht _ _ Hy) as [Hok _]. destruct y as [q|]; [|done]. cbn in *. by rewrite Hok.
Qed.

Lemma dispatch_payload_spec takes p t :
  pipes_inv size P t → P p →
  match dispatch_payload route_digest takes p (resolve_route_identity (pl_item p)) t with
  | Dispatched t' => pipes_inv size P t' ∧ (∀ i, pends t i → pends t' i) ∧ pends t' (identity_of_payload p)
  | DispatchRaises t' => pipes_inv size P t' ∧ ∀ i, pends t i → pends t' i ∨ i = identity_of_payload p
  | Waits => True
  end.
Proof.
  intros Ht Hp. unfold dispatch_payload. set (n := stable_worker_index_for_route _ _ _).
  pose proof (dispatch_entry_spec size P takes n (ItemKey (n, identity_of_payload p)) (PendingItem p)
    (mkMessage None [pl_item p]) t Ht) as Hd.
  unfold worker_execution_identity_from_payload.
  destruct (dispatch_entry takes n _ _ _ t) as [t'|t'|]; [| |done].
  - destruct Hd as [H1 H2]; try done; [by repeat constructor|repeat constructor; by apply P_item|by intros y i; apply same_item_entry|].
    split; [done|]. split; [intros i Hi; apply H2; by left|apply H2; right; left].
  - destruct Hd as [H1 H2]; try done; [by repeat constructor|repeat constructor; by apply P_item|by intros y i; apply same_item_entry|].
    split; [done|]. intros i Hi. destruct (H2 i Hi) as [?|H]; [by left|right]. by apply list_elem_of_singleton in H.
Qed.

Lemma requeue_keeps takes e e' :
  engine_inv e → requeue_recovered_payload cfg route_digest takes e = Some e' → keeps e e'.
Proof.
  intros He. unfold requeue_recovered_payload. pose proof (ei_recovering _ He) as Hrec.
  destruct (recovering e) as [|[source [|p rest]] calls] eqn:Hr; [done|..]; apply Forall_cons in Hrec as [Hps Hcalls]; cbn in Hps.
  { intros [= <-]. apply recovering_moves; [done|done|]. rewrite Hr. intros c p [->|Hc]%elem_of_cons Hp.
    - by apply elem_of_nil in Hp.
    - left. by exists c. }
  apply Forall_cons in Hps as [Hp Hrest].
  set (next := match rest with [] => calls | _ => (source, rest) :: calls end).
  assert (Forall (λ c, Forall P c.2) next) as Hnext by (subst next; destruct rest; [done|by constructor]).
  assert (∀ c q, c ∈ (source, p :: rest) :: calls → q ∈ c.2 → (∃ c', c' ∈ next ∧ q ∈ c'.2) ∨ identity_of_payload q = identity_of_payload p) as Hleft.
  { intros c q [->|Hc]%elem_of_cons Hq; cbn in *.
    - apply elem_of_cons in Hq as [->|Hq]; [by right|left]. subst next. destruct rest as [|p' rest]; [by apply elem_of_nil in Hq|].
      exists (source, p' :: rest). split; [left|done].
    - left. exists c. split; [|done]. subst next. destruct rest; [done|by right]. }
  unfold requeue_payload. pose proof (dispatch_payload_spec (λ _ _, takes) p (transport e) (ei_pipes _ He) Hp) as Hd.
  destruct (dispatch_payload _ _ _ _ _) as [t|t|]; [| |done].
  - destruct Hd as (H1 & H2 & H3). intros [= <-].
    eapply keeps_moves; [exact (transport_moves (λ _, False) e t He H1 (λ i Hi, or_introl (H2 i Hi)))|]. intros He1.
    apply (moves_held (λ i, i = identity_of_payload p)).
    + apply recovering_moves; [done|done|]. cbn. rewrite Hr. exact Hleft.
    + intros i ->. right; left. exact H3.
  - destruct Hd as (H1 & H2).
    pose proof (transport_moves (λ i, i = identity_of_payload p) e t He H1 H2) as M1.
    destruct source as [idx|id]; intros [= <-].
    + assert (moves (λ i, i = identity_of_payload p ∨ i = identity_of_payload p) e ((e <| transport := t |>) <| recovering := next |>)) as M2.
      { apply (moves_trans _ _ e (e <| transport := t |>)); [exact M1|]. intros He1. apply recovering_moves; [done|done|].
        cbn. rewrite Hr. exact Hleft. }
      destruct (emit_keeps [worker_recovery_failure "worker_requeue_failed" (ec_max_retries cfg) p] _ (proj1 M2)) as [(E1 & E2 & E3 & E4) E5].
      destruct M2 as (M21 & M22 & M23 & M24). split; [exact E1|]. split; [exact (eq_trans E2 M22)|]. split; [by eauto|].
      intros i Hi. left. destruct (M24 i Hi) as [H|[->| ->]]; [by destruct (E4 i H) as [?|[]]|left..]; apply E5; left.
    + assert (moves (λ i, i = identity_of_payload p ∨ i ∈ identity_of_payload <$> p :: rest) e ((e <| transport := t |>) <| recovering := calls |>)) as M2.
      { apply (moves_trans _ _ e (e <| transport := t |>)); [exact M1|]. intros He1. apply recovering_moves; [done|done|].
        cbn. rewrite Hr. intros c q [->|Hc]%elem_of_cons Hq; [right; by apply (list_elem_of_fmap_2 identity_of_payload (p :: rest))|left; by exists c]. }
      destruct (emit_keeps (worker_recovery_failure "not_started_requeue_failed" (ec_max_retries cfg) <$> p :: rest) _ (proj1 M2))
        as [(E1 & E2 & E3 & E4) E5].
      assert (∀ i, i ∈ identity_of_payload <$> p :: rest →
        i ∈ identity_of_completion <$> (worker_recovery_failure "not_started_requeue_failed" (ec_max_retries cfg) <$> p :: rest)) as Hids.
      { intros i. rewrite <-list_fmap_compose. done. }
      destruct M2 as (M21 & M22 & M23 & M24). split; [exact E1|]. split; [exact (eq_trans E2 M22)|]. split; [by eauto|].
      intros i Hi. left. destruct (M24 i Hi) as [H|[->|H]]; [by destruct (E4 i H) as [?|[]]|left..]; apply E5, Hids; [left|exact H].
Qed.

(** ** Workers *)

Lemma script_ok_app es es' : script_ok es → script_ok es' → script_ok (es ++ es').
Proof. intros. by apply Forall_app. Qed.

Lemma dones_script_ok idx ws : Forall (λ w, P (work_item_payload w)) ws → script_ok (ToRegistry <$> (done_event idx <$> ws)).
Proof.
  intros Hws. apply Forall_fmap, Forall_fmap. eapply Forall_impl; [exact Hws|].
  intros w Hw. split; [by repeat constructor|done].
Qed.

Lemma flush_script_ok id results : script_ok (flush_route_batch_completion packs id results).
Proof.
  unfold flush_route_batch_completion. destruct results; [constructor|]. rewrite packs_all. by repeat constructor.
Qed.

Lemma end_script_ok idx batch started sent results ws :
  Forall (λ w, P (work_item_payload w)) ws → script_ok (end_of_message packs batch started sent results (done_event idx <$> ws)).
Proof.
  intros Hws. unfold end_of_message. apply script_ok_app; [destruct (started && negb sent); by repeat constructor|].
  destruct results; [constructor|]. unfold flush_batch. destruct batch; [|constructor].
  apply script_ok_app; [apply flush_script_ok|by apply dones_script_ok].
Qed.

(** Everything a worker sends of a message carries an item of the message, under its key. *)
Lemma run_items_script_ok idx batch items : ∀ started sent results ws,
  Forall (λ w, P (work_item_payload w)) items → Forall (λ w, P (work_item_payload w)) ws →
  script_ok (run_items cfg worker_fn timeout_text packs idx batch items started sent results (done_event idx <$> ws)).1.
Proof.
  induction items as [|w rest IH]; intros started sent results ws Hitems Hws; cbn [run_items].
  { by apply end_script_ok. }
  apply Forall_cons in Hitems as [Hw Hrest].
  assert (script_ok [start_event idx w]) as Hstart by (repeat constructor; exact Hw).
  assert (∀ b : bool, script_ok (if b then [ToRegistry EvBatchCompleted] else [])) as Hbc
    by (intros []; repeat constructor).
  assert (Forall (λ w, P (work_item_payload w)) (ws ++ [w])) as Hws' by (apply Forall_app; split; [done|by constructor]).
  destruct (fatal_timeout _ _ _ w).
  { cbn [fst]. apply (script_ok_app [_] (_ :: _)); [exact Hstart|]. apply (script_ok_app [_]).
    - unfold timeout_event. destruct (run_attempts _ _ _ w) as [[[? ?] ?] ?]. repeat constructor. exact Hw.
    - unfold flush_batch. destruct batch; [|constructor].
      apply script_ok_app; [apply flush_script_ok|by apply dones_script_ok]. }
  destruct batch as [id|].
  - replace ((done_event idx <$> ws) ++ [done_event idx w]) with (done_event idx <$> ws ++ [w]) by by rewrite fmap_app.
    destruct (decide _).
    + cbn [fst]. apply (script_ok_app [_]); [exact Hstart|]. apply script_ok_app; [apply Hbc|].
      apply script_ok_app; [|by apply end_script_ok].
      destruct rest as [|w2 rest]; [constructor|]. apply Forall_singleton. split; [|done]. by apply Forall_fmap.
    + pose proof (IH (started || attempts_made cfg) ((started || attempts_made cfg) && bool_decide (rest = []))
        (results ++ [worker_completion cfg worker_fn timeout_text w]) (ws ++ [w]) Hrest Hws') as IH'.
      destruct (run_items _ _ _ _ _ _ _ _ _ _ _) as [es ex]. cbn [fst] in *.
      apply (script_ok_app [_]); [exact Hstart|]. by apply script_ok_app.
  - rewrite packs_all.
    pose proof (IH (started || attempts_made cfg) ((started || attempts_made cfg) && bool_decide (rest = []))
      results ws Hrest Hws) as IH'.
    destruct (run_items _ _ _ _ _ _ _ _ _ _ _) as [es ex]. cbn [fst] in *.
    apply (script_ok_app [_]); [exact Hstart|]. apply script_ok_app; [apply Hbc|].
    apply (script_ok_app [_; _]); [|done]. repeat constructor. exact Hw.
Qed.

Lemma receive_keeps (n : nat) m pipe e :
  engine_inv e → senders (transport e) !! n = Some (m :: pipe) →
  let '(es, ex) := run_message cfg worker_fn timeout_text packs (Z.of_nat n) m in
  keeps e (set_worker n (mkWorker true es ex) (e <| transport ::= λ t, t <| senders ::= <[n := pipe]> |> |>)).
Proof.
  intros He Hm. destruct (receive_spec size P n m pipe (transport e) (ei_pipes _ He) Hm) as [H1 H2].
  destruct (run_message cfg worker_fn timeout_text packs (Z.of_nat n) m) as [es ex] eqn:Hrun.
  destruct (run_message_spec cfg worker_fn timeout_text packs packs_all (Z.of_nat n) m es ex Hrun) as [_ Hcov].
  eapply keeps_moves; [exact (transport_moves (λ _, False) e _ He H2 (λ i Hi, or_introl Hi))|]. intros He1.
  apply set_worker_keeps; [done| |by apply Hcov].
  pose proof (run_items_script_ok (Z.of_nat n) (msg_batch m) (msg_items m) false false [] [] H1 (Forall_nil_2 _)) as Hok.
  unfold run_message in Hrun. cbn [fmap list_fmap] in Hok. destruct (run_items _ _ _ _ _ _ _ _ _ _ _) as [es1 ex1].
  injection Hrun as <- _. constructor; [|exact Hok]. split; [constructor|done].
Qed.

Lemma put_keeps (n : nat) x rest ex e :
  engine_inv e → workers e !! n = Some (mkWorker true (x :: rest) ex) →
  keeps e (put_emission x (set_worker n (mkWorker true rest ex) e)).
Proof.
  intros He Hn. pose proof (Forall_lookup_1 _ _ _ _ (ei_workers _ He) Hn) as [Hok Hcov]. cbn in Hok, Hcov.
  apply Forall_cons in Hok as [Hx Hrest]. destruct x as [ev|events]; cbn [put_emission].
  - assert (dones_covered (completed e) rest) as Hc by (destruct ev; try done; apply Hcov).
    destruct (set_worker_keeps n (mkWorker true rest ex) e He Hrest Hc) as (K1 & K2 & K3 & K4).
    split; [|split; [done|split; [done|by left]]]. destruct K1. constructor; try done. cbn.
    apply Forall_app. split; [done|]. apply Forall_singleton. destruct Hx as [? ?]. split; [done|]. split; [done|].
    destruct ev; try done. apply Hcov.
  - destruct (arrive_keeps events e He) as [K1 K2].
    set (e1 := e <| completions ::= λ b, buffer_apply decode_events b (OpArrive events) |>) in *.
    eapply keeps_moves; [exact K1|]. intros He1. apply (set_worker_keeps n (mkWorker true rest ex) e1 He1 Hrest).
    eapply dones_covered_mono; [|exact Hcov]. intros i [?|?]; [by apply K1|by apply K2].
Qed.

End kept.

(** ** Submission *)

(** [ws] joins the submitted work; a rejected submission keeps every invariant there was. *)
Definition joins (P : Payload → Prop) (ok : bool) ws e e' : Prop :=
  (if ok then engine_inv P e' else ∀ Q, engine_inv Q e → engine_inv Q e')
  ∧ submitted e' = submitted e ++ (if ok then ws else []) ∧ (∀ i, held e i → held e' i)
  ∧ (ok = true → ∀ w, w ∈ ws → held e' (work_identity w)).

Lemma accept_joins P ws e t :
  engine_inv P e → pipes_inv size P t → (∀ i, pends (transport e) i → pends t i) → (∀ w, w ∈ ws → pends t (work_identity w)) →
  joins P true ws e (e <| transport := t |> <| in_flight_count ::= λ n, n + zlen ws |> <| submitted ::= λ l, l ++ ws |>).
Proof.
  intros He Ht Hp Hw. split.
  { destruct He as [? ? ? ? ? ? Hn]. constructor; try done. cbn. rewrite zlen_app. lia. }
  split; [done|]. split; [|intros _ w Hin; right; left; by apply Hw].
  intros i [?|[?|[?|?]]]; [by left|right; left; by apply Hp|by right; right; left|by right; right; right].
Qed.

Lemma reject_joins P ws e t gone :
  pipes_inv size P t → senders t = senders (transport e) →
  (∀ k y, od_get k (pending_dispatch t) = Some y → od_get k (pending_dispatch (transport e)) = Some y) →
  (∀ i, pends (transport e) i → pends t i ∨ gone i) → (∀ i, gone i → ¬ pends (transport e) i) →
  joins P false ws e (e <| transport := t |>).
Proof.
  intros Ht Hs Hsub Hp Hg. split; [|split; [cbn; by rewrite app_nil_r|split; [|done]]].
  - intros Q He. pose proof (pipes_inv_sub size P Q _ t Ht (ei_pipes _ _ He) Hs Hsub). destruct He. by constructor.
  - intros i [?|[Hi|[?|?]]]; [by left| |by right; right; left|by right; right; right].
    destruct (Hp i Hi) as [?|H]; [by right; left|]. by destruct (Hg i H).
Qed.

Lemma dispatch_item_joins (P : Payload → Prop) takes w e ok e' :
  (∀ p x, P p → P (mkPayload (pl_item p) x)) →
  engine_inv P e → P (work_item_payload w) → ¬ pends (transport e) (work_identity w) →
  dispatch_item route_digest takes w e = Some (ok, e') → joins P ok [w] e e'.
Proof.
  intros HP He Hw Hn. unfold dispatch_item.
  pose proof (dispatch_payload_spec P HP (λ _ _, takes) (work_item_payload w) (transport e) (ei_pipes _ _ He) Hw) as Hd.
  cbn [pl_item work_item_payload] in Hd.
  destruct (dispatch_payload _ _ _ _ _) as [t|t|] eqn:E; [| |done]; intros [= <- <-].
  - destruct Hd as (H1 & H2 & H3). apply (accept_joins P [w]); [done|done|done|]. by intros w' ->%list_elem_of_singleton.
  - destruct Hd as (H1 & H2). apply dispatch_raises_sub in E as [E1 E2].
    apply (reject_joins P [w] e t (λ i, i = work_identity w)); [done|done|done|exact H2|]. by intros i ->.
Qed.

Lemma dispatch_items_joins P takes id ws e ok e' :
  engine_inv P e → Forall (λ w, P (work_item_payload w)) ws → (∀ w, w ∈ ws → ¬ pends (transport e) (work_identity w)) →
  fresh_batch id e → dispatch_items route_digest takes id ws e = Some (ok, e') → joins P ok ws e e'.
Proof.
  intros He Hws Hn Hid. destruct ws as [|w rest]; [done|]. unfold dispatch_items, dispatch_route_batch.
  set (ws := w :: rest) in *. set (n := stable_worker_index_for_route _ _ _).
  set (x := PendingBatch id (work_item_payload <$> ws) false).
  assert (identity_of_payload <$> pending_payloads x = work_identity <$> ws) as Hids.
  { unfold x. cbn [pending_payloads]. rewrite <-list_fmap_compose. done. }
  pose proof (dispatch_entry_spec size P (λ _ _, takes) n (BatchKey n id) x (mkMessage (Some id) ws) (transport e) (ei_pipes _ _ He)) as Hd.
  rewrite Hids in Hd. destruct (dispatch_entry _ n _ x _ _) as [t|t|] eqn:E; [| |done]; intros [= <- <-].
  - destruct Hd as [H1 H2]; try done; [by apply Forall_fmap|by intros y i; rewrite Hid|].
    apply (accept_joins P ws); [done|done|intros i Hi; apply H2; by left|].
    intros w' Hw'. apply H2. right. by apply list_elem_of_fmap_2.
  - destruct Hd as [H1 H2]; try done; [by apply Forall_fmap|by intros y i; rewrite Hid|].
    apply dispatch_raises_sub in E as [E1 E2].
    apply (reject_joins P ws e t (λ i, i ∈ work_identity <$> ws)); [done|done|done|exact H2|].
    intros i (w' & -> & Hw')%list_elem_of_fmap. by apply Hn.
Qed.

(** ** Runs *)

Definition offset_key (w : WorkItem) : TopicPartition * Z := (wi_tp w, wi_offset w).

(** A payload of submitted work, with no more requeues than allowed *)
Definition good (ws : list WorkItem) (p : Payload) : Prop :=
  identity_of_payload p ∈ work_identity <$> ws ∧ 0 ≤ pl_requeue_attempts p ≤ Z.max 0 (ec_max_retries cfg).

Lemma good_raise ws p : good ws p → pl_requeue_attempts p < ec_max_retries cfg → good ws (raise_requeue_attempts p).
Proof. intros [H1 H2] Hlt. split; [exact H1|]. unfold raise_requeue_attempts, pl_requeue_attempts in *. cbn. lia. Qed.

Lemma good_item ws p x : good ws p → good ws (mkPayload (pl_item p) x).
Proof. done. Qed.

Lemma good_distinct ws p q :
  NoDup (offset_key <$> ws) → good ws p → good ws q → key_of_payload 0 p = key_of_payload 0 q →
  identity_of_payload p = identity_of_payload q.
Proof.
  intros Hnd [(w & Hp & Hw)%list_elem_of_fmap _] [(w' & Hq & Hw')%list_elem_of_fmap _] Hk. rewrite Hp, Hq. f_equal.
  apply list_elem_of_lookup in Hw as [i Hi]. apply list_elem_of_lookup in Hw' as [j Hj].
  assert (offset_key w = offset_key w') as Heq.
  { unfold identity_of_payload, logical_work_identity_from_payload, work_identity in Hp, Hq.
    unfold key_of_payload in Hk. injection Hk as Ht Hn Ho. injection Hp as Ht1 Hn1 Ho1 _ _. injection Hq as Ht2 Hn2 Ho2 _ _.
    unfold offset_key. destruct (wi_tp w), (wi_tp w'). cbn in *. congruence. }
  assert (i = j) as ->; [|congruence].
  apply (NoDup_lookup (offset_key <$> ws) i j (offset_key w)); [done|by rewrite list_lookup_fmap, Hi|].
  by rewrite list_lookup_fmap, Hj, Heq.
Qed.

Lemma good_mono ws ws' p : good ws p → good (ws ++ ws') p.
Proof. intros [H ?]. split; [|done]. rewrite fmap_app. apply elem_of_app. by left. Qed.

Lemma engine_inv_mono (P Q : Payload → Prop) e : (∀ p, P p → Q p) → engine_inv P e → engine_inv Q e.
Proof.
  intros HPQ [[? He1 He2 ? ?] [? He3] Hq Hw Hr ? ?]. constructor; try done.
  - constructor; try done.
    + intros k x Hx. destruct (He1 k x Hx). split; [done|]. by eapply Forall_impl.
    + eapply Forall_impl; [exact He2|]. intros pipe Hp. eapply Forall_impl; [exact Hp|]. intros m Hm. by eapply Forall_impl; [exact Hm|]; auto.
  - split; [done|]. intros k p Hk. destruct (He3 k p Hk). auto.
  - eapply Forall_impl; [exact Hq|]. intros ev (? & ? & ?). split; [by eapply Forall_impl|done].
  - eapply Forall_impl; [exact Hw|]. intros w [Hs ?]. split; [|done]. eapply Forall_impl; [exact Hs|].
    intros [ev|]; [|done]. intros [? ?]. split; [by eapply Forall_impl|done].
  - eapply Forall_impl; [exact Hr|]. intros c Hc. exact (Forall_impl _ _ _ Hc HPQ).
Qed.

Definition system_inv e : Prop :=
  engine_inv (good (submitted e)) e ∧ NoDup (offset_key <$> submitted e)
  ∧ ∀ w, w ∈ submitted e → held e (work_identity w).

Lemma system_inv_keeps e e' : system_inv e → keeps (good (submitted e)) e e' → system_inv e'.
Proof.
  intros (_ & H2 & H3) (K1 & K2 & K3 & K4). unfold system_inv. rewrite K2. split; [done|]. split; [done|].
  intros w Hw. by destruct (K4 _ (H3 w Hw)) as [?|[]].
Qed.

Lemma system_inv_joins ok ws e e' :
  system_inv e → fresh_items ws e → joins (good (submitted e ++ ws)) ok ws e e' → system_inv e'.
Proof.
  intros (H1 & H2 & H3) [F1 F2] (J1 & J2 & J3 & J4). unfold system_inv. rewrite J2.
  assert (NoDup (offset_key <$> submitted e ++ ws)) as Hnd.
  { rewrite fmap_app. apply NoDup_app. split; [done|]. split; [|done].
    intros x (w & -> & Hw)%list_elem_of_fmap (w' & Heq & Hw')%list_elem_of_fmap. by destruct (F2 w' w Hw' Hw). }
  destruct ok.
  - split; [done|]. split; [done|]. intros w [Hw|Hw]%elem_of_app; [by apply J3, H3|by apply J4].
  - rewrite app_nil_r. split; [by apply J1|]. split; [done|]. intros w Hw. by apply J3, H3.
Qed.

(** Fresh work is not pending yet. *)
Lemma fresh_not_pending ws e w : system_inv e → fresh_items ws e → w ∈ ws → ¬ pends (transport e) (work_identity w).
Proof.
  intros (H1 & _ & _) [_ F] Hw (k & x & p & Hx & Hp & Heq).
  destruct (pi_entries _ _ _ (ei_pipes _ _ H1) _ _ Hx) as [_ Hg]. rewrite Forall_forall in Hg.
  destruct (Hg p Hp) as [(w' & Hw' & Hin)%list_elem_of_fmap _]. apply (F w w' Hw Hin).
  rewrite Heq in Hw'. unfold work_identity in Hw'. injection Hw' as Ht Hn Ho _ _.
  destruct (wi_tp w), (wi_tp w'). cbn in *. congruence.
Qed.

Lemma fresh_good ws e w : wi_requeue_attempts w = 0 → w ∈ ws → good (submitted e ++ ws) (work_item_payload w).
Proof.
  intros Hr Hw. split; [|unfold pl_requeue_attempts; cbn; lia].
  apply (list_elem_of_fmap_2 work_identity). apply elem_of_app. by right.
Qed.

Lemma engine_step_inv e op e' :
  engine_step cfg worker_fn timeout_text packs route_digest e op e' → system_inv e → system_inv e'.
Proof.
  intros Hstep Hs. pose proof (proj1 Hs) as He.
  pose proof (good_raise (submitted e)) as HR. pose proof (good_item (submitted e)) as HI.
  pose proof (λ p q, good_distinct (submitted e) p q (proj1 (proj2 Hs))) as HD.
  destruct Hstep as [e force restart now|e|e|e takes e' Hq|e takes w ok e' Hf Hr Hd|e takes id ws ok e' Hf Hb _ Hr Hd
    |e restart now n|e i m pipe Hw Hm|e i x rest ex Hw|e i Hw|e i p Hw].
  - by eapply system_inv_keeps, ensure_keeps.
  - by eapply system_inv_keeps, drain_registry_keeps.
  - by eapply system_inv_keeps, prefetch_completion_keeps.
  - by eapply system_inv_keeps, requeue_keeps.
  - apply (system_inv_joins ok [w] e e' Hs Hf). eapply dispatch_item_joins; [apply good_item| | | |exact Hd].
    + eapply engine_inv_mono; [|exact He]. intros p. apply good_mono.
    + apply fresh_good; [done|left].
    + apply (fresh_not_pending [w]); [done|done|left].
  - apply (system_inv_joins ok ws e e' Hs Hf). eapply dispatch_items_joins; [| | |exact Hb|exact Hd].
    + eapply engine_inv_mono; [|exact He]. intros p. apply good_mono.
    + apply Forall_forall. intros w Hw. apply fresh_good; [|done]. by eapply Forall_forall in Hr.
    + intros w Hw. by apply (fresh_not_pending ws).
  - by eapply system_inv_keeps, poll_keeps.
  - pose proof (receive_keeps (good (submitted e)) i m pipe e He Hm) as K.
    destruct (run_message _ _ _ _ _ _) as [es ex]. by eapply system_inv_keeps.
  - eapply system_inv_keeps; [done|]. by apply put_keeps.
  - eapply system_inv_keeps; [done|]. apply set_worker_keeps; [done|constructor|done].
  - eapply system_inv_keeps; [done|]. apply set_worker_keeps; [done|constructor|done].
Qed.

Lemma new_engine_inv processes : 0 ≤ size → system_inv (new_process_engine processes size).
Proof.
  intros Hz. split; [|split; [apply NoDup_nil_2|intros w Hw; by apply elem_of_nil in Hw]].
  constructor; cbn; try (by constructor).
  - by apply new_pipes_inv.
  - split; [apply NoDup_nil_2|done].
  - apply Forall_replicate. split; [constructor|done].
  - split; [apply new_buffer_inv|]. split; intros ? Hx; by apply elem_of_nil in Hx.
Qed.

Lemma engine_run_inv processes ops e :
  0 ≤ size → steps (engine_step cfg worker_fn timeout_text packs route_digest) (new_process_engine processes size) ops e →
  system_inv e.
Proof.
  intros Hz Hs. eapply steps_invariant; [|by apply new_engine_inv|exact Hs].
  intros s ev s'. intros. by eapply engine_step_inv.
Qed.

(** Where accepted work is, without the record of what arrived *)
Definition accounted e (w : WorkItem) : Prop :=
  (∃ ev, identity_of_completion ev = work_identity w
     ∧ ((∃ raw, raw ∈ completion_queue (completions e) ∧ ev ∈ raw)
        ∨ ev ∈ delivered_events (completions e) ∨ ev ∈ prefetched_events (completions e)))
  ∨ pends (transport e) (work_identity w)
  ∨ runs (in_flight_registry e) (work_identity w)
  ∨ in_recovery e (work_identity w).

Lemma system_accounts e w : system_inv e → w ∈ submitted e → accounted e w.
Proof.
  intros (He & _ & Hh) Hw. unfold accounted.
  destruct (Hh w Hw) as [(raw & ev & Hraw & Hev & Hid)|H]; [left|by right].
  destruct (ei_buffer _ _ He) as [[Hc Ha] _].
  assert (∀ ev', ev' ∈ accepted_events (completions e) →
    ev' ∈ delivered_events (completions e) ∨ ev' ∈ prefetched_events (completions e)) as Hacc.
  { intros ev' Hin. apply elem_of_app. by rewrite <-(cb_events _ Hc). }
  destruct (Ha raw Hraw) as [Hq|Hd]; [exists ev; split; [done|left; by exists raw]|].
  destruct (Hd ev Hev) as [Hin|(ev' & Hin & Heq)]; [exists ev; split; [done|right; by apply Hacc]|].
  exists ev'. split; [|right; by apply Hacc]. rewrite <-Hid. unfold identity_of in Heq. injection Heq as E1 E2 E3 E4 E5.
  unfold logical_work_identity_from_completion_event. congruence.
Qed.

(** ** The properties *)


End engine.
