(* ===== verification/ProcessEngineSystem.v ===== *)
(** * A run of the process engine

    A worker dies in the middle of an item and the item is sent again: the witness of the
    theorems of [ProcessEngineInv]; and what happens when a worker's two queues do not lose the
    same suffix of its puts. *)

From S2P Require Import Prelude Dto ExecutionEngine ProcessTransport ProcessTransportInv ProcessRegistry ProcessWorker ProcessCompletionBuffer ProcessEngine ProcessEngineInv.

Definition engine_demo_fn (w : WorkItem) (attempt : Z) : AttemptResult := Returns.
Definition engine_demo_item : WorkItem := worker_demo_item 7.
Definition engine_demo_step := engine_step worker_demo_config engine_demo_fn (λ _, "") (λ _, true) (λ _, 0).

Definition engine_demo_0 : ProcessEngine := new_process_engine 1 4.
Definition engine_demo_1 : ProcessEngine :=
  (default (false, engine_demo_0) (dispatch_item (λ _, 0) true engine_demo_item engine_demo_0)).2.

(** The worker has started the item and dies; the parent notices, and sends the item again. *)
Definition engine_demo_2 : ProcessEngine :=
  let '(es, ex) := run_message worker_demo_config engine_demo_fn (λ _, "") (λ _, true) 0 (mkMessage None [engine_demo_item]) in
  set_worker 0 (mkWorker true es ex) (engine_demo_1 <| transport ::= λ t, t <| senders ::= <[0%nat := []]> |> |>).
Definition engine_demo_put (e : ProcessEngine) : ProcessEngine :=
  match workers e with
  | [mkWorker true (x :: rest) ex] => put_emission x (set_worker 0 (mkWorker true rest ex) e)
  | _ => e
  end.
Definition engine_demo_3 : ProcessEngine := engine_demo_put (engine_demo_put engine_demo_2).
Definition engine_demo_4 : ProcessEngine := set_worker 0 (mkWorker false [] false) engine_demo_3.
Definition engine_demo_5 : ProcessEngine := ensure_workers_alive worker_demo_config (λ _, Restarted) true 1%Q engine_demo_4.
Definition engine_demo_6 : ProcessEngine :=
  default engine_demo_5 (requeue_recovered_payload worker_demo_config (λ _, 0) true engine_demo_5).

Lemma engine_demo_put_step e x rest ex :
  workers e = [mkWorker true (x :: rest) ex] → engine_demo_step e (OpPut 0) (engine_demo_put e).
Proof. intros Hw. unfold engine_demo_put. rewrite Hw. apply step_put. by rewrite Hw. Qed.

Lemma engine_demo_run :
  steps engine_demo_step engine_demo_0
    [OpSubmit engine_demo_item; OpReceive 0; OpPut 0; OpPut 0; OpDie 0; OpEnsure true; OpRequeue] engine_demo_6.
Proof.
  apply (steps_cons _ _ _ engine_demo_1).
  { apply (step_submit _ _ _ _ _ _ true _ true); [|done|by vm_compute].
    split; [apply NoDup_singleton|]. intros w w' _ Hw. by apply elem_of_nil in Hw. }
  apply (steps_cons _ _ _ engine_demo_2).
  { apply (step_receive _ _ _ _ _ engine_demo_1 0 (mkMessage None [engine_demo_item]) []); by vm_compute. }
  apply (steps_cons _ _ _ (engine_demo_put engine_demo_2)); [eapply engine_demo_put_step; by vm_compute|].
  apply (steps_cons _ _ _ engine_demo_3); [eapply engine_demo_put_step; by vm_compute|].
  apply (steps_cons _ _ _ engine_demo_4); [eapply step_die; by vm_compute|].
  apply (steps_cons _ _ _ engine_demo_5); [apply step_ensure|].
  apply (steps_cons _ _ _ engine_demo_6); [apply (step_requeue _ _ _ _ _ _ true); by vm_compute|].
  constructor.
Qed.

(** The item is pending again, with one requeue on its account. *)
Example engine_demo_requeued :
  (pl_requeue_attempts <$> od_values (pending_dispatch (transport engine_demo_6)) ≫= pending_payloads) = [1]
  ∧ in_flight_registry engine_demo_6 = [] ∧ arrived (completions engine_demo_6) = [] ∧ in_flight_count engine_demo_6 = 1.
Proof. by vm_compute. Qed.



(** ** Queues that tear apart

    The theorems take a dying worker to lose a suffix of its puts.  Each of its two queues has a
    sender thread of its own, and [os._exit] after a time-out stops both where they are.  If a
    [done] gets through and the completion put before it does not, the parent forgets the item:
    nothing holds it any more, and the in-flight count stays up. *)
Definition torn_engine : ProcessEngine :=
  engine_demo_4 <| registry_event_queue ::= λ q, q ++ [done_event 0 engine_demo_item] |>.

Lemma torn_queues_lose_work :
  let e := ensure_workers_alive worker_demo_config (λ _, Restarted) true 1%Q torn_engine in
  pending_dispatch (transport e) = [] ∧ in_flight_registry e = [] ∧ recovering e = []
  ∧ arrived (completions e) = [] ∧ in_flight_count e = 1.
Proof. by vm_compute. Qed.
