(* ===== verification/ProcessWait.v ===== *)
(** * Waiting for a completion ([ProcessExecutionEngine.wait_for_completion], [process_engine.py])

    The completion monitor and the shutdown drain ask the engine to wait until there is something to
    poll.  The coroutine looks at what is visible and otherwise leaves the event loop: a thread of
    the default executor blocks in [queue.get].  Engine steps happen meanwhile.  A task that is
    cancelled there does not stop its thread, which stays in the queue until it gets an item or its
    time is up; the broker cancels the monitor when the consumer loop ends, before the drain. *)

From S2P Require Import Prelude Dto ExecutionEngine ProcessTransport ProcessTransportInv ProcessRegistry ProcessWorker.
From S2P Require Import ProcessCompletionBuffer ProcessEngine ProcessEngineInv ProcessEngineSystem.

(** Where the caller is: [InGet] while its thread blocks, with the deadline of the wait *)
Inductive WaitAt := NotWaiting | InGet (deadline : option Q) | Answered (has_completion : bool).

Record Waiting := mkWaiting {
  engine : ProcessEngine;
  wait_at : WaitAt;
  stray_threads : nat;                           (* threads whose caller was cancelled *)
  taken_by_strays : list (list CompletionEvent); (* the items they took; not code *)
}.

#[export] Instance Waiting_settable : Settable Waiting :=
  λ w, mkWaiting (engine w) (wait_at w) (stray_threads w) (taken_by_strays w).

Section waiting.
Context (cfg : ExecutionConfig) (worker_fn : WorkItem → Z → AttemptResult) (timeout_text : Z → string)
  (packs : list CompletionEvent → bool) (route_digest : RouteIdentity → Z).
Implicit Types (e : ProcessEngine) (w : Waiting).

Definition has_prefetched_events e : bool := negb (bool_decide (prefetched_events (completions e) = [])).

(** The turns of the loop that find an item at once: until one holds an event that is new, or the
    queue is empty *)
Fixpoint take_visible (items : nat) e : bool * ProcessEngine :=
  match items with
  | O => (false, e)
  | S rest =>
      if (prefetch_next decode_events (completions e)).1 then (true, prefetch_completion e)
      else take_visible rest (prefetch_completion e)
  end.

(** The loop up to its next blocking call; [now] is the clock when the queue was found empty *)
Definition wait_loop (deadline : option Q) (now : Q) e : WaitAt * ProcessEngine :=
  let '(accepted, e1) := take_visible (length (completion_queue (completions e))) e in
  if (accepted : bool) then (Answered true, e1)
  else if has_prefetched_events e1 then (Answered true, e1)
  else match deadline with
       | None => (InGet None, e1)
       | Some d => if (d - now <=q 0) then (Answered false, e1) else (InGet deadline, e1)
       end.

(** [start] and [now] are the clock when the deadline is set and when the queue was found empty *)
Definition wait_for_completion (is_shutdown : bool) (restart : nat → Restart) (scan start now : Q)
    (timeout_seconds : option Q) e : WaitAt * ProcessEngine :=
  if is_shutdown then (Answered (has_prefetched_events e), e)
  else
    let e1 := drain_registry_events (ensure_workers_alive cfg restart false scan e) in
    if has_prefetched_events e1 then (Answered true, e1)
    else wait_loop ((λ t, (start + Qmax0 t)%Q) <$> timeout_seconds) now e1.

(** The blocking call came back with an item *)
Definition got_item (deadline : option Q) (now : Q) e : WaitAt * ProcessEngine :=
  if (prefetch_next decode_events (completions e)).1 then (Answered true, prefetch_completion e)
  else wait_loop deadline now (prefetch_completion e).

(** ** Steps *)

Inductive WaitOp :=
  | WEngine (op : EngineOp) | WCall (timeout_seconds : option Q) | WGot | WEmpty | WCancel | WStrayTakes | WStrayEnds.

Definition resume (r : WaitAt * ProcessEngine) w : Waiting := w <| wait_at := r.1 |> <| engine := r.2 |>.

Inductive wait_step : Waiting → WaitOp → Waiting → Prop :=
  | wait_engine w op e' :
      engine_step cfg worker_fn timeout_text packs route_digest (engine w) op e' →
      wait_step w (WEngine op) (w <| engine := e' |>)
  | wait_call w is_shutdown restart scan start now timeout :
      (∀ d, wait_at w ≠ InGet d) →
      wait_step w (WCall timeout) (resume (wait_for_completion is_shutdown restart scan start now timeout (engine w)) w)
  | wait_got w deadline now :
      wait_at w = InGet deadline → completion_queue (completions (engine w)) ≠ [] →
      wait_step w WGot (resume (got_item deadline now (engine w)) w)
  | wait_empty w d :
      wait_at w = InGet (Some d) →
      wait_step w WEmpty (w <| wait_at := Answered (has_prefetched_events (engine w)) |>)
  | wait_cancel w deadline :
      wait_at w = InGet deadline → wait_step w WCancel (w <| wait_at := NotWaiting |> <| stray_threads ::= S |>)
  | wait_stray_takes w n raw rest :
      stray_threads w = S n → completion_queue (completions (engine w)) = raw :: rest →
      wait_step w WStrayTakes
        (w <| stray_threads := n |> <| taken_by_strays ::= λ l, l ++ [raw] |>
           <| engine ::= λ e, e <| completions ::= λ b, b <| completion_queue := rest |> |> |>)
  | wait_stray_ends w n : stray_threads w = S n → wait_step w WStrayEnds (w <| stray_threads := n |>).

Abbreviation engine_runs := (steps (engine_step cfg worker_fn timeout_text packs route_digest)).

(** ** What a wait does to the engine *)

Lemma take_visible_runs n e : ∃ ops, engine_runs e ops (take_visible n e).2.
Proof.
  revert e. induction n as [|n IH]; intros e; cbn [take_visible]; [exists []; constructor|].
  assert (engine_runs e [OpPrefetch] (prefetch_completion e)) as H by (repeat econstructor).
  destruct (_ : bool); [by exists [OpPrefetch]|].
  destruct (IH (prefetch_completion e)) as [ops Hops]. exists (OpPrefetch :: ops). by apply (steps_app _ _ _ _ _ _ H).
Qed.

Lemma wait_loop_runs deadline now e : ∃ ops, engine_runs e ops (wait_loop deadline now e).2.
Proof.
  unfold wait_loop. destruct (take_visible_runs (length (completion_queue (completions e))) e) as [ops Hops].
  exists ops. destruct (take_visible _ _) as [accepted e1]. cbn in Hops.
  destruct accepted, (has_prefetched_events e1), deadline as [d|]; try done. by destruct (d - now <=q 0).
Qed.

Lemma wait_runs is_shutdown restart scan start now timeout e :
  ∃ ops, engine_runs e ops (wait_for_completion is_shutdown restart scan start now timeout e).2.
Proof.
  unfold wait_for_completion. destruct is_shutdown; [exists []; constructor|].
  set (e1 := drain_registry_events _). assert (engine_runs e [OpEnsure false; OpDrain] e1) as H1.
  { eapply steps_cons; [apply step_ensure|]. eapply steps_cons; [apply step_drain|]. constructor. }
  destruct (has_prefetched_events e1); [by eexists|].
  destruct (wait_loop_runs ((λ t, (start + Qmax0 t)%Q) <$> timeout) now e1) as [ops Hops].
  eexists. by eapply steps_app.
Qed.

Lemma got_item_runs deadline now e : ∃ ops, engine_runs e ops (got_item deadline now e).2.
Proof.
  unfold got_item. assert (engine_runs e [OpPrefetch] (prefetch_completion e)) as H by (repeat econstructor).
  destruct (_ : bool); [by exists [OpPrefetch]|].
  destruct (wait_loop_runs deadline now (prefetch_completion e)) as [ops Hops]. exists (OpPrefetch :: ops).
  by apply (steps_app _ _ _ _ _ _ H).
Qed.

(** A wait takes the steps the engine may take anyway, as long as no stray thread takes an item: what
    is proved of runs of the engine holds of runs with waits in them. *)
Lemma wait_step_runs w op w' :
  wait_step w op w' → op ≠ WStrayTakes → ∃ ops, engine_runs (engine w) ops (engine w').
Proof.
  intros H Hop. destruct H as [w op e' H|w ? ? ? ? ? ? _|w d now _ _|w d _|w d _| |w n _]; try done.
  - exists [op]. cbn. by repeat econstructor.
  - apply wait_runs.
  - apply got_item_runs.
  - exists []. constructor.
  - exists []. constructor.
  - exists []. constructor.
Qed.

Lemma waits_run_engine w ops w' :
  steps wait_step w ops w' → WStrayTakes ∉ ops → ∃ eops, engine_runs (engine w) eops (engine w').
Proof.
  induction 1 as [w|w op w1 ops w' H1 _ IH]; intros Hops; [exists []; constructor|].
  apply not_elem_of_cons in Hops as [Hop Hops]. destruct (wait_step_runs _ _ _ H1) as [o1 Ho1]; [congruence|].
  destruct (IH Hops) as [o2 Ho2]. eexists. by eapply steps_app.
Qed.

(** ** What the answer says *)

Lemma prefetch_events_ready es acc (b : CompletionBuffer (Raw := list CompletionEvent)) :
  (prefetch_events es acc b).1 = true → acc = true ∧ prefetched_events b ≠ [] ∨ acc = false →
  prefetched_events (prefetch_events es acc b).2 ≠ [].
Proof.
  revert acc b. induction es as [|ev es IH]; intros acc b; cbn [prefetch_events].
  { cbn. by intros -> [[_ ?]|?]. }
  unfold prefetch_event. destruct (is_duplicate_frame ev b) as (_ & _ & _ & _ & _ & Hp).
  destruct (is_duplicate_event ev b) as [[] b1]; cbn in *; intros Hok Hacc; apply IH; try done.
  - rewrite Hp. by destruct acc.
  - left. split; [done|]. cbn. by destruct (prefetched_events b1).
Qed.

Lemma prefetch_next_ready b : (prefetch_next decode_events b).1 = true → prefetched_events (prefetch_next decode_events b).2 ≠ [].
Proof.
  unfold prefetch_next. destruct (completion_queue b); [done|]. intros H. apply prefetch_events_ready; [done|by right].
Qed.

Lemma prefetch_events_queue es acc (b : CompletionBuffer (Raw := list CompletionEvent)) :
  completion_queue (prefetch_events es acc b).2 = completion_queue b.
Proof.
  revert acc b. induction es as [|ev es IH]; intros acc b; cbn [prefetch_events]; [done|]. unfold prefetch_event.
  pose proof (is_duplicate_grows ev b) as (_ & Hq & _). destruct (is_duplicate_event ev b) as [[] b1]; cbn in *; by rewrite IH.
Qed.

Lemma prefetch_next_queue b : completion_queue (prefetch_next decode_events b).2 = tail (completion_queue b).
Proof.
  unfold prefetch_next. destruct (completion_queue b) eqn:Hq; [by cbn; rewrite Hq|]. apply prefetch_events_queue.
Qed.

Lemma take_visible_spec n e :
  let r := take_visible n e in
  if r.1 then prefetched_events (completions r.2) ≠ []
  else (length (completion_queue (completions e)) ≤ n)%nat → completion_queue (completions r.2) = [].
Proof.
  revert e. induction n as [|n IH]; intros e; cbn [take_visible].
  { cbn. intros H. apply length_zero_iff_nil. lia. }
  destruct (prefetch_next decode_events (completions e)).1 eqn:Hok; cbn.
  - by apply prefetch_next_ready.
  - specialize (IH (prefetch_completion e)). cbn zeta in IH. destruct (take_visible n _) as [[] e1]; [done|]. cbn in *.
    intros Hn. apply IH. rewrite prefetch_next_queue. destruct (completion_queue (completions e)); cbn in *; lia.
Qed.

(** What each way to go on says of the engine it leaves: the answer is whether something is
    prefetched, and a thread only blocks when there is nothing to poll and time is left. *)
Definition answer_ok (now : Q) (r : WaitAt * ProcessEngine) : Prop :=
  match r.1 with
  | NotWaiting => False
  | Answered b => b = has_prefetched_events r.2
  | InGet d => prefetched_events (completions r.2) = [] ∧ completion_queue (completions r.2) = []
               ∧ ∀ t, d = Some t → (now < t)%Q
  end.

Lemma has_prefetched_true e : prefetched_events (completions e) ≠ [] → has_prefetched_events e = true.
Proof. intros H. unfold has_prefetched_events. by rewrite bool_decide_eq_false_2. Qed.

Lemma wait_loop_answers deadline now e : answer_ok now (wait_loop deadline now e).
Proof.
  unfold wait_loop. pose proof (take_visible_spec (length (completion_queue (completions e))) e) as H.
  destruct (take_visible _ _) as [[] e1]; cbn in H.
  { unfold answer_ok. cbn. by rewrite has_prefetched_true. }
  destruct (has_prefetched_events e1) eqn:Hp; [done|]. specialize (H ltac:(lia)).
  assert (prefetched_events (completions e1) = []) as Hn.
  { unfold has_prefetched_events in Hp. by apply negb_false_iff, bool_decide_eq_true in Hp. }
  destruct deadline as [d|]; [|done]. destruct (d - now <=q 0) eqn:Hd; [done|].
  split; [done|]. split; [done|]. intros t [= <-].
  assert (¬ (d - now <= 0)%Q) as Hlt by (rewrite <-Qle_bool_iff, Hd; done). lra.
Qed.

Lemma wait_answers is_shutdown restart scan start now timeout e :
  answer_ok now (wait_for_completion is_shutdown restart scan start now timeout e).
Proof.
  unfold wait_for_completion. destruct is_shutdown; [done|]. destruct (has_prefetched_events _) eqn:Hp; [done|].
  apply wait_loop_answers.
Qed.

Lemma got_item_answers deadline now e : answer_ok now (got_item deadline now e).
Proof.
  unfold got_item. destruct (prefetch_next _ _).1 eqn:Hok; [|apply wait_loop_answers].
  unfold answer_ok. cbn. rewrite has_prefetched_true; [done|]. by apply prefetch_next_ready.
Qed.

(** *** The poll that follows *)

(** What is prefetched stays so, in front. *)
Definition keeps_ready e e' : Prop := prefetched_events (completions e) `prefix_of` prefetched_events (completions e').

#[local] Hint Extern 0 (_ `prefix_of` _) => reflexivity : core.
#[local] Hint Extern 0 (keeps_ready _ _) => (unfold keeps_ready; reflexivity) : core.

#[local] Instance keeps_ready_preorder : PreOrder keeps_ready.
Proof. split; [intros e; unfold keeps_ready; reflexivity|]. intros e1 e2 e3. unfold keeps_ready. by etransitivity. Qed.

Lemma fold_ready {A} (f : ProcessEngine → A → ProcessEngine) l e :
  (∀ e x, keeps_ready e (f e x)) → keeps_ready e (fold_left f l e).
Proof. intros Hf. revert e. induction l as [|x l IH]; intros e; cbn; [done|]. etransitivity; [apply Hf|apply IH]. Qed.

Lemma arrivals_ready (events : list CompletionEvent) (b : CompletionBuffer (Raw := list CompletionEvent)) :
  prefetched_events (fold_left (λ b ev, buffer_apply decode_events b (OpArrive [ev])) events b) = prefetched_events b.
Proof. revert b. induction events as [|ev l IH]; intros b; cbn; [done|]. by rewrite IH. Qed.

Lemma emit_ready events e : keeps_ready e (emit_completion_events events e).
Proof. unfold keeps_ready, emit_completion_events. cbn. by rewrite arrivals_ready. Qed.

Lemma apply_registry_ready e ev : keeps_ready e (engine_apply_registry_event e ev).
Proof.
  unfold keeps_ready. destruct ev; cbn; try done. destruct (handle_not_started_event _ _ _) as [[] t]; [|done].
  unfold hold. by destruct payloads.
Qed.

Lemma drain_registry_ready e : keeps_ready e (drain_registry_events e).
Proof. unfold drain_registry_events. etransitivity; [|apply fold_ready, apply_registry_ready]. done. Qed.

Lemma prefetch_events_prefix es acc (b : CompletionBuffer (Raw := list CompletionEvent)) :
  prefetched_events b `prefix_of` prefetched_events (prefetch_events es acc b).2.
Proof.
  revert acc b. induction es as [|ev es IH]; intros acc b; cbn [prefetch_events]; [done|]. unfold prefetch_event.
  destruct (is_duplicate_frame ev b) as (_ & _ & _ & _ & _ & Hp).
  destruct (is_duplicate_event ev b) as [[] b1]; cbn in *; rewrite <-Hp; etransitivity; [|apply IH| |apply IH]; [done|].
  by apply prefix_app_r.
Qed.

Lemma drain_items_prefix items k (b : CompletionBuffer (Raw := list CompletionEvent)) :
  prefetched_events b `prefix_of` prefetched_events (drain_items decode_events items k b).2.
Proof.
  revert k b. induction items as [|raw items IH]; intros k b; cbn [drain_items]; [done|]. unfold prefetch_queue_item.
  pose proof (prefetch_events_prefix (decode_events raw) false (b <| completion_queue := items |>)) as H.
  destruct (prefetch_events _ _ _) as [ok b1]. cbn in H. etransitivity; [exact H|apply IH].
Qed.

Lemma recover_ready restart e idx : keeps_ready e (recover_dead_worker cfg restart e idx).
Proof.
  unfold recover_dead_worker, collect_recoverable_worker_payloads.
  destruct (recover_dead_worker_items _ _ _) as [[ps failures] r].
  destruct (recover_pending_dispatches _ _) as [ds t]. destruct (filter_recoverable_pending _ _) as [ps' failures'].
  set (e1 := emit_completion_events failures' _).
  assert (keeps_ready e e1) as H1.
  { etransitivity; [|apply emit_ready]. unfold keeps_ready. cbn. rewrite arrivals_ready. done. }
  etransitivity; [exact H1|]. destruct (restart idx); try apply emit_ready.
  - unfold hold. by destruct (ps ++ ps').
  - etransitivity; [|apply emit_ready]. done.
Qed.

Lemma ensure_ready restart force now e : keeps_ready e (ensure_workers_alive cfg restart force now e).
Proof.
  unfold ensure_workers_alive, should_run_liveness_scan.
  assert (keeps_ready e (drain_visible_worker_events e)) as H1.
  { etransitivity; [apply drain_registry_ready|]. apply drain_items_prefix. }
  destruct force; [|destruct (_ <q _)]; [|done|];
    (etransitivity; [exact H1|]; etransitivity; [|apply fold_ready, recover_ready]; done).
Qed.

Lemma poll_ready restart now n e :
  has_prefetched_events e = true → 1 ≤ n → (process_poll_completed_events cfg restart now n e).1 ≠ [].
Proof.
  intros Hp Hn. unfold process_poll_completed_events. set (e1 := drain_registry_events _).
  assert (keeps_ready e e1) as [l Hl] by (etransitivity; [apply ensure_ready|apply drain_registry_ready]).
  unfold has_prefetched_events in Hp. apply negb_true_iff, bool_decide_eq_false in Hp. cbn [fst].
  unfold poll_prefetched at 1. cbn [fst]. rewrite Hl. destruct (prefetched_events (completions e)) as [|ev evs]; [done|].
  unfold py_take. destruct (Z.to_nat n) eqn:Hz; [lia|]. cbn. done.
Qed.

(** Only a poll takes prefetched events away. *)
Lemma step_ready e op e' :
  engine_step cfg worker_fn timeout_text packs route_digest e op e' → (∀ n, op ≠ OpPoll n) → keeps_ready e e'.
Proof.
  intros H Hop. destruct H as [e force restart now|e|e|e takes e' Hq|e takes x ok e' _ _ Hd|e takes id ws ok e' _ _ _ _ Hd
    |e restart now n|e i m pipe _ _|e i x rest ex _|e i _|e i p _]; try done.
  - apply ensure_ready.
  - apply drain_registry_ready.
  - unfold keeps_ready, prefetch_completion, with_buffer, prefetch_next. cbn.
    destruct (completion_queue (completions e)) as [|raw rest]; [done|]. unfold prefetch_queue_item.
    etransitivity; [|apply prefetch_events_prefix]. done.
  - unfold requeue_recovered_payload in Hq. destruct (recovering e) as [|[source [|p ps]] calls]; [done| |]; simplify_eq; [done|].
    destruct (requeue_payload _ _ _ _) as [t|t|]; simplify_eq; [done|]. destruct source; simplify_eq; (etransitivity; [|apply emit_ready]; done).
  - unfold dispatch_item in Hd. destruct (dispatch_payload _ _ _ _ _); by simplify_eq.
  - unfold dispatch_items in Hd. destruct ws as [|w ws]; [done|]. destruct (dispatch_route_batch _ _ _ _ _ _); by simplify_eq.
  - by destruct (Hop n).
  - by destruct (run_message _ _ _ _ _ _) as [es ex].
  - by destruct x.
Qed.

Lemma runs_ready e ops e' :
  engine_runs e ops e' → (∀ n, OpPoll n ∉ ops) → has_prefetched_events e = true → has_prefetched_events e' = true.
Proof.
  induction 1 as [e|e op e1 ops e' H1 _ IH]; intros Hops Hp; [done|]. apply IH.
  - intros n Hn. apply (Hops n), elem_of_cons. by right.
  - assert (keeps_ready e e1) as [l Hl].
    { apply (step_ready _ _ _ H1). intros n ->. apply (Hops n), elem_of_cons. by left. }
    unfold has_prefetched_events in *. rewrite Hl. by destruct (prefetched_events (completions e)).
Qed.

Lemma no_strays w ops w' :
  steps wait_step w ops w' → WCancel ∉ ops → stray_threads w = 0%nat → stray_threads w' = 0%nat ∧ WStrayTakes ∉ ops.
Proof.
  induction 1 as [w|w op w1 ops w' H1 _ IH]; intros Hops Hw; [split; [done|apply not_elem_of_nil]|].
  apply not_elem_of_cons in Hops as [Hop Hops]. rewrite not_elem_of_cons.
  destruct H1; cbn in IH; try congruence; destruct IH; done.
Qed.

End waiting.

(** ** A run

    A worker has started the item of [ProcessEngineSystem] when the parent begins to wait. *)

Abbreviation wait_demo_step := (wait_step worker_demo_config engine_demo_fn (λ _, ""%string) (λ _, true) (λ _, 0)).

Definition not_waiting (e : ProcessEngine) : Waiting := mkWaiting e NotWaiting 0 [].
Definition wait_demo_0 : Waiting := not_waiting engine_demo_0.
Definition wait_demo_1 : Waiting := not_waiting engine_demo_3.
Definition wait_demo_2 : Waiting :=
  resume (wait_for_completion worker_demo_config false (λ _, Restarted) 0 0 0 (Some 1%Q) (engine wait_demo_1)) wait_demo_1.
Definition wait_demo_put (w : Waiting) : Waiting := w <| engine ::= engine_demo_put |>.
Definition wait_demo_3 : Waiting := wait_demo_put (wait_demo_put wait_demo_2).
Definition wait_demo_4 : Waiting := resume (got_item (Some 1%Q) 0 (engine wait_demo_3)) wait_demo_3.

Lemma wait_demo_engine w op e : engine_demo_step (engine w) op e → wait_demo_step w (WEngine op) (w <| engine := e |>).
Proof. apply wait_engine. Qed.

Lemma wait_demo_puts w x rest ex :
  workers (engine w) = [mkWorker true (x :: rest) ex] → wait_demo_step w (WEngine (OpPut 0)) (wait_demo_put w).
Proof. intros Hw. apply (wait_demo_engine w (OpPut 0) (engine_demo_put (engine w))). by eapply engine_demo_put_step. Qed.

Abbreviation wait_demo_start := [WEngine (OpSubmit engine_demo_item); WEngine (OpReceive 0); WEngine (OpPut 0); WEngine (OpPut 0)].

Lemma wait_demo_started : steps wait_demo_step wait_demo_0 wait_demo_start wait_demo_1.
Proof.
  apply (steps_cons _ _ _ (not_waiting engine_demo_1)).
  { apply (wait_demo_engine wait_demo_0 _ engine_demo_1). apply (step_submit _ _ _ _ _ _ true _ true); [|done|by vm_compute].
    split; [apply NoDup_singleton|]. intros w w' _ Hw. by apply elem_of_nil in Hw. }
  apply (steps_cons _ _ _ (not_waiting engine_demo_2)).
  { apply (wait_demo_engine (not_waiting engine_demo_1) (OpReceive 0) engine_demo_2).
    apply (step_receive _ _ _ _ _ engine_demo_1 0 (mkMessage None [engine_demo_item]) []); by vm_compute. }
  apply (steps_cons _ _ _ (wait_demo_put (not_waiting engine_demo_2)));
    [eapply wait_demo_puts; by vm_compute|].
  apply (steps_cons _ _ _ wait_demo_1); [eapply wait_demo_puts; by vm_compute|]. constructor.
Qed.

Lemma wait_demo_blocks : wait_demo_step wait_demo_1 (WCall (Some 1%Q)) wait_demo_2 ∧ wait_at wait_demo_2 = InGet (Some 1%Q).
Proof. split; [by apply wait_call|by vm_compute]. Qed.

Lemma wait_demo_answers : wait_demo_step wait_demo_3 WGot wait_demo_4 ∧ wait_at wait_demo_4 = Answered true.
Proof. split; [by apply wait_got; vm_compute|by vm_compute]. Qed.

Lemma wait_demo_run :
  steps wait_demo_step wait_demo_0 (wait_demo_start ++ [WCall (Some 1%Q); WEngine (OpPut 0); WEngine (OpPut 0)]) wait_demo_3.
Proof.
  eapply steps_app; [exact wait_demo_started|].
  apply (steps_cons _ _ _ wait_demo_2); [apply wait_demo_blocks|].
  apply (steps_cons _ _ _ (wait_demo_put wait_demo_2)); [eapply wait_demo_puts; by vm_compute|].
  apply (steps_cons _ _ _ wait_demo_3); [eapply wait_demo_puts; by vm_compute|]. constructor.
Qed.

Lemma wait_demo_uncancelled : WCancel ∉ wait_demo_start ++ [WCall (Some 1%Q); WEngine (OpPut 0); WEngine (OpPut 0)].
Proof. cbn. intros H. repeat (apply elem_of_cons in H as [H|H]; [discriminate|]). by apply elem_of_nil in H. Qed.


(** ** A cancelled wait loses a completion

    The monitor is cancelled while its thread blocks; the worker completes the item before the time of
    the thread is up.  The thread takes the completion, and nobody gets it: the item is gone from
    every table, the in-flight count stays up, and a drain that waits for it runs into its time-out. *)
Definition wait_lost_1 : Waiting := wait_demo_2 <| wait_at := NotWaiting |> <| stray_threads ::= S |>.
Definition wait_lost_2 : Waiting := wait_demo_put (wait_demo_put wait_lost_1).
Definition wait_lost_3 : Waiting :=
  wait_lost_2 <| stray_threads := 0%nat |>
    <| taken_by_strays ::= λ l, l ++ completion_queue (completions (engine wait_lost_2)) |>
    <| engine ::= λ e, e <| completions ::= λ b, b <| completion_queue := [] |> |> |>.
Definition wait_lost_4 : Waiting := wait_demo_put wait_lost_3.
Definition wait_lost_5 : Waiting := wait_lost_4 <| engine ::= drain_registry_events |>.

Lemma wait_lost_run :
  steps wait_demo_step wait_demo_0
    (wait_demo_start ++ [WCall (Some 1%Q); WCancel; WEngine (OpPut 0); WEngine (OpPut 0); WStrayTakes; WEngine (OpPut 0); WEngine OpDrain])
    wait_lost_5.
Proof.
  eapply steps_app; [exact wait_demo_started|].
  apply (steps_cons _ _ _ wait_demo_2); [apply wait_demo_blocks|].
  apply (steps_cons _ _ _ wait_lost_1); [eapply wait_cancel, wait_demo_blocks|].
  apply (steps_cons _ _ _ (wait_demo_put wait_lost_1)); [eapply wait_demo_puts; by vm_compute|].
  apply (steps_cons _ _ _ wait_lost_2); [eapply wait_demo_puts; by vm_compute|].
  apply (steps_cons _ _ _ wait_lost_3); [eapply wait_stray_takes; by vm_compute|].
  apply (steps_cons _ _ _ wait_lost_4); [eapply wait_demo_puts; by vm_compute|].
  apply (steps_cons _ _ _ wait_lost_5); [apply (wait_demo_engine wait_lost_4 OpDrain (drain_registry_events (engine wait_lost_4))), step_drain|]. constructor.
Qed.

Lemma cancelled_wait_loses_completion :
  let e := engine wait_lost_5 in
  submitted e = [engine_demo_item] ∧ in_flight_count e = 1
  ∧ (identity_of_completion <$> concat (taken_by_strays wait_lost_5)) = [work_identity engine_demo_item]
  ∧ completion_queue (completions e) = [] ∧ prefetched_events (completions e) = [] ∧ delivered_events (completions e) = []
  ∧ pending_dispatch (transport e) = [] ∧ in_flight_registry e = [] ∧ recovering e = []
  ∧ registry_event_queue e = [] ∧ workers e = [mkWorker true [] false].
Proof. by vm_compute. Qed.
