(* ===== verification/ProcessDiagnostics.v ===== *)
(** * Runtime metrics of the process engine ([process_engine.py], [process_batching.py])

    [get_runtime_metrics] reports what the batch accumulator counted, what the parent recorded about
    its messages and their timing, and how the work is spread over the workers.  The recorders run
    wherever the engine sends a message, decodes a completion or applies a registry event. *)

From stdpp Require Import sorting.
From S2P Require Import Prelude Dto MetricsDto ProcessTransport ProcessRegistry ProcessBatching ProcessCompletionBuffer ProcessEngine.

(** ** Timing *)

(** The three attributes of one kind of sample *)
Record TimingSum := mkTiming { samples : Z; sum_seconds : Q; last_seconds : Q }.

(** [_record_runtime_timing]; [None] is a duration that is not a number *)
Definition record_runtime_timing (duration_seconds : option Q) (t : TimingSum) : TimingSum :=
  match duration_seconds with
  | None => t
  | Some d => let duration := Qmax0 d in mkTiming (samples t + 1) (sum_seconds t + duration)%Q duration
  end.

Definition timing_average (t : TimingSum) : Q :=
  if 0 <? samples t then (sum_seconds t / inject_Z (samples t))%Q else 0%Q.

Record RuntimeTiming := mkRuntimeTiming {
  main_to_worker_ipc : TimingSum;
  worker_exec : TimingSum;
  worker_to_main_ipc : TimingSum;
  input_ipc_count : Z;
  input_ipc_item_count : Z;
  completion_ipc_count : Z;
  completion_ipc_item_count : Z;
  route_batch_count : Z;
  route_batch_item_count : Z;
  route_batch_size_max : Z;
  completion_item_payload_count : Z;
  completion_batch_payload_count : Z;
}.

#[export] Instance RuntimeTiming_settable : Settable RuntimeTiming :=
  λ t, mkRuntimeTiming (main_to_worker_ipc t) (worker_exec t) (worker_to_main_ipc t) (input_ipc_count t)
         (input_ipc_item_count t) (completion_ipc_count t) (completion_ipc_item_count t) (route_batch_count t)
         (route_batch_item_count t) (route_batch_size_max t) (completion_item_payload_count t)
         (completion_batch_payload_count t).

(** [_initialize_runtime_timing_state] *)
Definition initial_runtime_timing : RuntimeTiming :=
  let zero := mkTiming 0 0 0 in mkRuntimeTiming zero zero zero 0 0 0 0 0 0 0 0 0.

Definition record_main_to_worker_ipc (d : option Q) (t : RuntimeTiming) : RuntimeTiming :=
  t <| main_to_worker_ipc ::= record_runtime_timing d |>.
Definition record_worker_exec (d : option Q) (t : RuntimeTiming) : RuntimeTiming :=
  t <| worker_exec ::= record_runtime_timing d |>.
Definition record_worker_to_main_ipc (d : option Q) (t : RuntimeTiming) : RuntimeTiming :=
  t <| worker_to_main_ipc ::= record_runtime_timing d |>.

Definition record_input_ipc (item_count : Z) (route_batch : bool) (t : RuntimeTiming) : RuntimeTiming :=
  if item_count <=? 0 then t
  else
    let t1 := t <| input_ipc_count ::= λ n, n + 1 |> <| input_ipc_item_count ::= λ n, n + item_count |> in
    if route_batch then
      t1 <| route_batch_count ::= λ n, n + 1 |> <| route_batch_item_count ::= λ n, n + item_count |>
         <| route_batch_size_max ::= λ n, Z.max n item_count |>
    else t1.

Definition record_completion_ipc (item_count : Z) (batch_payload : bool) (t : RuntimeTiming) : RuntimeTiming :=
  if item_count <=? 0 then t
  else
    let t1 := t <| completion_ipc_count ::= λ n, n + 1 |> <| completion_ipc_item_count ::= λ n, n + item_count |> in
    if batch_payload then t1 <| completion_batch_payload_count ::= λ n, n + 1 |>
    else t1 <| completion_item_payload_count ::= λ n, n + 1 |>.

(** ** The accumulator's snapshot *)

(** The fields that [ProcessBatchMetrics] leaves to their defaults are those of [initial_runtime_timing]. *)
Definition base_batch_metrics (size timer close_count total last_size : Z) (wait : Q) (buffered : Z) (age : Q) (demand : Z)
    : ProcessBatchMetrics :=
  mkProcessBatchMetrics size timer close_count total last_size wait buffered age demand 0 0 0 0 0 0 "worker_pipes" "bounded"
    false false false None None 0 0 None None 0 0.

(** [BatchAccumulator.snapshot]; [now] is [time.monotonic()] *)
Definition snapshot (now : Q) (a : BatchAccumulator) : ProcessBatchMetrics :=
  base_batch_metrics (size_flush_count a) (timer_flush_count a) (close_flush_count a) (total_flushed_items a)
    (last_flush_size a) (last_flush_wait_seconds a) (zlen (buffer a))
    (match first_item_time a with Some t => Qmax0 (now - t) | None => 0%Q end) (demand_flush_count a).

(** [NoOpBatchAccumulator.snapshot] *)
Definition noop_snapshot : ProcessBatchMetrics := base_batch_metrics 0 0 0 0 0 0 0 0 0.

(** ** The workers *)

(** [pending_by_worker]: the loads of the transport, cut and padded to the worker count *)
Definition pending_load (pending_loads : list Z) (worker_idx : Z) : Z := default 0 (pending_loads !! Z.to_nat worker_idx).

(** [executing_by_worker] *)
Definition executing_load (r : InFlightRegistry) (worker_idx : Z) : Z :=
  zlen (filter (λ kp : InFlightRegistryKey * Payload, kp.1.1.1.1 = worker_idx) r).

Definition worker_load (pending_loads : list Z) (r : InFlightRegistry) (worker_idx : Z) : Z :=
  executing_load r worker_idx + pending_load pending_loads worker_idx.

Definition snapshot_worker_diagnostics (worker_count : Z) (pending_loads : list Z) (r : InFlightRegistry)
    : EngineWorkerDiagnostics :=
  let worker_range := py_range 0 worker_count in
  mkEngineWorkers worker_count
    (zlen (filter (λ i, 0 < executing_load r i) worker_range))
    (Some (zlen (filter (λ i, 0 < pending_load pending_loads i ∧ executing_load r i = 0) worker_range)))
    (py_take 10 (reverse (merge_sort Z.le (filter (λ n, 0 < n) (worker_load pending_loads r <$> worker_range))))).

(** ** [get_runtime_metrics] *)

Definition ratio (items batches : Z) : option Q :=
  if 0 <? batches then Some (inject_Z items / inject_Z batches)%Q else None.

(** The state after [_drain_registry_events], with what the recorders recorded until then *)
Definition get_runtime_metrics (base_metrics : ProcessBatchMetrics) (worker_count : Z) (t : RuntimeTiming) (e : ProcessEngine)
    : EngineRuntimeDiagnostics :=
  mkEngineRuntime
    (Some (mkProcessBatchMetrics (pbm_size_flush_count base_metrics) (pbm_timer_flush_count base_metrics)
       (pbm_close_flush_count base_metrics) (pbm_total_flushed_items base_metrics) (pbm_last_flush_size base_metrics)
       (pbm_last_flush_wait_seconds base_metrics) (pbm_buffered_items base_metrics) (pbm_buffered_age_seconds base_metrics)
       (pbm_demand_flush_count base_metrics)
       (last_seconds (main_to_worker_ipc t)) (timing_average (main_to_worker_ipc t))
       (last_seconds (worker_exec t)) (timing_average (worker_exec t))
       (last_seconds (worker_to_main_ipc t)) (timing_average (worker_to_main_ipc t))
       "worker_pipes" "bounded" false false false
       (ratio (input_ipc_item_count t) (input_ipc_count t)) (ratio (completion_ipc_item_count t) (completion_ipc_count t))
       (route_batch_count t) (route_batch_item_count t) (ratio (route_batch_item_count t) (route_batch_count t))
       (if 0 <? route_batch_count t then Some (route_batch_size_max t) else None)
       (completion_item_payload_count t) (completion_batch_payload_count t)))
    (Some (snapshot_worker_diagnostics worker_count (snapshot_pending_worker_loads (transport e)) (in_flight_registry e))).

(** ** What the numbers satisfy *)

Inductive TimingOp :=
  | RecInput (item_count : Z) (route_batch : bool) | RecCompletion (item_count : Z) (batch_payload : bool)
  | RecMainToWorker (d : option Q) | RecExec (d : option Q) | RecWorkerToMain (d : option Q).

Definition timing_apply (t : RuntimeTiming) (op : TimingOp) : RuntimeTiming :=
  match op with
  | RecInput n b => record_input_ipc n b t
  | RecCompletion n b => record_completion_ipc n b t
  | RecMainToWorker d => record_main_to_worker_ipc d t
  | RecExec d => record_worker_exec d t
  | RecWorkerToMain d => record_worker_to_main_ipc d t
  end.

Definition timing_run (ops : list TimingOp) : RuntimeTiming := fold_left timing_apply ops initial_runtime_timing.

Record sum_ok (t : TimingSum) : Prop := mkSumOk {
  so_samples : 0 ≤ samples t;
  so_last : (0 <= last_seconds t)%Q;
  so_sum : (last_seconds t <= sum_seconds t)%Q;
}.

Record timing_inv (t : RuntimeTiming) : Prop := mkTimingInv {
  ti_main : sum_ok (main_to_worker_ipc t);
  ti_exec : sum_ok (worker_exec t);
  ti_back : sum_ok (worker_to_main_ipc t);
  ti_input : input_ipc_count t ≤ input_ipc_item_count t;
  ti_completion : completion_ipc_count t ≤ completion_ipc_item_count t;
  ti_payloads : completion_ipc_count t = completion_item_payload_count t + completion_batch_payload_count t;
  ti_batches : 0 ≤ route_batch_count t ≤ input_ipc_count t;
  ti_max : 0 ≤ route_batch_size_max t ≤ route_batch_item_count t;
  ti_items : route_batch_count t ≤ route_batch_item_count t ≤ route_batch_size_max t * route_batch_count t;
  ti_items_in : route_batch_item_count t ≤ input_ipc_item_count t;
}.

Lemma record_sum_ok d t : sum_ok t → sum_ok (record_runtime_timing d t).
Proof.
  intros [H1 H2 H3]. destruct d as [d|]; [|by constructor]. pose proof (Qmax0_nonneg d).
  constructor; cbn; [lia|done|]. lra.
Qed.

Lemma timing_apply_inv t op : timing_inv t → timing_inv (timing_apply t op).
Proof.
  intros []. destruct op as [n b|n b|d|d|d]; cbn [timing_apply]; try by (constructor; cbn; try apply record_sum_ok; done).
  - unfold record_input_ipc. destruct (Z.leb_spec n 0); [by constructor|]. destruct b; constructor; cbn; try done; try lia.
    nia.
  - unfold record_completion_ipc. destruct (Z.leb_spec n 0); [by constructor|]. destruct b; constructor; cbn; done || lia.
Qed.

Lemma timing_run_inv ops : timing_inv (timing_run ops).
Proof.
  apply (fold_left_inv timing_inv); [intros; by apply timing_apply_inv|]. constructor; done || by constructor.
Qed.

Lemma ratio_positive items batches q : ratio items batches = Some q → 0 < batches ∧ q = (inject_Z items / inject_Z batches)%Q.
Proof. unfold ratio. destruct (Z.ltb_spec 0 batches) as [Hb|]; [|done]. by intros [= <-]. Qed.

Lemma ratio_at_least items batches lo q : ratio items batches = Some q → lo * batches ≤ items → (inject_Z lo <= q)%Q.
Proof.
  intros [Hb ->]%ratio_positive H. apply Qle_shift_div_l; [by change 0%Q with (inject_Z 0); rewrite <-Zlt_Qlt|].
  by rewrite <-inject_Z_mult, <-Zle_Qle.
Qed.

Lemma ratio_at_most items batches hi q : ratio items batches = Some q → items ≤ hi * batches → (q <= inject_Z hi)%Q.
Proof.
  intros [Hb ->]%ratio_positive H. apply Qle_shift_div_r; [by change 0%Q with (inject_Z 0); rewrite <-Zlt_Qlt|].
  by rewrite <-inject_Z_mult, <-Zle_Qle.
Qed.

(** *** Workers *)

Lemma zlen_filter_le {A} (P : A → Prop) `{∀ x, Decision (P x)} (l : list A) : zlen (filter P l) ≤ zlen l.
Proof. unfold zlen. pose proof (length_filter P l). lia. Qed.

Lemma zlen_filter_disjoint {A} (P Q : A → Prop) `{∀ x, Decision (P x), ∀ x, Decision (Q x)} (l : list A) :
  (∀ x, P x → ¬ Q x) → zlen (filter P l) + zlen (filter Q l) ≤ zlen l.
Proof.
  intros HPQ. induction l as [|x l IH]; [done|]. rewrite !filter_cons. specialize (HPQ x).
  repeat case_decide; rewrite ?zlen_cons; try lia. naive_solver.
Qed.

(** The load of all workers *)
Definition total_load (loads : list Z) : Z := foldr Z.add 0 loads.

Lemma total_load_positive loads :
  Forall (λ n, 0 ≤ n) loads → total_load (filter (λ n, 0 < n) loads) = total_load loads.
Proof.
  induction 1 as [|n l Hn _ IH]; [done|]. rewrite filter_cons. unfold total_load in *. cbn. case_decide; cbn; lia.
Qed.

Lemma total_load_perm l k : l ≡ₚ k → total_load l = total_load k.
Proof. induction 1; unfold total_load in *; cbn in *; lia. Qed.

Lemma loads_of_range (r : InFlightRegistry) (worker_range : list Z) :
  NoDup worker_range → (∀ k p, (k, p) ∈ r → k.1.1.1 ∈ worker_range) → total_load (executing_load r <$> worker_range) = zlen r.
Proof.
  intros Hnd Hr. induction r as [|[k p] r IH].
  { clear Hnd Hr. unfold total_load. induction worker_range as [|i l IH]; [done|].
    cbn [fmap list_fmap foldr] in *. by rewrite IH. }
  rewrite zlen_cons, <-IH by (intros k' p' Hk; apply (Hr k' p'); by right).
  assert (k.1.1.1 ∈ worker_range) as Hin by (apply (Hr k p); left). clear IH Hr.
  induction Hnd as [|i l Hi Hnd IH]; [by apply elem_of_nil in Hin|]. unfold total_load in *. cbn [fmap list_fmap foldr].
  unfold executing_load at 1 3. rewrite filter_cons. apply elem_of_cons in Hin as [<-|Hin].
  - rewrite decide_True by done. rewrite zlen_cons.
    assert (executing_load ((k, p) :: r) <$> l = executing_load r <$> l) as ->; [|lia].
    apply list_fmap_ext. intros n j Hj. unfold executing_load. rewrite filter_cons, decide_False; [done|].
    cbn. intros Heq. apply Hi. subst j. by eapply list_elem_of_lookup_2.
  - rewrite IH by done. rewrite decide_False; [lia|]. cbn. by intros <-.
Qed.

Lemma pending_loads_of_range loads : pending_load loads <$> py_range 0 (zlen loads) = loads.
Proof.
  apply list_eq. intros i. rewrite list_lookup_fmap. unfold py_range, zlen. rewrite Z.sub_0_r.
  destruct (decide (i < length loads)%nat) as [Hi|Hi].
  - rewrite lookup_seqZ_lt, Z.add_0_l by lia. cbn [fmap option_fmap option_map]. unfold pending_load. rewrite Nat2Z.id.
    destruct (loads !! i) eqn:Hl; [done|]. apply lookup_ge_None in Hl. lia.
  - rewrite lookup_seqZ_ge by lia. symmetry. apply lookup_ge_None. lia.
Qed.

Lemma total_load_add (f g : Z → Z) l : total_load ((λ i, f i + g i) <$> l) = total_load (f <$> l) + total_load (g <$> l).
Proof. unfold total_load. induction l as [|i l IH]; cbn in *; lia. Qed.

Lemma total_load_nonneg loads : Forall (λ k, 0 ≤ k) loads → 0 ≤ total_load loads.
Proof. unfold total_load. induction 1; cbn in *; lia. Qed.

Lemma total_load_take n loads : Forall (λ k, 0 ≤ k) loads → total_load (take n loads) ≤ total_load loads.
Proof.
  intros H. revert n. induction H as [|k l Hk Hl IH]; intros [|n]; try done.
  - apply total_load_nonneg. by constructor.
  - specialize (IH n). unfold total_load in *. cbn. lia.
Qed.

(** The worker diagnostics account for the work: every worker counts once at most, as executing or as
    admitted, and the loads shown are, if all are, what is registered as running and what is pending. *)
Theorem worker_diagnostics_account loads r :
  Forall (λ n, 0 ≤ n) loads → (∀ k p, (k, p) ∈ r → 0 ≤ k.1.1.1 < zlen loads) →
  let d := snapshot_worker_diagnostics (zlen loads) loads r in
  (∃ admitted, ew_admitted d = Some admitted ∧ 0 ≤ admitted ∧ 0 ≤ ew_executing d ∧ ew_executing d + admitted ≤ ew_total d)
  ∧ zlen (ew_top_k_loads d) ≤ 10 ∧ Forall (λ n, 0 < n) (ew_top_k_loads d)
  ∧ total_load (ew_top_k_loads d) ≤ zlen r + total_load loads
  ∧ (zlen loads ≤ 10 → total_load (ew_top_k_loads d) = zlen r + total_load loads).
Proof.
  intros Hl Hr d. set (rng := py_range 0 (zlen loads)).
  set (all := worker_load loads r <$> rng). set (shown := reverse (merge_sort Z.le (filter (λ n, 0 < n) all))).
  assert (zlen rng = zlen loads) as Hrng.
  { unfold rng, py_range, zlen. rewrite length_seqZ. lia. }
  assert (Forall (λ n, 0 ≤ n) all) as Hall.
  { apply Forall_fmap, Forall_forall. intros i _. cbn. unfold worker_load, pending_load.
    assert (0 ≤ executing_load r i) by apply zlen_nonneg. destruct (loads !! Z.to_nat i) eqn:Hi; cbn; [|lia].
    eapply Forall_lookup_1 in Hl; [|exact Hi]. cbn in Hl. lia. }
  assert (shown ≡ₚ filter (λ n, 0 < n) all) as Hperm.
  { unfold shown. rewrite reverse_Permutation. apply merge_sort_Permutation. }
  assert (total_load shown = zlen r + total_load loads) as Htotal.
  { rewrite (total_load_perm _ _ Hperm), total_load_positive by done. unfold all, worker_load.
    rewrite total_load_add, loads_of_range; [| |intros k p Hk]; [|apply NoDup_seqZ|].
    - unfold rng. by rewrite pending_loads_of_range.
    - apply elem_of_seqZ. specialize (Hr k p Hk). lia. }
  assert (Forall (λ n, 0 < n) shown) as Hpos.
  { rewrite Hperm. apply Forall_forall. intros n Hn. by apply list_elem_of_filter in Hn as [? _]. }
  split; [|split; [|split; [|split]]].
  - eexists. split; [done|]. split; [apply zlen_nonneg|]. split; [apply zlen_nonneg|]. cbn.
    etransitivity; [apply zlen_filter_disjoint|by apply Z.eq_le_incl]. intros i H1 [_ H2]. lia.
  - cbn. unfold py_take, zlen. rewrite length_take. lia.
  - cbn. by apply Forall_take.
  - cbn. fold rng all shown. rewrite <-Htotal. apply total_load_take. eapply Forall_impl; [exact Hpos|]. cbn. lia.
  - intros Hn. cbn. fold rng all shown. unfold py_take. rewrite take_ge; [done|].
    rewrite Hperm. pose proof (zlen_filter_le (λ n, 0 < n) all) as H. unfold all in H at 2. unfold zlen in *.
    rewrite length_fmap in H. lia.
Qed.

(** Whatever was recorded, the averages reported are not negative, a message holds one item at least,
    the largest route batch is not smaller than the average, and it was counted. *)
Theorem runtime_metrics_consistent ops base_metrics n e m :
  er_process (get_runtime_metrics base_metrics n (timing_run ops) e) = Some m →
  (0 <= pbm_avg_main_to_worker_ipc_seconds m)%Q ∧ (0 <= pbm_avg_worker_exec_seconds m)%Q
  ∧ (0 <= pbm_avg_worker_to_main_ipc_seconds m)%Q
  ∧ (∀ q, pbm_items_per_input_ipc m = Some q → (1 <= q)%Q) ∧ (∀ q, pbm_items_per_completion_ipc m = Some q → (1 <= q)%Q)
  ∧ (∀ avg, pbm_route_batch_size_avg m = Some avg → ∃ largest, pbm_route_batch_size_max m = Some largest
       ∧ (1 <= avg <= inject_Z largest)%Q ∧ largest ≤ pbm_route_batch_item_count m).
Proof.
  intros [= <-]. cbn. destruct (timing_run_inv ops) as [H1 H2 H3 H4 H5 H6 H7 H8 H9 H10]. set (t := timing_run ops) in *.
  assert (∀ s, sum_ok s → (0 <= timing_average s)%Q) as Havg.
  { intros s [Hn Hlast Hsum]. unfold timing_average. destruct (Z.ltb_spec 0 (samples s)); [|done].
    apply Qle_shift_div_l; [change 0%Q with (inject_Z 0); by rewrite <-Zlt_Qlt|]. lra. }
  split; [by apply Havg|]. split; [by apply Havg|]. split; [by apply Havg|]. split; [|split].
  - intros q Hq. apply (ratio_at_least _ _ 1) in Hq; [done|lia].
  - intros q Hq. apply (ratio_at_least _ _ 1) in Hq; [done|lia].
  - intros avg Ha. destruct (ratio_positive _ _ _ Ha) as [Hpos _]. rewrite (proj2 (Z.ltb_lt _ _) Hpos).
    eexists. split; [done|]. split; [|lia].
    split; [apply (ratio_at_least _ _ 1) in Ha; [done|lia]|apply (ratio_at_most _ _ (route_batch_size_max t)) in Ha; [done|lia]].
Qed.
