(* ===== verification/ProcessShutdown.v ===== *)
(** * Shutdown of the process engine
    ([execution_plane/process_shutdown_support.py], [shutdown] and what comes after it in
    [process_engine.py])

    The parent marks itself as shut down, drains the events of its workers, signals the shutdown to
    them, drains both queues for a while, joins the workers, drains again until the queues stay
    empty, and settles its books.  What the workers do between two passes of a drain is an argument
    of the pass, as is the clock. *)

From S2P Require Import Prelude Dto ExecutionEngine ProcessTransport ProcessRegistry ProcessWorker ProcessCompletionBuffer ProcessEngine.

Definition SHUTDOWN_DRAIN_SLEEP_SECONDS : Q := 1 # 100.
Definition POST_JOIN_SHUTDOWN_DRAIN_SECONDS : Q := 5 # 100.
Definition POST_JOIN_SHUTDOWN_STABLE_EMPTY_PASSES : Z := 2.

(** ** Joining a worker *)

Inductive ProcessCall := Join | Terminate | Kill.

(** [join_worker_with_escalation]: the calls, given after which of them the process is gone *)
Definition join_worker_with_escalation (gone_after_join gone_after_terminate has_kill : bool) : list ProcessCall :=
  if gone_after_join then [Join]
  else if gone_after_terminate then [Join; Terminate; Join]
  else [Join; Terminate; Join] ++ if has_kill then [Kill; Join] else [].

(** What one pass is told: the clock, and what the workers do before the next pass *)
Abbreviation Pass := (Q * (ProcessEngine → ProcessEngine))%type.

Section process_shutdown.
Context (cfg : ExecutionConfig) (route_digest : RouteIdentity → Z) (takes : bool).
Implicit Types (e : ProcessEngine).

(** ** Draining registry events once the engine is marked as shut down

    A skipped batch tail is requeued within the drain; nobody looks after the workers meanwhile, so
    a requeue that finds no queue slot before the shutdown is signalled waits for ever. *)

(** [None]: the requeue waits *)
Fixpoint settle_requeues (fuel : nat) e : option ProcessEngine :=
  match recovering e, fuel with
  | [], _ => Some e
  | _, O => Some e
  | _, S fuel' =>
      match requeue_recovered_payload cfg route_digest takes e with
      | None => None
      | Some e' => settle_requeues fuel' e'
      end
  end.

Definition requeue_work e : nat := sum_list_with (λ c : RequeueCall, S (length c.2)) (recovering e).

Fixpoint apply_registry_events (events : list RegistryEvent) e : option ProcessEngine :=
  match events with
  | [] => Some e
  | event :: rest =>
      let e1 := engine_apply_registry_event e event in
      match settle_requeues (requeue_work e1) e1 with
      | None => None
      | Some e2 => apply_registry_events rest e2
      end
  end.

(** [_drain_registry_event_queue]: what was drained *)
Definition drain_registry_event_queue e : option (Z * ProcessEngine) :=
  let events := registry_event_queue e in
  match apply_registry_events events (e <| registry_event_queue := [] |>) with
  | None => None
  | Some e' => Some (zlen events, e')
  end.

(** [_drain_shutdown_ipc_once] *)
Definition drain_shutdown_ipc_once e : option (Z * Z * ProcessEngine) :=
  match drain_registry_event_queue e with
  | None => None
  | Some (drained_registry, e1) =>
      Some (drained_registry, (drain_queue decode_events (completions e1)).1,
            with_buffer (λ b, (drain_queue decode_events b).2) e1)
  end.

(** ** The drains *)

(** How a drain stands: its end, a requeue that waits, or no more answers for further passes *)
Inductive Stage :=
  | Ended (registry_drained completion_drained passes : Z) (e : ProcessEngine)
  | Blocked
  | Unfinished.

(** The loop of [_drain_before_join] *)
Fixpoint drain_before_join_loop (deadline : Q) (registry_drained completion_drained passes : Z) (answers : list Pass) e
    : Stage :=
  match answers with
  | [] => Unfinished
  | (now, workers_run) :: rest =>
      if negb (now <q deadline) then Ended registry_drained completion_drained passes e
      else
        match drain_shutdown_ipc_once e with
        | None => Blocked
        | Some (r, c, e1) =>
            if (r =? 0) && (c =? 0) && bool_decide (in_flight_registry e1 = [])
            then Ended (registry_drained + r) (completion_drained + c) (passes + 1) e1
            else drain_before_join_loop deadline (registry_drained + r) (completion_drained + c) (passes + 1) rest
                   (workers_run e1)
        end
  end.

Definition drain_before_join (start : Q) (answers : list Pass) e : Stage :=
  drain_before_join_loop (start + 1)%Q 0 0 0 answers e.

(** The loop of [drain_until_stable_empty] *)
Fixpoint stable_empty_loop (hard_deadline : Q) (stable_empty_passes : Z)
    (registry_drained completion_drained passes empty_passes : Z) (answers : list Pass) e : Stage :=
  match answers with
  | [] => Unfinished
  | (now, workers_run) :: rest =>
      match drain_shutdown_ipc_once e with
      | None => Blocked
      | Some (r, c, e1) =>
          let empty' := if (r =? 0) && (c =? 0) then empty_passes + 1 else 0 in
          if (stable_empty_passes <=? empty') || negb (now <q hard_deadline)
          then Ended (registry_drained + r) (completion_drained + c) (passes + 1) e1
          else stable_empty_loop hard_deadline stable_empty_passes (registry_drained + r) (completion_drained + c)
                 (passes + 1) empty' rest (workers_run e1)
      end
  end.

(** The time limits of [drain_until_stable_empty] *)
Definition hard_deadline_of (start max_seconds : Q) (stable_empty_passes : Z) : Q :=
  (start + Qmax0 max_seconds + SHUTDOWN_DRAIN_SLEEP_SECONDS * inject_Z (Z.max 1 (stable_empty_passes + 2)))%Q.

Definition drain_until_stable_empty (start max_seconds : Q) (stable_empty_passes : Z) (answers : list Pass) e : Stage :=
  stable_empty_loop (hard_deadline_of start max_seconds stable_empty_passes) stable_empty_passes 0 0 0 0 answers e.

(** ** Shutdown *)

(** From [in_flight_registry.clear()] on *)
Definition settle_books e : ProcessEngine :=
  e <| in_flight_registry := [] |> <| transport ::= clear_pending_dispatches |>
    <| in_flight_count := zlen (prefetched_events (completions e)) |>.

(** [ProcessShutdownSupport.shutdown]; [workers_end] is what the workers do while they are joined *)
Definition process_shutdown (start1 start2 : Q) (before_join after_join : list Pass)
    (workers_end : ProcessEngine → ProcessEngine) e : Stage :=
  match drain_registry_event_queue e with
  | None => Blocked
  | Some (_, e1) =>
      match drain_before_join start1 before_join (e1 <| transport ::= signal_shutdown |>) with
      | Ended _ _ _ e2 =>
          match drain_until_stable_empty start2 POST_JOIN_SHUTDOWN_DRAIN_SECONDS POST_JOIN_SHUTDOWN_STABLE_EMPTY_PASSES
                  after_join (workers_end e2) with
          | Ended r c n e3 => Ended r c n (settle_books e3)
          | other => other
          end
      | other => other
      end
  end.

(** [poll_completed_events] of an engine that was shut down *)
Definition poll_after_shutdown (batch_limit : Z) e : list CompletionEvent * ProcessEngine :=
  ((poll_prefetched batch_limit (completions e)).1, with_buffer (λ b, (poll_prefetched batch_limit b).2) e).

(** ** Requeues end *)

(** The buffer only received items. *)
Definition received (b b' : CompletionBuffer (Raw := list CompletionEvent)) : Prop :=
  ∃ raws, b' = fold_left (buffer_apply decode_events) (OpArrive <$> raws) b.

#[local] Instance received_preorder : PreOrder received.
Proof.
  split; [by exists []|]. intros b1 b2 b3 [l1 ->] [l2 ->]. exists (l1 ++ l2). by rewrite fmap_app, fold_left_app.
Qed.

Lemma received_inv b b' : received b b' → buffer_inv decode_events b → buffer_inv decode_events b'.
Proof. intros [raws ->] Hb. apply fold_left_inv; [intros; by apply buffer_apply_inv|done]. Qed.

Lemma emit_received events e b :
  completions e = b → received b (completions (emit_completion_events events e)).
Proof.
  intros <-. exists ((λ ev, [ev]) <$> events). cbn. rewrite <-list_fmap_compose.
  generalize (completions e) as b. induction events as [|ev events IH]; intros b; cbn; [done|apply IH].
Qed.

(** What the parent's requeues leave alone *)
Record undisturbed e e' : Prop := mkUndisturbed {
  un_received : received (completions e) (completions e');
  un_shutdown : shutdown_event (transport e') = shutdown_event (transport e);
  un_events : registry_event_queue e' = registry_event_queue e;
}.

#[local] Instance undisturbed_preorder : PreOrder undisturbed.
Proof. split; [done|]. intros e1 e2 e3 [H1 H2 H3] [H4 H5 H6]. split; [by etrans|congruence..]. Qed.

Lemma dispatch_shutdown p r t :
  match dispatch_payload route_digest (λ _ _, takes) p r t with
  | Waits => shutdown_event t = false
  | Dispatched t' | DispatchRaises t' => shutdown_event t' = shutdown_event t
  end.
Proof.
  unfold dispatch_payload, dispatch_entry, acquire_worker_pipe_queue_slot.
  destruct (shutdown_event t) eqn:Hs; [exact Hs|]. destruct (0 <? slots t); [|done].
  unfold send_packed. cbn. destruct (senders t !! _) as [pipe|]; [destruct takes|]; cbn; rewrite ?Hs; try done;
    unfold release_worker_pipe_queue_slot; by case_match.
Qed.

Lemma requeue_spec e :
  recovering e ≠ [] →
  match requeue_recovered_payload cfg route_digest takes e with
  | None => shutdown_event (transport e) = false
  | Some e' => (requeue_work e' < requeue_work e)%nat ∧ undisturbed e e'
  end.
Proof.
  unfold requeue_recovered_payload, requeue_work. destruct (recovering e) as [|[source [|p rest]] calls] eqn:Hr; [done| |];
    intros _; [split; [cbn; lia|done]|].
  pose proof (dispatch_shutdown p (resolve_route_identity (pl_item p)) (transport e)) as Hd.
  change (dispatch_payload route_digest (λ _ _, takes) p (resolve_route_identity (pl_item p)) (transport e))
    with (requeue_payload route_digest (λ _ _, takes) p (transport e)) in Hd.
  assert ((sum_list_with (λ c : RequeueCall, S (length c.2)) (match rest with [] => calls | _ => (source, rest) :: calls end)
     < S (S (length rest)) + sum_list_with (λ c : RequeueCall, S (length c.2)) calls)%nat) as Hlt.
  { destruct rest; cbn; lia. }
  destruct (requeue_payload _ _ _ _) as [t|t|]; [split; [exact Hlt|by split]| |done].
  destruct source as [idx|batch_id].
  - split; [exact Hlt|]. split; [|exact Hd|done].
    by apply emit_received.
  - split; [cbn; lia|]. split; [|exact Hd|done].
    by apply emit_received.
Qed.

Lemma settle_spec fuel e :
  (requeue_work e ≤ fuel)%nat →
  match settle_requeues fuel e with
  | None => shutdown_event (transport e) = false
  | Some e' => recovering e' = [] ∧ undisturbed e e'
  end.
Proof.
  revert e. induction fuel as [|fuel IH]; intros e Hf.
  - unfold requeue_work in Hf. cbn. destruct (recovering e) as [|[? ?]] eqn:Hr; [by rewrite Hr|cbn in Hf; lia].
  - cbn [settle_requeues]. destruct (recovering e) as [|c calls] eqn:Hr; [done|].
    pose proof (requeue_spec e) as H. rewrite Hr in H. specialize (H ltac:(done)).
    destruct (requeue_recovered_payload _ _ _ _) as [e1|]; [|done]. destruct H as [H1 H2].
    specialize (IH e1 ltac:(lia)). destruct (settle_requeues fuel e1) as [e2|].
    + destruct IH as [H3 H4]. split; [done|by etrans].
    + by rewrite <-(un_shutdown _ _ H2).
Qed.

Lemma apply_event_undisturbed e event : undisturbed e (engine_apply_registry_event e event).
Proof.
  destruct event; cbn; try done.
  - split; [done| |done]. cbn. unfold handle_start_event. repeat case_match; unfold put_batch, release_worker_pipe_queue_slot; cbn;
      repeat case_match; done.
  - unfold handle_not_started_event. repeat (case_match; simplify_eq); unfold hold; try case_match; split; try done; cbn;
      unfold put_batch, release_worker_pipe_queue_slot; repeat case_match; done.
Qed.

Lemma apply_events_spec events e :
  recovering e = [] →
  match apply_registry_events events e with
  | None => shutdown_event (transport e) = false
  | Some e' => recovering e' = [] ∧ undisturbed e e'
  end.
Proof.
  revert e. induction events as [|event events IH]; intros e Hr; cbn [apply_registry_events]; [done|].
  pose proof (apply_event_undisturbed e event) as H1. set (e1 := engine_apply_registry_event e event) in *.
  pose proof (settle_spec (requeue_work e1) e1 ltac:(done)) as H2.
  destruct (settle_requeues _ _) as [e2|]; [|by rewrite <-(un_shutdown _ _ H1)]. destruct H2 as [H2 H3].
  specialize (IH e2 H2). destruct (apply_registry_events events e2) as [e3|].
  - destruct IH as [H4 H5]. split; [done|]. by repeat (etrans; [eassumption|]).
  - by rewrite <-(un_shutdown _ _ H1), <-(un_shutdown _ _ H3).
Qed.

(** ** The drains end, with both queues empty *)

(** What the workers may do to the engine's state *)
Record workers_ran e e' : Prop := mkWorkersRan {
  wr_received : received (completions e) (completions e');
  wr_shutdown : shutdown_event (transport e') = shutdown_event (transport e);
  wr_recovering : recovering e' = recovering e;
}.

(** A state between two passes of a drain *)
Record draining e : Prop := mkDraining {
  dr_buffer : buffer_inv decode_events (completions e);
  dr_recovering : recovering e = [];
  dr_shutdown : shutdown_event (transport e) = true;
}.

Lemma draining_workers e e' : workers_ran e e' → draining e → draining e'.
Proof. intros [H1 H2 H3] [H4 H5 H6]. split; [by eapply received_inv|congruence..]. Qed.

(** No item that ever arrived is forgotten. *)
Definition later e e' : Prop := arrived (completions e) ⊆ arrived (completions e').

#[local] Instance later_preorder : PreOrder later.
Proof. split; [by intros e x|]. unfold later. intros e1 e2 e3 H1 H2. by etrans. Qed.

Lemma received_later e e' : received (completions e) (completions e') → later e e'.
Proof.
  intros [raws H]. unfold later. rewrite H. generalize (completions e) as b. clear.
  induction raws as [|raw raws IH]; intros b; cbn; [done|]. etrans; [|apply IH]. cbn. set_solver.
Qed.

Definition queues_empty e : Prop := registry_event_queue e = [] ∧ completion_queue (completions e) = [].

Lemma drain_once_spec e :
  draining e → ∃ r c e', drain_shutdown_ipc_once e = Some (r, c, e') ∧ draining e' ∧ queues_empty e'
    ∧ r = zlen (registry_event_queue e) ∧ later e e'.
Proof.
  intros [H1 H2 H3]. unfold drain_shutdown_ipc_once, drain_registry_event_queue. cbv zeta.
  match goal with |- context [apply_registry_events ?l ?x] =>
    pose proof (apply_events_spec l x H2) as H; destruct (apply_registry_events l x) as [e1|] end; [|change (shutdown_event (transport e) = false) in H; congruence].
  destruct H as [H4 [H5 H6 H7]].
  pose proof (received_inv _ _ H5 H1) as Hb.
  destruct (drain_items_inv decode_events (completion_queue (completions e1)) 0 (completions e1) eq_refl Hb) as [H8 H9].
  eexists _, _, _. split; [reflexivity|].
  split; [split; [exact H8|exact H4|exact (eq_trans H6 H3)]|]. split; [split; [exact H7|exact H9]|].
  split; [reflexivity|]. pose proof (drain_queue_consumes decode_events (completions e1) Hb) as [Ha _].
  pose proof (received_later (e <| registry_event_queue := [] |>) e1 H5) as Hl. unfold later. cbn. by rewrite Ha.
Qed.

Lemma before_join_spec deadline r c n answers e :
  (∀ a e, a ∈ answers → workers_ran e (a.2 e)) → draining e →
  match drain_before_join_loop deadline r c n answers e with
  | Ended _ _ n' e' => draining e' ∧ later e e' ∧ n ≤ n' ≤ n + zlen answers
  | Blocked => False
  | Unfinished => ∀ a, a ∈ answers → (a.1 < deadline)%Q
  end.
Proof.
  revert r c n e. induction answers as [|[now act] answers IH]; intros r c n e Hw He; cbn [drain_before_join_loop].
  { intros a Ha. by apply elem_of_nil in Ha. }
  rewrite zlen_cons. pose proof (zlen_nonneg answers). unfold Qltb. rewrite negb_involutive.
  destruct (Qle_bool deadline now) eqn:Hq; [split; [done|split; [done|lia]]|].
  destruct (drain_once_spec e He) as (r1 & c1 & e1 & -> & He1 & _ & _ & Hl1).
  destruct (_ && bool_decide _); [split; [done|split; [done|lia]]|].
  assert (workers_ran e1 (act e1)) as Hw1 by (apply (Hw (now, act) e1); left).
  pose proof (draining_workers e1 (act e1) Hw1 He1) as He2.
  assert (later e (act e1)) as Hl2 by (etrans; [exact Hl1|apply received_later, Hw1]).
  specialize (IH (r + r1) (c + c1) (n + 1) (act e1) (λ a e Ha, Hw a e (list_elem_of_further _ _ _ Ha)) He2).
  destruct (drain_before_join_loop _ _ _ _ _ _); [split; [apply IH|split; [etrans; [exact Hl2|apply IH]|lia]]|done|].
  intros a [->|Ha]%elem_of_cons; [|by apply IH]. cbn. apply Qnot_le_lt. intros ?%Qle_bool_iff. congruence.
Qed.

Lemma stable_empty_spec hard_deadline stable r c n k answers e :
  (∀ a e, a ∈ answers → workers_ran e (a.2 e)) → draining e →
  match stable_empty_loop hard_deadline stable r c n k answers e with
  | Ended _ _ n' e' => draining e' ∧ queues_empty e' ∧ later e e' ∧ n < n' ≤ n + zlen answers
  | Blocked => False
  | Unfinished => ∀ a, a ∈ answers → (a.1 < hard_deadline)%Q
  end.
Proof.
  revert r c n k e. induction answers as [|[now act] answers IH]; intros r c n k e Hw He; cbn [stable_empty_loop].
  { intros a Ha. by apply elem_of_nil in Ha. }
  rewrite zlen_cons. pose proof (zlen_nonneg answers).
  destruct (drain_once_spec e He) as (r1 & c1 & e1 & -> & He1 & Hq & _ & Hl1).
  set (k' := if (r1 =? 0) && (c1 =? 0) then k + 1 else 0).
  unfold Qltb. rewrite negb_involutive. destruct (stable <=? k'); cbn [orb]; [split; [done|split; [done|split; [done|lia]]]|].
  destruct (Qle_bool hard_deadline now) eqn:Hh; [split; [done|split; [done|split; [done|lia]]]|].
  assert (workers_ran e1 (act e1)) as Hw1 by (apply (Hw (now, act) e1); left).
  pose proof (draining_workers e1 (act e1) Hw1 He1) as He2.
  assert (later e (act e1)) as Hl2 by (etrans; [exact Hl1|apply received_later, Hw1]).
  specialize (IH (r + r1) (c + c1) (n + 1) k' (act e1) (λ a e Ha, Hw a e (list_elem_of_further _ _ _ Ha)) He2).
  destruct (stable_empty_loop _ _ _ _ _ _ _ _); [split; [apply IH|split; [apply IH|split; [etrans; [exact Hl2|apply IH]|lia]]]|done|].
  intros a [->|Ha]%elem_of_cons; [|by apply IH]. cbn. apply Qnot_le_lt. intros ?%Qle_bool_iff. congruence.
Qed.

(** The first drain, before the shutdown is signalled *)
Lemma first_drain_spec e r e' :
  buffer_inv decode_events (completions e) → recovering e = [] → drain_registry_event_queue e = Some (r, e') →
  draining (e' <| transport ::= signal_shutdown |>) ∧ later e e'.
Proof.
  intros Hb Hr. unfold drain_registry_event_queue. cbv zeta.
  match goal with |- context [apply_registry_events ?l ?x] =>
    pose proof (apply_events_spec l x Hr) as H; destruct (apply_registry_events l x) as [e1|] end; [|done].
  intros [= _ <-]. destruct H as [H4 [H5 _ _]]. split; [|exact (received_later (e <| registry_event_queue := [] |>) e1 H5)].
  split; [by eapply received_inv; [exact H5|]|exact H4|done].
Qed.

(** C29. Shutdown loses no report: whatever the workers do during it, every completion that has arrived
    by the end of the last drain is accepted, or shares its identity with an accepted one; the
    accepted ones are exactly those already delivered and those still to be polled; the registry, the
    pending dispatches, the requeues and both queues are empty; and the in-flight count is the
    number of events to be polled, before and after every later poll, which returns them in order. *)
Theorem process_shutdown_accounts start1 start2 before_join after_join workers_end e r c n e' :
  (∀ a e, a ∈ before_join ++ after_join → workers_ran e (a.2 e)) → (∀ e, workers_ran e (workers_end e)) →
  buffer_inv decode_events (completions e) → recovering e = [] →
  process_shutdown start1 start2 before_join after_join workers_end e = Ended r c n e' →
  let b := completions e' in
  (arrived (completions e) ⊆ arrived b ∧ ∀ raw ev, raw ∈ arrived b → ev ∈ raw → covered b ev)
  ∧ accepted_events b ≡ₚ delivered_events b ++ prefetched_events b
  ∧ (in_flight_registry e' = [] ∧ pending_dispatch (transport e') = [] ∧ recovering e' = [] ∧ queues_empty e')
  ∧ in_flight_count e' = zlen (prefetched_events b)
  ∧ ∀ k, (poll_after_shutdown k e').1 = py_take k (prefetched_events b)
      ∧ in_flight_count (poll_after_shutdown k e').2 = zlen (prefetched_events (completions (poll_after_shutdown k e').2)).
Proof.
  intros Hw Hend Hb Hr. unfold process_shutdown.
  destruct (drain_registry_event_queue e) as [[r0 e1]|] eqn:Hd; [|done].
  destruct (first_drain_spec e r0 e1 Hb Hr Hd) as [H1 L1].
  pose proof (before_join_spec (start1 + 1) 0 0 0 before_join (e1 <| transport ::= signal_shutdown |>)
    (λ a e Ha, Hw a e (proj2 (elem_of_app _ _ _) (or_introl Ha))) H1) as H2.
  unfold drain_before_join. destruct (drain_before_join_loop _ _ _ _ _ _) as [r2 c2 n2 e2| |]; [|done..].
  destruct H2 as (H2 & L2 & _). pose proof (draining_workers e2 _ (Hend e2) H2) as H3.
  pose proof (stable_empty_spec (hard_deadline_of start2 POST_JOIN_SHUTDOWN_DRAIN_SECONDS POST_JOIN_SHUTDOWN_STABLE_EMPTY_PASSES)
    POST_JOIN_SHUTDOWN_STABLE_EMPTY_PASSES 0 0 0 0 after_join (workers_end e2)
    (λ a e Ha, Hw a e (proj2 (elem_of_app _ _ _) (or_intror Ha))) H3) as H4.
  unfold drain_until_stable_empty. destruct (stable_empty_loop _ _ _ _ _ _ _ _) as [r3 c3 n3 e3| |]; [|done..].
  destruct H4 as ([B3 R3 S3] & [Q1 Q2] & L3 & _). intros [= _ _ _ <-]. cbv zeta. cbn [completions settle_books]. change (completions (settle_books e3)) with (completions e3).
  destruct B3 as [[] Ha]. split; [|split; [done|split; [done|split; [done|]]]].
  - split.
    + etrans; [exact L1|]. etrans; [exact L2|]. etrans; [apply received_later, (Hend e2)|exact L3].
    + intros raw ev Hraw Hev. destruct (Ha raw Hraw) as [Hin|Hh]; [rewrite Q2 in Hin; by apply elem_of_nil in Hin|by apply Hh].
  - intros k. split; [done|]. cbn. unfold py_take, py_drop, zlen. rewrite length_take, length_drop. lia.
Qed.

(** Without a skipped batch tail there is nothing to requeue. *)
Definition skips_nothing (event : RegistryEvent) : Prop := match event with EvNotStarted _ _ => False | _ => True end.

Lemma apply_events_plain events e :
  Forall skips_nothing events → recovering e = [] → ∃ e', apply_registry_events events e = Some e'.
Proof.
  revert e. induction events as [|event events IH]; intros e Hev Hr; cbn [apply_registry_events]; [by exists e|].
  apply Forall_cons in Hev as [H1 H2]. assert (recovering (engine_apply_registry_event e event) = []) as Hr1 by by destruct event.
  unfold requeue_work. rewrite Hr1. cbn [sum_list_with settle_requeues]. rewrite Hr1. by apply IH.
Qed.

(** Shutdown ends, unless a skipped batch tail is waiting in the registry queue when it begins:
    otherwise no part of it can block, and it has ended once the clock has passed one second in the
    first drain and the grace period of the second. *)
Theorem process_shutdown_ends start1 start2 before_join after_join workers_end e :
  (∀ a e, a ∈ before_join ++ after_join → workers_ran e (a.2 e)) → (∀ e, workers_ran e (workers_end e)) →
  buffer_inv decode_events (completions e) → recovering e = [] →
  Forall skips_nothing (registry_event_queue e) →
  (∃ a, a ∈ before_join ∧ (start1 + 1 <= a.1)%Q) →
  (∃ a, a ∈ after_join ∧ (start2 + (9 # 100) <= a.1)%Q) →
  ∃ r c n e', process_shutdown start1 start2 before_join after_join workers_end e = Ended r c n e'
    ∧ 0 < n ≤ zlen after_join.
Proof.
  intros Hw Hend Hb Hr Hev (a1 & Ha1 & Hq1) (a2 & Ha2 & Hq2). unfold process_shutdown.
  assert (∃ r0 e1, drain_registry_event_queue e = Some (r0, e1)) as (r0 & e1 & Hd).
  { unfold drain_registry_event_queue. cbv zeta. match goal with |- context [apply_registry_events ?l ?x] =>
      destruct (apply_events_plain l x Hev Hr) as [e1 ->] end. by eexists _, _. }
  rewrite Hd. destruct (first_drain_spec e r0 e1 Hb Hr Hd) as [H1 _].
  pose proof (before_join_spec (start1 + 1) 0 0 0 before_join (e1 <| transport ::= signal_shutdown |>)
    (λ a e Ha, Hw a e (proj2 (elem_of_app _ _ _) (or_introl Ha))) H1) as H2.
  unfold drain_before_join. destruct (drain_before_join_loop _ _ _ _ _ _) as [r2 c2 n2 e2| |]; [|done|].
  2: { specialize (H2 a1 Ha1). lra. }
  destruct H2 as (H2 & _). pose proof (draining_workers e2 _ (Hend e2) H2) as H3.
  set (hard := hard_deadline_of start2 POST_JOIN_SHUTDOWN_DRAIN_SECONDS POST_JOIN_SHUTDOWN_STABLE_EMPTY_PASSES).
  assert (hard == start2 + (9 # 100))%Q as Hhard.
  { unfold hard, hard_deadline_of. change (Qmax0 _) with (5 # 100)%Q. change (inject_Z _) with 4%Q.
    change SHUTDOWN_DRAIN_SLEEP_SECONDS with (1 # 100)%Q. ring. }
  pose proof (stable_empty_spec hard POST_JOIN_SHUTDOWN_STABLE_EMPTY_PASSES 0 0 0 0 after_join (workers_end e2)
    (λ a e Ha, Hw a e (proj2 (elem_of_app _ _ _) (or_intror Ha))) H3) as H4.
  unfold drain_until_stable_empty. fold hard. destruct (stable_empty_loop _ _ _ _ _ _ _ _) as [r3 c3 n3 e3| |]; [|done|].
  - eexists _, _, _, _. split; [done|]. lia.
  - specialize (H4 a2 Ha2). lra.
Qed.
End process_shutdown.

(** ** What the worker processes do is allowed *)

Lemma worker_step_ran cfg worker_fn timeout_text packs route_digest e op e' :
  match op with OpReceive _ | OpPut _ | OpExit _ | OpDie _ => True | _ => False end →
  engine_step cfg worker_fn timeout_text packs route_digest e op e' → workers_ran e e'.
Proof.
  intros Hop H. destruct H; try done.
  - destruct (run_message _ _ _ _ _ _) as [es ex]. split; [by exists []|done..].
  - destruct x as [event|events]; [split; [by exists []|done..]|]. split; [by exists [events]|done..].
  - split; [by exists []|done..].
  - split; [by exists []|done..].
Qed.

(** ** Runs *)

Definition shutdown_demo_event (o : Z) : CompletionEvent := mkCompletion "id" (mkTp "orders" 0) o 1 SUCCESS None 1.
Definition shutdown_demo_report (o : Z) (e : ProcessEngine) : ProcessEngine :=
  put_emission (ToCompletion [shutdown_demo_event o]) e.
Definition shutdown_demo_config : ExecutionConfig := mkExecutionConfig 4 2 100 true 1000 0.

(** One completion is there when the shutdown begins, one comes between two passes, one, twice, while
    the workers are joined. *)
Definition shutdown_demo_engine : ProcessEngine := shutdown_demo_report 0 (new_process_engine 1 4).
Definition shutdown_demo_before : list Pass := [(0%Q, shutdown_demo_report 1); (2%Q, λ e, e)].
Definition shutdown_demo_after : list Pass := [(0%Q, λ e, e); (0%Q, λ e, e); (1%Q, λ e, e)].
Definition shutdown_demo_joined (e : ProcessEngine) : ProcessEngine := shutdown_demo_report 2 (shutdown_demo_report 2 e).
Definition shutdown_demo_stage : Stage :=
  process_shutdown shutdown_demo_config (λ _, 0) true 0 0 shutdown_demo_before shutdown_demo_after shutdown_demo_joined
    shutdown_demo_engine.
Definition shutdown_demo_end : ProcessEngine :=
  match shutdown_demo_stage with Ended _ _ _ e => e | _ => shutdown_demo_engine end.

Lemma shutdown_demo_report_ran o e : workers_ran e (shutdown_demo_report o e).
Proof. split; [by exists [[shutdown_demo_event o]]|done..]. Qed.

Lemma shutdown_demo_passes a e : a ∈ shutdown_demo_before ++ shutdown_demo_after → workers_ran e (a.2 e).
Proof.
  assert (workers_ran e e) as Hr by (split; [by exists []|done..]).
  unfold shutdown_demo_before, shutdown_demo_after. cbn [app]. rewrite !elem_of_cons.
  intros [->|[->|[->|[->|[->|Ha%elem_of_nil]]]]]; try exact Hr; [apply shutdown_demo_report_ran|done].
Qed.

Lemma shutdown_demo_joined_ran e : workers_ran e (shutdown_demo_joined e).
Proof. split; [by exists [[shutdown_demo_event 2]; [shutdown_demo_event 2]]|done..]. Qed.

Lemma shutdown_demo_buffer : buffer_inv decode_events (completions shutdown_demo_engine).
Proof. apply (buffer_apply_inv decode_events _ (OpArrive [shutdown_demo_event 0])), new_buffer_inv. Qed.

Lemma process_shutdown_accounts_witness :
  in_flight_count shutdown_demo_end = 3 ∧ (ce_offset <$> (poll_after_shutdown 2 shutdown_demo_end).1) = [0; 1]
  ∧ in_flight_count shutdown_demo_end = zlen (prefetched_events (completions shutdown_demo_end)).
Proof.
  split; [vm_compute; reflexivity|]. split; [vm_compute; reflexivity|].
  assert (∃ r c n, shutdown_demo_stage = Ended r c n shutdown_demo_end) as (r & c & n & H)
    by (assert (match shutdown_demo_stage with Ended _ _ _ _ => true | _ => false end = true) as Hk by (by vm_compute);
        unfold shutdown_demo_end; destruct shutdown_demo_stage; [by eexists _, _, _|done..]).
  destruct (process_shutdown_accounts shutdown_demo_config (λ _, 0) true 0 0 shutdown_demo_before shutdown_demo_after
    shutdown_demo_joined shutdown_demo_engine r c n shutdown_demo_end shutdown_demo_passes shutdown_demo_joined_ran
    shutdown_demo_buffer eq_refl H) as (_ & _ & _ & H4 & _). exact H4.
Defined.

Lemma process_shutdown_ends_witness : ∃ r c n e', shutdown_demo_stage = Ended r c n e' ∧ 0 < n ≤ 3.
Proof.
  apply (process_shutdown_ends shutdown_demo_config (λ _, 0) true 0 0 shutdown_demo_before shutdown_demo_after
    shutdown_demo_joined shutdown_demo_engine shutdown_demo_passes shutdown_demo_joined_ran shutdown_demo_buffer eq_refl).
  - by apply Forall_nil.
  - exists (2%Q, λ e, e). split; [right; left|vm_compute; discriminate].
  - exists (1%Q, λ e, e). split; [right; right; left|vm_compute; discriminate].
Defined.

(** *** A shutdown that hangs

    One queue slot; item 0 of a batch fails, its worker skips item 1, and item 2 has the slot. *)
Definition hang_fn (w : WorkItem) (attempt : Z) : AttemptResult := if wi_offset w =? 0 then Raises "no" else Returns.
Definition hang_item (o : Z) : WorkItem := mkWorkItem "id" (mkTp "orders" 0) o 1 (PyStr [107]) PyNone 0 None.
Definition hang_step := engine_step shutdown_demo_config hang_fn (λ _, ""%string) (λ _, true) (λ _, 0).

Definition hang_0 : ProcessEngine := new_process_engine 1 1.
Definition hang_1 : ProcessEngine :=
  (default (false, hang_0) (dispatch_items (λ _, 0) true "b" [hang_item 0; hang_item 1] hang_0)).2.
Definition hang_2 : ProcessEngine :=
  let '(es, ex) := run_message shutdown_demo_config hang_fn (λ _, ""%string) (λ _, true) 0
                     (mkMessage (Some "b"%string) [hang_item 0; hang_item 1]) in
  set_worker 0 (mkWorker true es ex) (hang_1 <| transport ::= λ t, t <| senders ::= <[0%nat := []]> |> |>).
Definition hang_put (e : ProcessEngine) : ProcessEngine :=
  match workers e with
  | [mkWorker true (x :: rest) ex] => put_emission x (set_worker 0 (mkWorker true rest ex) e)
  | _ => e
  end.
Definition hang_3 : ProcessEngine := drain_registry_events (hang_put (hang_put hang_2)).
Definition hang_4 : ProcessEngine :=
  (default (false, hang_3) (dispatch_item (λ _, 0) true (hang_item 2) hang_3)).2.
Definition hang_5 : ProcessEngine := hang_put hang_4.

Lemma hang_put_step e x rest ex : workers e = [mkWorker true (x :: rest) ex] → hang_step e (OpPut 0) (hang_put e).
Proof. intros Hw. unfold hang_put. rewrite Hw. apply step_put. by rewrite Hw. Qed.

Lemma hang_run :
  steps hang_step hang_0
    [OpSubmitBatch "b" [hang_item 0; hang_item 1]; OpReceive 0; OpPut 0; OpPut 0; OpDrain; OpSubmit (hang_item 2); OpPut 0] hang_5.
Proof.
  apply (steps_cons _ _ _ hang_1).
  { apply (step_submit_batch _ _ _ _ _ _ true _ _ true); [split|..].
    - apply (bool_decide_unpack (NoDup _)). by vm_compute.
    - intros w w' _ Hw. by apply elem_of_nil in Hw.
    - by intros idx.
    - exists (hang_item 0), [hang_item 1]. split; [done|by repeat constructor].
    - by repeat constructor.
    - by vm_compute. }
  apply (steps_cons _ _ _ hang_2).
  { apply (step_receive _ _ _ _ _ hang_1 0 (mkMessage (Some "b"%string) [hang_item 0; hang_item 1]) []); by vm_compute. }
  apply (steps_cons _ _ _ (hang_put hang_2)); [eapply hang_put_step; by vm_compute|].
  apply (steps_cons _ _ _ (hang_put (hang_put hang_2))); [eapply hang_put_step; by vm_compute|].
  apply (steps_cons _ _ _ hang_3); [apply step_drain|].
  apply (steps_cons _ _ _ hang_4).
  { apply (step_submit _ _ _ _ _ _ true _ true); [split|..].
    - apply (bool_decide_unpack (NoDup _)). by vm_compute.
    - assert (submitted hang_3 = [hang_item 0; hang_item 1]) as -> by by vm_compute.
      intros w w' ->%list_elem_of_singleton. rewrite !elem_of_cons. by intros [->|[->|Hw%elem_of_nil]].
    - done.
    - by vm_compute. }
  apply (steps_cons _ _ _ hang_5); [eapply hang_put_step; by vm_compute|]. constructor.
Qed.

(** A shutdown that begins when item 1 is to be requeued and item 2 holds the only slot never gets
    beyond its first drain, whatever happens later: the requeue waits for a slot with the event loop
    blocked, the start of item 2, which would free the slot, is behind it in the queue it drains, and
    the check that looks after the workers during such a wait is switched off. *)
Theorem shutdown_blocks_on_skipped_tail :
  ∃ ops e, steps hang_step (new_process_engine 1 1) ops e
    ∧ ∀ start1 start2 before_join after_join workers_end,
        process_shutdown shutdown_demo_config (λ _, 0) true start1 start2 before_join after_join workers_end e = Blocked.
Proof.
  eexists _, hang_5. split; [exact hang_run|]. intros. unfold process_shutdown.
  assert (drain_registry_event_queue shutdown_demo_config (λ _, 0) true hang_5 = None) as -> by by vm_compute. done.
Qed.
