(* ===== verification/ProcessCodec.v ===== *)
(** * The wire format of the process engine ([execution_plane/process_codec.py])

    Work items, completions, route batches and their envelopes as dictionaries, and back.  The
    bytes themselves are msgpack's, which is not part of the repository: packing and unpacking
    are a type class with the documented law that unpacking gives back what was packed.  Text the
    program makes itself (field names, topics, identifiers, errors) is a [string] here, as in
    [Dto]; text in keys and payloads is a [PyStr]. *)

From S2P Require Import Prelude Dto.

#[local] Set Warnings "-register-all".

Inductive Wire :=
  | WValue (v : PyValue)
  | WText (s : string)
  | WFloat (q : Q)
  | WList (l : list Wire)
  | WDict (d : list (string * Wire)).

Abbreviation Dict := (list (string * Wire)).

(** How decoding fails.  [WrongShape]: a value of a type no sender of the program produces; Python
    would carry it on. *)
Inductive DecodeError := KeyError (field : string) | ValueError (message : string) | WrongShape.

Abbreviation Decoded A := (DecodeError + A)%type.

#[export] Instance decoded_bind : MBind (sum DecodeError) :=
  λ A B f x, match x with inl e => inl e | inr a => f a end.
#[export] Instance decoded_ret : MRet (sum DecodeError) := λ A a, inr a.

(** [[f(x) for x in l]] *)
Fixpoint decode_all {A B} (f : A → Decoded B) (l : list A) : Decoded (list B) :=
  match l with
  | [] => inr []
  | x :: l' => y ← f x; ys ← decode_all f l'; inr (y :: ys)
  end.

(** *** Fields *)

(** [payload[field]] *)
Definition field (d : Dict) (name : string) : Decoded Wire :=
  match od_get name d with Some w => inr w | None => inl (KeyError name) end.

Definition as_text (w : Wire) : Decoded string := match w with WText s => inr s | _ => inl WrongShape end.
Definition as_int (w : Wire) : Decoded Z := match w with WValue (PyInt n) => inr n | _ => inl WrongShape end.
Definition as_dict (w : Wire) : Decoded Dict := match w with WDict d => inr d | _ => inl WrongShape end.

Definition of_int (n : Z) : Wire := WValue (PyInt n).

Definition field_text (d : Dict) (name : string) : Decoded string := field d name ≫= as_text.
Definition field_int (d : Dict) (name : string) : Decoded Z := field d name ≫= as_int.
Definition field_dict (d : Dict) (name : string) : Decoded Dict := field d name ≫= as_dict.

(** [payload.get(field)] for an optional text, number or value *)
Definition get_text (d : Dict) (name : string) : Decoded (option string) :=
  match od_get name d with
  | Some (WText s) => inr (Some s) | Some (WValue PyNone) | None => inr None | Some _ => inl WrongShape end.
Definition get_int (d : Dict) (name : string) : Decoded (option Z) :=
  match od_get name d with
  | Some (WValue (PyInt n)) => inr (Some n) | Some (WValue PyNone) | None => inr None | Some _ => inl WrongShape end.
Definition get_value (d : Dict) (name : string) : Decoded (option PyValue) :=
  match od_get name d with Some (WValue v) => inr (Some v) | None => inr None | Some _ => inl WrongShape end.

(** [_require_fields] *)
Definition require_fields (d : Dict) (required : list string) (error_name : string) : Decoded unit :=
  match filter (λ f, od_has f d = false) required with
  | [] => inr ()
  | missing => inl (ValueError (error_name +:+ "_missing_" +:+ String.concat "_" missing))
  end.

(** [_require_non_empty_list] *)
Definition require_non_empty_list (w : Wire) (field_name error_name : string) : Decoded (list Wire) :=
  match w with
  | WList [] => inl (ValueError (error_name +:+ "_" +:+ field_name +:+ "_empty"))
  | WList l => inr l
  | _ => inl (ValueError (error_name +:+ "_" +:+ field_name +:+ "_not_list"))
  end.

(** ** Work items and completions *)

Definition work_item_to_dict (w : WorkItem) : Dict :=
  [("id", WText (wi_id w)); ("topic", WText (topic (wi_tp w))); ("partition", of_int (partition (wi_tp w)));
   ("offset", of_int (wi_offset w)); ("epoch", of_int (wi_epoch w)); ("key", WValue (wi_key w));
   ("payload", WValue (wi_payload w)); ("requeue_attempts", of_int (wi_requeue_attempts w))]
  ++ match wi_poison_key w with None => [] | Some k => [("poison_key", WValue k)] end.

Definition work_item_from_dict (d : Dict) : Decoded WorkItem :=
  id ← field_text d "id"; t ← field_text d "topic"; n ← field_int d "partition";
  offset ← field_int d "offset"; epoch ← field_int d "epoch";
  key ← get_value d "key"; payload ← get_value d "payload";
  requeue ← get_int d "requeue_attempts"; poison ← get_value d "poison_key";
  inr (mkWorkItem id (mkTp t n) offset epoch (default PyNone key) (default PyNone payload) (default 0 requeue) poison).

Definition work_item_identity_payload (d : Dict) : Decoded Dict :=
  id ← field d "id"; t ← field d "topic"; n ← field d "partition"; offset ← field d "offset"; epoch ← field d "epoch";
  inr [("id", id); ("topic", t); ("partition", n); ("offset", offset); ("epoch", epoch)].

Definition status_value (s : CompletionStatus) : string := match s with SUCCESS => "success" | FAILURE => "failure" end.

Definition status_of (s : string) : Decoded CompletionStatus :=
  if decide (s = "success") then inr SUCCESS else if decide (s = "failure") then inr FAILURE
  else inl (ValueError (s +:+ " is not a valid CompletionStatus")).

Definition completion_event_to_dict (e : CompletionEvent) (extra_fields : Dict) : Dict :=
  od_update
    [("id", WText (ce_id e)); ("topic", WText (topic (ce_tp e))); ("partition", of_int (partition (ce_tp e)));
     ("offset", of_int (ce_offset e)); ("epoch", of_int (ce_epoch e)); ("status", WText (status_value (ce_status e)));
     ("error", match ce_error e with None => WValue PyNone | Some s => WText s end); ("attempt", of_int (ce_attempt e))]
    extra_fields.

Definition completion_event_from_dict (d : Dict) : Decoded CompletionEvent :=
  id ← field_text d "id"; t ← field_text d "topic"; n ← field_int d "partition";
  offset ← field_int d "offset"; epoch ← field_int d "epoch";
  status ← (field_text d "status" ≫= status_of);
  error ← get_text d "error"; attempt ← field_int d "attempt";
  inr (mkCompletion id (mkTp t n) offset epoch status error attempt).

(** ** Batches *)

Record RouteBatch := mkRouteBatch {
  rb_batch_id : string;
  rb_route_identity : list Wire;
  rb_worker_index : option Z;
  rb_items : list WorkItem;
}.

Record BatchCompletion := mkBatchCompletion {
  bc_batch_id : string;
  bc_route_identity : list Wire;
  bc_results : list CompletionEvent;
}.

Definition route_batch_to_dict (b : RouteBatch) : Dict :=
  [("batch_id", WText (rb_batch_id b)); ("route_identity", WList (rb_route_identity b));
   ("worker_index", match rb_worker_index b with None => WValue PyNone | Some n => of_int n end);
   ("items", WList (WDict ∘ work_item_to_dict <$> rb_items b))].

Definition as_sequence (w : Wire) (error : string) : Decoded (list Wire) :=
  match w with WList l => inr l | _ => inl (ValueError error) end.

Definition route_batch_from_dict (d : Dict) : Decoded RouteBatch :=
  _ ← require_fields d ["batch_id"; "route_identity"; "items"] "invalid_route_batch";
  route ← (field d "route_identity" ≫= λ w, as_sequence w "invalid_route_batch_route_identity_not_sequence");
  items ← (field d "items" ≫= λ w, require_non_empty_list w "items" "invalid_route_batch");
  id ← field_text d "batch_id";
  worker ← get_int d "worker_index";
  ws ← decode_all (λ w, as_dict w ≫= work_item_from_dict) items;
  inr (mkRouteBatch id route worker ws).

Definition batch_completion_to_dict (c : BatchCompletion) : Dict :=
  [("batch_id", WText (bc_batch_id c)); ("route_identity", WList (bc_route_identity c));
   ("results", WList ((λ e, WDict (completion_event_to_dict e [])) <$> bc_results c))].

Definition batch_completion_from_dict (d : Dict) : Decoded BatchCompletion :=
  _ ← require_fields d ["batch_id"; "route_identity"; "results"] "invalid_batch_completion";
  route ← (field d "route_identity" ≫= λ w, as_sequence w "invalid_batch_completion_route_identity_not_sequence");
  results ← (field d "results" ≫= λ w, require_non_empty_list w "results" "invalid_batch_completion");
  id ← field_text d "batch_id";
  es ← decode_all (λ w, as_dict w ≫= completion_event_from_dict) results;
  inr (mkBatchCompletion id route es).

(** ** Envelopes *)

Definition WORKER_PIPE_KIND_WORK_ITEMS : string := "work_items".
Definition WORKER_PIPE_KIND_ROUTE_BATCH : string := "route_batch".
Definition BATCH_COMPLETION_KIND : string := "batch_completion".

(** [payload.get("kind") == kind] *)
Definition kind_is (d : Dict) (kind : string) : bool :=
  match od_get "kind" d with Some (WText s) => bool_decide (s = kind) | _ => false end.

(** [list[WorkItem] | RouteBatch] *)
Definition PipePayload : Type := list WorkItem + RouteBatch.

Definition worker_pipe_envelope (payload : PipePayload) (flush_enqueued_at : Q) : Dict :=
  let timing := WDict [("flush_enqueued_at", WFloat flush_enqueued_at)] in
  match payload with
  | inr batch => [("kind", WText WORKER_PIPE_KIND_ROUTE_BATCH); ("batch", WDict (route_batch_to_dict batch)); ("timing", timing)]
  | inl items => [("kind", WText WORKER_PIPE_KIND_WORK_ITEMS); ("items", WList (WDict ∘ work_item_to_dict <$> items)); ("timing", timing)]
  end.

Definition batch_completion_envelope (c : BatchCompletion) (completion_enqueued_at : Q) : Dict :=
  [("kind", WText BATCH_COMPLETION_KIND); ("completion", WDict (batch_completion_to_dict c));
   ("timing", WDict [("completion_enqueued_at", WFloat completion_enqueued_at)])].

(** The numbers of a [timing] dictionary *)
Definition numbers_of (d : Dict) : list (string * Q) :=
  omap (λ p : string * Wire, match p.2 with
                             | WFloat q => Some (p.1, q)
                             | WValue (PyInt n) => Some (p.1, inject_Z n)
                             | _ => None end) d.

Definition timing_numbers (w : Wire) : Decoded (list (string * Q)) :=
  match as_dict w with inl x => inl x | inr d => inr (numbers_of d) end.

(** What [normalize_decoded_payloads] returns: the payloads, the timing and, for a route batch,
    its identifier and route *)
Record Incoming := mkIncoming {
  in_payloads : list Dict;
  in_timing : list (string * Q);
  in_route_batch : option (string * list Wire);
}.

Definition with_requeue_attempts (d : Dict) : Dict :=
  od_set "requeue_attempts" (default (of_int 0) (od_get "requeue_attempts" d)) d.

Definition optional_timing (d : Dict) : Decoded (list (string * Q)) :=
  match od_get "timing" d with Some w => timing_numbers w | None => inr [] end.

Definition normalize_decoded_payloads (decoded : Wire) : Decoded Incoming :=
  match decoded with
  | WDict d =>
      match od_get "kind" d with
      | Some (WText kind) =>
          if decide (kind = WORKER_PIPE_KIND_ROUTE_BATCH) then
            batch ← (field_dict d "batch" ≫= route_batch_from_dict);
            timing ← optional_timing d;
            inr (mkIncoming (work_item_to_dict <$> rb_items batch) timing (Some (rb_batch_id batch, rb_route_identity batch)))
          else if decide (kind = WORKER_PIPE_KIND_WORK_ITEMS) then
            match od_get "items" d with
            | Some (WList items) =>
                timing ← optional_timing d; payloads ← decode_all as_dict items; inr (mkIncoming payloads timing None)
            | Some _ => inl WrongShape
            | None => inr (mkIncoming [with_requeue_attempts d] [] None)
            end
          else inl (ValueError ("unknown_worker_pipe_payload_kind:" +:+ kind))
      | Some (WValue PyNone) | None =>
          match od_get "items" d with
          | Some (WList items) =>
              timing ← optional_timing d; payloads ← decode_all as_dict items; inr (mkIncoming payloads timing None)
          | Some _ => inl WrongShape
          | None => inr (mkIncoming [with_requeue_attempts d] [] None)
          end
      | Some _ => inl (ValueError "unknown_worker_pipe_payload_kind")
      end
  | WList l => payloads ← decode_all as_dict l; inr (mkIncoming (with_requeue_attempts <$> payloads) [] None)
  | _ => inl WrongShape
  end.

(** ** Bytes *)

(** [msgpack.packb] and [msgpack.Unpacker] with a buffer limit: [None] is an exception, the list
    the objects found in the bytes *)
Class Msgpack (B : Type) := {
  packb : Wire → option B;
  unpackb : Z → B → option (list Wire);
  byte_length : B → Z;
}.

(** Unpacking what was packed gives it back, when it fits the buffer. *)
Class MsgpackLaws (B : Type) `{Msgpack B} : Prop :=
  unpack_packed w b max : packb w = Some b → byte_length b ≤ max → unpackb max b = Some [w].

Section bytes.
Context {B : Type} `{MB : Msgpack B}.

Definition serialize_worker_pipe_payload (payload : PipePayload) (flush_enqueued_at : Q) : option B :=
  packb (WDict (worker_pipe_envelope payload flush_enqueued_at)).

Definition serialize_batch_completion_payload (c : BatchCompletion) (completion_enqueued_at : Q) : option B :=
  packb (WDict (batch_completion_envelope c completion_enqueued_at)).

(** [_decode_msgpack_payload]: several objects come back as a list *)
Definition decode_msgpack_payload (item : B) (max_bytes : Z) : Decoded Wire :=
  if max_bytes <? byte_length item then inl (ValueError "payload_too_large")
  else match unpackb max_bytes item with
       | None => inl (ValueError "msgpack")
       | Some [w] => inr w
       | Some l => inr (WList l)
       end.

Definition decode_incoming_payloads (item : B) (max_bytes : Z) : Decoded Incoming :=
  decode_msgpack_payload item max_bytes ≫= normalize_decoded_payloads.

Definition decode_incoming_item (item : B) (max_bytes : Z) : Decoded (list WorkItem) :=
  incoming ← decode_incoming_payloads item max_bytes; decode_all work_item_from_dict (in_payloads incoming).

(** [decode_batch_completion_payload], on a decoded object *)
Definition decode_batch_completion_payload (decoded : Wire) : Decoded Dict :=
  match decoded with
  | WDict d => if kind_is d BATCH_COMPLETION_KIND then inr d
               else inl (ValueError "invalid_batch_completion_payload")
  | _ => inl (ValueError "invalid_batch_completion_payload")
  end.

(** [_validate_packed_payload] of [process_transport_worker_pipes.py] *)
Definition validate_packed_payload (payload : B) (max_payload_bytes : Z) : Decoded unit :=
  if max_payload_bytes <? byte_length payload then inl (ValueError "payload_too_large")
  else match unpackb max_payload_bytes payload with
       | None | Some [] => inl (ValueError "invalid_worker_pipe_payload")
       | Some _ => inr ()
       end.

(** [_decode_completion_queue_item_events] of [process_engine.py] *)
Definition decode_completion_queue_item_events (raw_event : B) (max_bytes : Z) : Decoded (list CompletionEvent) :=
  payload ← decode_msgpack_payload raw_event max_bytes;
  match payload with
  | WDict d =>
      if kind_is d BATCH_COMPLETION_KIND then
        decoded ← decode_batch_completion_payload payload;
        c ← (field_dict decoded "completion" ≫= batch_completion_from_dict);
        inr (bc_results c)
      else e ← completion_event_from_dict d; inr [e]
  | _ => inl (ValueError "invalid_completion_payload_type")
  end.
End bytes.

(** ** Round trips *)

Lemma work_item_dict_roundtrip w : work_item_from_dict (work_item_to_dict w) = inr w.
Proof. by destruct w as [id [t n] offset epoch key payload requeue [poison|]]. Qed.

Lemma completion_dict_roundtrip e : completion_event_from_dict (completion_event_to_dict e []) = inr e.
Proof. by destruct e as [id [t n] offset epoch [] [error|] attempt]. Qed.

Lemma decode_all_map {A C D} (f : C → Decoded D) (g : A → C) (h : A → D) l :
  (∀ a, f (g a) = inr (h a)) → decode_all f (g <$> l) = inr (h <$> l).
Proof. intros Hf. induction l as [|a l IH]; [done|]. cbn. by rewrite Hf, IH. Qed.

Lemma decode_all_dicts {A} (g : A → Dict) l : decode_all as_dict (WDict ∘ g <$> l) = inr (g <$> l).
Proof. by apply decode_all_map. Qed.

Lemma decode_items_roundtrip l : decode_all work_item_from_dict (work_item_to_dict <$> l) = inr l.
Proof. rewrite (decode_all_map _ _ id) by apply work_item_dict_roundtrip. by rewrite list_fmap_id. Qed.

(** The last field decides, the others are there. *)
Lemma route_batch_of_items id route worker l :
  l ≠ [] →
  route_batch_from_dict [("batch_id", WText id); ("route_identity", WList route);
     ("worker_index", match worker with None => WValue PyNone | Some n => of_int n end); ("items", WList l)]
  = match decode_all (λ w, as_dict w ≫= work_item_from_dict) l with
    | inl e => inl e | inr ws => inr (mkRouteBatch id route worker ws) end.
Proof. destruct l; [done|]. intros _. by destruct worker. Qed.

Lemma batch_completion_of_results id route l :
  l ≠ [] →
  batch_completion_from_dict [("batch_id", WText id); ("route_identity", WList route); ("results", WList l)]
  = match decode_all (λ w, as_dict w ≫= completion_event_from_dict) l with
    | inl e => inl e | inr es => inr (mkBatchCompletion id route es) end.
Proof. by destruct l. Qed.

Lemma route_batch_dict_roundtrip b : rb_items b ≠ [] → route_batch_from_dict (route_batch_to_dict b) = inr b.
Proof.
  destruct b as [id route worker items]. cbn [rb_items]. intros Hne. unfold route_batch_to_dict.
  cbn [rb_batch_id rb_route_identity rb_worker_index rb_items]. rewrite route_batch_of_items by by destruct items.
  rewrite (decode_all_map _ _ Datatypes.id); [by rewrite list_fmap_id|]. intros w. apply work_item_dict_roundtrip.
Qed.

Lemma batch_completion_dict_roundtrip c :
  bc_results c ≠ [] → batch_completion_from_dict (batch_completion_to_dict c) = inr c.
Proof.
  destruct c as [id route results]. cbn [bc_results]. intros Hne. unfold batch_completion_to_dict.
  cbn [bc_batch_id bc_route_identity bc_results]. rewrite batch_completion_of_results by by destruct results.
  rewrite (decode_all_map _ _ Datatypes.id); [by rewrite list_fmap_id|]. intros e. apply completion_dict_roundtrip.
Qed.

Lemma normalize_items ws q :
  normalize_decoded_payloads (WDict (worker_pipe_envelope (inl ws) q))
  = inr (mkIncoming (work_item_to_dict <$> ws) [("flush_enqueued_at"%string, q)] None).
Proof.
  transitivity (match decode_all as_dict (WDict ∘ work_item_to_dict <$> ws) with
    | inl e => inl e | inr ps => inr (mkIncoming ps [("flush_enqueued_at"%string, q)] None) end); [done|].
  by rewrite decode_all_dicts.
Qed.

Lemma normalize_route_batch batch q :
  rb_items batch ≠ [] →
  normalize_decoded_payloads (WDict (worker_pipe_envelope (inr batch) q))
  = inr (mkIncoming (work_item_to_dict <$> rb_items batch) [("flush_enqueued_at"%string, q)]
           (Some (rb_batch_id batch, rb_route_identity batch))).
Proof.
  intros Hne. transitivity (match route_batch_from_dict (route_batch_to_dict batch) with
    | inl e => inl e
    | inr b => inr (mkIncoming (work_item_to_dict <$> rb_items b) [("flush_enqueued_at"%string, q)]
                      (Some (rb_batch_id b, rb_route_identity b))) end); [done|].
  by rewrite route_batch_dict_roundtrip.
Qed.

Section wire.
Context {B : Type} `{ML : MsgpackLaws B}.

Lemma decode_packed w (b : B) max : packb w = Some b → byte_length b ≤ max → decode_msgpack_payload b max = inr w.
Proof.
  intros Hp Hl. unfold decode_msgpack_payload. rewrite (proj2 (Z.ltb_ge _ _)) by done. by rewrite (unpack_packed w b).
Qed.

(** C33. Work crosses the pipe unchanged: whatever the parent sends - a list of items or a non-empty route
    batch - that packs within the byte limit passes the parent's own check, and the worker decodes
    exactly the items that were sent, in order, with the flush time and, for a route batch, its
    identifier and route. *)
Theorem worker_pipe_roundtrip payload flush_enqueued_at (b : B) max :
  serialize_worker_pipe_payload payload flush_enqueued_at = Some b → byte_length b ≤ max →
  (∀ batch, payload = inr batch → rb_items batch ≠ []) →
  let items := match payload with inl items => items | inr batch => rb_items batch end in
  validate_packed_payload b max = inr ()
  ∧ decode_incoming_item b max = inr items
  ∧ decode_incoming_payloads b max
    = inr (mkIncoming (work_item_to_dict <$> items) [("flush_enqueued_at"%string, flush_enqueued_at)]
             (match payload with inl _ => None | inr batch => Some (rb_batch_id batch, rb_route_identity batch) end)).
Proof.
  intros Hp Hl Hne items. unfold serialize_worker_pipe_payload in Hp. split.
  { unfold validate_packed_payload. rewrite (proj2 (Z.ltb_ge _ _)) by done. by rewrite (unpack_packed _ b max Hp Hl). }
  assert (decode_incoming_payloads b max
    = inr (mkIncoming (work_item_to_dict <$> items) [("flush_enqueued_at"%string, flush_enqueued_at)]
             (match payload with inl _ => None | inr batch => Some (rb_batch_id batch, rb_route_identity batch) end))) as Hd.
  { unfold decode_incoming_payloads. rewrite (decode_packed _ b max Hp Hl). cbn [mbind decoded_bind].
    destruct payload as [ws|batch]; [apply normalize_items|]. by apply normalize_route_batch, Hne. }
  split; [|exact Hd]. unfold decode_incoming_item. rewrite Hd. apply decode_items_roundtrip.
Qed.

(** C34. Completions cross the queue unchanged: a non-empty batch of completions that packs within the
    byte limit is decoded by the parent into exactly its events, in order, and so is a completion
    sent by itself with the time it was enqueued at. *)
Theorem completion_roundtrip c now (b : B) max e extra b' :
  serialize_batch_completion_payload c now = Some b → byte_length b ≤ max → bc_results c ≠ [] →
  packb (WDict (completion_event_to_dict e [("completion_enqueued_at"%string, WFloat extra)])) = Some b' → byte_length b' ≤ max →
  decode_completion_queue_item_events b max = inr (bc_results c)
  ∧ decode_completion_queue_item_events b' max = inr [e].
Proof.
  intros Hp Hl Hne Hp' Hl'. unfold decode_completion_queue_item_events.
  rewrite (decode_packed _ b max Hp Hl), (decode_packed _ b' max Hp' Hl'). split.
  - transitivity (match batch_completion_from_dict (batch_completion_to_dict c) with
      | inl e => inl e | inr c => inr (bc_results c) end : Decoded _); [done|]. by rewrite batch_completion_dict_roundtrip.
  - by destruct e as [id [t n] offset epoch [] [error|] attempt].
Qed.

(** What does not fit is refused on both sides. *)
Lemma oversized_refused (b : B) max :
  max < byte_length b →
  validate_packed_payload b max = inl (ValueError "payload_too_large")
  ∧ decode_incoming_item b max = inl (ValueError "payload_too_large").
Proof.
  intros Hl. unfold validate_packed_payload, decode_incoming_item, decode_incoming_payloads, decode_msgpack_payload.
  by rewrite (proj2 (Z.ltb_lt _ _)).
Qed.
End wire.

(** ** A codec that satisfies the law: the bytes are the packed objects, one byte each *)

#[export] Instance object_msgpack : Msgpack (list Wire) :=
  {| packb w := Some [w]; unpackb max b := if max <? zlen b then None else Some b; byte_length := zlen |}.

#[export] Instance object_msgpack_laws : MsgpackLaws (list Wire).
Proof. intros w b max [= <-] Hl. cbn in *. by rewrite (proj2 (Z.ltb_ge _ _)). Qed.

Definition codec_demo_item : WorkItem :=
  mkWorkItem "w1" (mkTp "orders" 3) 41 1 (PyStr [97]) (PyBytes [0; 255]) 1 None.

Definition codec_demo_batch : RouteBatch := mkRouteBatch "b7" [WText "orders"; of_int 3] (Some 2) [codec_demo_item].

Definition codec_demo_event : CompletionEvent := mkCompletion "w1" (mkTp "orders" 3) 41 1 FAILURE (Some "boom"%string) 3.

Lemma worker_pipe_roundtrip_witness :
  decode_incoming_item [WDict (worker_pipe_envelope (inr codec_demo_batch) (5 # 2))] 1000 = inr [codec_demo_item].
Proof.
  refine (proj1 (proj2 (worker_pipe_roundtrip (B := list Wire) (inr codec_demo_batch) (5 # 2)
    [WDict (worker_pipe_envelope (inr codec_demo_batch) (5 # 2))] 1000 eq_refl _ _))).
  - done.
  - by intros ? [= <-].
Defined.

Lemma completion_roundtrip_witness :
  decode_completion_queue_item_events
    [WDict (batch_completion_envelope (mkBatchCompletion "b7" [WText "orders"] [codec_demo_event; codec_demo_event]) 1)] 1000
  = inr [codec_demo_event; codec_demo_event].
Proof.
  refine (proj1 (completion_roundtrip (B := list Wire) (mkBatchCompletion "b7" [WText "orders"] [codec_demo_event; codec_demo_event])
    1 _ 1000 codec_demo_event 1
    [WDict (completion_event_to_dict codec_demo_event [("completion_enqueued_at"%string, WFloat 1)])] eq_refl _ _ eq_refl _)); done.
Defined.
