(* ===== verification/BrokerCoordinator.v ===== *)
(** * The broker's side of the commit coordinator
    ([BrokerCommitCoordinatorSupport] of [control_plane/broker_commit_coordinator_support.py])

    The callbacks the broker gives the coordinator: building candidates from the trackers,
    submitting a batch to Kafka after revalidating it, and settling the trackers when the
    commit came back.  The Kafka commit runs off the event loop: the coordinator's state at
    that moment is an argument. *)

From S2P Require Import Prelude Vendor Runtime Dto OffsetTracker PyText MetadataEncoder PoisonMessage WorkQueueTopology ExecutionEngine WorkManager Dlq CommitPlanner Broker BrokerInv BrokerCompletion BrokerCommit BrokerDispatch CommitCoordinator CommitCoordinatorInv BrokerRebalance.

Section coordinator_support.
Context {E : Type} `{EE : ExecutionEngine E} `{TL : TrackerLibs}.
Context (cfg : BrokerConfig).
Implicit Types (b : Broker E) (c : CommitCoordinator).

Definition build_candidates (now : Q) (commits_to_make : list (TopicPartition * Z)) b : list CommitCandidate :=
  omap (λ p, (λ t, mkCandidate p.1 p.2 (get_current_epoch t) 0 now) <$> get_tracker p.1 b) commits_to_make.

(** Whether a candidate still belongs to the tracker's assignment *)
Definition still_tracked b (x : CommitCandidate) : bool :=
  match get_tracker (cc_tp x) b with
  | None => false
  | Some t => get_current_epoch t =? cc_assignment_epoch x
  end.

(** [commit_sync] up to the off-loop call: the candidates to commit and their offsets; the stale
    ones lose their leases.  [None] is the [KeyError] of [build_offsets_to_commit]. *)
Definition commit_sync_prepare (candidates : list CommitCandidate) c b
    : list CommitCandidate * option (list KafkaTopicPartition) * CommitCoordinator :=
  let tracked := filter (λ x, still_tracked b x = true) candidates in
  let stale_tps := cc_tp <$> filter (λ x, still_tracked b x = false) candidates in
  let c1 := if decide (stale_tps = []) then c else cancel_leases stale_tps c in
  (tracked,
   build_offsets_to_commit (bc_max_metadata_size cfg) (bc_max_completed_offsets cfg)
     ((λ x, (cc_tp x, cc_safe_offset x)) <$> tracked) (λ tp, get_tracker tp b) (bc_strategy cfg),
   c1).

(** [commit_if_active], with the coordinator as it is when the call runs: the offsets sent, or none *)
Definition commit_if_active (tracked : list CommitCandidate) (offsets : list KafkaTopicPartition) c
    : option (list KafkaTopicPartition) :=
  if forallb (active c) tracked then Some offsets else None.

(** [commit_sync]: what is sent, how it ends and the coordinator.  [later] is what the other tasks do
    to the coordinator before the call runs, [kafka_ok] whether Kafka accepts the commit. *)
Definition commit_sync (later : CommitCoordinator → CommitCoordinator) (kafka_ok : bool)
    (candidates : list CommitCandidate) c b : list KafkaTopicPartition * CommitOutcome * CommitCoordinator :=
  let '(tracked, offsets, c1) := commit_sync_prepare candidates c b in
  if decide (tracked = []) then ([], CommitOk, c1)
  else
    match offsets with
    | None => ([], WorkerCrash, c1)
    | Some ks =>
        let c2 := later c1 in
        match commit_if_active tracked ks c2 with
        | None => ([], BatchAborted, cancel_leases (cc_tp <$> tracked) c2)
        | Some sent => (sent, if kafka_ok then CommitOk else KafkaFailure, c2)
        end
    end.

(** One iteration of [settle_committed_offsets] *)
Definition settle_one c (acc : list (TopicPartition * Z) * Broker E) (s : CommitSettlement)
    : list (TopicPartition * Z) * Broker E :=
  let '(cleared, b) := acc in
  match get_tracker (cs_tp s) b with
  | None => acc
  | Some t =>
      if negb (get_current_epoch t =? cs_assignment_epoch s) then acc
      else if negb (is_active_lease (cs_tp s) (cs_assignment_epoch s) (cs_lease_id s) c) then acc
      else if cs_safe_offset s <=? last_committed_offset t then acc
      else (cleared ++ [(cs_tp s, cs_safe_offset s)], update_tracker (cs_tp s) (commit_through (cs_safe_offset s)) b)
  end.

Definition settle_committed_offsets (settlements : list CommitSettlement) c b : Broker E :=
  let '(commits_to_clear, b1) := fold_left (settle_one c) settlements ([], b) in
  if decide (commits_to_clear = []) then b1 else clear_committed_dirty_partitions commits_to_clear b1.

(** One iteration of [retain_failed_commit_offsets] *)
Definition retain_one c (reason : string) (b : Broker E) (s : CommitSettlement) : Broker E :=
  if negb (is_active_lease (cs_tp s) (cs_assignment_epoch s) (cs_lease_id s) c) then b
  else
    let b1 := b <| dirty_commit_partitions ::= λ d, {[cs_tp s]} ∪ d |> in
    if decide (reason = "kafka_exception"%string) then b1
    else record_commit_failure [(cs_tp s, cs_safe_offset s)] reason b1.

Definition retain_failed_commit_offsets (settlements : list CommitSettlement) (reason : string) c b : Broker E :=
  fold_left (retain_one c reason) settlements b.

(** ** Candidates are honest *)

(** A candidate stands for offsets that are settled in the tracker of its assignment. *)
Definition candidate_honest b (x : CommitCandidate) : Prop :=
  ∀ t, get_tracker (cc_tp x) b = Some t → cc_assignment_epoch x = epoch t → ∀ o, o ≤ cc_safe_offset x → settled t o.

Lemma build_candidates_honest now force b x :
  trackers_wf b → trackers_sound b → x ∈ build_candidates now (cycle_commits force b) b →
  candidate_honest b x ∧ still_tracked b x = true.
Proof.
  intros Hwf Hs ([tp h] & Hin & Hx)%list_elem_of_omap. cbn [fst snd] in Hx.
  destruct (cycle_commits_spec force b tp h Hwf Hs Hin) as (t & Ht & (_ & Hset & _)).
  rewrite Ht in Hx. injection Hx as <-. split.
  - intros t' Ht' _ o Ho. cbn in *. simplify_eq. by apply Hset.
  - unfold still_tracked. cbn. by rewrite Ht, Z.eqb_refl.
Qed.


(** A retained settlement marks its partition dirty exactly when its lease is active. *)
Lemma retain_one_dirty c reason b s :
  dirty_commit_partitions (retain_one c reason b s)
  = if is_active_lease (cs_tp s) (cs_assignment_epoch s) (cs_lease_id s) c
    then {[cs_tp s]} ∪ dirty_commit_partitions b else dirty_commit_partitions b.
Proof.
  unfold retain_one. destruct (is_active_lease _ _ _ c); cbn [negb]; [|done].
  by destruct (decide (reason = "kafka_exception"%string)).
Qed.

(** A failed commit leaves its partitions dirty, so that the next cycle offers them again. *)
Lemma retain_marks_dirty settlements reason c b s :
  s ∈ settlements → is_active_lease (cs_tp s) (cs_assignment_epoch s) (cs_lease_id s) c = true →
  cs_tp s ∈ dirty_commit_partitions (retain_failed_commit_offsets settlements reason c b).
Proof.
  intros Hin Ha. unfold retain_failed_commit_offsets. revert b.
  induction settlements as [|s' ss IH]; intros b; [by apply elem_of_nil in Hin|]. cbn [fold_left].
  apply elem_of_cons in Hin as [->|Hin]; [|by apply IH].
  apply (fold_left_inv (λ b, cs_tp s' ∈ dirty_commit_partitions b)).
  - intros b' x Hx. rewrite retain_one_dirty. clear Ha. destruct (is_active_lease _ _ _ c); [|done].
    by apply elem_of_union_r.
  - rewrite retain_one_dirty, Ha. by apply elem_of_union_l, elem_of_singleton.
Qed.

(** ** Settlement *)

(** What settling does to the trackers *)
Definition settles b b' : Prop :=
  trackers_wf b' ∧ ∀ tp, match get_tracker tp b with
    | None => get_tracker tp b' = None
    | Some t => ∃ t', get_tracker tp b' = Some t' ∧ tracker_inv t' ∧ epoch t' = epoch t
                      ∧ (∀ o, settled t' o ↔ settled t o) ∧ last_committed_offset t ≤ last_committed_offset t'
    end.

Lemma settles_refl b : trackers_wf b → trackers_sound b → settles b b.
Proof.
  intros Hwf Hs. split; [done|]. intros tp. destruct (get_tracker tp b) as [t|] eqn:Ht; [|done].
  exists t. split; [done|]. split; [by eapply Hs|]. repeat (split; [done|]). lia.
Qed.

Lemma settles_sound b b' : settles b b' → trackers_sound b'.
Proof.
  intros [_ H] tp t' Ht'. specialize (H tp). destruct (get_tracker tp b) as [t|]; [|congruence].
  destruct H as (t2 & ? & ? & _). by simplify_eq.
Qed.

Lemma settles_trans b1 b2 b3 : settles b1 b2 → settles b2 b3 → settles b1 b3.
Proof.
  intros [_ H1] [H2 H3]. split; [done|]. intros tp. specialize (H1 tp). specialize (H3 tp).
  destruct (get_tracker tp b1) as [t1|]; [|rewrite H1 in H3; exact H3].
  destruct H1 as (t2 & E2 & I2 & P2 & S2 & L2). rewrite E2 in H3. destruct H3 as (t3 & E3 & I3 & P3 & S3 & L3).
  exists t3. split; [done|]. split; [done|]. split; [congruence|]. split; [|lia].
  intros o. by rewrite S3, S2.
Qed.

Lemma settles_same b b1 b2 : settles b b1 → same_trackers b1 b2 → settles b b2.
Proof.
  intros [H1 H2] Hs. split; [by apply (same_trackers_wf b1)|]. intros tp.
  rewrite (same_trackers_get _ _ _ Hs). apply H2.
Qed.

(** Committing through a settled prefix *)
Lemma commit_through_settles tp h b t :
  trackers_wf b → trackers_sound b → get_tracker tp b = Some t → (∀ o, o ≤ h → settled t o) →
  last_committed_offset t < h → settles b (update_tracker tp (commit_through h) b).
Proof.
  intros Hwf Hs Ht Hset Hlt. pose proof (Hs _ _ Ht) as Hi. destruct (committable_spec t Hi) as (Hb & _ & Hn).
  assert (h ≤ get_committable_high_water_mark None t) as Hh.
  { destruct (decide (h ≤ get_committable_high_water_mark None t)); [done|]. exfalso. apply Hn, Hset. lia. }
  destruct (commit_through_spec h t Hi Hlt) as (E1 & _ & E3 & _).
  split; [by apply update_tracker_wf|]. intros tp'. rewrite get_update_tracker by done.
  destruct (decide (tp = tp')) as [<-|]; [|apply (settles_refl b Hwf Hs)]. rewrite Ht. cbn.
  exists (commit_through h t). split; [done|]. split; [apply commit_through_inv; [lia|done]|]. split; [done|].
  split; [by apply commit_through_settled|lia].
Qed.

(** A settlement reports a candidate that was honest when its batch was sent. *)
Definition settlement_honest b (s : CommitSettlement) : Prop :=
  ∀ t, get_tracker (cs_tp s) b = Some t → cs_assignment_epoch s = epoch t → ∀ o, o ≤ cs_safe_offset s → settled t o.

Lemma settlement_honest_settles b b' s : settles b b' → settlement_honest b s → settlement_honest b' s.
Proof.
  intros [_ H] Hh t' Ht' He o Ho. specialize (H (cs_tp s)).
  destruct (get_tracker (cs_tp s) b) as [t|] eqn:Ht; [|congruence].
  destruct H as (t2 & E2 & _ & P2 & S2 & _). simplify_eq. apply S2. apply (Hh t Ht); [congruence|done].
Qed.

(** The loop: what it clears comes from active settlements, and what moved was cleared *)
Record settle_post c (ss : list CommitSettlement) (cleared : list (TopicPartition * Z)) b
    (cleared' : list (TopicPartition * Z)) b' : Prop := mkSettlePost {
  sp_settles : settles b b';
  sp_keeps p : p ∈ cleared → p ∈ cleared';
  sp_from p : p ∈ cleared' → p ∈ cleared ∨ ∃ s, s ∈ ss ∧ p = (cs_tp s, cs_safe_offset s)
    ∧ is_active_lease (cs_tp s) (cs_assignment_epoch s) (cs_lease_id s) c = true ∧ is_Some (get_tracker (cs_tp s) b);
  sp_moved tp t t' : get_tracker tp b = Some t → get_tracker tp b' = Some t' →
    last_committed_offset t' ≠ last_committed_offset t → (tp, last_committed_offset t') ∈ cleared';
}.

Lemma settle_post_skip c s ss cleared b cleared' b' :
  settle_post c ss cleared b cleared' b' → settle_post c (s :: ss) cleared b cleared' b'.
Proof.
  intros [H1 H2 H3 H4]. constructor; [done|done| |done]. intros p [?|(s0 & ? & ?)]%H3; [by left|].
  right. exists s0. split; [by right|done].
Qed.

Lemma settle_post_step c s ss cleared b t cleared' b' :
  trackers_wf b → trackers_sound b → get_tracker (cs_tp s) b = Some t →
  last_committed_offset t < cs_safe_offset s →
  is_active_lease (cs_tp s) (cs_assignment_epoch s) (cs_lease_id s) c = true →
  settles b (update_tracker (cs_tp s) (commit_through (cs_safe_offset s)) b) →
  settle_post c ss (cleared ++ [(cs_tp s, cs_safe_offset s)])
    (update_tracker (cs_tp s) (commit_through (cs_safe_offset s)) b) cleared' b' →
  settle_post c (s :: ss) cleared b cleared' b'.
Proof.
  intros Hwf Hs Ht Hlt Ha Hb1. set (b1 := update_tracker _ _ b) in *. intros [H1 H2 H3 H4].
  constructor; [by apply (settles_trans b b1)|intros p Hp; apply H2, elem_of_app; by left| |].
  - intros p [[?| ->%list_elem_of_singleton]%elem_of_app|(s0 & Hin & Hp & Hact & Hsome)]%H3; [by left| |].
    + right. exists s. split; [left|]. rewrite Ht. eauto.
    + right. exists s0. split; [by right|]. split; [done|]. split; [done|].
      pose proof (proj2 Hb1 (cs_tp s0)) as Hx. destruct (get_tracker (cs_tp s0) b); [eauto|].
      rewrite Hx in Hsome. done.
  - intros tp t0 t' Ht0 Ht' Hne.
    pose proof (get_update_tracker (cs_tp s) tp (commit_through (cs_safe_offset s)) b Hwf) as Hg. fold b1 in Hg.
    destruct (decide (cs_tp s = tp)) as [<-|]; [|rewrite Ht0 in Hg; by apply (H4 tp t0 t')].
    rewrite Ht in Hg, Ht0. cbn in Hg. injection Ht0 as <-.
    destruct (commit_through_spec (cs_safe_offset s) t (Hs _ _ Ht) Hlt) as (E1 & _).
    destruct (decide (last_committed_offset t' = cs_safe_offset s)) as [->|Hne'].
    + apply H2, elem_of_app. right. by left.
    + apply (H4 _ _ t' Hg Ht'). by rewrite E1.
Qed.

Lemma settle_loop_spec c settlements cleared b :
  trackers_wf b → trackers_sound b → (∀ s, s ∈ settlements → settlement_honest b s) →
  let r := fold_left (settle_one c) settlements (cleared, b) in settle_post c settlements cleared b r.1 r.2.
Proof.
  revert cleared b. induction settlements as [|s ss IH]; intros cleared b Hwf Hs Hh; cbn [fold_left].
  { constructor; cbn; [by apply settles_refl|done|by left|]. intros tp t t' H1 H2. by simplify_eq. }
  assert (∀ s', s' ∈ ss → settlement_honest b s') as Hh' by (intros s' Hs'; apply Hh; by right).
  pose proof (settle_post_skip _ s _ _ _ _ _ (IH cleared b Hwf Hs Hh')) as Hskip. cbn zeta.
  unfold settle_one at 2 4. destruct (get_tracker (cs_tp s) b) as [t|] eqn:Ht; [|exact Hskip].
  destruct (Z.eqb_spec (get_current_epoch t) (cs_assignment_epoch s)) as [He|]; cbn [negb]; [|exact Hskip].
  destruct (is_active_lease _ _ _ c) eqn:Ha; cbn [negb]; [|exact Hskip].
  destruct (Z.leb_spec (cs_safe_offset s) (last_committed_offset t)) as [|Hlt]; [exact Hskip|]. clear Hskip.
  assert (settles b (update_tracker (cs_tp s) (commit_through (cs_safe_offset s)) b)) as Hb1.
  { apply (commit_through_settles _ _ _ t); [done|done|done| |done]. apply (Hh s); [left|done|by symmetry]. }
  apply (settle_post_step c s ss cleared b t); [done..|]. apply IH; [apply Hb1|by eapply settles_sound|].
  intros s' Hs'. apply (settlement_honest_settles b); [done|by apply Hh'].
Qed.

(** Settling a commit is safe and fenced: no tracker gains or loses a settled offset, no mark goes
    back, and a mark only moves to the offset of a settlement of the same partition whose lease is
    still active; settlements of revoked partitions, older assignments or cancelled leases change
    nothing. *)
Theorem settlement_fenced settlements c b :
  trackers_wf b → trackers_sound b → (∀ s, s ∈ settlements → settlement_honest b s) →
  let b' := settle_committed_offsets settlements c b in
  settles b b'
  ∧ ∀ tp t t', get_tracker tp b = Some t → get_tracker tp b' = Some t' →
      last_committed_offset t' ≠ last_committed_offset t →
      ∃ s, s ∈ settlements ∧ cs_tp s = tp ∧ cs_safe_offset s = last_committed_offset t'
        ∧ is_active_lease tp (cs_assignment_epoch s) (cs_lease_id s) c = true.
Proof.
  intros Hwf Hs Hh b'. unfold b', settle_committed_offsets.
  pose proof (settle_loop_spec c settlements [] b Hwf Hs Hh) as Hl.
  destruct (fold_left (settle_one c) settlements ([], b)) as [cleared b1]. cbn [fst snd] in Hl.
  destruct Hl as [H1 _ H3 H4].
  set (b2 := if decide (cleared = []) then b1 else _).
  assert (same_trackers b1 b2) as Hsame.
  { unfold b2. case_decide; [done|]. apply clear_committed_spec. intros p [Hp|(s & _ & -> & _ & Hsome)]%H3;
      [by apply elem_of_nil in Hp|]. cbn.
    pose proof (proj2 H1 (cs_tp s)) as Hx. destruct (get_tracker (cs_tp s) b); [|by destruct Hsome].
    destruct Hx as (t' & -> & _). eauto. }
  split; [by apply (settles_same b b1)|]. intros tp t t' Ht Ht' Hne.
  rewrite (same_trackers_get _ _ _ Hsame) in Ht'. pose proof (H4 tp t t' Ht Ht' Hne) as Hin.
  apply H3 in Hin as [Hin|(s & Hin & [= Htp Hlc] & Hact & _)]; [by apply elem_of_nil in Hin|].
  exists s. rewrite Htp. eauto.
Qed.
End coordinator_support.

(** ** Witnesses: offset 0 of the demonstration broker goes through the coordinator *)

#[local] Instance coordinator_demo_libs : TrackerLibs := vendor_lists.

Definition coordinator_demo_batch : list CommitCandidate := [mkCandidate broker_demo_tp 0 1 1 1%Q].

Definition coordinator_demo : CommitCoordinator := worker_begin rebalance_demo_coordinator.

Lemma coordinator_demo_tracker t : get_tracker broker_demo_tp commit_demo_broker = Some t → t = commit_demo_tracker.
Proof.
  change commit_demo_broker with (broker_with commit_demo_tracker). rewrite broker_with_tracker. congruence.
Qed.

Lemma coordinator_demo_settled o : o ≤ 0 → settled commit_demo_tracker o.
Proof.
  intros Ho. destruct (decide (o = 0)) as [->|]; [apply mark_complete_settles|].
  left. assert (last_committed_offset commit_demo_tracker = -1) as -> by (vm_compute; reflexivity). lia.
Qed.

Lemma coordinator_demo_honest x : x ∈ coordinator_demo_batch → candidate_honest commit_demo_broker x.
Proof.
  intros ->%list_elem_of_singleton t Ht _ o Ho. cbn in *. apply coordinator_demo_tracker in Ht as ->.
  by apply coordinator_demo_settled.
Qed.

Lemma coordinator_demo_sent :
  k_offset <$> (commit_sync broker_demo_config id true coordinator_demo_batch coordinator_demo commit_demo_broker).1.1
  = [Some 1].
Proof. vm_compute. reflexivity. Qed.


Definition coordinator_demo_settlements : list CommitSettlement := [mkSettlement broker_demo_tp 0 1 1 true None].

Lemma coordinator_demo_settlement_honest s :
  s ∈ coordinator_demo_settlements → settlement_honest commit_demo_broker s.
Proof.
  intros ->%list_elem_of_singleton t Ht _ o Ho. cbn in *. apply coordinator_demo_tracker in Ht as ->.
  by apply coordinator_demo_settled.
Qed.

Lemma coordinator_demo_marks :
  last_committed_offset <$>
    get_tracker broker_demo_tp (settle_committed_offsets coordinator_demo_settlements coordinator_demo commit_demo_broker)
  = Some 0.
Proof. vm_compute. reflexivity. Qed.

Lemma settlement_fenced_witness :
  ∃ s, s ∈ coordinator_demo_settlements ∧ cs_safe_offset s = 0
    ∧ is_active_lease broker_demo_tp (cs_assignment_epoch s) (cs_lease_id s) coordinator_demo = true.
Proof.
  pose proof coordinator_demo_marks as Hm.
  destruct (get_tracker broker_demo_tp (settle_committed_offsets coordinator_demo_settlements coordinator_demo
    commit_demo_broker)) as [t'|] eqn:Ht'; [|discriminate Hm]. injection Hm as Hm.
  destruct (settlement_fenced coordinator_demo_settlements coordinator_demo commit_demo_broker (broker_with_wf _)
    commit_demo_sound coordinator_demo_settlement_honest) as [_ H].
  destruct (H broker_demo_tp commit_demo_tracker t' (broker_with_tracker _) Ht') as (s & H1 & H2 & H3 & H4).
  { rewrite Hm. vm_compute. discriminate. }
  exists s. split; [exact H1|]. split; [rewrite H3; exact Hm|exact H4].
Defined.
