(* ===== verification/CoordinatorDrain.v ===== *)
(** * Draining the commit coordinator at shutdown
    ([drain] of [control_plane/commit_coordinator.py], [drain_or_sync_fallback_for_shutdown] of
    [control_plane/broker_commit_coordinator_support.py])

    The drain looks at the coordinator, sleeps and looks again, until no candidate is left or the
    time is up; while it sleeps, the worker and the other tasks run.  What is left then is handed to
    a synchronous commit. *)

From S2P Require Import Prelude Dto CommitCoordinator CommitCoordinatorInv.

(** What one pass is told: the clock, and what runs while it sleeps *)
Abbreviation DrainPass := (Q * (CommitCoordinator → CommitCoordinator))%type.

Implicit Types (c : CommitCoordinator) (tps : option (list TopicPartition)).

(** ** The code *)

(** The loop of [drain]; [None]: more passes would follow *)
Fixpoint drain_loop (deadline : Q) tps (passes : list DrainPass) c : option (bool * CommitCoordinator) :=
  if decide (remaining_candidates tps c = []) then Some (true, c)
  else
    match passes with
    | [] => None
    | (now, others_run) :: rest =>
        let wait c := if (deadline - now <=q 0)%Q then Some (false, c) else drain_loop deadline tps rest (others_run c) in
        match worker c with
        | NoWorker =>
            if negb (bool_decide (pending c = [])) && healthy c then wait (ensure_worker c) else Some (false, c)
        | _ => wait c
        end
    end.

(** [drain]; [start] is the clock at its beginning *)
Definition coordinator_drain (start timeout : Q) tps (passes : list DrainPass) c : option (bool * CommitCoordinator) :=
  drain_loop (start + Qmax0 timeout)%Q tps passes c.

(** What is left to do: nothing, with the answer, or a synchronous commit *)
Inductive Fallback :=
  | Answer (drained : bool)
  | SyncCommit (commits : list (TopicPartition * Z)).

(** The smaller of the two time limits *)
Definition drain_timeout (deadline now : Q) (timeout_ms : Z) : Q :=
  let remaining_seconds := Qmax0 (deadline - now) in
  let configured := Qmax0 (timeout_ms # 1000) in
  if (configured <q remaining_seconds) then configured else remaining_seconds.

(** [drain_or_sync_fallback_for_shutdown] *)
Definition drain_or_sync_fallback (deadline now start : Q) (timeout_ms : Z) (has_consumer : bool)
    (passes : list DrainPass) (coordinator : option CommitCoordinator)
    : option (Fallback * option CommitCoordinator) :=
  match coordinator with
  | None => Some (Answer true, None)
  | Some c =>
      match coordinator_drain start (drain_timeout deadline now timeout_ms) None passes (stop_accepting c) with
      | None => None
      | Some (true, c1) => Some (Answer true, Some c1)
      | Some (false, c1) =>
          let remaining := remaining_candidates None c1 in
          Some (if negb (bool_decide (remaining = [])) && has_consumer
                then SyncCommit ((λ x, (cc_tp x, cc_safe_offset x)) <$> od_values remaining)
                else Answer (bool_decide (remaining = [])),
                Some (cancel_leases (od_keys remaining) c1))
      end
  end.

(** ** Remaining candidates *)

Definition better (acc : odict TopicPartition CommitCandidate) (x : CommitCandidate) : odict TopicPartition CommitCandidate :=
  match od_get (cc_tp x) acc with
  | None => od_set (cc_tp x) x acc
  | Some cur => if cc_safe_offset cur <? cc_safe_offset x then od_set (cc_tp x) x acc else acc
  end.

(** Whether a table has a candidate of [tp] at [o] or above *)
Definition reaches (d : odict TopicPartition CommitCandidate) (tp : TopicPartition) (o : Z) : Prop :=
  ∃ y, od_get tp d = Some y ∧ cc_tp y = tp ∧ o ≤ cc_safe_offset y.

Lemma better_keeps acc x tp o : reaches acc tp o → reaches (better acc x) tp o.
Proof.
  intros (y & Hy & Ht & Ho). unfold better, reaches. destruct (od_get (cc_tp x) acc) as [cur|] eqn:Hc.
  - destruct (cc_safe_offset cur <? cc_safe_offset x) eqn:Hlt; [|by eauto]. rewrite od_get_set. case_decide as Heq; [|by eauto].
    exists x. rewrite Heq in Hc. simplify_eq. split; [done|]. split; [done|]. lia.
  - exists y. rewrite od_get_set_ne by congruence. done.
Qed.

Lemma better_reaches acc x :
  (∀ tp y, od_get tp acc = Some y → cc_tp y = tp) → reaches (better acc x) (cc_tp x) (cc_safe_offset x).
Proof.
  intros Hacc. unfold better, reaches. destruct (od_get (cc_tp x) acc) as [cur|] eqn:Hc.
  - destruct (cc_safe_offset cur <? cc_safe_offset x) eqn:Hlt.
    + exists x. rewrite od_get_set_eq. split; [done|]. split; [done|lia].
    + exists cur. split; [done|]. split; [by apply Hacc|lia].
  - exists x. rewrite od_get_set_eq. split; [done|]. split; [done|lia].
Qed.

Lemma better_table acc x :
  (∀ tp y, od_get tp acc = Some y → cc_tp y = tp) → ∀ tp y, od_get tp (better acc x) = Some y → cc_tp y = tp.
Proof.
  intros Hacc tp y. unfold better. repeat case_match; [|by apply Hacc|];
    (rewrite od_get_set; case_decide; [by intros [= <-]|by apply Hacc]).
Qed.

Lemma fold_better xs acc :
  (∀ tp y, od_get tp acc = Some y → cc_tp y = tp) →
  (∀ tp o, reaches acc tp o → reaches (fold_left better xs acc) tp o)
  ∧ ∀ x, x ∈ xs → reaches (fold_left better xs acc) (cc_tp x) (cc_safe_offset x).
Proof.
  revert acc. induction xs as [|x xs IH]; intros acc Hacc; cbn [fold_left]; [by split; [|intros ? ?%elem_of_nil]|].
  destruct (IH (better acc x) (better_table acc x Hacc)) as [H1 H2]. split.
  - intros tp o Hr. by apply H1, better_keeps.
  - intros y [->|Hy]%elem_of_cons; [|by apply H2]. by apply H1, better_reaches.
Qed.

(** Every candidate is covered by the one that remains for its partition. *)
Lemma remaining_reaches c x :
  x ∈ live_candidates c → reaches (remaining_candidates None c) (cc_tp x) (cc_safe_offset x).
Proof.
  intros Hx. unfold remaining_candidates. apply (fold_better (od_values (in_flight c) ++ od_values (pending c)) []); [done|].
  unfold live_candidates in Hx. set_solver.
Qed.

Lemma remaining_none c : coord_core c → remaining_candidates None c = [] → pending c = [] ∧ in_flight c = [].
Proof.
  intros Hc Hr. assert (∀ x, x ∉ live_candidates c) as Hno.
  { intros x Hx. destruct (remaining_reaches c x Hx) as (y & Hy & _). rewrite Hr in Hy. done. }
  unfold live_candidates in Hno. split.
  - destruct (pending c) as [|[k v] l]; [done|]. destruct (Hno v). apply elem_of_app. left. by left.
  - destruct (in_flight c) as [|[k v] l]; [done|]. destruct (Hno v). apply elem_of_app. right. by left.
Qed.

(** ** What a drain does not lose *)

(** The candidate of a partition that is committed next, or is being committed *)
Definition next_up c (tp : TopicPartition) (x : CommitCandidate) : Prop :=
  od_get tp (in_flight c) = Some x ∨ od_get tp (in_flight c) = None ∧ od_get tp (pending c) = Some x.

(** Steps that do not give up the candidates of [tp] *)
Definition spares (tp : TopicPartition) (op : CoordOp) : Prop :=
  match op with
  | OpStop tps | OpCancel tps => tp ∉ tps
  | OpCommitDone BatchAborted | OpCommitDone WorkerCrash => False
  | _ => True
  end.

(** A commit that came back was accepted or is retried *)
Definition no_batch_lost c : Prop :=
  ∀ o batch ss, worker c = Notifying o batch ss → o = CommitOk ∨ o = KafkaFailure.

(** After an accepted commit the offsets in flight are the settled ones. *)
Definition in_flight_settled c : Prop :=
  ∀ batch ss tp y, worker c = Notifying CommitOk batch ss → od_get tp (in_flight c) = Some y →
    latest c tp = cc_safe_offset y.

Record drain_inv c : Prop := mkDrainInv {
  dr_inv : coord_inv c;
  dr_accepting : accepting c = false;
  dr_kept : no_batch_lost c;
  dr_settled : in_flight_settled c;
}.

Definition covered (tp : TopicPartition) (o : Z) c : Prop :=
  o ≤ latest c tp ∨ ∃ x, next_up c tp x ∧ o ≤ cc_safe_offset x.

(** What the operations on partitions leave alone *)
Record only_tables c c' : Prop := mkOnlyTables {
  ot_accepting : accepting c' = accepting c;
  ot_worker : worker c' = worker c;
  ot_latest tp : latest c' tp = latest c tp;
  ot_in_flight tp y : od_get tp (in_flight c') = Some y → od_get tp (in_flight c) = Some y;
}.

#[local] Instance only_tables_preorder : PreOrder only_tables.
Proof.
  split; [intros c; by constructor|]. intros c1 c2 c3 [A1 W1 L1 F1] [A2 W2 L2 F2].
  constructor; intros; [congruence..| |by apply F1, F2]. by rewrite L2.
Qed.

Lemma only_tables_inv c c' : only_tables c c' → coord_inv c' → drain_inv c → drain_inv c'.
Proof.
  intros [A W L F] Hi [_ Ha Hk Hs]. constructor; [done|congruence| |].
  - intros o batch ss. rewrite W. apply Hk.
  - intros batch ss tp y Hw Hy. rewrite L. rewrite W in Hw. by apply (Hs batch ss), F.
Qed.

#[local] Arguments od_pop : simpl never.

Lemma cancel_partition_only c tp' :
  only_tables c (cancel_partition c tp')
  ∧ ∀ tp, tp ≠ tp' → od_get tp (in_flight (cancel_partition c tp')) = od_get tp (in_flight c)
      ∧ od_get tp (pending (cancel_partition c tp')) = od_get tp (pending c).
Proof.
  unfold cancel_partition. destruct (od_get tp' (pending c)); cbn; destruct (od_get tp' (in_flight c)); cbn;
    (split; [constructor; try done; cbn; intros tp y; rewrite ?od_get_pop; by repeat case_decide
            |intros tp Hne; by rewrite ?od_get_pop_ne]).
Qed.

Lemma stop_partition_only c tp' :
  only_tables c (stop_partition c tp')
  ∧ ∀ tp, tp ≠ tp' → od_get tp (in_flight (stop_partition c tp')) = od_get tp (in_flight c)
      ∧ od_get tp (pending (stop_partition c tp')) = od_get tp (pending c).
Proof.
  unfold stop_partition. cbn. destruct (od_get tp' (pending c)); cbn;
    (split; [by constructor|intros tp Hne; by rewrite ?od_get_pop_ne]).
Qed.

(** The two sweeps over partitions *)
Lemma sweep_only (f : CommitCoordinator → TopicPartition → CommitCoordinator) ps c :
  (∀ c tp', only_tables c (f c tp') ∧ ∀ tp, tp ≠ tp' →
     od_get tp (in_flight (f c tp')) = od_get tp (in_flight c) ∧ od_get tp (pending (f c tp')) = od_get tp (pending c)) →
  only_tables c (fold_left f ps c) ∧ ∀ tp, tp ∉ ps →
    od_get tp (in_flight (fold_left f ps c)) = od_get tp (in_flight c)
    ∧ od_get tp (pending (fold_left f ps c)) = od_get tp (pending c).
Proof.
  intros Hf. revert c. induction ps as [|tp' ps IH]; intros c; cbn [fold_left]; [by split|].
  destruct (Hf c tp') as [H1 H2], (IH (f c tp')) as [H3 H4]. split; [by etransitivity|].
  intros tp [Hne Hni]%not_elem_of_cons. destruct (H4 tp Hni) as [-> ->]. by apply H2.
Qed.

Lemma covered_same tp o c c' :
  latest c' tp = latest c tp → od_get tp (in_flight c') = od_get tp (in_flight c) →
  od_get tp (pending c') = od_get tp (pending c) → covered tp o c → covered tp o c'.
Proof. unfold covered, next_up. by intros -> -> ->. Qed.

Lemma begin_drains tp o c : worker c = LoopHead → drain_inv c → covered tp o c →
  drain_inv (worker_begin c) ∧ covered tp o (worker_begin c).
Proof.
  intros Hw Hd Hc. pose proof (worker_begin_inv c Hw (dr_inv _ Hd)) as Hi. destruct Hd as [[Hcore _] Ha Hk Hs].
  pose proof (co_worker _ Hcore) as Hf. unfold worker_ok in Hf. rewrite Hw in Hf. revert Hi. unfold worker_begin.
  case_decide as Hp; [by intros Hi; split; [constructor|]|]. destruct (negb (healthy c)); [by intros Hi; split; [constructor|]|].
  cbn zeta. rewrite (table_rebuild _ (co_pending _ Hcore)). intros Hi. split; [by constructor|].
  destruct Hc as [Hl|(x & Hx & Ho)]; [by left|right]. exists x. split; [|done]. left. cbn.
  destruct Hx as [Hx|[_ Hx]]; [by rewrite Hf in Hx|done].
Qed.

Lemma commit_done_drains tp o outcome batch c :
  worker c = Committing batch → outcome = CommitOk ∨ outcome = KafkaFailure → drain_inv c → covered tp o c →
  drain_inv (worker_commit_done outcome batch c) ∧ covered tp o (worker_commit_done outcome batch c).
Proof.
  intros Hw Ho Hd Hc. pose proof (commit_done_inv outcome batch c Hw (dr_inv _ Hd)) as Hi.
  pose proof (λ tp, commit_ok_latest c batch tp (dr_inv _ Hd) Hw) as Hl.
  pose proof (co_worker _ (proj1 (dr_inv _ Hd))) as Hwo. unfold worker_ok in Hwo. rewrite Hw in Hwo. destruct Hwo as [_ Hab].
  destruct Hd as [_ Ha _ _]. destruct Ho as [->| ->]; split; try done.
  - constructor; try done; [by intros o' b' ss' [= <- _ _]; left|].
    intros b' ss' tp' y _ Hy. rewrite Hl. change (in_flight _) with (in_flight c) in Hy. by rewrite Hy.
  - destruct Hc as [Hle|(x & Hx & Ho)]; [left|by right; exists x].
    rewrite Hl. destruct (od_get tp (in_flight c)) as [y|] eqn:Hy; [|done]. pose proof (Hab tp y Hy). lia.
  - constructor; try done. intros o' b' ss' [= <- _ _]. by right.
Qed.

Lemma notified_drains tp o ok outcome batch ss c :
  worker c = Notifying outcome batch ss → drain_inv c → covered tp o c →
  drain_inv (worker_notified ok outcome batch ss c) ∧ covered tp o (worker_notified ok outcome batch ss c).
Proof.
  intros Hw Hd Hc. pose proof (notified_inv ok outcome batch ss c Hw (dr_inv _ Hd)) as Hi.
  pose proof (waiting_batch c batch (dr_inv _ Hd) ltac:(eauto)) as Hb.
  revert Hi. unfold worker_notified. set (b := ok || _). set (c1 := if b then c else callback_crashed ss c).
  assert (coord_inv c1) as Hi1 by by apply callback_result_inv, Hd.
  assert (accepting c1 = false) as Ha by (unfold c1; destruct b; [apply Hd|done]).
  assert (latest c1 tp = latest c tp ∧ in_flight c1 = in_flight c ∧ pending c1 = pending c ∧ lease_counter c1 = lease_counter c)
    as (Hl & Hf & Hp & Hn) by (unfold c1; by destruct b).
  rewrite <-Hf, <-Hp, <-Hn in Hb. clearbody c1 b.
  destruct (dr_kept _ Hd _ _ _ Hw) as [-> | ->]; cbn zeta; intros Hi; split.
  - constructor; [done|by destruct (ok && _)|by intros ???; destruct (ok && _)|by intros ????; destruct (ok && _)].
  - assert (covered tp o (c1 <| in_flight := [] |>)) as H; [|by destruct (ok && _)].
    destruct Hc as [Hle|(x & [Hx|[Hx1 Hx2]] & Ho)].
    + left. change (o ≤ latest c1 tp). lia.
    + left. change (o ≤ latest c1 tp). rewrite Hl, (dr_settled _ Hd _ _ _ _ Hw Hx). done.
    + right. exists x. split; [|done]. right. split; [done|]. cbn. by rewrite Hp.
  - constructor; [done| |done|done]. destruct (retry_all_pending c1 batch Hi1 Hb) as (p & -> & _). done.
  - destruct (retry_all_pending c1 batch Hi1 Hb) as (p & -> & _ & Hget).
    destruct Hc as [Hle|(x & Hx & Ho)]; [left; change (o ≤ latest c1 tp); lia|right].
    exists x. split; [|done]. right. split; [done|]. cbn. rewrite Hget, Hf, Hp.
    destruct Hx as [Hx|[Hx1 Hx2]]; [by rewrite Hx|by rewrite Hx1].
Qed.

(** A step of another task or of the worker *)
Lemma drain_step tp o c op c' :
  coord_step c op c' → drain_inv c → spares tp op → covered tp o c → drain_inv c' ∧ covered tp o c'.
Proof.
  intros Hs Hd Hsp Hc. pose proof (coord_step_inv _ _ _ (dr_inv _ Hd) Hs) as Hi.
  destruct Hs as [now xs| |ps|ps|ps|Hw|outcome batch Hw|ok outcome batch ss Hw].
  - unfold enqueue. by rewrite (dr_accepting _ Hd).
  - split; [|done]. destruct Hd. by constructor.
  - destruct (sweep_only stop_partition ps c stop_partition_only) as [H1 H2]. split.
    + apply (only_tables_inv c); [|done..]. destruct H1. by constructor.
    + destruct (H2 tp Hsp). by apply (covered_same tp o c); [apply H1|..].
  - split; [|done]. destruct Hd. by constructor.
  - destruct (sweep_only cancel_partition ps c cancel_partition_only) as [H1 H2]. split.
    + apply (only_tables_inv c); [|done..]. destruct H1. by constructor.
    + destruct (H2 tp Hsp). by apply (covered_same tp o c); [apply H1|..].
  - by apply begin_drains.
  - apply commit_done_drains; [done| |done..]. destruct outcome; cbn in Hsp; auto; done.
  - by apply notified_drains.
Qed.

(** *** Before the drain *)

Lemma enqueue_one_keeps now x c c' ch k :
  enqueue_one now x c = Some (c', ch, k) → in_flight c' = in_flight c ∧ worker c' = worker c.
Proof. unfold enqueue_one. intros H. repeat case_match; by simplify_eq. Qed.

Lemma enqueue_keeps now xs c :
  in_flight (enqueue now xs c).2 = in_flight c
  ∧ (worker (enqueue now xs c).2 = worker c ∨ worker (enqueue now xs c).2 = LoopHead).
Proof.
  assert (∀ xs ch k c0 c' ch' k', enqueue_loop now xs ch k c0 = Some (c', ch', k') →
    in_flight c' = in_flight c0 ∧ worker c' = worker c0) as Hloop.
  { clear. intros xs. induction xs as [|x xs IH]; intros ch k c0 c' ch' k'; cbn; [by intros [= -> _ _]|].
    destruct (enqueue_one now x c0) as [[[c1 ch1] k1]|] eqn:He; [|done]. intros [-> ->]%IH. by eapply enqueue_one_keeps. }
  unfold enqueue. destruct (_ || _); [by split; [|left]|].
  destruct (enqueue_loop _ _ _ _ _) as [[[c1 ch] k]|] eqn:He; cbn; [|by split; [|left]].
  apply Hloop in He as [Hf Hw]. destruct ch; cbn; [|by split; [|left]]. unfold ensure_worker.
  destruct (k =? 0); cbn; destruct (worker c1) eqn:Hw1; cbn; (split; [done|]); rewrite ?Hw1, <-?Hw; auto.
Qed.

Lemma in_flight_settled_step c op c' :
  coord_step c op c' → coord_inv c → in_flight_settled c → in_flight_settled c'.
Proof.
  intros Hs Hi Hset. destruct Hs as [now xs| |ps|ps|ps|Hw|outcome batch Hw|ok outcome batch ss Hw]; try done.
  - destruct (enqueue_keeps now xs c) as [Hf Hw]. intros batch ss tp y Hw' Hy. unfold latest.
    rewrite (proj2 (enqueue_inv now xs c Hi)). rewrite Hf in Hy. destruct Hw as [Hw|Hw]; [|congruence].
    apply (Hset batch ss tp); congruence.
  - destruct (sweep_only stop_partition ps c stop_partition_only) as [[A W L F] _]. intros batch ss tp y Hw Hy.
    etransitivity; [exact (L tp)|]. apply (Hset batch ss); [by rewrite <-W|by apply F].
  - destruct (sweep_only cancel_partition ps c cancel_partition_only) as [[A W L F] _]. intros batch ss tp y Hw Hy.
    etransitivity; [exact (L tp)|]. apply (Hset batch ss); [by rewrite <-W|by apply F].
  - unfold worker_begin. case_decide; [done|]. by destruct (negb _).
  - intros b' ss' tp' y Hw' Hy. destruct outcome; try done. rewrite (commit_ok_latest c batch tp' Hi Hw).
    change (in_flight _) with (in_flight c) in Hy. by rewrite Hy.
  - intros b' ss' tp' y. unfold worker_notified. cbv zeta. by destruct outcome; [destruct (ok && _)|..].
Qed.

Lemma reachable_drain_inv n ops c :
  0 ≤ n → steps coord_step (new_coordinator n) ops c → no_batch_lost c → drain_inv (stop_accepting c).
Proof.
  intros Hn Hs Hk. assert (coord_inv c ∧ in_flight_settled c) as [Hi Hset].
  { revert Hs. apply (steps_invariant coord_step (λ c, coord_inv c ∧ in_flight_settled c)).
    - intros s e s' [H1 H2] H3. split; [by eapply coord_step_inv|by eapply in_flight_settled_step].
    - split; [by apply new_coordinator_inv|by intros ????]. }
  by constructor; [apply (inv_frame c)|..].
Qed.

(** *** The drain *)

(** What runs during a pass: steps of the coordinator that do not give up the candidates of [tp] *)
Definition runs_sparing (tp : TopicPartition) (p : DrainPass) : Prop :=
  ∀ c, ∃ ops, steps coord_step c ops (p.2 c) ∧ Forall (spares tp) ops.

Lemma drain_steps tp o c ops c' :
  steps coord_step c ops c' → Forall (spares tp) ops → drain_inv c → covered tp o c → drain_inv c' ∧ covered tp o c'.
Proof.
  intros Hs. induction Hs as [|c op c1 ops c2 H1 _ IH]; [done|]. intros [Hsp Hsps]%Forall_cons Hd Hc.
  destruct (drain_step tp o c op c1 H1 Hd Hsp Hc). by apply IH.
Qed.

Lemma ensure_worker_drains tp o c :
  drain_inv c → covered tp o c → drain_inv (ensure_worker c) ∧ covered tp o (ensure_worker c).
Proof.
  intros [Hi Ha Hk Hs] Hc. pose proof (ensure_worker_inv c Hi) as Hi'. revert Hi'. unfold ensure_worker.
  destruct (worker c) eqn:Hw; intros Hi'; split; try done; by constructor.
Qed.

Lemma drain_loop_spec tp o deadline passes c :
  Forall (runs_sparing tp) passes → drain_inv c → covered tp o c →
  match drain_loop deadline None passes c with
  | None => ∀ p, p ∈ passes → (p.1 < deadline)%Q
  | Some (drained, c') =>
      drain_inv c' ∧ covered tp o c' ∧ (drained = true → remaining_candidates None c' = [])
  end.
Proof.
  revert c. induction passes as [|[now run] passes IH]; intros c Hp Hd Hc; cbn [drain_loop].
  { case_decide; [done|]. by intros p Hp'%elem_of_nil. }
  case_decide; [done|]. apply Forall_cons in Hp as [Hrun Hp].
  assert (∀ c1, drain_inv c1 → covered tp o c1 →
    match (if (deadline - now <=q 0)%Q then Some (false, c1) else drain_loop deadline None passes (run c1)) with
    | None => ∀ p, p ∈ (now, run) :: passes → (p.1 < deadline)%Q
    | Some (drained, c') => drain_inv c' ∧ covered tp o c' ∧ (drained = true → remaining_candidates None c' = [])
    end) as Hwait.
  { intros c1 Hd1 Hc1. destruct (deadline - now <=q 0)%Q eqn:Hq; [done|].
    destruct (Hrun c1) as (ops & Hs & Hsp). destruct (drain_steps tp o _ _ _ Hs Hsp Hd1 Hc1) as [Hd2 Hc2].
    specialize (IH (run c1) Hp Hd2 Hc2). cbn [snd] in IH. destruct (drain_loop _ _ _ _) as [[]|]; [done|].
    intros p [->|Hin]%elem_of_cons; [|by apply IH]. cbn.
    assert (¬ (deadline - now <= 0)%Q) by (intros Hle%Qle_bool_iff; congruence). lra. }
  cbv zeta. destruct (worker c); [|by apply Hwait..]. destruct (_ && _); [|done].
  destruct (ensure_worker_drains tp o c Hd Hc). by apply Hwait.
Qed.

Lemma od_all_none {V} (d : odict TopicPartition V) : (∀ k, od_get k d = None) → d = [].
Proof.
  destruct d as [|[k v] d]; [done|]. intros H. specialize (H k). apply od_get_None in H. destruct H. by left.
Qed.

(** Cancelling what remains leaves nothing. *)
Lemma cancel_remaining c :
  coord_core c → let c' := cancel_leases (od_keys (remaining_candidates None c)) c in pending c' = [] ∧ in_flight c' = [].
Proof.
  intros Hc c'. set (ps := od_keys (remaining_candidates None c)).
  assert (∀ tp, od_get tp (pending c') = None ∧ od_get tp (in_flight c') = None) as Hno.
  2: { split; apply od_all_none; intros tp; apply Hno. }
  intros tp. change (od_get tp (pending (fold_left cancel_partition ps c)) = None
    ∧ od_get tp (in_flight (fold_left cancel_partition ps c)) = None).
  destruct (decide (tp ∈ ps)) as [Hin|Hni]; [by apply cancelled_gone|].
  destruct (sweep_only cancel_partition ps c cancel_partition_only) as [_ H]. destruct (H tp Hni) as [-> ->].
  assert (∀ x, x ∈ live_candidates c → cc_tp x ≠ tp) as Hlive.
  { intros x Hx <-. destruct (remaining_reaches c x Hx) as (y & Hy & _). apply Hni, elem_of_od_keys. by exists y. }
  split; apply eq_None_not_Some; intros [x Hx].
  - destruct (Hlive x); [|by apply (co_pending _ Hc)]. apply live_cases; [done|]. left.
    by rewrite (proj2 (co_pending _ Hc) _ _ Hx).
  - destruct (Hlive x); [|by apply (co_in_flight _ Hc)]. apply live_cases; [done|]. right.
    by rewrite (proj2 (co_in_flight _ Hc) _ _ Hx).
Qed.

(** C21. The shutdown of the coordinator forgets no commit: whatever ran before, and whatever its worker
    and the other tasks do while the drain sleeps, as long as no batch is aborted or crashes and
    nobody cancels the partition, the offset whose turn it was is committed by the coordinator or
    handed to the synchronous fallback (or, without a consumer, the answer is that it failed).
    Afterwards the coordinator is empty and closed.  The wait is over when the clock has passed
    the smaller of the two time limits. *)
Theorem shutdown_covers_candidates n ops c tp x deadline now start timeout_ms has_consumer passes :
  0 ≤ n → steps coord_step (new_coordinator n) ops c → no_batch_lost c → next_up c tp x →
  (∀ p, p ∈ passes → runs_sparing tp p) →
  match drain_or_sync_fallback deadline now start timeout_ms has_consumer passes (Some c) with
  | Some (f, Some c') =>
      (pending c' = [] ∧ in_flight c' = [] ∧ accepting c' = false)
      ∧ (cc_safe_offset x ≤ latest c' tp
         ∨ (∃ commits o, f = SyncCommit commits ∧ (tp, o) ∈ commits ∧ cc_safe_offset x ≤ o)
         ∨ has_consumer = false ∧ f = Answer false)
  | Some (_, None) => False
  | None => ∀ p, p ∈ passes → (p.1 < start + drain_timeout deadline now timeout_ms)%Q
  end.
Proof.
  intros Hn Hs Hk Hx Hp. pose proof (reachable_drain_inv n ops c Hn Hs Hk) as Hd.
  assert (covered tp (cc_safe_offset x) (stop_accepting c)) as Hc by (right; by exists x).
  apply Forall_forall in Hp. unfold drain_or_sync_fallback, coordinator_drain.
  assert (0 <= drain_timeout deadline now timeout_ms)%Q as Hpos.
  { unfold drain_timeout, Qmax0. cbv zeta. repeat case_match; try lra; by apply Qle_bool_iff. }
  pose proof (drain_loop_spec tp (cc_safe_offset x) (start + Qmax0 (drain_timeout deadline now timeout_ms))
    passes (stop_accepting c) Hp Hd Hc) as H.
  destruct (drain_loop _ _ _ _) as [[[] c1]|]; cbn [fst snd] in *.
  - destruct H as ([Hi Ha _ _] & Hcov & Hr). destruct (remaining_none c1 (proj1 Hi) (Hr eq_refl)) as [Hp1 Hf1].
    split; [done|]. left. destruct Hcov as [Hle|(y & [Hy|[_ Hy]] & _)]; [done|by rewrite Hf1 in Hy|by rewrite Hp1 in Hy].
  - destruct H as ([Hi Ha _ _] & Hcov & _).
    destruct (sweep_only cancel_partition (od_keys (remaining_candidates None c1)) c1 cancel_partition_only) as [[A _ L _] _].
    destruct (cancel_remaining c1 (proj1 Hi)) as [Hp1 Hf1].
    split; [split; [done|split; [done|]]; etransitivity; [exact A|done]|].
    destruct Hcov as [Hle|(y & Hy & Ho)]; [left; etransitivity; [exact Hle|]; by rewrite <-(L tp)|right].
    assert (y ∈ live_candidates c1 ∧ cc_tp y = tp) as [Hlive <-].
    { assert (cc_tp y = tp) as <- by (destruct Hy as [Hy|[_ Hy]]; [by apply (co_in_flight _ (proj1 Hi))|by apply (co_pending _ (proj1 Hi))]).
      split; [|done]. apply live_cases; [apply Hi|]. destruct Hy as [Hy|[_ Hy]]; auto. }
    destruct (remaining_reaches c1 y Hlive) as (z & Hz & Ht & Hoz).
    rewrite bool_decide_false by (intros Hr; by rewrite Hr in Hz). cbn [negb andb].
    destruct has_consumer; [left|by right]. eexists _, (cc_safe_offset z). split; [done|].
    split; [|lia]. apply list_elem_of_fmap. exists z. rewrite Ht. split; [done|].
    apply list_elem_of_fmap. exists (cc_tp y, z). split; [done|by apply od_get_elem].
  - intros p Hin. specialize (H p Hin). unfold Qmax0 in H. destruct (0 <=q drain_timeout deadline now timeout_ms)%Q eqn:Hq; [done|].
    apply Qle_bool_iff in Hpos. congruence.
Qed.

(** ** A run, and what a drain may lose *)

Definition run_if_enabled (ops : list CoordOp) (c : CommitCoordinator) : CommitCoordinator :=
  if all_enabled ops c then fold_left exec ops c else c.

Lemma run_if_enabled_sparing tp now ops : Forall (spares tp) ops → runs_sparing tp (now, run_if_enabled ops).
Proof.
  intros Hops c. cbn. unfold run_if_enabled. destruct (all_enabled ops c) eqn:He.
  - exists ops. split; [by apply exec_run|done].
  - exists []. split; [constructor|done].
Qed.

(** Offset 4 is being committed, 9 is pending; the commit of 4 succeeds in the first pass and the
    second finds the time over, so that 9 goes to the fallback. *)
Definition drain_demo_passes : list DrainPass :=
  [(0%Q, run_if_enabled [OpCommitDone CommitOk; OpNotified true]); (1%Q, run_if_enabled [])].

Definition drain_demo_result : option (Fallback * option CommitCoordinator) :=
  Eval vm_compute in drain_or_sync_fallback 10 0 0 500 true drain_demo_passes (Some (demo_state demo_committing)).

Lemma shutdown_covers_candidates_witness :
  drain_or_sync_fallback 10 0 0 500 true drain_demo_passes (Some (demo_state demo_committing)) = drain_demo_result
  ∧ option_map fst drain_demo_result = Some (SyncCommit [(demo_tp, 9)])
  ∧ match drain_or_sync_fallback 10 0 0 500 true drain_demo_passes (Some (demo_state demo_committing)) with
    | Some (f, Some c') =>
        (pending c' = [] ∧ in_flight c' = [] ∧ accepting c' = false)
        ∧ (4 ≤ latest c' demo_tp
           ∨ (∃ commits o, f = SyncCommit commits ∧ (demo_tp, o) ∈ commits ∧ 4 ≤ o)
           ∨ true = false ∧ f = Answer false)
    | Some (_, None) => False
    | None => ∀ p, p ∈ drain_demo_passes → (p.1 < 0 + drain_timeout 10 0 500)%Q
    end.
Proof.
  split; [vm_compute; reflexivity|]. split; [vm_compute; reflexivity|].
  refine (shutdown_covers_candidates 2 demo_committing (demo_state demo_committing) demo_tp
    (mkCandidate demo_tp 4 1 1 1%Q) 10 0 0 500 true drain_demo_passes ltac:(lia) demo_run _ _ _).
  - intros o batch ss H. exfalso. exact (demo_not_notifying o batch ss H).
  - left. vm_compute. reflexivity.
  - intros p Hp. apply elem_of_cons in Hp as [->|Hp]; [|apply elem_of_cons in Hp as [->|Hp]; [|by apply elem_of_nil in Hp]];
      apply run_if_enabled_sparing; repeat constructor.
Defined.

(** A batch that is aborted, or that crashes the worker, is dropped with its offsets: the drain finds
    nothing left and reports success, and nothing is handed to the fallback. *)
Theorem lost_batch_counts_as_drained outcome :
  outcome = BatchAborted ∨ outcome = WorkerCrash →
  let passes := [(0%Q, run_if_enabled [OpCommitDone outcome; OpNotified true])] in
  let c := demo_state [OpEnqueue 1%Q [demo_candidate 4]; OpBegin] in
  ∃ c', drain_or_sync_fallback 10 0 0 500 true passes (Some c) = Some (Answer true, Some c')
        ∧ next_up c demo_tp (mkCandidate demo_tp 4 1 1 1%Q) ∧ latest c' demo_tp = -1.
Proof. intros [-> | ->]; cbv zeta; eexists; (split; [vm_compute; reflexivity|split; [left|]; vm_compute; reflexivity]). Qed.
